(* ===== verification/_CoqProject ===== *)
-Q . S2P
Prelude.v
Concurrency.v
Java.v
Messages.v
RaftState.v
Storage.v
SQLiteStorage.v
MemoryEngine.v
StorageReplies.v
StorageStart.v
StorageScript.v
Hoare.v
RaftNode.v
NodeSteps.v
ElectionSteps.v
RaftRefinement.v
StepsRefinement.v
RaftLog.v
NodeRun.v
RaftReplication.v
RaftCommit.v
NodeTypes.v
RaftElection.v
RaftSystem.v
NodeThreads.v
RaftLone.v
RaftRace.v
KVStoreService.v
LoneThreads.v
CommitRace.v
StopRace.v
ServiceSpec.v
JavaTests.v
DurableMap.v
DurableServer.v
ConcurrentServer.v
CMemory.v
KvRpc.v
KvClient.v
KvClientSpec.v
RpcClient.v
RpcClientSpec.v
ClientExamples.v
RpcAsync.v
RpcDestroy.v
KvSession.v
CompilerId.v
CompilerIdC.v
TypeSize.v
Probes.v
