(* ===== verification/Prelude.v ===== *)
(** * Verification of the scalable key-value store

    The repository holds a server in Java (a Raft node over an SQLite file,
    with a gRPC service in front) and a client library in C++ (a C interface
    over an RPC client).  This library models both, function by function, and
    proves what they do, what they promise each other, and where they do not do
    what they mean to.

    ** The program and its model

    Server, under [server/src/main/java/com/kvstore/]:
    - [raft/RaftState.java] is RaftState.v: role and term;
    - [storage/SQLiteStorage.java] is SQLiteStorage.v: every method as its
      statements.  JDBC and SQLite are the record [JDBC], an argument of every
      method.  What the class needs of an engine to be the storage it means to be
      is the class [EngineLaws], with the row order it takes for granted in
      [ScanOrder].  SQLite is not such an engine, as it refuses the column name
      [index]; MemoryEngine.v is one.  StorageStart.v has the constructor statement
      by statement;
    - Storage.v is the interface between a node and its storage (class
      [Storage]), its abstract specification [AbsStorage] (a list, two indices,
      a finite map), the class [StorageRefines] of what an implementation owes
      its clients, and the class [Reopens] of one that outlives its process;
    - [raft/RaftNode.java] is RaftNode.v: every method as a computation over
      the record of the fields, generic in the storage.  [ConcurrentHashMap]'s
      iteration order and [Math.random] are the classes [HashOrder] and
      [Draws].  A method that hands tasks to a pool returns them;
    - RaftSystem.v interleaves these tasks (timers, pool, clients) as a step
      relation whose steps are whole methods.  NodeSteps.v and ElectionSteps.v
      split the methods at their accesses to the node and its storage
      ([split_...], each equal to the whole method when nothing comes between);
      NodeThreads.v interleaves the accesses of all the tasks of a node,
      LoneThreads.v those of a server without peers, its requests and its shutdown
      hook included.  Concurrency.v has the threads: trees of atomic actions, run
      by a schedule or stopped at one of them, and rely-guarantee rules for threads
      that share a state and may throw in some of its states.  An action may wait
      for a guard ([Wait]), as a thread does that asks for a lock: the write lock
      of [appendEntries] keeps all others out, the read lock of the vote bodies
      only writers;
    - [server/KVStoreServiceImpl.java], [server/KVStoreServer.java] and
      [config/ServerConfig.java] are KVStoreService.v.  The file of properties
      and the binding of a port are arguments;
    - [proto/raft.proto] and [proto/kv_store.proto] are Messages.v; Java.v has
      the exceptions and the two library functions on strings that are used;
    - DurableServer.v is a node without peers and its service, from its start on a
      storage ([boot]) through gets, puts and crashes; DurableMap.v is the
      specification it refines; ConcurrentServer.v is the same process with its
      threads.  Both are over any storage that implements the abstract one and
      outlives its process;
    - JavaTests.v evaluates the assertions of the unit tests under
      [server/src/test/] on the model, over mocks of its interfaces.

    Client, under [client/]:
    - CMemory.v: the caller's memory, [char *] strings, the filling of a buffer;
    - KvRpc.v: the interface [KvRpc] between the two source files, messages and
      exceptions;
    - [src/kvclient.cpp] is KvClient.v, over any [KvRpc]; also the test program
      [test/test_kv739_die.cpp];
    - [src/kvclientimpl.cpp] is RpcClient.v: constructor, destructor, requests
      and the loop of the completion threads over a heap of objects; gRPC, the
      clock and threads are the class [Grpc].  It yields the instance
      [RpcClient_KvRpc] of the interface; RpcAsync.v interleaves asynchronous
      requests with the rounds of the completion threads, RpcDestroy.v the
      statements of the destructor with them;
    - CompilerId.v and CompilerIdC.v are the compiler identification programs
      that CMake left in [build/CMakeFiles/3.24.1/CompilerIdCXX/] and
      [CompilerIdC/], TypeSize.v the one in [build/CMakeFiles/CheckTypeSize/]
      and Probes.v those in [build/CMakeFiles/CheckIncludeFiles/].

    Computations are values of the monad [M E S A] of this file: they return,
    throw, or reach [Undefined], which is undefined behaviour or the end of the
    process by [std::terminate] in C++ and, in Java, a log with 2^63-1 entries or
    a loop whose fuel is spent.  Neither language rolls state back on an exception
    and neither does the monad.  Java [long]s wrap ([jadd], [jsub]).

    ** What is proved

    - Storage (StorageReplies.v): over any engine, what each method makes of the
      engine's answers, and what it does when a statement fails; SQLiteStorage.v,
      StorageStart.v, StorageScript.v: over an engine that accepts the schema, each
      method refines the abstract storage, errors on a closed connection included,
      and so does any sequence of calls over any number of runs on one file, each
      after starts that were interrupted at any statement; an engine that treats
      [index] as the keyword it is refuses the schema.
    - Node over storage (RaftRefinement.v, StepsRefinement.v): every method over
      a storage that refines the abstract one behaves as over the abstract one,
      access by access too, so the theorems about nodes are proved once, on
      lists and maps.
    - Receiving (RaftLog.v, NodeRun.v, RaftReplication.v): [appendEntries] is
      equal to a pure specification on every branch; log matching, safety of
      the committed prefix, idempotence, the election timer, release of locks;
      and the commit of entries that were not checked.
    - Leading (RaftCommit.v): [updateCommitIndex] terminates and commits what a
      majority holds; a proposal is committed and applied when it returns.
    - Types and termination (Hoare.v, NodeTypes.v): from any node whose longs are
      in range, consistent or not, every method returns or throws, and longs
      stay longs.
    - A node without peers (RaftLone.v): it can always reach leadership, keeps
      it, and then every put succeeds.
    - Threads of a server without peers (LoneThreads.v, ConcurrentServer.v): what
      the election task and concurrent gets and puts keep and answer however
      their accesses interleave, through any number of crashes, stops under way and
      starts; and what they lose: two puts of a key may leave the older value for
      good, and an answered put may not be in the map (CommitRace.v); a put that a
      stop overtakes may be answered and forgotten by the next run (StopRace.v).
    - Elections (RaftElection.v, NodeThreads.v, RaftRace.v): when two majorities
      meet; that a node with a peer is never promoted, whatever the interleaving
      of its threads; how the term can go back under a read lock.
    - Durability (DurableMap.v, DurableServer.v): a server without peers is a map
      that survives crashes at any access of a put, over any storage that outlives
      its process; what was answered stays, what was interrupted may come to light
      with a later put.
    - Service (ServiceSpec.v): a leader answers any sequence of gets and puts as a
      map, so that a put is seen by every later get until the next one of its key,
      over any storage that refines the abstract one; what a configuration becomes,
      ports out of range included;
      what is left after a stop, over any connection that fails once closed; on an
      engine that refuses [index], as SQLite does, no server starts.
    - Client (KvClientSpec.v, RpcClientSpec.v, RpcAsync.v, RpcDestroy.v): the
      contract of each function, the bytes it may write, redirections and retries,
      the objects a client owns, frees and leaks, the calls on the heap at every
      moment, a client's whole life from constructor to destructor with calls under
      way and threads that still complete them while it is destroyed (it may wait
      for ever in [join], as a call has no deadline, and nowhere else), and that
      the retry loop is dead code over this RPC client.  Where asynchronous calls
      are made, responses are taken to outlive their calls; [response_dropped] of
      RpcAsync.v is what happens otherwise.  ClientExamples.v has the concrete
      servers of the witnesses.  KvSession.v puts the two source files
      together: a program that uses the C interface against servers that behave as
      a map uses a map.
    - CompilerId.v, CompilerIdC.v, TypeSize.v: version digits are read back;
      [main] stays in its arrays; the C and the C++ program agree on the C and
      the C++ compiler of one vendor, each with its own macros.  Probes.v: on which
      machines the probes give the macros that ares_config.h has.

    ** Fuel

    Only loops whose count the code fixes have fuel: [applyLoop] runs for
    [commitIndex - lastApplied] rounds and [commitLoop] for [lastLogIndex -
    commitIndex].  If the fuel is spent while the condition of the loop holds,
    the run is [Undefined]; [calls_terminate] of NodeTypes.v proves that it never
    is, whatever the indices, as long as the log has room for an entry more.
    [scan_string] looks at one byte more than the memory holds, so a string that
    is there is always found ([std_string_run]).  A schedule of Concurrency.v is
    a list of thread numbers, and its theorems hold for all of them.

    ** What is not modelled

    Logging and printing; the classes generated from the protos and their wire
    format.  There is no network of nodes: no Raft service is registered, so no
    call of a peer reaches a method of [RaftNode], [sendAppendEntries] builds no
    request and sends nothing, and [requestVote] has no receiving side.  SQLite
    and JDBC themselves.  The wall-clock time of timers, beyond the delays they are
    given; the memory model of the JVM: the accesses of
    the threads are taken to be in one order, each at once, a method of the storage
    being one of them; [KVClient] in [client/src/kvclient.h], which is declared and
    never defined; the functions that no file of the repository defines
    ([read_server_list], [IsLeader], [Shutdown], [TerminateServer]), which are
    parameters.

    The client and the service are not composed: the client's [contactRemote]
    calls are of a service that the server's [Get] and [Put] are not.

    In RpcDestroy.v nobody starts a call on a client that is being destroyed. *)

From stdpp Require Import base gmap strings list fin_maps numbers.
From Stdlib Require Import Lia.


(** ** Outcomes and the state-and-failure monad

    Both programs are stateful code that can fail.  A computation over state
    [S] either returns a value, or throws an exception of type [E] (and keeps
    the state it had reached: neither Java nor C++ rolls anything back), or
    reaches a point about which nothing is known ([Undefined]): undefined
    behaviour or [std::terminate] in C++, behaviour outside the contract of the
    storage in Java. *)

Inductive outcome (E A : Type) : Type :=
| Return (a : A)
| Throw (e : E)
| Undefined.
Arguments Return {_ _} _.
Arguments Throw {_ _} _.
Arguments Undefined {_ _}.

#[export] Instance outcome_eq_dec {E A} `{EqDecision E, EqDecision A} :
  EqDecision (outcome E A).
Proof. solve_decision. Defined.

Definition M (E S A : Type) : Type := S → S * outcome E A.

#[export] Instance M_ret {E S} : MRet (M E S) := λ A a s, (s, Return a).
#[export] Instance M_bind {E S} : MBind (M E S) := λ A B f m s,
  match m s with
  | (s', Return a) => f a s'
  | (s', Throw e) => (s', Throw e)
  | (s', Undefined) => (s', Undefined)
  end.

#[export] Instance M_fmap {E S} : FMap (M E S) := λ A B f m, m ≫= λ a, mret (f a).

Definition throw {E S A} (e : E) : M E S A := λ s, (s, Throw e).
Definition undefined {E S A} : M E S A := λ s, (s, Undefined).
Definition getS {E S} : M E S S := λ s, (s, Return s).
Definition gets {E S A} (f : S → A) : M E S A := λ s, (s, Return (f s)).
Definition modify {E S} (f : S → S) : M E S () := λ s, (f s, Return ()).

(** [try { m } catch (e) { h e }]: the handler is chosen by [h]. *)
Definition try_catch {E S A} (m : M E S A) (h : E → M E S A) : M E S A := λ s,
  match m s with
  | (s', Throw e) => h e s'
  | r => r
  end.

(** [try { m } finally { f }]: [f] runs after a normal return and after an
    exception; an exception of [f] itself replaces the pending one. *)
Definition try_finally {E S A} (m : M E S A) (f : M E S ()) : M E S A := λ s,
  match m s with
  | (s', Undefined) => (s', Undefined)
  | (s', o) => match f s' with
               | (s'', Return _) => (s'', o)
               | (s'', Throw e) => (s'', Throw e)
               | (s'', Undefined) => (s'', Undefined)
               end
  end.

(** Running a computation of a component inside the state of its owner. *)
Definition zoom {E S T A} (get : S → T) (set : T → S → S) (m : M E T A) : M E S A :=
  λ s, let '(t, o) := m (get s) in (set t s, o).

Fixpoint forM {E S A} (l : list A) (f : A → M E S ()) : M E S () :=
  match l with
  | [] => mret ()
  | x :: l' => f x;; forM l' f
  end.

(** *** Running the monad *)

Section run.
Context {E S : Type}.
Implicit Types s : S.

Lemma ret_run {A} (a : A) s : (mret a : M E S A) s = (s, Return a).
Proof. done. Qed.
Lemma gets_run {A} (f : S → A) s : (gets f : M E S A) s = (s, Return (f s)).
Proof. done. Qed.
Lemma modify_run (f : S → S) s : (modify f : M E S ()) s = (f s, Return ()).
Proof. done. Qed.

Lemma bind_return {A B} (m : M E S A) (f : A → M E S B) s s' a :
  m s = (s', Return a) → (m ≫= f) s = f a s'.
Proof. intros H. unfold mbind, M_bind. by rewrite H. Qed.
Lemma bind_throw {A B} (m : M E S A) (f : A → M E S B) s s' e :
  m s = (s', Throw e) → (m ≫= f) s = (s', Throw e).
Proof. intros H. unfold mbind, M_bind. by rewrite H. Qed.
Lemma bind_undefined {A B} (m : M E S A) (f : A → M E S B) s s' :
  m s = (s', Undefined) → (m ≫= f) s = (s', Undefined).
Proof. intros H. unfold mbind, M_bind. by rewrite H. Qed.

Lemma bind_assoc {A B C} (m : M E S A) (f : A → M E S B) (g : B → M E S C) s :
  ((m ≫= f) ≫= g) s = (m ≫= (λ a, f a ≫= g)) s.
Proof. unfold mbind, M_bind. by destruct (m s) as [s' []]. Qed.

Lemma zoom_run {T A} (get : S → T) (set : T → S → S) (m : M E T A) s t o :
  m (get s) = (t, o) → zoom get set m s = (set t s, o).
Proof. intros H. unfold zoom. by rewrite H. Qed.
End run.

Create HintDb mrun discriminated.
#[export] Hint Resolve ret_run gets_run modify_run : mrun.
#[export] Hint Resolve zoom_run : mrun.

(** [mstep] executes the first command of a sequence whose result is known by
    a hint of [mrun] or a hypothesis. *)
Ltac mstep :=
  match goal with
  | |- context [ (?m ≫= ?f) ?s ] =>
      first
        [ erewrite (bind_return m f s) by (eauto with mrun)
        | erewrite (bind_throw m f s) by (eauto with mrun)
        | rewrite bind_assoc ]
  end; cbn beta iota.
Ltac msteps := repeat mstep.

(** ** Refinement between computations

    [refines R Q m1 m2]: from related states, whatever the specification [m2]
    does, [m1] does it too, with related results, as long as [m2] stays
    defined. *)

Inductive outcome_rel {E A B} (Q : A → B → Prop) : outcome E A → outcome E B → Prop :=
| rel_Return a b : Q a b → outcome_rel Q (Return a) (Return b)
| rel_Throw e : outcome_rel Q (Throw e) (Throw e).

Lemma outcome_rel_refl {E A} (o : outcome E A) : o = Undefined ∨ outcome_rel eq o o.
Proof. destruct o; [right|right|by left]; by constructor. Qed.

Definition refines {E S T A B} (R : S → T → Prop) (Q : A → B → Prop)
    (m1 : M E S A) (m2 : M E T B) : Prop :=
  ∀ s t, R s t →
    (m2 t).2 = Undefined ∨ (R (m1 s).1 (m2 t).1 ∧ outcome_rel Q (m1 s).2 (m2 t).2).

Section refines.
Context {E S T : Type} (R : S → T → Prop).

Lemma refines_ret {A B} (Q : A → B → Prop) a b :
  Q a b → refines (E:=E) R Q (mret a) (mret b).
Proof. intros HQ s t HR. right. split; [done|]. by constructor. Qed.

Lemma refines_refl {A} (m : M E S A) : refines eq eq m m.
Proof. intros s ? <-. destruct (outcome_rel_refl (m s).2); auto. Qed.

Lemma refines_throw {A B} (Q : A → B → Prop) (e : E) : refines R Q (throw e) (throw e).
Proof. intros s t HR. right. split; [done|]. by constructor. Qed.

Lemma refines_bind {A B A' B'} (Q : A → B → Prop) (Q' : A' → B' → Prop)
    (m1 : M E S A) (m2 : M E T B) f1 f2 :
  refines R Q m1 m2 →
  (∀ a b, Q a b → refines R Q' (f1 a) (f2 b)) →
  refines R Q' (m1 ≫= f1) (m2 ≫= f2).
Proof.
  intros Hm Hf s t HR. unfold mbind, M_bind.
  specialize (Hm s t HR). destruct (m1 s) as [s' o1], (m2 t) as [t' o2]; simpl in *.
  destruct Hm as [->|[HR' Ho]]; [by left|].
  destruct Ho as [a b HQ|e]; [by apply Hf|].
  right. split; [done|constructor].
Qed.

Lemma refines_gets {A B} (Q : A → B → Prop) (f : S → A) (g : T → B) :
  (∀ s t, R s t → Q (f s) (g t)) → refines (E:=E) R Q (gets f) (gets g).
Proof. intros H s t HR. right. split; [done|]. constructor. auto. Qed.

Lemma refines_getS : refines (E:=E) R R getS getS.
Proof. intros s t HR. right. split; [done|]. by constructor. Qed.

Lemma refines_undefined {A B} (Q : A → B → Prop) (m : M E S A) :
  refines R Q m (undefined : M E T B).
Proof. intros s t _. by left. Qed.

Lemma refines_modify (f : S → S) (g : T → T) :
  (∀ s t, R s t → R (f s) (g t)) → refines (E:=E) R eq (modify f) (modify g).
Proof. intros H s t HR. right. split; [by apply H|]. by constructor. Qed.

Lemma refines_try_catch {A B} (Q : A → B → Prop) (m1 : M E S A) (m2 : M E T B) h1 h2 :
  refines R Q m1 m2 → (∀ e, refines R Q (h1 e) (h2 e)) →
  refines R Q (try_catch m1 h1) (try_catch m2 h2).
Proof.
  intros Hm Hh s t HR. unfold try_catch.
  specialize (Hm s t HR). destruct (m1 s) as [s' o1], (m2 t) as [t' o2]; simpl in *.
  destruct Hm as [->|[HR' Ho]]; [by left|].
  destruct Ho as [a b HQ|e]; [|by apply Hh].
  right. split; [done|]. by constructor.
Qed.

Lemma refines_try_finally {A B} (Q : A → B → Prop) (m1 : M E S A) (m2 : M E T B) f1 f2 :
  refines R Q m1 m2 → refines R eq f1 f2 →
  refines R Q (try_finally m1 f1) (try_finally m2 f2).
Proof.
  intros Hm Hf s t HR. unfold try_finally.
  specialize (Hm s t HR). destruct (m1 s) as [s' o1], (m2 t) as [t' o2]; simpl in *.
  destruct Hm as [->|[HR' Ho]]; [by left|]. specialize (Hf s' t' HR').
  destruct (f1 s') as [s'' p1], (f2 t') as [t'' p2]; simpl in *.
  destruct Ho, Hf as [->|[? Hp]];
    try (by left); destruct Hp; right; split; simpl; auto; by constructor.
Qed.

Lemma refines_zoom {S' T' A B} (R' : S' → T' → Prop) (Q : A → B → Prop)
    get1 set1 get2 set2 (m1 : M E S' A) (m2 : M E T' B) :
  refines R' Q m1 m2 →
  (∀ s t, R s t → R' (get1 s) (get2 t)) →
  (∀ s t s' t', R s t → R' s' t' → R (set1 s' s) (set2 t' t)) →
  refines R Q (zoom get1 set1 m1) (zoom get2 set2 m2).
Proof.
  intros Hm Hget Hset s t HR. unfold zoom.
  specialize (Hm _ _ (Hget _ _ HR)).
  destruct (m1 (get1 s)) as [s' o1], (m2 (get2 t)) as [t' o2]; simpl in *.
  destruct Hm as [->|[HR' Ho]]; [by left|]. right. auto.
Qed.

(** Using a refinement on a run of the specification. *)
Lemma refines_return {A} (m1 : M E S A) (m2 : M E T A) s t t' a :
  refines R eq m1 m2 → R s t → m2 t = (t', Return a) →
  ∃ s', m1 s = (s', Return a) ∧ R s' t'.
Proof.
  intros H HR Hrun. specialize (H s t HR). rewrite Hrun in H. simpl in H.
  destruct H as [?|[HR' Ho]]; [done|]. destruct (m1 s) as [s' o]; simpl in *.
  inversion Ho; subst. eauto.
Qed.
Lemma refines_throws {A} (m1 : M E S A) (m2 : M E T A) s t t' e :
  refines R eq m1 m2 → R s t → m2 t = (t', Throw e) →
  ∃ s', m1 s = (s', Throw e) ∧ R s' t'.
Proof.
  intros H HR Hrun. specialize (H s t HR). rewrite Hrun in H. simpl in H.
  destruct H as [?|[HR' Ho]]; [done|]. destruct (m1 s) as [s' o]; simpl in *.
  inversion Ho; subst. eauto.
Qed.

Lemma refines_forM {A} (l : list A) (f1 : A → M E S ()) (f2 : A → M E T ()) :
  (∀ x, refines R eq (f1 x) (f2 x)) → refines R eq (forM l f1) (forM l f2).
Proof.
  intros Hf. induction l as [|x l IH]; simpl; [by apply refines_ret|].
  eapply refines_bind; [apply Hf|]. intros; apply IH.
Qed.

Lemma refines_if {A B} (Q : A → B → Prop) (b : bool) (m1 m1' : M E S A) (m2 m2' : M E T B) :
  refines R Q m1 m2 → refines R Q m1' m2' →
  refines R Q (if b then m1 else m1') (if b then m2 else m2').
Proof. by destruct b. Qed.
End refines.

Create HintDb refinement discriminated.
#[export] Hint Resolve refines_throw refines_undefined : refinement.

(** [refine_step] goes one command deeper on both sides of a refinement. *)
Ltac refine_step :=
  lazymatch goal with
  | |- refines _ _ (mbind _ _) _ =>
      eapply refines_bind
  | |- ∀ _, _ => intros; subst; cbv beta zeta
  | |- refines _ _ (let _ := _ in _) _ => cbv zeta
  | |- refines _ _ (if _ then _ else _) _ => apply refines_if
  | |- refines _ _ (mret _) _ =>
      first [ apply (refines_ret _ eq); reflexivity | apply refines_ret ]
  | |- refines _ _ (forM _ _) _ => apply refines_forM; intros
  | |- refines _ _ (try_finally _ _) _ => apply refines_try_finally
  | |- refines _ _ (try_catch _ _) _ => apply refines_try_catch; [|intros]
  | |- refines _ _ (match ?x with _ => _ end) _ => destruct x
  | |- refines _ _ _ _ => solve [ eauto with refinement ]
  end.

#[local] Open Scope Z_scope.

(** ** What a computation cannot change

    [steps P m]: every run of [m], whatever its outcome, relates its first and
    last states by the preorder [P]. *)

Definition steps {E S A} (P : S → S → Prop) (m : M E S A) : Prop := ∀ s, P s (m s).1.

Section steps.
Context {E S : Type} (P : S → S → Prop) `{!PreOrder P}.

Lemma steps_ret {A} (a : A) : steps (E:=E) P (mret a).
Proof. intros s. simpl. reflexivity. Qed.
Lemma steps_throw {A} (e : E) : steps P (throw e : M E S A).
Proof. intros s. simpl. reflexivity. Qed.
Lemma steps_undefined {A} : steps P (undefined : M E S A).
Proof. intros s. simpl. reflexivity. Qed.
Lemma steps_gets {A} (f : S → A) : steps (E:=E) P (gets f).
Proof. intros s. simpl. reflexivity. Qed.
Lemma steps_getS : steps (E:=E) P getS.
Proof. intros s. simpl. reflexivity. Qed.
Lemma steps_modify (f : S → S) : (∀ s, P s (f s)) → steps (E:=E) P (modify f).
Proof. intros H s. apply H. Qed.
Lemma steps_bind {A B} (m : M E S A) (f : A → M E S B) :
  steps P m → (∀ a, steps P (f a)) → steps P (m ≫= f).
Proof.
  intros Hm Hf s. unfold mbind, M_bind. specialize (Hm s).
  destruct (m s) as [s' []]; simpl in *; [|done..]. etrans; [done|apply Hf].
Qed.
Lemma steps_if {A} (b : bool) (m1 m2 : M E S A) :
  steps P m1 → steps P m2 → steps P (if b then m1 else m2).
Proof. by destruct b. Qed.
Lemma steps_try_catch {A} (m : M E S A) h :
  steps P m → (∀ e, steps P (h e)) → steps P (try_catch m h).
Proof.
  intros Hm Hh s. unfold try_catch. specialize (Hm s).
  destruct (m s) as [s' []]; simpl in *; [done| |done]. etrans; [done|apply Hh].
Qed.
Lemma steps_try_finally {A} (m : M E S A) f :
  steps P m → steps P f → steps P (try_finally m f).
Proof.
  intros Hm Hf s. unfold try_finally. specialize (Hm s).
  destruct (m s) as [s' o]; simpl in *. specialize (Hf s').
  destruct (f s') as [s'' []]; simpl in *; destruct o; simpl; try done; by etrans.
Qed.
Lemma steps_forM {A} (l : list A) (f : A → M E S ()) :
  (∀ x, steps P (f x)) → steps P (forM l f).
Proof.
  intros Hf. induction l; simpl; [apply steps_ret|]. by apply steps_bind.
Qed.
Lemma steps_zoom {T A} (get : S → T) set (m : M E T A) :
  (∀ s t, P s (set t s)) → steps P (zoom get set m).
Proof. intros H s. unfold zoom. destruct (m (get s)). apply H. Qed.
End steps.

Create HintDb frame discriminated.

Ltac frame_step :=
  lazymatch goal with
  | |- ∀ _, _ => intros; cbv beta zeta
  | |- steps _ (mbind _ _) => apply steps_bind
  | |- steps _ (if _ then _ else _) => apply steps_if
  | |- steps _ (mret _) => apply steps_ret
  | |- PreOrder _ => apply _
  | |- steps _ (throw _) => apply steps_throw
  | |- steps _ undefined => apply steps_undefined
  | |- steps _ (gets _) => apply steps_gets
  | |- steps _ getS => apply steps_getS
  | |- steps _ (forM _ _) => apply steps_forM
  | |- steps _ (try_catch _ _) => apply steps_try_catch
  | |- steps _ (try_finally _ _) => apply steps_try_finally
  | |- steps _ (let _ := _ in _) => cbv zeta
  | |- steps _ (match ?x with _ => _ end) => destruct x
  | |- steps _ _ => solve [ eauto with frame ]
  end.

(** ** 64-bit signed integers (Java [long]) *)

Definition wrap64 (z : Z) : Z := (z + 2 ^ 63) `mod` 2 ^ 64 - 2 ^ 63.
Definition int64 (z : Z) : Prop := - 2 ^ 63 ≤ z < 2 ^ 63.
Definition long_max : Z := 2 ^ 63 - 1.
Definition jadd (a b : Z) : Z := wrap64 (a + b).
Definition jsub (a b : Z) : Z := wrap64 (a - b).

Lemma wrap64_small z : int64 z → wrap64 z = z.
Proof. unfold int64, wrap64. intros. rewrite Z.mod_small; lia. Qed.

Lemma wrap64_int64 z : int64 (wrap64 z).
Proof.
  unfold int64, wrap64. pose proof (Z.mod_pos_bound (z + 2 ^ 63) (2 ^ 64)). lia.
Qed.

Lemma jadd_small a b : int64 (a + b) → jadd a b = a + b.
Proof. apply wrap64_small. Qed.
Lemma jsub_small a b : int64 (a - b) → jsub a b = a - b.
Proof. apply wrap64_small. Qed.

(** [long_arith] replaces wrapped additions by exact ones where the context
    bounds them. *)
Ltac long_arith :=
  repeat match goal with
  | |- context [jadd ?a ?b] => rewrite (jadd_small a b) by (unfold int64, long_max in *; lia)
  | |- context [jsub ?a ?b] => rewrite (jsub_small a b) by (unfold int64, long_max in *; lia)
  end.


(** ** Splitting a string at a separator

    [split_on] keeps every piece, empty ones included; [String.split] (Java)
    and a [getline] loop (C++) are defined from it, each with its own
    treatment of empty pieces. *)

Fixpoint split_on (c : Ascii.ascii) (s : string) : list string :=
  match s with
  | EmptyString => [EmptyString]
  | String a s' =>
      if Ascii.eqb a c then EmptyString :: split_on c s'
      else match split_on c s' with
           | [] => [String a EmptyString]
           | p :: ps => String a p :: ps
           end
  end.

Fixpoint join_with (c : Ascii.ascii) (ps : list string) : string :=
  match ps with
  | [] => EmptyString
  | [p] => p
  | p :: ps' => String.app p (String c (join_with c ps'))
  end.

Fixpoint has_char (c : Ascii.ascii) (s : string) : bool :=
  match s with
  | EmptyString => false
  | String a s' => Ascii.eqb a c || has_char c s'
  end.

Section split.
Context (c : Ascii.ascii).

Lemma split_on_cons s : ∃ p ps, split_on c s = p :: ps.
Proof.
  induction s as [|a s (p & ps & IH)]; simpl; [eauto|].
  rewrite IH. destruct (Ascii.eqb a c); eauto.
Qed.

Lemma split_on_no_sep s : has_char c s = false → split_on c s = [s].
Proof.
  induction s as [|a s IH]; simpl; [done|].
  intros [-> ->%IH]%orb_false_iff. done.
Qed.

Lemma split_on_pieces s p : p ∈ split_on c s → has_char c p = false.
Proof.
  revert p. induction s as [|a s IH]; simpl; intros p.
  - by intros ->%list_elem_of_singleton.
  - destruct (Ascii.eqb a c) eqn:Ha.
    + intros [->|?]%elem_of_cons; auto.
    + destruct (split_on_cons s) as (q & qs & Hq). rewrite Hq in IH |- *.
      intros [->|Hin]%elem_of_cons; simpl.
      * rewrite Ha. apply IH. left.
      * apply IH. by right.
Qed.

Lemma join_split s : join_with c (split_on c s) = s.
Proof.
  induction s as [|a s IH]; simpl; [done|].
  destruct (split_on_cons s) as (q & qs & Hq). rewrite Hq in IH |- *.
  destruct (Ascii.eqb a c) eqn:Ha.
  - apply Ascii.eqb_eq in Ha as ->. simpl in *. by rewrite IH.
  - destruct qs as [|q' qs]; simpl in *; by rewrite <-IH.
Qed.

Lemma split_on_app p s :
  has_char c p = false → split_on c (String.app p (String c s)) = p :: split_on c s.
Proof.
  induction p as [|a p IH]; simpl.
  - intros _. by rewrite Ascii.eqb_refl.
  - intros [-> Hp]%orb_false_iff. by rewrite IH.
Qed.

Lemma split_join p ps :
  Forall (λ q, has_char c q = false) (p :: ps) →
  split_on c (join_with c (p :: ps)) = p :: ps.
Proof.
  revert p. induction ps as [|q qs IH]; intros p [Hp Hps]%Forall_cons_1.
  - by apply split_on_no_sep.
  - change (join_with c (p :: q :: qs))
      with (String.app p (String c (join_with c (q :: qs)))).
    rewrite split_on_app by done. by rewrite IH.
Qed.
End split.
