(* ===== verification/Concurrency.v ===== *)
(** * Threads that interleave at their accesses to shared state

    A method whose accesses to shared state are visible: a tree of atomic
    actions, each a computation of [M].  Run without interruption it denotes a
    computation; several of them are interleaved by a schedule.  An action may
    have to wait, as the acquisition of a lock does: it happens only in a state
    that its guard admits.  [safe] is a rely-guarantee judgement: the program
    keeps an invariant and a guarantee under any interference that does the same. *)

From S2P Require Import Prelude.
From stdpp Require Import base list.
From Stdlib Require Import Lia.

Inductive prog (E S A : Type) : Type :=
| Done (a : A)
| Act (B : Type) (m : M E S B) (k : B → prog E S A)
| Wait (guard : S → bool) (B : Type) (m : M E S B) (k : B → prog E S A).
Arguments Done {_ _ _} _.
Arguments Act {_ _ _ _} _ _.
Arguments Wait {_ _ _} _ {_} _ _.

(** [a ⇐ m; p]: the action [m], then [p]. *)
Notation "a ⇐ m ; p" := (Act m (λ a, p))
  (at level 20, m at level 100, p at level 200, only parsing).
(** [await g ; a ⇐ m; p]: the thread is blocked until [g] holds; then [m]. *)
Notation "'await' g ; a ⇐ m ; p" := (Wait g m (λ a, p))
  (at level 20, g at level 100, a name, m at level 100, p at level 200, only parsing).

Section prog.
Context {E S : Type}.
Implicit Types s : S.

(** Without interruption nobody else holds a lock: the guards are met. *)
Fixpoint denote {A} (p : prog E S A) : M E S A :=
  match p with
  | Done a => mret a
  | Act m k | Wait _ m k => m ≫= (λ b, denote (k b))
  end.

Fixpoint prog_bind {A B} (p : prog E S A) (f : A → prog E S B) : prog E S B :=
  match p with
  | Done a => f a
  | Act m k => Act m (λ b, prog_bind (k b) f)
  | Wait g m k => Wait g m (λ b, prog_bind (k b) f)
  end.

Fixpoint prog_for {A} (l : list A) (f : A → prog E S ()) : prog E S () :=
  match l with
  | [] => Done tt
  | x :: l' => prog_bind (f x) (λ _, prog_for l' f)
  end.

(** [try { p } finally { f }]: [f] runs after the last access, or at once after
    the one that throws. *)
Definition on_throw {A} (m : M E S A) (f : M E S ()) : M E S A := λ s,
  match m s with
  | (s', Throw e) => try_finally (λ s, (s, Throw e)) f s'
  | r => r
  end.

Fixpoint prog_finally {A} (p : prog E S A) (f : M E S ()) : prog E S A :=
  match p with
  | Done a => Act f (λ _, Done a)
  | Act m k => Act (on_throw m f) (λ b, prog_finally (k b) f)
  | Wait g m k => Wait g (on_throw m f) (λ b, prog_finally (k b) f)
  end.

(** [try { p } catch (Exception e) { h e }]. *)
Definition attempt {A} (m : M E S A) : M E S (A + E) := λ s,
  match m s with
  | (s', Return a) => (s', Return (inl a))
  | (s', Throw e) => (s', Return (inr e))
  | (s', Undefined) => (s', Undefined)
  end.

Fixpoint prog_catch {A} (p : prog E S A) (h : E → prog E S A) : prog E S A :=
  match p with
  | Done a => Done a
  | Act m k => Act (attempt m) (λ r, match r with inl b => prog_catch (k b) h | inr e => h e end)
  | Wait g m k =>
      Wait g (attempt m) (λ r, match r with inl b => prog_catch (k b) h | inr e => h e end)
  end.

Lemma bind_ext {A B} (m : M E S A) (f g : A → M E S B) s :
  (∀ a s', f a s' = g a s') → (m ≫= f) s = (m ≫= g) s.
Proof. intros H. unfold mbind, M_bind. destruct (m s) as [s' []]; auto. Qed.

Lemma bind_cong {A B} (m m' : M E S A) (f g : A → M E S B) s :
  m s = m' s → (∀ a s', f a s' = g a s') → (m ≫= f) s = (m' ≫= g) s.
Proof. intros Hm H. unfold mbind, M_bind. rewrite Hm. destruct (m' s) as [s' []]; auto. Qed.

Lemma try_catch_ext {A} (m m' : M E S A) h h' s :
  m s = m' s → (∀ e s', h e s' = h' e s') → try_catch m h s = try_catch m' h' s.
Proof. intros Hm Hh. unfold try_catch. rewrite Hm. by destruct (m' s) as [s' []]. Qed.

Lemma ret_bind {A B} (a : A) (f : A → M E S B) s : (mret a ≫= f) s = f a s.
Proof. done. Qed.

Lemma denote_bind {A B} (p : prog E S A) (f : A → prog E S B) s :
  denote (prog_bind p f) s = (denote p ≫= (λ a, denote (f a))) s.
Proof.
  revert s. induction p as [a|B' m k IH|g B' m k IH]; intros s; simpl; [done|..].
  all: rewrite bind_assoc; apply bind_ext; intros b s'; apply IH.
Qed.

Lemma denote_for {A} (l : list A) (f : A → prog E S ()) s :
  denote (prog_for l f) s = forM l (λ x, denote (f x)) s.
Proof.
  revert s. induction l as [|x l IH]; intros s; simpl; [done|].
  rewrite denote_bind. apply bind_ext. intros. apply IH.
Qed.

Lemma denote_finally {A} (p : prog E S A) f s :
  denote (prog_finally p f) s = try_finally (denote p) f s.
Proof.
  revert s. induction p as [a|B m k IH|g B m k IH]; intros s; cbn [denote prog_finally].
  { unfold try_finally, mbind, M_bind, mret, M_ret. by destruct (f s) as [s' []]. }
  all: unfold try_finally, on_throw, mbind, M_bind in *.
  all: destruct (m s) as [s' [b|e|]] eqn:Hm; [by rewrite IH| |done].
  all: unfold try_finally; by destruct (f s') as [s'' []].
Qed.

Lemma denote_catch {A} (p : prog E S A) h s :
  denote (prog_catch p h) s = try_catch (denote p) (λ e, denote (h e)) s.
Proof.
  revert s. induction p as [a|B m k IH|g B m k IH]; intros s; cbn [denote prog_catch]; [done|..].
  all: unfold try_catch, attempt, mbind, M_bind in *; destruct (m s) as [s' [b|e|]]; [|done..].
  all: apply IH.
Qed.

(** ** Threads and schedules *)

Inductive thread (A : Type) : Type :=
| Running (p : prog E S A)
| Finished (o : outcome E A).

Definition act_step {A B} (m : M E S B) (k : B → prog E S A) s : thread A * S :=
  match m s with
  | (s', Return b) => (Running _ (k b), s')
  | (s', Throw e) => (Finished _ (Throw e), s')
  | (s', Undefined) => (Finished _ Undefined, s')
  end.

(** A thread whose guard is not met does not move. *)
Definition thread_step {A} (t : thread A) s : thread A * S :=
  match t with
  | Running _ (Done a) => (Finished _ (Return a), s)
  | Running _ (Act m k) => act_step m k s
  | Running _ (Wait guard m k) => if guard s then act_step m k s else (t, s)
  | Finished _ o => (t, s)
  end.

(** The schedule says which thread moves; one that has finished stays. *)
Fixpoint run_threads {A} (schedule : list nat) (ts : list (thread A)) s : list (thread A) * S :=
  match schedule with
  | [] => (ts, s)
  | i :: schedule' =>
      match ts !! i with
      | Some t => let '(t', s') := thread_step t s in run_threads schedule' (<[i := t']> ts) s'
      | None => run_threads schedule' ts s
      end
  end.

Lemma length_run_threads {A} schedule (ts : list (thread A)) s :
  length (run_threads schedule ts s).1 = length ts.
Proof.
  revert ts s. induction schedule as [|i schedule IH]; intros ts s; simpl; [done|].
  destruct (ts !! i) as [t|]; [|done]. destruct (thread_step t s) as [t' s'].
  by rewrite IH, length_insert.
Qed.

Lemma run_threads_app {A} schedule schedule' (ts : list (thread A)) s :
  run_threads (schedule ++ schedule') ts s
  = run_threads schedule' (run_threads schedule ts s).1 (run_threads schedule ts s).2.
Proof.
  revert ts s. induction schedule as [|i schedule IH]; intros ts s; simpl; [done|].
  destruct (ts !! i) as [t|]; [|done]. destruct (thread_step t s) as [t' s']. apply IH.
Qed.

(** One thread moves several times in a row. *)
Fixpoint solo {A} (k : nat) (t : thread A) s : thread A * S :=
  match k with
  | O => (t, s)
  | Datatypes.S k' => let '(t', s') := thread_step t s in solo k' t' s'
  end.

Lemma solo_add {A} j k (t : thread A) s :
  solo (j + k) t s = solo k (solo j t s).1 (solo j t s).2.
Proof.
  revert t s. induction j as [|j IH]; intros t s; simpl; [done|].
  destruct (thread_step t s) as [t' s']. apply IH.
Qed.

Lemma run_solo {A} k i (ts : list (thread A)) t s :
  ts !! i = Some t →
  run_threads (replicate k i) ts s = (<[i := (solo k t s).1]> ts, (solo k t s).2).
Proof.
  revert ts t s. induction k as [|k IH]; intros ts t s Hi; simpl; [by rewrite list_insert_id|].
  rewrite Hi. destruct (thread_step t s) as [t' s'].
  rewrite (IH _ t') by (apply list_lookup_insert_eq; by eapply lookup_lt_Some).
  by rewrite list_insert_insert_eq.
Qed.

(** No guard of the program is closed when it runs alone. *)
Fixpoint enabled {A} (p : prog E S A) s : Prop :=
  match p with
  | Done _ => True
  | Act m k => match m s with (s', Return b) => enabled (k b) s' | _ => True end
  | Wait g m k => g s = true ∧ match m s with (s', Return b) => enabled (k b) s' | _ => True end
  end.

(** A program without guards. *)
Fixpoint unguarded {A} (p : prog E S A) : Prop :=
  match p with
  | Done _ => True
  | Act m k => ∀ b, unguarded (k b)
  | Wait _ _ _ => False
  end.

Lemma unguarded_enabled {A} (p : prog E S A) s : unguarded p → enabled p s.
Proof.
  revert s. induction p as [a|B m k IH|g B m k IH]; intros s Hp; simpl in *; [done| |done].
  destruct (m s) as [s' [b|e|]]; [by apply IH|done..].
Qed.

Lemma unguarded_bind {A B} (p : prog E S A) (f : A → prog E S B) :
  unguarded p → (∀ a, unguarded (f a)) → unguarded (prog_bind p f).
Proof. intros Hp Hf. induction p as [a|B' m k IH|g B' m k IH]; simpl in *; auto. Qed.

Lemma unguarded_finally {A} (p : prog E S A) f : unguarded p → unguarded (prog_finally p f).
Proof. intros Hp. induction p as [a|B' m k IH|g B' m k IH]; simpl in *; auto. Qed.

Lemma unguarded_catch {A} (p : prog E S A) h :
  unguarded p → (∀ e, unguarded (h e)) → unguarded (prog_catch p h).
Proof.
  intros Hp Hh. induction p as [a|B' m k IH|g B' m k IH]; simpl in *; [done| |done].
  intros [b|e]; auto.
Qed.

(** Alone, a thread that is not blocked does what its program denotes. *)
Lemma run_alone {A} (p : prog E S A) s :
  enabled p s →
  ∃ k, solo k (Running _ p) s = (Finished _ (denote p s).2, (denote p s).1).
Proof.
  revert s. induction p as [a|B m k IH|g B m k IH]; intros s Hp; [by exists 1%nat|..]; simpl in Hp.
  2: destruct Hp as [Hg Hp].
  all: simpl; unfold mbind, M_bind; destruct (m s) as [s' [b|e|]] eqn:Hm.
  all: try (destruct (IH b s' Hp) as (j & Hj); exists (Datatypes.S j)).
  all: try exists 1%nat.
  all: simpl; rewrite ?Hg; unfold act_step; by rewrite Hm.
Qed.

(** ** Rely and guarantee

    The invariant [I c] speaks of the credits [c] that the threads still hold
    together; an action may spend credits of its own thread.  Between two of its
    accesses a thread relies on [R]; each of its accesses guarantees [G].  [T] is
    what all accesses have in common.  An access may throw where it leaves [X],
    which then holds for good. *)

Section safe.
Context (I : nat → S → Prop) (T : S → S → Prop) `{!PreOrder T}.
Context (X : S → Prop) (HX : ∀ s s', T s s' → X s → X s').

Section rely.
Context (R G : S → S → Prop) `{!PreOrder R}.
Context (HRT : ∀ s s', R s s' → T s s') (HGT : ∀ s s', G s s' → T s s').

Definition stable {A} (Q : A → S → Prop) : Prop := ∀ a s s', R s s' → Q a s → Q a s'.

(** From [s] on, whatever the others do within [I] and [R], the program keeps
    [I] and [G] with [b] credits; its result satisfies [Q], and it throws
    nothing but in [X].  A program that may be blocked is not called safe: a
    safe one also ends ([thread_safe_ends]). *)
Fixpoint safe {A} (Q : A → S → Prop) (b : nat) (p : prog E S A) s : Prop :=
  match p with
  | Done a => Q a s
  | Act m k => ∀ c s', (b ≤ c)%nat → I c s' → R s s' →
      match m s' with
      | (s'', Return r) =>
          ∃ d, (d ≤ b)%nat ∧ I (c - d)%nat s'' ∧ G s' s'' ∧ safe Q (b - d)%nat (k r) s''
      | (s'', Throw _) => I c s'' ∧ G s' s'' ∧ X s''
      | (_, Undefined) => False
      end
  | Wait _ _ _ => False
  end.

Lemma safe_mono {A} (Q : A → S → Prop) b p s s' :
  stable Q → R s s' → safe Q b p s → safe Q b p s'.
Proof.
  intros HQ Hs. destruct p as [a|B m k|]; simpl; [by apply HQ| |done].
  intros H c s1 Hb Hi Hg. apply H; [done..|]. by etrans.
Qed.

Lemma safe_bind {A B} (Q : A → S → Prop) (Q' : B → S → Prop) p (f : A → prog E S B) c s :
  I c s → safe Q 0 p s → (∀ a c' s', I c' s' → T s s' → Q a s' → safe Q' 0 (f a) s') →
  safe Q' 0 (prog_bind p f) s.
Proof.
  revert c s. induction p as [a|B' m k IH|]; intros c s Hs Hp Hf; simpl in *; [| |done].
  { by apply (Hf a c s Hs). }
  intros c' s' Hb Hi Hg. specialize (Hp c' s' Hb Hi Hg). destruct (m s') as [s'' [r| |]]; [|done..].
  destruct Hp as (d & Hd & Hi' & Hg' & Hp). exists d. split_and!; try done.
  eapply IH; [exact Hi'|done|]. intros a c3 s3 Hi3 Hg3. eapply Hf; [done|].
  etrans; [apply HRT, Hg|]. by etrans; [apply HGT, Hg'|].
Qed.

Lemma safe_weaken {A} (Q Q' : A → S → Prop) b p s :
  (∀ a s, Q a s → Q' a s) → safe Q b p s → safe Q' b p s.
Proof.
  intros HQ. revert b s. induction p as [a|B m k IH|]; intros b s; simpl; [apply HQ| |done].
  intros Hp c s' Hb Hi Hg. specialize (Hp c s' Hb Hi Hg). destruct (m s') as [s'' [r| |]]; [|done..].
  destruct Hp as (d & ? & ? & ? & ?). exists d. split_and!; try done. by apply IH.
Qed.

(** An action that only reads, one that reads or throws, one that writes, one
    that spends a credit or throws. *)
Lemma safe_read {A B} (Q : A → S → Prop) (m : M E S B) k b s :
  (∀ s, G s s) → (∀ c s', I c s' → R s s' → ∃ r, m s' = (s', Return r) ∧ safe Q b (k r) s') →
  safe Q b (Act m k) s.
Proof.
  intros HG H c s' Hb Hi Hg. destruct (H c s' Hi Hg) as (r & -> & Hs). exists 0%nat.
  rewrite !Nat.sub_0_r. split_and!; first [done | lia].
Qed.

Lemma safe_try_read {A B} (Q : A → S → Prop) (m : M E S B) k b s :
  (∀ s, G s s) →
  (∀ c s', I c s' → R s s' →
     (X s' ∧ ∃ e, m s' = (s', Throw e)) ∨ ∃ r, m s' = (s', Return r) ∧ safe Q b (k r) s') →
  safe Q b (Act m k) s.
Proof.
  intros HG H c s' Hb Hi Hg. destruct (H c s' Hi Hg) as [[Hx (e & ->)]|(r & -> & Hs)]; [done|].
  exists 0%nat. rewrite !Nat.sub_0_r. split_and!; first [done | lia].
Qed.

Lemma safe_write {A B} (Q : A → S → Prop) (m : M E S B) k b s :
  (∀ c s', I c s' → R s s' → ∃ r s'', m s' = (s'', Return r)
     ∧ I c s'' ∧ G s' s'' ∧ safe Q b (k r) s'') → safe Q b (Act m k) s.
Proof.
  intros H c s' Hb Hi Hg. destruct (H c s' Hi Hg) as (r & s'' & -> & ? & ? & ?). exists 0%nat.
  rewrite !Nat.sub_0_r. split_and!; first [done | lia].
Qed.

Lemma safe_try_spend {A B} (Q : A → S → Prop) (m : M E S B) k b s :
  (∀ s, G s s) →
  (∀ c s', I (Datatypes.S c) s' → R s s' →
     (X s' ∧ ∃ e, m s' = (s', Throw e)) ∨ ∃ r s'', m s' = (s'', Return r)
       ∧ I c s'' ∧ G s' s'' ∧ safe Q b (k r) s'') → safe Q (Datatypes.S b) (Act m k) s.
Proof.
  intros HG H c s' Hb Hi Hg. destruct c as [|c]; [lia|].
  destruct (H c s' Hi Hg) as [[Hx (e & ->)]|(r & s'' & -> & ? & ? & ?)]; [done|]. exists 1%nat.
  simpl. rewrite !Nat.sub_0_r. split_and!; first [done | lia].
Qed.

Definition thread_safe {A} (Q : A → S → Prop) (b : nat) (t : thread A) s : Prop :=
  match t with
  | Running _ p => safe Q b p s
  | Finished _ (Return a) => Q a s
  | Finished _ (Throw _) => X s
  | Finished _ Undefined => False
  end.

Lemma thread_safe_mono {A} (Q : A → S → Prop) b t s s' :
  stable Q → R s s' → thread_safe Q b t s → thread_safe Q b t s'.
Proof.
  intros HQ Hg. destruct t as [p|[a| |]]; simpl; [by apply safe_mono|by apply HQ| |done].
  apply HX. by apply HRT.
Qed.

(** A step is an access, or the end of the program, which changes nothing. *)
Lemma thread_step_safe {A} (Q : A → S → Prop) b c t s :
  (b ≤ c)%nat → I c s → thread_safe Q b t s →
  let '(t', s') := thread_step t s in
  ∃ d, (d ≤ b)%nat ∧ I (c - d)%nat s' ∧ (G s s' ∨ s' = s) ∧ thread_safe Q (b - d)%nat t' s'.
Proof.
  intros Hb Hs Ht. assert (Hr : R s s) by reflexivity.
  destruct t as [[a|B m k|]|o]; simpl in *; [|specialize (Ht c s Hb Hs Hr)|done|].
  2: unfold act_step.
  2: destruct (m s) as [s' [r|e|]]; [| |done]; [destruct Ht as (d & ? & ? & ? & ?);
     exists d; split_and!; first [done | by left]|destruct Ht as (? & ? & ?)].
  2: exists 0%nat; rewrite !Nat.sub_0_r; split_and!; first [done | lia | by left].
  all: exists 0%nat; rewrite !Nat.sub_0_r; split_and!; first [done | lia | by right].
Qed.

(** Left alone, it comes to its end. *)
Lemma thread_safe_ends {A} (Q : A → S → Prop) b c t s :
  (b ≤ c)%nat → I c s → thread_safe Q b t s →
  ∃ k o s', solo k t s = (Finished _ o, s') ∧ (∃ c', I c' s')
    ∧ ((∃ a, o = Return a) ∨ X s' ∧ ∃ e, o = Throw e).
Proof.
  intros Hb Hs Ht. destruct t as [p|[a|e|]];
    [|exists 0%nat, (Return a), s; eauto 8|exists 0%nat, (Throw e), s; eauto 8|done].
  simpl in Ht. revert b c s Hb Hs Ht. induction p as [a|B m k IH|]; intros b c s Hb Hs Ht; [| |done].
  { exists 1%nat, (Return a), s. eauto 8. }
  specialize (Ht c s Hb Hs ltac:(reflexivity)). destruct (m s) as [s1 [r|e|]] eqn:Hm; [| |done].
  - destruct Ht as (d & Hd & Hs1 & _ & Ht).
    destruct (IH r (b - d)%nat (c - d)%nat s1 ltac:(lia) Hs1 Ht) as (j & o & s' & Hrun & Ho).
    exists (Datatypes.S j), o, s'. simpl. unfold act_step. by rewrite Hm.
  - destruct Ht as (? & ? & ?). exists 1%nat, (Throw e), s1. simpl. unfold act_step. rewrite Hm.
    eauto 8.
Qed.
End rely.

(** What a thread relies on, guarantees and ends with. *)
Record spec (A : Type) : Type := mkSpec {
  rely : S → S → Prop; guarantee : S → S → Prop; post : A → S → Prop;
}.
Arguments mkSpec {_} _ _ _. Arguments rely {_} _. Arguments guarantee {_} _. Arguments post {_} _.

Record spec_ok {A} (sp : spec A) : Prop := {
  so_order : PreOrder (rely sp);
  so_rely s s' : rely sp s s' → T s s';
  so_guarantee s s' : guarantee sp s s' → T s s';
  so_stable : stable (rely sp) (post sp);
}.

(** The threads live together. *)
Definition compatible {A} (sps : list (spec A)) : Prop :=
  ∀ i j sp sp' s s', i ≠ j → sps !! i = Some sp → sps !! j = Some sp' →
    guarantee sp s s' → rely sp' s s'.

Definition spec_safe {A} (sp : spec A) (b : nat) (t : thread A) s : Prop :=
  thread_safe (rely sp) (guarantee sp) (post sp) b t s.

(** The threads hold [c] credits at most. *)
Definition threads_safe {A} (sps : list (spec A)) (c : nat) (ts : list (thread A)) s : Prop :=
  ∃ bs, Forall3 (λ sp b t, spec_safe sp b t s) sps bs ts ∧ (sum_list bs ≤ c)%nat.

Lemma sum_list_insert bs i b b' :
  bs !! i = Some b → (sum_list (<[i := b']> bs) + b = sum_list bs + b')%nat.
Proof.
  revert i. induction bs as [|x bs IH]; intros [|i] Hi; simplify_eq/=; [lia|].
  specialize (IH i Hi). lia.
Qed.

(** One thread has moved; the others keep what they had. *)
Lemma Forall3_moved {A B C} (P Q : A → B → C → Prop) la lb lc : ∀ i b c,
  Forall3 P la lb lc → (∀ a, la !! i = Some a → Q a b c) →
  (∀ j x y z, j ≠ i → la !! j = Some x → P x y z → Q x y z) →
  (i < length la)%nat → Forall3 Q la (<[i := b]> lb) (<[i := c]> lc).
Proof.
  intros i b c H. revert i. induction H as [|x y z la lb lc Hx H IH]; intros [|i] Hi Hothers Hlt;
    simpl in *; [lia..| |].
  - constructor; [by apply Hi|]. clear -H Hothers.
    assert (Ho : ∀ j x y z, la !! j = Some x → P x y z → Q x y z)
      by (intros j ???; apply (Hothers (Datatypes.S j)); done).
    clear Hothers. induction H as [|x' y' z' ??? Hx' _ IH]; constructor; [by apply (Ho 0%nat)|].
    apply IH. intros j ???. apply (Ho (Datatypes.S j)).
  - constructor; [by apply (Hothers 0%nat)|]. apply IH; [done| |lia].
    intros j x' y' z' Hj. apply (Hothers (Datatypes.S j)). congruence.
Qed.

(** Threads that are safe alone are safe together, under every schedule. *)
Lemma run_threads_safe {A} (sps : list (spec A)) schedule : ∀ c ts s,
  Forall spec_ok sps → compatible sps → I c s → threads_safe sps c ts s →
  let '(ts', s') := run_threads schedule ts s in
  ∃ c', I c' s' ∧ T s s' ∧ threads_safe sps c' ts' s'.
Proof.
  induction schedule as [|i schedule IH]; intros c ts s Hok Hcompat Hs Hts; simpl.
  { exists c. split_and!; done || reflexivity. }
  destruct (ts !! i) as [t|] eqn:Ht; [|by apply (IH c)].
  destruct Hts as (bs & Hbs & Hsum).
  destruct (Forall3_lookup_r _ _ _ _ _ _ Hbs Ht) as (sp & b & Hsp & Hb & Hsafe).
  pose proof (sum_list_insert bs i b 0 Hb) as Hle.
  pose proof (Forall_lookup_1 _ _ _ _ Hok Hsp) as [Hpre _ Hgt _].
  pose proof (thread_step_safe (rely sp) (guarantee sp) (post sp) b c t s ltac:(lia) Hs Hsafe)
    as Hstep.
  destruct (thread_step t s) as [t' s']. destruct Hstep as (d & Hd & Hs' & Hg & Ht').
  assert (HT : T s s').
  { destruct Hg as [Hg| ->]; [by apply Hgt|done]. }
  specialize (IH (c - d)%nat (<[i := t']> ts) s' Hok Hcompat Hs').
  destruct (run_threads schedule (<[i := t']> ts) s') as [ts'' s''].
  destruct IH as (c' & H1 & H2 & H3).
  - exists (<[i := (b - d)%nat]> bs). split.
    + eapply Forall3_moved; [exact Hbs| | |by apply lookup_lt_Some in Hsp].
      * intros sp' Hsp'. simplify_eq. exact Ht'.
      * intros j sp' b' u Hj Hsp' Hu. destruct Hg as [Hg| ->]; [|done].
        pose proof (Forall_lookup_1 _ _ _ _ Hok Hsp') as [Hpre' Hrt _ Hst].
        eapply thread_safe_mono; [exact Hpre'|exact Hrt|exact Hst| |exact Hu]. by eapply (Hcompat i j).
    + pose proof (sum_list_insert bs i b (b - d) Hb). lia.
  - exists c'. split_and!; try done. by etrans.
Qed.
End safe.
End prog.
Arguments mkSpec {_ _} _ _ _. Arguments rely {_ _} _. Arguments guarantee {_ _} _.
Arguments post {_ _} _.
Arguments Running {_ _ _} _.
Arguments Finished {_ _ _} _.

(** ** A program that is stopped

    Alone, and at any of its accesses: the state it leaves. *)
Section stopped.
Context {E S : Type}.

Fixpoint stopped {A} (accesses : nat) (p : prog E S A) (s : S) : S :=
  match accesses, p with
  | Datatypes.S accesses', (Act m k | Wait _ m k) =>
      match m s with
      | (s', Return b) => stopped accesses' (k b) s'
      | (s', _) => s'
      end
  | _, _ => s
  end.

(** No access fails or waits, [I] holds after each, and [Q] at the end. *)
Fixpoint always (I : S → Prop) {A} (Q : A → S → Prop) (p : prog E S A) (s : S) : Prop :=
  match p with
  | Done a => Q a s
  | Act m k =>
      match m s with
      | (s', Return b) => I s' ∧ always I Q (k b) s'
      | _ => False
      end
  | Wait _ _ _ => False
  end.

Context (I : S → Prop).

Lemma always_read {A B} (Q : A → S → Prop) (m : M E S B) k s b :
  I s → m s = (s, Return b) → always I Q (k b) s → always I Q (Act m k) s.
Proof. intros HI Hm H. simpl. by rewrite Hm. Qed.

Lemma always_write {A B} (Q : A → S → Prop) (m : M E S B) k s s' b :
  m s = (s', Return b) → I s' → always I Q (k b) s' → always I Q (Act m k) s.
Proof. intros Hm HI H. simpl. by rewrite Hm. Qed.

Lemma always_bind {A B} (Q : A → S → Prop) (Q' : B → S → Prop) (p : prog E S A)
    (f : A → prog E S B) s :
  always I Q p s → (∀ a s', Q a s' → always I Q' (f a) s') → always I Q' (prog_bind p f) s.
Proof.
  intros Hp Hf. revert s Hp. induction p as [a|B' m k IH|]; intros s Hp; simpl in *; [auto| |done].
  destruct (m s) as [s' [b| |]]; [|done..]. destruct Hp as [HI Hp]. split; [done|]. by apply IH.
Qed.

Lemma always_stopped {A} (Q : A → S → Prop) i (p : prog E S A) s :
  I s → always I Q p s → I (stopped i p s).
Proof.
  revert p s. induction i as [|i IH]; intros p s HI Hp; [done|].
  destruct p as [a|B m k|]; simpl in *; [done| |done].
  destruct (m s) as [s' [b| |]]; [|done..]. destruct Hp as [HI' Hp]. by apply IH.
Qed.

Lemma always_denote {A} (Q : A → S → Prop) (p : prog E S A) s :
  always I Q p s → ∃ s' a, denote p s = (s', Return a) ∧ Q a s'.
Proof.
  revert s. induction p as [a|B m k IH|]; intros s Hp; simpl in *; [by exists s, a| |done].
  unfold mbind, M_bind. destruct (m s) as [s' [b| |]]; [|done..]. by apply IH, Hp.
Qed.
End stopped.

(** *** Programs among others

    [I] holds before an access if it does before every access of any thread;
    then it holds after each access of this program too, and a result has [Q]. *)
Section holds.
Context {E S : Type} (I : S → Prop).

Definition kept {A} (m : M E S A) : Prop := ∀ s, I s → I (m s).1.

Fixpoint holds {A} (Q : A → Prop) (p : prog E S A) : Prop :=
  match p with
  | Done a => Q a
  | Act m k | Wait _ m k => kept m ∧ ∀ s s' b, I s → m s = (s', Return b) → holds Q (k b)
  end.

(** The result is known from the invariant, or nothing is known of it. *)
Lemma holds_act {A B} (Q : A → Prop) (m : M E S B) k (P : B → Prop) :
  (∀ s, I s → I (m s).1 ∧ match (m s).2 with Return b => P b | _ => True end) →
  (∀ b, P b → holds Q (k b)) → holds Q (Act m k).
Proof.
  intros Hm Hk. split; [intros s Hs; by apply Hm|].
  intros s s' b Hs Hrun. apply Hk. destruct (Hm s Hs) as [_ H]. by rewrite Hrun in H.
Qed.

Lemma holds_any {A B} (Q : A → Prop) (m : M E S B) k :
  kept m → (∀ b, holds Q (k b)) → holds Q (Act m k).
Proof. intros Hm Hk. by split. Qed.

Lemma holds_wait {A B} (Q : A → Prop) g (m : M E S B) k :
  holds Q (Act m k) → holds Q (Wait g m k).
Proof. done. Qed.

Lemma holds_bind {A B} (Q : A → Prop) (Q' : B → Prop) (p : prog E S A) (f : A → prog E S B) :
  holds Q p → (∀ a, Q a → holds Q' (f a)) → holds Q' (prog_bind p f).
Proof.
  intros Hp Hf. induction p as [a|B' m k IH|g B' m k IH]; simpl in *; [auto|..];
    destruct Hp as [Hm Hk]; (split; [done|]); intros s s' b Hs Hrun; eapply IH, Hk; done.
Qed.

Lemma holds_weaken {A} (Q Q' : A → Prop) (p : prog E S A) :
  (∀ a, Q a → Q' a) → holds Q p → holds Q' p.
Proof.
  intros HQ. induction p as [a|B m k IH|g B m k IH]; simpl; [auto|..];
    intros [Hm Hk]; (split; [done|]); intros s s' b Hs Hrun; eapply IH, Hk; done.
Qed.

Lemma kept_finally {A} (m : M E S A) f : kept m → kept f → kept (try_finally m f).
Proof.
  intros Hm Hf s Hs. specialize (Hm s Hs). unfold try_finally.
  destruct (m s) as [s' [a|e|]]; simpl in *; try done.
  all: specialize (Hf s' Hm); by destruct (f s') as [s'' []].
Qed.

Lemma holds_finally {A} (Q : A → Prop) (p : prog E S A) f :
  kept f → holds Q p → holds Q (prog_finally p f).
Proof.
  intros Hf. induction p as [a|B m k IH|g B m k IH]; simpl; [intros HQ; by split|..].
  all: intros [Hm Hk]; split.
  1,3: intros s Hs; unfold on_throw; specialize (Hm s Hs); destruct (m s) as [s' [b|e|]]; try done;
    apply (kept_finally (λ s, (s, Throw e)) f); [by intros ??|done|exact Hm].
  all: intros s s' b Hs; unfold on_throw; destruct (m s) as [s1 [b1|e|]] eqn:Hrun; try done.
  1,3: intros [= <- <-]; eapply IH, Hk; done.
  all: unfold try_finally; destruct (f s1) as [s2 []]; done.
Qed.

Lemma holds_catch {A} (Q : A → Prop) (p : prog E S A) h :
  holds Q p → (∀ e, holds Q (h e)) → holds Q (prog_catch p h).
Proof.
  intros Hp Hh. induction p as [a|B m k IH|g B m k IH]; simpl in *; [done|..];
    destruct Hp as [Hm Hk]; split.
  1,3: intros s Hs; unfold attempt; specialize (Hm s Hs); by destruct (m s) as [s' []].
  all: intros s s' [b|e] Hs; unfold attempt; destruct (m s) as [s1 [b1|e1|]] eqn:Hrun; try done.
  all: intros [= <- <-]; eapply IH, Hk; done.
Qed.

(** A step of a thread among others. *)
Definition thread_holds {A} (Q : A → Prop) (t : thread A) : Prop :=
  match t with
  | Running p => holds Q p
  | Finished (Return a) => Q a
  | Finished _ => True
  end.

Lemma act_step_holds {A B} (Q : A → Prop) (m : M E S B) k s :
  I s → holds Q (Act m k) → thread_holds Q (act_step m k s).1 ∧ I (act_step m k s).2.
Proof.
  intros Hs [Hm Hk]. specialize (Hm s Hs). unfold act_step.
  destruct (m s) as [s' [b|e|]] eqn:Hrun; simpl in *; try done. split; [|done]. by apply (Hk s s' b).
Qed.

Lemma thread_step_holds {A} (Q : A → Prop) (t : thread A) s :
  I s → thread_holds Q t → thread_holds Q (thread_step t s).1 ∧ I (thread_step t s).2.
Proof.
  intros Hs Ht. destruct t as [[a|B m k|g B m k]|o]; [done|by apply act_step_holds| |done].
  simpl. destruct (g s); [by apply act_step_holds|done].
Qed.
End holds.

(** *** Refinement, access by access *)

Inductive prog_refines {E S T} (R : S → T → Prop) {A} : prog E S A → prog E T A → Prop :=
| pr_done a : prog_refines R (Done a) (Done a)
| pr_act B (m1 : M E S B) m2 k1 k2 :
    refines R eq m1 m2 → (∀ b, prog_refines R (k1 b) (k2 b)) →
    prog_refines R (Act m1 k1) (Act m2 k2)
| pr_wait g1 g2 B (m1 : M E S B) m2 k1 k2 :
    (∀ s t, R s t → g1 s = g2 t) →
    refines R eq m1 m2 → (∀ b, prog_refines R (k1 b) (k2 b)) →
    prog_refines R (Wait g1 m1 k1) (Wait g2 m2 k2).

Section prog_refines.
Context {E S T : Type} (R : S → T → Prop).

Lemma prog_refines_bind {A B} (p1 : prog E S A) p2 (f1 : A → prog E S B) f2 :
  prog_refines R p1 p2 → (∀ a, prog_refines R (f1 a) (f2 a)) →
  prog_refines R (prog_bind p1 f1) (prog_bind p2 f2).
Proof. intros Hp Hf. induction Hp; simpl; [apply Hf|by constructor..]. Qed.

Lemma prog_refines_for {A} (l : list A) (f1 : A → prog E S ()) (f2 : A → prog E T ()) :
  (∀ a, prog_refines R (f1 a) (f2 a)) → prog_refines R (prog_for l f1) (prog_for l f2).
Proof.
  intros Hf. induction l as [|x l IH]; simpl; [constructor|]. by apply prog_refines_bind.
Qed.

Lemma refines_on_throw {A} (m1 : M E S A) (m2 : M E T A) f1 f2 :
  refines R eq m1 m2 → refines R eq f1 f2 → refines R eq (on_throw m1 f1) (on_throw m2 f2).
Proof.
  intros Hm Hf s t HR. unfold on_throw. specialize (Hm s t HR).
  destruct (m2 t) as [t' o2], (m1 s) as [s' o1]; simpl in *. destruct Hm as [->|[HR' Ho]]; [by left|].
  destruct Ho as [a b E1|e]; [by right; split; [|constructor]|].
  apply (refines_try_finally R eq (λ s, (s, Throw e)) (λ t, (t, Throw e)) f1 f2); [|done|done].
  intros s0 t0 H0. right. split; [done|constructor].
Qed.

Lemma prog_refines_finally {A} (p1 : prog E S A) p2 f1 f2 :
  prog_refines R p1 p2 → refines R eq f1 f2 →
  prog_refines R (prog_finally p1 f1) (prog_finally p2 f2).
Proof.
  intros Hp Hf. induction Hp as [a|B m1 m2 k1 k2 Hm _ IH|g1 g2 B m1 m2 k1 k2 Hg Hm _ IH]; simpl;
    constructor; try done.
  - intros _. constructor.
  - by apply refines_on_throw.
  - by apply refines_on_throw.
Qed.

(** Stopped at the same access, the two are in related states. *)
Lemma prog_refines_stopped {A} I (Q : A → T → Prop) i (p1 : prog E S A) p2 s t :
  prog_refines R p1 p2 → R s t → always I Q p2 t → R (stopped i p1 s) (stopped i p2 t).
Proof.
  revert p1 p2 s t. induction i as [|i IH]; intros p1 p2 s t Hp HR Ha; [done|].
  destruct Hp as [a|B m1 m2 k1 k2 Hm Hk|]; [done| |done]. simpl in *. specialize (Hm s t HR).
  destruct (m2 t) as [t' [b| |]]; [|done..]. destruct Ha as [_ Ha].
  destruct (m1 s) as [s' o], Hm as [?|[HR' Ho]]; simpl in *; [done|].
  inversion Ho; subst. by eapply IH.
Qed.

(** Threads that refine others step by step, under one schedule. *)
Inductive thread_refines {A} : thread (E:=E) (S:=S) A → thread (E:=E) (S:=T) A → Prop :=
| tr_running p1 p2 : prog_refines R p1 p2 → thread_refines (Running p1) (Running p2)
| tr_finished o : thread_refines (Finished o) (Finished o).

Lemma act_step_refines {A B} (m1 : M E S B) (m2 : M E T B) (k1 : B → prog E S A) k2 s u :
  refines R eq m1 m2 → (∀ b, prog_refines R (k1 b) (k2 b)) → R s u →
  (act_step m2 k2 u).1 ≠ Finished Undefined →
  thread_refines (act_step m1 k1 s).1 (act_step m2 k2 u).1
  ∧ R (act_step m1 k1 s).2 (act_step m2 k2 u).2.
Proof.
  intros Hm Hk HR. unfold act_step.
  specialize (Hm s u HR). destruct (m2 u) as [u' [b|e|]], (m1 s) as [s' o1]; simpl in *; [| |done].
  all: destruct Hm as [?|[HR' Ho]]; [done|]; inversion Ho; subst; intros _.
  - split; [by constructor|done].
  - split; [by constructor|done].
Qed.

Lemma thread_step_refines {A} (t1 : thread A) t2 s u :
  thread_refines t1 t2 → R s u → (thread_step t2 u).1 ≠ Finished Undefined →
  thread_refines (thread_step t1 s).1 (thread_step t2 u).1
  ∧ R (thread_step t1 s).2 (thread_step t2 u).2.
Proof.
  intros Ht HR. destruct Ht as [p1 p2 Hp|o]; [|by split; [constructor|]].
  destruct Hp as [a|B m1 m2 k1 k2 Hm Hk|g1 g2 B m1 m2 k1 k2 Hg Hm Hk];
    [by split; [constructor|]|by apply act_step_refines|].
  simpl. rewrite (Hg s u HR). destruct (g2 u); [by apply act_step_refines|].
  intros _. split; [|done]. apply tr_running. by constructor.
Qed.

(** A thread that has finished stays as it is. *)
Lemma run_threads_finished {A} schedule i o : ∀ (ts : list (thread (E:=E) (S:=T) A)) u,
  ts !! i = Some (Finished o) → (run_threads schedule ts u).1 !! i = Some (Finished o).
Proof.
  induction schedule as [|j schedule IH]; intros ts u Hi; simpl; [done|].
  destruct (ts !! j) as [t|] eqn:Hj; [|by apply IH].
  destruct (thread_step t u) as [t' u'] eqn:Hstep. apply IH.
  destruct (decide (i = j)) as [->|]; [|by rewrite list_lookup_insert_ne].
  rewrite Hi in Hj. injection Hj as <-. injection Hstep as <- <-.
  apply list_lookup_insert_eq. by eapply lookup_lt_Some.
Qed.

Lemma run_threads_refines {A} schedule : ∀ (ts1 : list (thread A)) ts2 s u,
  Forall2 thread_refines ts1 ts2 → R s u →
  (∀ i, (run_threads schedule ts2 u).1 !! i ≠ Some (Finished Undefined)) →
  Forall2 thread_refines (run_threads schedule ts1 s).1 (run_threads schedule ts2 u).1
  ∧ R (run_threads schedule ts1 s).2 (run_threads schedule ts2 u).2.
Proof.
  induction schedule as [|i schedule IH]; intros ts1 ts2 s u Hts HR Hdef; [done|]. simpl in *.
  destruct (ts2 !! i) as [t2|] eqn:H2; last first.
  { destruct (ts1 !! i) as [t1|] eqn:H1; [|by apply IH].
    destruct (Forall2_lookup_l _ _ _ _ _ Hts H1) as (t2 & ? & _). congruence. }
  destruct (Forall2_lookup_r _ _ _ _ _ Hts H2) as (t1 & H1 & Ht). rewrite H1.
  pose proof (thread_step_refines t1 t2 s u Ht HR) as Hstep.
  destruct (thread_step t2 u) as [t2' u'], (thread_step t1 s) as [t1' s']. simpl in Hstep.
  destruct Hstep as [Ht' HR'].
  { intros ->. eapply (Hdef i), run_threads_finished, list_lookup_insert_eq.
    by eapply lookup_lt_Some. }
  apply IH; [by apply Forall2_insert|done|done].
Qed.
End prog_refines.
