(* ===== verification/Java.v ===== *)
(** * The part of the Java language and library the server uses

    Exceptions as a data type, [String.split] with a one-character pattern and
    [Integer.parseInt].  A [String] is a Rocq [string] of characters. *)

From S2P Require Import Prelude.
From Stdlib Require Import Ascii.
From stdpp Require Import base gmap strings list.
From Stdlib Require Import Lia.
#[local] Open Scope Z_scope.

(** The exceptions the server throws, catches or lets through. *)
Inductive jexn : Type :=
| NullPointerException
| ClassCastException
| ArrayIndexOutOfBoundsException
| IllegalMonitorStateException
| RejectedExecutionException
| NumberFormatException
| IllegalArgumentException
| IOException
| StatusRuntimeException
| RuntimeException (msg : string).

#[export] Instance jexn_eq_dec : EqDecision jexn.
Proof. solve_decision. Defined.

(** An [Optional]-free [null] dereference. *)
Definition nonnull {S A} (o : option A) : M jexn S A :=
  match o with Some a => mret a | None => throw NullPointerException end.

(** [s.split(sep)]: trailing empty strings are removed, unless the separator
    does not occur at all. *)
Fixpoint drop_trailing_empty (l : list string) : list string :=
  match l with
  | [] => []
  | p :: l' =>
      match drop_trailing_empty l' with
      | [] => if String.eqb p EmptyString then [] else [p]
      | l'' => p :: l''
      end
  end.

Definition java_split (c : Ascii.ascii) (s : string) : list string :=
  match split_on c s with
  | [p] => [p]
  | l => drop_trailing_empty l
  end.

(** [Integer.parseInt(s)], radix 10: an optional sign and at least one digit,
    a value outside 32 bits refused. *)
Definition digit_value (a : Ascii.ascii) : option Z :=
  let n := Z.of_N (Ascii.N_of_ascii a) in
  if (48 <=? n) && (n <=? 57) then Some (n - 48) else None.

Fixpoint parse_digits (acc : Z) (s : string) : option Z :=
  match s with
  | EmptyString => Some acc
  | String a s' =>
      match digit_value a with
      | Some d => parse_digits (10 * acc + d) s'
      | None => None
      end
  end.

Definition parse_nonempty (s : string) : option Z :=
  match s with EmptyString => None | _ => parse_digits 0 s end.

Definition int_range (z : Z) : option Z :=
  if (- 2 ^ 31 <=? z) && (z <? 2 ^ 31) then Some z else None.

Definition parseInt (s : string) : option Z :=
  match s with
  | String "-"%char s' => parse_nonempty s' ≫= (λ z, int_range (- z))
  | String "+"%char s' => parse_nonempty s' ≫= int_range
  | _ => parse_nonempty s ≫= int_range
  end.

Lemma parseInt_int32 s z : parseInt s = Some z → - 2 ^ 31 ≤ z < 2 ^ 31.
Proof.
  assert (Hr : ∀ x, int_range x = Some z → - 2 ^ 31 ≤ z < 2 ^ 31).
  { intros x. unfold int_range.
    destruct (Z.leb_spec (- 2 ^ 31) x), (Z.ltb_spec x (2 ^ 31)); naive_solver lia. }
  unfold parseInt. intros H.
  repeat case_match; try destruct (parse_nonempty _); simplify_eq/=; eauto.
Qed.

Lemma drop_trailing_empty_sublist l : drop_trailing_empty l `sublist_of` l.
Proof.
  induction l as [|p l IH]; simpl; [done|].
  destruct (drop_trailing_empty l); [|by constructor].
  destruct (String.eqb p EmptyString); [apply sublist_nil_l|].
  constructor. apply sublist_nil_l.
Qed.

Lemma java_split_pieces c s p : p ∈ java_split c s → has_char c p = false.
Proof.
  intros Hp. apply (split_on_pieces c s). unfold java_split in Hp.
  destruct (split_on c s) as [|q [|q' l]] eqn:E; [done|done|].
  by eapply sublist_subseteq; [apply drop_trailing_empty_sublist|].
Qed.

Lemma java_split_no_sep c s : has_char c s = false → java_split c s = [s].
Proof. intros H. unfold java_split. by rewrite split_on_no_sep. Qed.
