(* ===== verification/Messages.v ===== *)
(** * The messages of the two gRPC services

    [raft.proto] and [kv_store.proto], a record per message.  A protobuf string
    field is never null. *)

From S2P Require Import Prelude.
From stdpp Require Import base strings.
#[local] Open Scope Z_scope.

Record LogEntry : Type := {
  le_term : Z;
  le_key : string;
  le_value : string;
  le_index : Z;
}.

#[export] Instance LogEntry_eq_dec : EqDecision LogEntry.
Proof. solve_decision. Defined.

(** [LogEntry.newBuilder().setTerm(t).setKey(k).setValue(v).build()]: the
    [index] field keeps the protobuf default. *)
Definition log_entry (t : Z) (k v : string) : LogEntry :=
  {| le_term := t; le_key := k; le_value := v; le_index := 0 |}.

Record RequestVoteRequest : Type := {
  rvq_term : Z;
  rvq_candidateId : string;
  rvq_lastLogIndex : Z;
  rvq_lastLogTerm : Z;
}.

Record RequestVoteResponse : Type := {
  rvr_term : Z;
  rvr_voteGranted : bool;
}.

Record AppendEntriesRequest : Type := {
  aeq_term : Z;
  aeq_leaderId : string;
  aeq_prevLogIndex : Z;
  aeq_prevLogTerm : Z;
  aeq_entries : list LogEntry;
  aeq_leaderCommit : Z;
}.

Record AppendEntriesResponse : Type := {
  aer_term : Z;
  aer_success : bool;
}.

Record GetRequest : Type := { gq_key : string }.
Record GetResponse : Type := { gr_value : string; gr_found : bool }.
Record PutRequest : Type := { pq_key : string; pq_value : string }.
Record PutResponse : Type := { pr_success : bool; pr_old_value : string }.

#[export] Instance GetResponse_eq_dec : EqDecision GetResponse.
Proof. solve_decision. Defined.
#[export] Instance PutResponse_eq_dec : EqDecision PutResponse.
Proof. solve_decision. Defined.
