(* ===== verification/RaftState.v ===== *)
(** * RaftState: role, term and (unused) vote of a node

    [server/src/main/java/com/kvstore/raft/RaftState.java].  [currentTerm] is a
    Java [long]; [currentTerm++] wraps around. *)

From S2P Require Import Prelude.
From stdpp Require Import base strings.
#[local] Open Scope Z_scope.

Inductive Role : Type := FOLLOWER | CANDIDATE | LEADER.

#[export] Instance Role_eq_dec : EqDecision Role.
Proof. solve_decision. Defined.

Record RaftState : Type := mkRaftState {
  currentRole : Role;
  currentTerm : Z;
  rs_votedFor : option string;
}.

Definition newRaftState : RaftState := mkRaftState FOLLOWER 0 None.

Definition isLeader (st : RaftState) : bool := bool_decide (currentRole st = LEADER).

Definition becomeFollower (term : Z) (st : RaftState) : RaftState :=
  mkRaftState FOLLOWER term None.

Definition becomeCandidate (st : RaftState) : RaftState :=
  mkRaftState CANDIDATE (jadd (currentTerm st) 1) (rs_votedFor st).

Definition becomeLeader (st : RaftState) : RaftState :=
  mkRaftState LEADER (currentTerm st) (rs_votedFor st).

Definition setCurrentTerm (term : Z) (st : RaftState) : RaftState :=
  mkRaftState (currentRole st) term (rs_votedFor st).

(** The assignments to the other fields, one of which is what a thread sees of
    the methods above at a time. *)
Definition set_role (r : Role) (st : RaftState) : RaftState :=
  mkRaftState r (currentTerm st) (rs_votedFor st).
Definition set_rs_votedFor (v : option string) (st : RaftState) : RaftState :=
  mkRaftState (currentRole st) (currentTerm st) v.

Lemma becomeFollower_fields t st :
  set_rs_votedFor None (setCurrentTerm t (set_role FOLLOWER st)) = becomeFollower t st.
Proof. done. Qed.

(** The transitions of the class, as its callers can trigger them. *)
Inductive rs_op : Type :=
| OpFollower (term : Z)
| OpCandidate
| OpLeader
| OpSetTerm (term : Z).

Definition rs_apply (op : rs_op) : RaftState → RaftState :=
  match op with
  | OpFollower t => becomeFollower t
  | OpCandidate => becomeCandidate
  | OpLeader => becomeLeader
  | OpSetTerm t => setCurrentTerm t
  end.

Lemma becomeCandidate_term st :
  int64 (currentTerm st) → currentTerm st < long_max →
  currentTerm (becomeCandidate st) = currentTerm st + 1.
Proof. unfold int64, long_max. intros. simpl. long_arith. done. Qed.

Lemma newRaftState_fresh : currentRole newRaftState ≠ LEADER ∧ int64 (currentTerm newRaftState).
Proof. done. Qed.
