(* ===== verification/Storage.v ===== *)
(** * The storage interface of a Raft node

    [Storage S] is what [RaftNode] and [KVStoreServiceImpl] call on a
    [SQLiteStorage]: one operation per public method.  [AbsStorage] is the
    specification of that interface: a log held as a list (entry [i] of the
    database is element [i-1]), two indices and a finite map.  [SQLiteStorage]
    is proved to refine it in [SQLiteStorage.v]; the theorems on the node are
    proved on [AbsStorage] and carried to any storage that refines it. *)

From S2P Require Import Prelude.
From S2P Require Import Java.
From S2P Require Import Messages.
From stdpp Require Import base gmap strings list.
From Stdlib Require Import Lia.
#[local] Open Scope Z_scope.

Class Storage (S : Type) : Type := {
  appendLogEntry : LogEntry → M jexn S Z;
  getLogEntries : Z → Z → M jexn S (list LogEntry);
  getLogEntry : Z → M jexn S (option LogEntry);
  getLastLogIndex : M jexn S Z;
  getLastLogTerm : M jexn S Z;
  getCommitIndex : M jexn S Z;
  setCommitIndex : Z → M jexn S ();
  getLastApplied : M jexn S Z;
  setLastApplied : Z → M jexn S ();
  deleteLogEntriesFrom : Z → M jexn S ();
  updateKeyValue : string → string → M jexn S ();
  storage_get : string → M jexn S (option string);
  storage_close : M jexn S ();
}.

(** ** The abstract storage *)

Record AbsStorage : Type := mkAbs {
  a_log : list LogEntry;
  a_commit : Z;
  a_applied : Z;
  a_kv : gmap string string;
  a_open : bool;
}.

Definition set_log l a := mkAbs l (a_commit a) (a_applied a) (a_kv a) (a_open a).
Definition set_commit c a := mkAbs (a_log a) c (a_applied a) (a_kv a) (a_open a).
Definition set_applied i a := mkAbs (a_log a) (a_commit a) i (a_kv a) (a_open a).
Definition set_kv m a := mkAbs (a_log a) (a_commit a) (a_applied a) m (a_open a).
Definition set_open b a := mkAbs (a_log a) (a_commit a) (a_applied a) (a_kv a) b.

(** What the database keeps of an entry: its own index column numbers it. *)
Definition stored (e : LogEntry) : LogEntry := log_entry (le_term e) (le_key e) (le_value e).

Definition log_at (i : Z) (l : list LogEntry) : option LogEntry :=
  if i <=? 0 then None else l !! Z.to_nat (i - 1).

Definition log_range (s e : Z) (l : list LogEntry) : list LogEntry :=
  drop (Z.to_nat (s - 1)) (take (Z.to_nat e) l).

Definition last_index (l : list LogEntry) : Z := Z.of_nat (length l).

Definition last_term (l : list LogEntry) : Z :=
  match last l with Some e => le_term e | None => 0 end.

(** [if_open m d]: a method on a closed connection does [d]. *)
Definition if_open {A} (m d : M jexn AbsStorage A) : M jexn AbsStorage A := λ a,
  if a_open a then m a else d a.

Definition abs_append (e : LogEntry) : M jexn AbsStorage Z := λ a,
  if last_index (a_log a) <? long_max
  then (set_log (a_log a ++ [stored e]) a, Return (last_index (a_log a) + 1))
  else (a, Undefined).

Definition abs_lastLogIndex : M jexn AbsStorage Z :=
  if_open (gets (λ a, last_index (a_log a))) (throw (RuntimeException "Failed to get log index")).

#[export] Instance AbsStorage_Storage : Storage AbsStorage := {
  appendLogEntry e :=
    if_open (abs_append e) (throw (RuntimeException "Failed to append log entry"));
  getLogEntries s e :=
    if_open (gets (λ a, log_range s e (a_log a)))
            (throw (RuntimeException "Failed to get log entries"));
  getLogEntry i :=
    if_open (gets (λ a, log_at i (a_log a))) (throw (RuntimeException "Failed to get log entry"));
  getLastLogIndex := abs_lastLogIndex;
  getLastLogTerm :=
    if_open (gets (λ a, last_term (a_log a))) (throw (RuntimeException "Failed to get log index"));
  getCommitIndex := if_open (gets a_commit) (mret 0);
  setCommitIndex c := if_open (modify (set_commit c)) (mret ());
  getLastApplied := if_open (gets a_applied) (mret 0);
  setLastApplied i := if_open (modify (set_applied i)) (mret ());
  deleteLogEntriesFrom i :=
    if_open (modify (λ a, set_log (take (Z.to_nat (i - 1)) (a_log a)) a)) (mret ());
  updateKeyValue k v := if_open (modify (λ a, set_kv (<[k := v]> (a_kv a)) a)) (mret ());
  storage_get k := if_open (gets (λ a, a_kv a !! k)) (mret None);
  storage_close := modify (set_open false);
}.

(** ** What the log says the map must be *)

Definition replay (l : list LogEntry) (m : gmap string string) : gmap string string :=
  foldl (λ m e, <[le_key e := le_value e]> m) m l.

Lemma replay_app l1 l2 m : replay (l1 ++ l2) m = replay l2 (replay l1 m).
Proof. apply foldl_app. Qed.

(** ** Interface laws: a storage that implements the specification *)

Class StorageRefines (S : Type) `{Storage S} (R : S → AbsStorage → Prop) : Prop := {
  ref_append e : refines R eq (appendLogEntry e) (appendLogEntry e);
  ref_entries s e : refines R eq (getLogEntries s e) (getLogEntries s e);
  ref_entry i : refines R eq (getLogEntry i) (getLogEntry i);
  ref_lastIndex : refines R eq getLastLogIndex getLastLogIndex;
  ref_lastTerm : refines R eq getLastLogTerm getLastLogTerm;
  ref_getCommit : refines R eq getCommitIndex getCommitIndex;
  ref_setCommit c : refines R eq (setCommitIndex c) (setCommitIndex c);
  ref_getApplied : refines R eq getLastApplied getLastApplied;
  ref_setApplied i : refines R eq (setLastApplied i) (setLastApplied i);
  ref_delete i : refines R eq (deleteLogEntriesFrom i) (deleteLogEntriesFrom i);
  ref_update k v : refines R eq (updateKeyValue k v) (updateKeyValue k v);
  ref_get k : refines R eq (storage_get k) (storage_get k);
  ref_close : refines R eq storage_close storage_close;
}.

#[export] Hint Resolve ref_append ref_entries ref_entry ref_lastIndex ref_lastTerm
  ref_getCommit ref_setCommit ref_getApplied ref_setApplied ref_delete ref_update
  ref_get ref_close : refinement.

(** The specification implements itself. *)
#[export] Instance AbsStorage_refines : StorageRefines AbsStorage eq.
Proof.
  split; intros; apply refines_refl.
Qed.

(** A storage that outlives its process: opened again, from whatever state the
    end of the process left it in, it has the contents it had. *)
Class Reopens (S : Type) `{Storage S} (R : S → AbsStorage → Prop) (reopen : M jexn S ()) : Prop :=
  reopens s a : R s a → ∃ s', reopen s = (s', Return ()) ∧ R s' (set_open true a).

Definition abs_reopen : M jexn AbsStorage () := modify (set_open true).
#[export] Instance AbsStorage_reopens : Reopens AbsStorage eq abs_reopen.
Proof. intros s a ->. by eexists. Qed.

(** ** Lemmas on indices and ranges *)

Lemma log_at_Some i l e :
  log_at i l = Some e ↔ 1 ≤ i ∧ l !! Z.to_nat (i - 1) = Some e.
Proof. unfold log_at. destruct (Z.leb_spec i 0); naive_solver lia. Qed.

Lemma log_at_is_Some i l : is_Some (log_at i l) ↔ 1 ≤ i ≤ last_index l.
Proof.
  unfold log_at, last_index. destruct (Z.leb_spec i 0).
  - split; [by intros []|lia].
  - rewrite lookup_lt_is_Some. lia.
Qed.

Lemma log_at_app_l i l l' : i ≤ last_index l → log_at i (l ++ l') = log_at i l.
Proof.
  unfold log_at, last_index. intros. destruct (Z.leb_spec i 0); [done|].
  apply lookup_app_l. lia.
Qed.

Lemma log_at_snoc e l : log_at (last_index l + 1) (l ++ [e]) = Some e.
Proof.
  apply log_at_Some. unfold last_index. split; [lia|].
  by replace (Z.to_nat _) with (length l) by lia; apply list_lookup_middle.
Qed.

Lemma last_index_app l l' : last_index (l ++ l') = last_index l + last_index l'.
Proof. unfold last_index. rewrite length_app. lia. Qed.

Lemma last_index_snoc l e : last_index (l ++ [e]) = last_index l + 1.
Proof. rewrite last_index_app. done. Qed.
Lemma last_index_nonneg l : 0 ≤ last_index l.
Proof. unfold last_index. lia. Qed.

Lemma log_range_last s l : log_range s (last_index l) l = drop (Z.to_nat (s - 1)) l.
Proof. unfold log_range, last_index. rewrite take_ge by lia. done. Qed.

Lemma last_term_spec l :
  last_term l = match log_at (last_index l) l with Some e => le_term e | None => 0 end.
Proof.
  unfold last_term, log_at, last_index. destruct l as [|x l' _] using rev_ind; [done|].
  rewrite last_snoc, length_app; simpl.
  destruct (Z.leb_spec (Z.of_nat (length l' + 1)) 0); [lia|].
  replace (Z.to_nat _) with (length l') by lia. by rewrite list_lookup_middle.
Qed.

(** Running the abstract operations on an open storage. *)
Section abs_run.
Context (a : AbsStorage) (Hopen : a_open a = true).

Lemma if_open_run {A} (m d : M jexn AbsStorage A) : if_open m d a = m a.
Proof. unfold if_open. by rewrite Hopen. Qed.

Lemma abs_append_run e :
  last_index (a_log a) < long_max →
  appendLogEntry e a = (set_log (a_log a ++ [stored e]) a, Return (last_index (a_log a) + 1)).
Proof.
  intros H. simpl. rewrite if_open_run. unfold abs_append.
  by destruct (Z.ltb_spec (last_index (a_log a)) long_max); [|lia].
Qed.
End abs_run.

(** The methods are executed through the lemmas above, not by reduction. *)
#[global] Arguments appendLogEntry : simpl never.
#[global] Arguments getLogEntries : simpl never.
#[global] Arguments getLogEntry : simpl never.
#[global] Arguments getLastLogIndex : simpl never.
#[global] Arguments getLastLogTerm : simpl never.
#[global] Arguments getCommitIndex : simpl never.
#[global] Arguments setCommitIndex : simpl never.
#[global] Arguments getLastApplied : simpl never.
#[global] Arguments setLastApplied : simpl never.
#[global] Arguments deleteLogEntriesFrom : simpl never.
#[global] Arguments updateKeyValue : simpl never.
#[global] Arguments storage_get : simpl never.
#[global] Arguments storage_close : simpl never.
