(* ===== verification/SQLiteStorage.v ===== *)
(** * SQLiteStorage: the storage of a node, over JDBC

    [server/src/main/java/com/kvstore/storage/SQLiteStorage.java].  The JDBC
    driver and the engine behind it are third-party code: the record [JDBC] of
    its calls is an argument of every method.  What the methods make of the
    answers of any engine is in StorageReplies.v.

    The class [EngineLaws] is what the code *needs* of an engine for its methods
    to implement the abstract storage of [Storage.v], and the second part proves
    that this is enough.  SQLite is not such an engine: it refuses the schema,
    whose column [index] is a keyword (see [schema_rejected]), and it promises
    no order of the rows of a SELECT. *)

From S2P Require Import Prelude.
From S2P Require Import Java.
From S2P Require Import Messages.
From S2P Require Import Storage.
From stdpp Require Import base gmap strings list.
From Stdlib Require Import Lia.
#[local] Open Scope Z_scope.

(** ** JDBC *)

Inductive sqlval : Type := SNull | SInt (z : Z) | SText (s : string).
Abbreviation row := (list (string * sqlval)).
Inductive sql_reply : Type := Rows (rs : list row) | Updated (generated : list Z).
Inductive sqlexn : Type := SQLException (msg : string).

(** The calls of the driver: opening the connection of a URL, running one
    statement with its parameters, closing; and the conversions of
    [getLong]/[getString] on a column of the other type. *)
Record JDBC (DB : Type) : Type := {
  connect : string → M sqlexn DB ();
  execute : string → list sqlval → M sqlexn DB sql_reply;
  disconnect : M sqlexn DB ();
  long_of_text : string → Z;
  text_of_long : Z → string;
}.
Arguments connect {_}. Arguments execute {_}. Arguments disconnect {_}.
Arguments long_of_text {_}. Arguments text_of_long {_}.

(** ** The statements *)

Definition CREATE_KV := "CREATE TABLE IF NOT EXISTS kv_store (key TEXT PRIMARY KEY, value TEXT)".
Definition CREATE_LOGS :=
  "CREATE TABLE IF NOT EXISTS logs (index INTEGER PRIMARY KEY, term INTEGER, key TEXT, value TEXT)".
Definition CREATE_STATE :=
  "CREATE TABLE IF NOT EXISTS state (lastApplied INTEGER, commitIndex INTEGER, currentTerm INTEGER, votedFor TEXT)".
Definition INIT_STATE :=
  "INSERT OR IGNORE INTO state (lastApplied, commitIndex, currentTerm, votedFor) VALUES (0, 0, 0, NULL)".
Definition INSERT_LOG := "INSERT INTO logs (term, key, value) VALUES (?, ?, ?)".
Definition SELECT_RANGE := "SELECT term, key, value FROM logs WHERE index >= ? AND index <= ?".
Definition SELECT_ENTRY := "SELECT term, key, value FROM logs WHERE index = ?".
Definition SELECT_MAX := "SELECT MAX(index) FROM logs".
Definition SELECT_COMMIT := "SELECT commitIndex FROM state".
Definition UPDATE_COMMIT := "UPDATE state SET commitIndex = ?".
Definition SELECT_APPLIED := "SELECT lastApplied FROM state".
Definition UPDATE_APPLIED := "UPDATE state SET lastApplied = ?".
Definition DELETE_FROM := "DELETE FROM logs WHERE index >= ?".
Definition REPLACE_KV := "INSERT OR REPLACE INTO kv_store (key, value) VALUES (?, ?)".
Definition SELECT_KV := "SELECT value FROM kv_store WHERE key = ?".

Section methods.
Context {DB : Type} (db : JDBC DB).

(** The body of a [try] can raise an [SQLException], which the method
    catches, or another exception, which it does not. *)
Abbreviation body := (M (sqlexn + jexn) DB).

Definition sql {A} (m : M sqlexn DB A) : body A := λ s,
  match m s with
  | (s', Return a) => (s', Return a)
  | (s', Throw e) => (s', Throw (inl e))
  | (s', Undefined) => (s', Undefined)
  end.

Definition catch_sql {A} (m : body A) (h : M jexn DB A) : M jexn DB A := λ s,
  match m s with
  | (s', Return a) => (s', Return a)
  | (s', Throw (inl _)) => h s'
  | (s', Throw (inr e)) => (s', Throw e)
  | (s', Undefined) => (s', Undefined)
  end.

Definition sql_error {A} (msg : string) : body A := throw (inl (SQLException msg)).

(** [executeQuery] on a statement that returns no rows, and [executeUpdate]
    on one that does, raise an [SQLException]. *)
Definition executeQuery (q : string) (args : list sqlval) : body (list row) :=
  r ← sql (execute db q args);
  match r with Rows rs => mret rs | Updated _ => sql_error "query does not return ResultSet" end.

Definition executeUpdate (q : string) (args : list sqlval) : body (list Z) :=
  r ← sql (execute db q args);
  match r with Updated g => mret g | Rows _ => sql_error "query returns results" end.

Definition long_of (v : sqlval) : Z :=
  match v with SNull => 0 | SInt z => z | SText s => long_of_text db s end.
Definition string_of (v : sqlval) : option string :=
  match v with SNull => None | SInt z => Some (text_of_long db z) | SText s => Some s end.

Fixpoint column (label : string) (r : row) : body sqlval :=
  match r with
  | [] => sql_error "no such column"
  | (l, v) :: r' => if String.eqb l label then mret v else column label r'
  end.

Definition getLong (label : string) (r : row) : body Z := long_of <$> column label r.
Definition getString (label : string) (r : row) : body (option string) :=
  string_of <$> column label r.
Definition getLong1 (r : row) : body Z :=
  match r with (_, v) :: _ => mret (long_of v) | [] => sql_error "no such column" end.

(** [setKey(null)] is refused by the protobuf builder. *)
Definition builder_string (o : option string) : body string :=
  match o with Some s => mret s | None => throw (inr NullPointerException) end.

(** ** The class *)

Definition initializeDatabase : M jexn DB () :=
  catch_sql
    (sql (execute db CREATE_KV []);;
     sql (execute db CREATE_LOGS []);;
     sql (execute db CREATE_STATE []);;
     sql (execute db INIT_STATE []);;
     mret ())
    (throw (RuntimeException "Failed to initialize database tables")).

Definition createConnection (dbUrl : string) : M sqlexn DB () := connect db dbUrl.

(** The constructor: an exception of [initializeDatabase] is a
    [RuntimeException] and passes the [catch (SQLException e)]. *)
Definition SQLiteStorage (dbUrl : string) : M jexn DB () :=
  catch_sql (sql (createConnection dbUrl);; mret ())
            (throw (RuntimeException "Failed to initialize database"));;
  initializeDatabase.

Definition sqlite_appendLogEntry (entry : LogEntry) : M jexn DB Z :=
  catch_sql
    (generatedKeys ← executeUpdate INSERT_LOG
       [SInt (le_term entry); SText (le_key entry); SText (le_value entry)];
     match generatedKeys with
     | k :: _ => mret k
     | [] => sql_error "Creating log entry failed, no ID obtained."
     end)
    (throw (RuntimeException "Failed to append log entry")).

Definition read_entry (r : row) : body LogEntry :=
  term ← getLong "term" r;
  key ← getString "key" r;
  value ← getString "value" r;
  key ← builder_string key;
  value ← builder_string value;
  mret (log_entry term key value).

Fixpoint read_entries (rs : list row) : body (list LogEntry) :=
  match rs with
  | [] => mret []
  | r :: rs' => e ← read_entry r; es ← read_entries rs'; mret (e :: es)
  end.

Definition sqlite_getLogEntries (startIdx endIdx : Z) : M jexn DB (list LogEntry) :=
  catch_sql
    (rs ← executeQuery SELECT_RANGE [SInt startIdx; SInt endIdx]; read_entries rs)
    (throw (RuntimeException "Failed to get log entries")).

Definition sqlite_getLogEntry (index : Z) : M jexn DB (option LogEntry) :=
  catch_sql
    (rs ← executeQuery SELECT_ENTRY [SInt index];
     match rs with
     | r :: _ => e ← read_entry r; mret (Some e)
     | [] => mret None
     end)
    (throw (RuntimeException "Failed to get log entry")).

Definition sqlite_getLastLogIndex : M jexn DB Z :=
  catch_sql
    (rs ← executeQuery SELECT_MAX [];
     match rs with r :: _ => getLong1 r | [] => mret 0 end)
    (throw (RuntimeException "Failed to get log index")).

Definition sqlite_getLastLogTerm : M jexn DB Z :=
  lastIndex ← sqlite_getLastLogIndex;
  if 0 <? lastIndex then
    entry ← sqlite_getLogEntry lastIndex;
    mret (match entry with Some e => le_term e | None => 0 end)
  else mret 0.

(** The accessors of the [state] table print the exception and answer 0. *)
Definition state_get (q label : string) : M jexn DB Z :=
  catch_sql
    (rs ← executeQuery q [];
     match rs with r :: _ => getLong label r | [] => mret 0 end)
    (mret 0).

Definition swallow (m : body (list Z)) : M jexn DB () := catch_sql (m;; mret ()) (mret ()).

Definition sqlite_getCommitIndex : M jexn DB Z := state_get SELECT_COMMIT "commitIndex".
Definition sqlite_setCommitIndex (commitIndex : Z) : M jexn DB () :=
  swallow (executeUpdate UPDATE_COMMIT [SInt commitIndex]).
Definition sqlite_getLastApplied : M jexn DB Z := state_get SELECT_APPLIED "lastApplied".
Definition sqlite_setLastApplied (lastApplied : Z) : M jexn DB () :=
  swallow (executeUpdate UPDATE_APPLIED [SInt lastApplied]).
Definition sqlite_deleteLogEntriesFrom (index : Z) : M jexn DB () :=
  swallow (executeUpdate DELETE_FROM [SInt index]).
Definition sqlite_updateKeyValue (key value : string) : M jexn DB () :=
  swallow (executeUpdate REPLACE_KV [SText key; SText value]).
Definition sqlite_put (key value : string) : M jexn DB () := sqlite_updateKeyValue key value.

Definition sqlite_get (key : string) : M jexn DB (option string) :=
  catch_sql
    (rs ← executeQuery SELECT_KV [SText key];
     match rs with r :: _ => getString "value" r | [] => mret None end)
    (mret None).

Definition sqlite_close : M jexn DB () := catch_sql (sql (disconnect db)) (mret ()).

Definition SQLite_Storage : Storage DB := {|
  appendLogEntry := sqlite_appendLogEntry;
  getLogEntries := sqlite_getLogEntries;
  getLogEntry := sqlite_getLogEntry;
  getLastLogIndex := sqlite_getLastLogIndex;
  getLastLogTerm := sqlite_getLastLogTerm;
  getCommitIndex := sqlite_getCommitIndex;
  setCommitIndex := sqlite_setCommitIndex;
  getLastApplied := sqlite_getLastApplied;
  setLastApplied := sqlite_setLastApplied;
  deleteLogEntriesFrom := sqlite_deleteLogEntriesFrom;
  updateKeyValue := sqlite_updateKeyValue;
  storage_get := sqlite_get;
  storage_close := sqlite_close;
|}.
End methods.

(** ** What the code needs of the engine

    The tables, as the values of their columns; a table that has not been
    created is [None].  The [logs] table is keyed by its INTEGER PRIMARY KEY. *)

Record LogRow : Type := { lr_term : sqlval; lr_key : sqlval; lr_value : sqlval }.
Record StateRow : Type := {
  sr_lastApplied : sqlval; sr_commitIndex : sqlval; sr_currentTerm : sqlval; sr_votedFor : sqlval
}.
Record Tables : Type := mkTables {
  t_kv : option (gmap string sqlval);
  t_logs : option (gmap Z LogRow);
  t_state : option (list StateRow);
}.

Definition no_tables : Tables := mkTables None None None.
Definition initial_state_row : StateRow :=
  {| sr_lastApplied := SInt 0; sr_commitIndex := SInt 0; sr_currentTerm := SInt 0;
     sr_votedFor := SNull |}.

Definition with_logs (f : gmap Z LogRow → gmap Z LogRow) (t : Tables) : Tables :=
  mkTables (t_kv t) (f <$> t_logs t) (t_state t).
Definition with_kv (f : gmap string sqlval → gmap string sqlval) (t : Tables) : Tables :=
  mkTables (f <$> t_kv t) (t_logs t) (t_state t).
Definition with_state (f : list StateRow → list StateRow) (t : Tables) : Tables :=
  mkTables (t_kv t) (t_logs t) (f <$> t_state t).

(** [MAX(index)], [None] on an empty table. *)
Definition max_rowid (m : gmap Z LogRow) : option Z :=
  match elements (dom m) with [] => None | k :: ks => Some (foldr Z.max k ks) end.

Definition log_columns (r : LogRow) : row :=
  [("term", lr_term r); ("key", lr_key r); ("value", lr_value r)].

Definition set_row_commit (c : Z) (r : StateRow) : StateRow :=
  {| sr_lastApplied := sr_lastApplied r; sr_commitIndex := SInt c;
     sr_currentTerm := sr_currentTerm r; sr_votedFor := sr_votedFor r |}.
Definition set_row_applied (i : Z) (r : StateRow) : StateRow :=
  {| sr_lastApplied := SInt i; sr_commitIndex := sr_commitIndex r;
     sr_currentTerm := sr_currentTerm r; sr_votedFor := sr_votedFor r |}.

(** The rows of [WHERE index >= s AND index <= e], by ascending index. *)
Definition rows_between (s e : Z) (m : gmap Z LogRow) : list LogRow :=
  omap (λ i, m !! i) (seqZ s (e - s + 1)).

(** [EngineLaws db]: an engine that accepts the schema, gives the statements the
    effect they have in SQL, and numbers the rows of [logs] as SQLite numbers an
    INTEGER PRIMARY KEY.  It is a hypothesis of the refinement lemmas of this
    file and of StorageStart.v and StorageScript.v, not a description of SQLite,
    which refuses the unquoted column name [index]. *)
Class EngineLaws {DB : Type} (db : JDBC DB) : Type := {
  tables : DB → Tables;
  is_open : DB → bool;

  stmt (q : string) (args : list sqlval) (f : Tables → Tables) (r : sql_reply) (s : DB) : Prop :=
    ∃ s', execute db q args s = (s', Return r) ∧ tables s' = f (tables s) ∧ is_open s' = true;

  law_closed q args s :
    is_open s = false → ∃ msg, execute db q args s = (s, Throw (SQLException msg));
  law_disconnect s :
    ∃ s', disconnect db s = (s', Return ()) ∧ tables s' = tables s ∧ is_open s' = false;

  law_create_kv s : is_open s = true →
    stmt CREATE_KV [] (λ t, mkTables (Some (default ∅ (t_kv t))) (t_logs t) (t_state t)) (Updated []) s;
  law_create_logs s : is_open s = true →
    stmt CREATE_LOGS [] (λ t, mkTables (t_kv t) (Some (default ∅ (t_logs t))) (t_state t)) (Updated []) s;
  law_create_state s : is_open s = true →
    stmt CREATE_STATE [] (λ t, mkTables (t_kv t) (t_logs t) (Some (default [] (t_state t)))) (Updated []) s;
  (** The table has no unique column, so OR IGNORE ignores nothing. *)
  law_init_state s l : is_open s = true → t_state (tables s) = Some l →
    stmt INIT_STATE [] (with_state (λ l, l ++ [initial_state_row])) (Updated []) s;

  (** A row inserted without a rowid gets one more than the largest. *)
  law_insert_log s m t k v : is_open s = true → t_logs (tables s) = Some m →
    default 0 (max_rowid m) < long_max →
    let i := default 0 (max_rowid m) + 1 in
    stmt INSERT_LOG [t; k; v]
      (with_logs (<[i := {| lr_term := t; lr_key := k; lr_value := v |}]>)) (Updated [i]) s;
  law_select_range s m a b : is_open s = true → t_logs (tables s) = Some m →
    ∃ rs, stmt SELECT_RANGE [SInt a; SInt b] id (Rows (log_columns <$> rs)) s
          ∧ rs ≡ₚ rows_between a b m;
  law_select_entry s m i : is_open s = true → t_logs (tables s) = Some m →
    stmt SELECT_ENTRY [SInt i] id (Rows (log_columns <$> option_list (m !! i))) s;
  law_select_max s m : is_open s = true → t_logs (tables s) = Some m →
    stmt SELECT_MAX [] id
      (Rows [[("MAX(index)", match max_rowid m with Some i => SInt i | None => SNull end)]]) s;
  law_delete s m i : is_open s = true → t_logs (tables s) = Some m →
    ∃ g, stmt DELETE_FROM [SInt i] (with_logs (filter (λ '(j, _), j < i))) (Updated g) s;

  law_select_commit s l : is_open s = true → t_state (tables s) = Some l →
    ∃ rs, stmt SELECT_COMMIT [] id (Rows ((λ r, [("commitIndex", sr_commitIndex r)]) <$> rs)) s
          ∧ rs ≡ₚ l;
  law_select_applied s l : is_open s = true → t_state (tables s) = Some l →
    ∃ rs, stmt SELECT_APPLIED [] id (Rows ((λ r, [("lastApplied", sr_lastApplied r)]) <$> rs)) s
          ∧ rs ≡ₚ l;
  law_update_commit s l c : is_open s = true → t_state (tables s) = Some l →
    ∃ g, stmt UPDATE_COMMIT [SInt c] (with_state (fmap (set_row_commit c))) (Updated g) s;
  law_update_applied s l i : is_open s = true → t_state (tables s) = Some l →
    ∃ g, stmt UPDATE_APPLIED [SInt i] (with_state (fmap (set_row_applied i))) (Updated g) s;

  law_replace_kv s m k v : is_open s = true → t_kv (tables s) = Some m →
    ∃ g, stmt REPLACE_KV [SText k; v] (with_kv (<[k := v]>)) (Updated g) s;
  law_select_kv s m k : is_open s = true → t_kv (tables s) = Some m →
    stmt SELECT_KV [SText k] id (Rows ((λ v, [("value", v)]) <$> option_list (m !! k))) s;
}.

(** The order in which the code needs the rows; SQL leaves it open. *)
Class ScanOrder {DB : Type} (db : JDBC DB) `{!EngineLaws db} : Prop := {
  scan_range s m a b s' rs : is_open s = true → t_logs (tables s) = Some m →
    execute db SELECT_RANGE [SInt a; SInt b] s = (s', Return (Rows rs)) →
    rs = log_columns <$> rows_between a b m;
  scan_commit s l s' rs : is_open s = true → t_state (tables s) = Some l →
    execute db SELECT_COMMIT [] s = (s', Return (Rows rs)) →
    rs = (λ r, [("commitIndex", sr_commitIndex r)]) <$> l;
  scan_applied s l s' rs : is_open s = true → t_state (tables s) = Some l →
    execute db SELECT_APPLIED [] s = (s', Return (Rows rs)) →
    rs = (λ r, [("lastApplied", sr_lastApplied r)]) <$> l;
}.

(** ** The refinement relation *)

Definition log_row (e : LogEntry) : LogRow :=
  {| lr_term := SInt (le_term e); lr_key := SText (le_key e); lr_value := SText (le_value e) |}.

Definition log_rel (m : gmap Z LogRow) (l : list LogEntry) : Prop :=
  ∀ i, m !! i = log_row <$> log_at i l.

(** The first row of [state] carries the two indices. *)
Definition state_rel (rows : list StateRow) (a : AbsStorage) : Prop :=
  ∃ r rs, rows = r :: rs ∧ sr_lastApplied r = SInt (a_applied a)
          ∧ sr_commitIndex r = SInt (a_commit a).

(** Entries are kept without their [index] field. *)
Definition log_stored (l : list LogEntry) : Prop := Forall (λ e, stored e = e) l.

Definition tables_rel (t : Tables) (a : AbsStorage) : Prop :=
  ∃ m rows, t = mkTables (Some (SText <$> a_kv a)) (Some m) (Some rows)
            ∧ log_rel m (a_log a) ∧ state_rel rows a ∧ log_stored (a_log a).

Definition sqlite_rel {DB} (db : JDBC DB) `{!EngineLaws db} (s : DB) (a : AbsStorage) : Prop :=
  is_open s = a_open a ∧ tables_rel (tables s) a.

(** *** The log table against the list *)

Lemma foldr_max_spec k ks :
  foldr Z.max k ks ∈ k :: ks ∧ ∀ j, j ∈ k :: ks → j ≤ foldr Z.max k ks.
Proof.
  induction ks as [|x ks [IH1 IH2]]; simpl.
  - split; [left|]. by intros j ->%list_elem_of_singleton.
  - split.
    + destruct (Z.max_spec x (foldr Z.max k ks)) as [[_ ->]|[_ ->]]; set_solver.
    + intros j Hj. assert (j = x ∨ j ∈ k :: ks) as [->|Hk%IH2] by set_solver; lia.
Qed.

Lemma rows_between_seq (l : list LogEntry) a (n : nat) :
  omap (λ i, log_row <$> log_at i l) (seqZ a (Z.of_nat n))
  = log_row <$> log_range a (a + Z.of_nat n - 1) l.
Proof.
  revert a. induction n as [|n IH]; intros a.
  - unfold log_range. rewrite drop_ge; [done|]. rewrite length_take. lia.
  - rewrite seqZ_cons by lia. simpl.
    replace (Z.pred (Z.of_nat (S n))) with (Z.of_nat n) by lia.
    rewrite IH. unfold log_range.
    replace (Z.succ a + Z.of_nat n - 1) with (a + Z.of_nat (S n) - 1) by lia.
    set (e := Z.to_nat (a + Z.of_nat (S n) - 1)).
    unfold log_at. destruct (Z.leb_spec a 0); simpl.
    { by replace (Z.to_nat (a - 1)) with (Z.to_nat (Z.succ a - 1)) by lia. }
    replace (Z.to_nat (Z.succ a - 1)) with (S (Z.to_nat (a - 1))) by lia.
    destruct (l !! Z.to_nat (a - 1)) as [x|] eqn:Hx; simpl.
    + rewrite (drop_S (take e l) x (Z.to_nat (a - 1))); [done|].
      rewrite lookup_take_lt; [done|]. lia.
    + apply lookup_ge_None in Hx. rewrite !drop_ge; [done|rewrite length_take; lia..].
Qed.

Section log_rel.
Context (m : gmap Z LogRow) (l : list LogEntry) (Hrel : log_rel m l).

Lemma rows_between_range a b : rows_between a b m = log_row <$> log_range a b l.
Proof.
  unfold rows_between. rewrite (list_omap_ext _ (λ i, log_row <$> log_at i l) _ (seqZ a (b - a + 1))).
  2: { apply Forall_Forall2_diag, Forall_true. intros i. apply Hrel. }
  destruct (decide (a ≤ b + 1)).
  - replace (b - a + 1) with (Z.of_nat (Z.to_nat (b - a + 1))) by lia.
    rewrite rows_between_seq. do 2 f_equal. lia.
  - rewrite seqZ_nil by lia. unfold log_range. rewrite drop_ge; [done|].
    rewrite length_take. lia.
Qed.

Lemma max_rowid_rel : default 0 (max_rowid m) = last_index l.
Proof.
  assert (Hdom : ∀ i, i ∈ dom m ↔ 1 ≤ i ≤ last_index l).
  { intros i. rewrite elem_of_dom, Hrel, fmap_is_Some. apply log_at_is_Some. }
  unfold max_rowid. destruct (elements (dom m)) as [|k ks] eqn:E; simpl.
  - assert (last_index l < 1); [|unfold last_index in *; lia].
    apply Z.nle_gt. intros Hl. assert (last_index l ∈ elements (dom m)) as Hin.
    { apply elem_of_elements, Hdom. lia. } rewrite E in Hin. set_solver.
  - destruct (foldr_max_spec k ks) as [Hin Hmax].
    assert (Hin' := Hin). rewrite <-E in Hin'. apply elem_of_elements, Hdom in Hin'.
    assert (last_index l ∈ k :: ks) as Hl%Hmax; [|lia].
    rewrite <-E. apply elem_of_elements, Hdom. lia.
Qed.

Lemma max_rowid_cell :
  match max_rowid m with Some i => SInt i | None => SNull end
  = if decide (l = []) then SNull else SInt (last_index l).
Proof.
  pose proof max_rowid_rel as Hm. destruct (max_rowid m) as [i|] eqn:E; simpl in Hm.
  - case_decide as Hl; [|by subst]. exfalso. subst l. unfold max_rowid in E.
    destruct (elements (dom m)) as [|k ks] eqn:Ed; simplify_eq.
    assert (k ∈ dom m) as Hk by (apply elem_of_elements; rewrite Ed; left).
    apply elem_of_dom in Hk. rewrite Hrel, fmap_is_Some, log_at_is_Some in Hk.
    unfold last_index in Hk; simpl in Hk; lia.
  - case_decide; [done|]. destruct l; [done|]. unfold last_index in Hm; simpl in Hm; lia.
Qed.

Lemma log_rel_append e :
  log_rel (<[last_index l + 1 := log_row e]> m) (l ++ [stored e]).
Proof.
  intros i. rewrite lookup_insert. case_decide as Hi; subst.
  - by rewrite log_at_snoc.
  - rewrite Hrel. destruct (decide (i ≤ last_index l)).
    + by rewrite log_at_app_l.
    + destruct (log_at i l) eqn:E1.
      { assert (is_Some (log_at i l)) as ?%log_at_is_Some by eauto. lia. }
      destruct (log_at i (l ++ _)) eqn:E2; [|done].
      assert (is_Some (log_at i (l ++ [stored e]))) as H%log_at_is_Some by eauto.
      rewrite last_index_app in H. unfold last_index in *. simpl in H. lia.
Qed.

Lemma log_rel_delete i :
  log_rel (filter (λ '(j, _), j < i) m) (take (Z.to_nat (i - 1)) l).
Proof.
  intros j. rewrite map_lookup_filter, Hrel. unfold log_at.
  destruct (Z.leb_spec j 0); simpl; [done|].
  destruct (decide (j < i)).
  - rewrite lookup_take_lt by lia.
    destruct (l !! Z.to_nat (j - 1)); simpl; [|done]. by rewrite option_guard_True.
  - rewrite lookup_take_ge by lia.
    destruct (l !! Z.to_nat (j - 1)); simpl; [|done]. by rewrite option_guard_False.
Qed.
End log_rel.

(** ** Every method refines the specification *)

Section refinement.
Context {DB : Type} (db : JDBC DB) `{Hl : !EngineLaws db, Hs : !ScanOrder db}.
Abbreviation R := (sqlite_rel db).

Lemma executeQuery_run q args rs s s' :
  execute db q args s = (s', Return (Rows rs)) → executeQuery db q args s = (s', Return rs).
Proof. intros H. unfold executeQuery, mbind, M_bind, sql. by rewrite H. Qed.
Lemma executeUpdate_run q args g s s' :
  execute db q args s = (s', Return (Updated g)) → executeUpdate db q args s = (s', Return g).
Proof. intros H. unfold executeUpdate, mbind, M_bind, sql. by rewrite H. Qed.

Lemma execute_closed {A} q args (f : sql_reply → M (sqlexn + jexn) DB A) s :
  is_open s = false → ∃ e, (sql (execute db q args) ≫= f) s = (s, Throw (inl e)).
Proof.
  intros [msg H]%(law_closed q args). exists (SQLException msg).
  unfold mbind, M_bind, sql. by rewrite H.
Qed.

Lemma query_closed {A} q args (k : list row → M (sqlexn + jexn) DB A) h s :
  is_open s = false → catch_sql (executeQuery db q args ≫= k) h s = h s.
Proof.
  intros H. unfold catch_sql, executeQuery. rewrite bind_assoc.
  by destruct (execute_closed q args (λ r, match r with Rows rs => mret rs | Updated _ => sql_error "query does not return ResultSet" end ≫= k) s H) as [e ->].
Qed.
Lemma update_closed {A} q args (k : list Z → M (sqlexn + jexn) DB A) h s :
  is_open s = false → catch_sql (executeUpdate db q args ≫= k) h s = h s.
Proof.
  intros H. unfold catch_sql, executeUpdate. rewrite bind_assoc.
  by destruct (execute_closed q args (λ r, match r with Updated g => mret g | Rows _ => sql_error "query returns results" end ≫= k) s H) as [e ->].
Qed.

(** The pattern of all methods: one statement, a reading of its result, and
    a handler for a failing connection. *)
Lemma refines_query {A} q args (k : list row → M (sqlexn + jexn) DB A) h m d :
  refines R eq h d →
  (∀ s a, R s a → is_open s = true → a_open a = true → ∃ s' rs x,
     execute db q args s = (s', Return (Rows rs)) ∧ k rs s' = (s', Return x)
     ∧ m a = (a, Return x) ∧ R s' a) →
  refines R eq (catch_sql (executeQuery db q args ≫= k) h) (if_open m d).
Proof.
  intros Hh Hm s a HR. unfold if_open. destruct (a_open a) eqn:Ho.
  - destruct (Hm s a HR) as (s' & rs & x & Hx & Hk & Hma & HR'); [by destruct HR; congruence|done|].
    right. unfold catch_sql.
    rewrite (bind_return _ _ _ _ _ (executeQuery_run _ _ _ _ _ Hx)), Hk, Hma.
    split; [done|]. by constructor.
  - rewrite query_closed by (destruct HR; congruence). by apply Hh.
Qed.

Lemma refines_update {A} q args (k : list Z → M (sqlexn + jexn) DB A) h m d :
  refines R eq h d →
  (∀ s a, R s a → is_open s = true → a_open a = true →
     (m a).2 = Undefined ∨ ∃ s' a' g x,
     execute db q args s = (s', Return (Updated g)) ∧ k g s' = (s', Return x)
     ∧ m a = (a', Return x) ∧ R s' a') →
  refines R eq (catch_sql (executeUpdate db q args ≫= k) h) (if_open m d).
Proof.
  intros Hh Hm s a HR. unfold if_open. destruct (a_open a) eqn:Ho.
  - destruct (Hm s a HR) as [?|(s' & a' & g & x & Hx & Hk & Hma & HR')];
      [by destruct HR; congruence|done|by left|].
    right. unfold catch_sql.
    rewrite (bind_return _ _ _ _ _ (executeUpdate_run _ _ _ _ _ Hx)), Hk, Hma.
    split; [done|]. by constructor.
  - rewrite update_closed by (destruct HR; congruence). by apply Hh.
Qed.

Lemma read_entry_run e s :
  read_entry db (log_columns (log_row e)) s = (s, Return (stored e)).
Proof. done. Qed.

Lemma read_entries_run es s :
  read_entries db (log_columns <$> (log_row <$> es)) s = (s, Return (stored <$> es)).
Proof.
  induction es as [|e es IH]; [done|]. csimpl.
  rewrite (bind_return _ _ _ _ _ (read_entry_run e s)).
  by rewrite (bind_return _ _ _ _ _ IH).
Qed.

Lemma log_stored_map l : log_stored l → stored <$> l = l.
Proof. induction 1 as [|e l He _ IH]; csimpl; congruence. Qed.

Lemma log_stored_range l a b : log_stored l → log_stored (log_range a b l).
Proof. intros. by apply Forall_drop, Forall_take. Qed.

Lemma log_stored_at l i e : log_stored l → log_at i l = Some e → stored e = e.
Proof. intros Hst [_ ?]%log_at_Some. by eapply Forall_lookup_1 in Hst. Qed.

(** What a related state says, for a method about to run. *)
Lemma rel_inv s a : R s a → ∃ m rows,
  t_kv (tables s) = Some (SText <$> a_kv a) ∧ t_logs (tables s) = Some m
  ∧ t_state (tables s) = Some rows ∧ log_rel m (a_log a) ∧ state_rel rows a
  ∧ log_stored (a_log a).
Proof. intros (_ & m & rows & -> & ? & ? & ?). eauto 10. Qed.

Lemma rel_keep s s' a : R s a → tables s' = id (tables s) → is_open s' = true →
  a_open a = true → R s' a.
Proof. intros [? HT] Ht ? ?. split; [congruence|]. by rewrite Ht. Qed.

Lemma refines_append e : refines R eq (sqlite_appendLogEntry db e) (appendLogEntry e).
Proof.
  apply refines_update; [apply refines_throw|]. intros s a HR Ho Hoa. unfold abs_append.
  destruct (rel_inv _ _ HR) as (m & rows & _ & Hm & _ & Hlr & Hsr & Hst).
  destruct (Z.ltb_spec (last_index (a_log a)) long_max); [right|by left].
  pose proof (max_rowid_rel _ _ Hlr) as Hmax.
  destruct (law_insert_log s m (SInt (le_term e)) (SText (le_key e)) (SText (le_value e)))
    as (s' & Hx & Ht & Ho'); [done|done|lia|]. rewrite Hmax in Hx, Ht.
  eexists s', _, _, _. split_and!; [exact Hx|done|reflexivity|]. split; [simpl; congruence|].
  destruct HR as [_ (m' & rows' & HT & Hlr' & Hsr' & _)]. rewrite HT in Hm. simplify_eq/=.
  rewrite HT in Ht. eexists _, _. split_and!; [exact Ht|by apply log_rel_append|exact Hsr'|].
  by apply Forall_app_2; [|repeat constructor].
Qed.

Lemma refines_getLogEntries x y : refines R eq (sqlite_getLogEntries db x y) (getLogEntries x y).
Proof.
  apply refines_query; [apply refines_throw|]. intros s a HR Ho Hoa.
  destruct (rel_inv _ _ HR) as (m & rows & _ & Hm & _ & Hlr & _ & Hst).
  destruct (law_select_range s m x y Ho Hm) as (rs & (s' & Hx & Ht & Ho') & _).
  assert (Hx' := Hx). apply (scan_range s m) in Hx'; [|done|done].
  rewrite (rows_between_range _ _ Hlr) in Hx'.
  eexists s', _, _. split_and!; [exact Hx|rewrite Hx'; apply read_entries_run| |].
  - by rewrite log_stored_map by by apply log_stored_range.
  - by eapply rel_keep.
Qed.

Lemma refines_getLogEntry i : refines R eq (sqlite_getLogEntry db i) (getLogEntry i).
Proof.
  apply refines_query; [apply refines_throw|]. intros s a HR Ho Hoa.
  destruct (rel_inv _ _ HR) as (m & rows & _ & Hm & _ & Hlr & _ & Hst).
  destruct (law_select_entry s m i Ho Hm) as (s' & Hx & Ht & Ho'). rewrite Hlr in Hx.
  eexists s', _, (log_at i (a_log a)). split_and!; [exact Hx| |done|by eapply rel_keep].
  destruct (log_at i (a_log a)) as [e|] eqn:He; csimpl; [|done].
  rewrite (bind_return _ _ _ _ _ (read_entry_run e s')).
  by erewrite log_stored_at.
Qed.

Lemma refines_getLastLogIndex : refines R eq (sqlite_getLastLogIndex db) getLastLogIndex.
Proof.
  apply refines_query; [apply refines_throw|]. intros s a HR Ho Hoa.
  destruct (rel_inv _ _ HR) as (m & rows & _ & Hm & _ & Hlr & _ & Hst).
  destruct (law_select_max s m Ho Hm) as (s' & Hx & Ht & Ho').
  rewrite (max_rowid_cell _ _ Hlr) in Hx.
  eexists s', _, _. split_and!; [exact Hx| |done|by eapply rel_keep].
  case_decide as Hnil; [by rewrite Hnil|done].
Qed.

Lemma refines_getLastLogTerm : refines R eq (sqlite_getLastLogTerm db) getLastLogTerm.
Proof.
  intros s a HR. right.
  unfold getLastLogTerm, AbsStorage_Storage, if_open, sqlite_getLastLogTerm.
  destruct (a_open a) eqn:Ho; simpl.
  - destruct (refines_return R _ _ s a a (last_index (a_log a)) refines_getLastLogIndex HR)
      as (s' & Hx & HR'); [by apply (if_open_run _ Ho)|].
    rewrite (bind_return _ _ _ _ _ Hx), last_term_spec.
    destruct (Z.ltb_spec 0 (last_index (a_log a))); simpl.
    + destruct (refines_return R _ _ s' a a (log_at (last_index (a_log a)) (a_log a))
        (refines_getLogEntry (last_index (a_log a))) HR')
        as (s'' & Hy & HR''); [by apply (if_open_run _ Ho)|].
      rewrite (bind_return _ _ _ _ _ Hy). split; [done|]. by constructor.
    + split; [done|]. unfold log_at. rewrite (proj2 (Z.leb_le _ _)) by done. by constructor.
  - destruct (refines_throws R _ _ s a a (RuntimeException "Failed to get log index")
      refines_getLastLogIndex HR) as (s' & Hx & HR');
      [by unfold getLastLogIndex, AbsStorage_Storage, abs_lastLogIndex, if_open; rewrite Ho|].
    rewrite (bind_throw _ _ _ _ _ Hx). split; [done|]. constructor.
Qed.

Lemma refines_getCommitIndex : refines R eq (sqlite_getCommitIndex db) getCommitIndex.
Proof.
  apply refines_query; [by apply refines_ret|]. intros s a HR Ho Hoa.
  destruct (rel_inv _ _ HR) as (m & rows & _ & _ & Hrows & _ & Hsr & _).
  destruct (law_select_commit s rows Ho Hrows) as (rs & (s' & Hx & Ht & Ho') & _).
  assert (Hx' := Hx). apply (scan_commit s rows) in Hx'; [|done|done].
  destruct Hsr as (r & rs' & -> & _ & Hc).
  eexists s', _, _. split_and!; [exact Hx| |done|by eapply rel_keep].
  rewrite Hx'. csimpl. unfold getLong. by simpl; rewrite Hc.
Qed.

Lemma refines_getLastApplied : refines R eq (sqlite_getLastApplied db) getLastApplied.
Proof.
  apply refines_query; [by apply refines_ret|]. intros s a HR Ho Hoa.
  destruct (rel_inv _ _ HR) as (m & rows & _ & _ & Hrows & _ & Hsr & _).
  destruct (law_select_applied s rows Ho Hrows) as (rs & (s' & Hx & Ht & Ho') & _).
  assert (Hx' := Hx). apply (scan_applied s rows) in Hx'; [|done|done].
  destruct Hsr as (r & rs' & -> & Ha & _).
  eexists s', _, _. split_and!; [exact Hx| |done|by eapply rel_keep].
  rewrite Hx'. csimpl. unfold getLong. by simpl; rewrite Ha.
Qed.

(** An update of one of the tables that keeps it related. *)
Lemma refines_swallow q args (f : Tables → Tables) (g : AbsStorage → AbsStorage) :
  (∀ s a, R s a → is_open s = true → ∃ ks, stmt q args f (Updated ks) s) →
  (∀ t a, tables_rel t a → tables_rel (f t) (g a)) →
  (∀ a, a_open (g a) = a_open a) →
  refines R eq (swallow (executeUpdate db q args)) (if_open (modify g) (mret ())).
Proof.
  intros Hstmt Hf Hg. apply refines_update; [by apply refines_ret|].
  intros s a HR Ho Hoa. right. destruct (Hstmt s a HR Ho) as (ks & s' & Hx & Ht & Ho').
  eexists s', _, _, _. split_and!; [exact Hx|done|reflexivity|].
  split; [rewrite Hg; congruence|]. rewrite Ht. apply Hf. by destruct HR.
Qed.

Lemma refines_setCommitIndex c : refines R eq (sqlite_setCommitIndex db c) (setCommitIndex c).
Proof.
  apply refines_swallow with (f := with_state (fmap (set_row_commit c))); [| |done].
  - intros s a (m & rows & _ & _ & Hrows & _)%rel_inv Ho. by eapply law_update_commit.
  - intros t a (m & rows & -> & Hlr & (r & rs & -> & Ha & Hc) & Hst).
    eexists _, _. split_and!; [reflexivity|done| |done]. by eexists _, _.
Qed.

Lemma refines_setLastApplied i : refines R eq (sqlite_setLastApplied db i) (setLastApplied i).
Proof.
  apply refines_swallow with (f := with_state (fmap (set_row_applied i))); [| |done].
  - intros s a (m & rows & _ & _ & Hrows & _)%rel_inv Ho. by eapply law_update_applied.
  - intros t a (m & rows & -> & Hlr & (r & rs & -> & Ha & Hc) & Hst).
    eexists _, _. split_and!; [reflexivity|done| |done]. by eexists _, _.
Qed.

Lemma refines_deleteLogEntriesFrom i :
  refines R eq (sqlite_deleteLogEntriesFrom db i) (deleteLogEntriesFrom i).
Proof.
  apply refines_swallow with (f := with_logs (filter (λ '(j, _), j < i))); [| |done].
  - intros s a (m & rows & _ & Hm & _)%rel_inv Ho. by eapply law_delete.
  - intros t a (m & rows & -> & Hlr & Hsr & Hst).
    eexists _, _. split_and!; [reflexivity|by apply log_rel_delete|done|by apply Forall_take].
Qed.

Lemma refines_updateKeyValue k v :
  refines R eq (sqlite_updateKeyValue db k v) (updateKeyValue k v).
Proof.
  apply refines_swallow with (f := with_kv (<[k := SText v]>)); [| |done].
  - intros s a (m & rows & Hkv & _)%rel_inv Ho. by eapply law_replace_kv.
  - intros t a (m & rows & -> & Hlr & Hsr & Hst).
    eexists _, _. split_and!; [|done..]. unfold with_kv; simpl. by rewrite fmap_insert.
Qed.

Lemma refines_get k : refines R eq (sqlite_get db k) (storage_get k).
Proof.
  apply refines_query; [by apply refines_ret|]. intros s a HR Ho Hoa.
  destruct (rel_inv _ _ HR) as (m & rows & Hkv & _).
  destruct (law_select_kv s _ k Ho Hkv) as (s' & Hx & Ht & Ho'). rewrite lookup_fmap in Hx.
  eexists s', _, _. split_and!; [exact Hx| |done|by eapply rel_keep].
  by destruct (a_kv a !! k).
Qed.

Lemma refines_close : refines R eq (sqlite_close db) storage_close.
Proof.
  intros s a HR. right. destruct (law_disconnect s) as (s' & Hx & Ht & Ho).
  unfold sqlite_close, catch_sql, sql. rewrite Hx. split; [|by constructor].
  split; [done|]. simpl. rewrite Ht. destruct HR as [_ (m & rows & ? & ? & ? & ?)].
  by eexists _, _.
Qed.
End refinement.

#[export] Instance SQLite_StorageRefines {DB} (db : JDBC DB) `{!EngineLaws db, !ScanOrder db} :
  @StorageRefines DB (SQLite_Storage db) (sqlite_rel db).
Proof.
  split; intros; simpl;
    eauto using refines_append, refines_getLogEntries, refines_getLogEntry,
      refines_getLastLogIndex, refines_getLastLogTerm, refines_getCommitIndex,
      refines_setCommitIndex, refines_getLastApplied, refines_setLastApplied,
      refines_deleteLogEntriesFrom, refines_updateKeyValue, refines_get, refines_close.
Qed.

(** ** The constructor *)

Section constructor.
Context {DB : Type} (db : JDBC DB) `{!EngineLaws db}.

(** The rows a (re)start finds in [state], and the tables it leaves. *)
Definition initialized (t : Tables) : Tables :=
  mkTables (Some (default ∅ (t_kv t))) (Some (default ∅ (t_logs t)))
    (Some (default [] (t_state t) ++ [initial_state_row])).

Lemma sql_run q args f r s :
  stmt q args f r s → ∃ s', sql (execute db q args) s = (s', Return r)
    ∧ tables s' = f (tables s) ∧ is_open s' = true.
Proof. intros (s' & H & ? & ?). exists s'. unfold sql. by rewrite H. Qed.

Lemma initializeDatabase_run s : is_open s = true →
  ∃ s', initializeDatabase db s = (s', Return ()) ∧ tables s' = initialized (tables s)
        ∧ is_open s' = true.
Proof.
  intros Ho.
  destruct (sql_run _ _ _ _ _ (law_create_kv s Ho)) as (s1 & H1 & T1 & O1).
  destruct (sql_run _ _ _ _ _ (law_create_logs s1 O1)) as (s2 & H2 & T2 & O2).
  destruct (sql_run _ _ _ _ _ (law_create_state s2 O2)) as (s3 & H3 & T3 & O3).
  destruct (sql_run _ _ _ _ _ (law_init_state s3 (default [] (t_state (tables s2))) O3
    ltac:(by rewrite T3))) as (s4 & H4 & T4 & O4).
  exists s4. unfold initializeDatabase, catch_sql. msteps. split; [done|]. split; [|done].
  rewrite T4, T3, T2, T1. done.
Qed.

Lemma SQLiteStorage_run url s s0 :
  connect db url s = (s0, Return ()) → tables s0 = tables s → is_open s0 = true →
  ∃ s', SQLiteStorage db url s = (s', Return ()) ∧ tables s' = initialized (tables s)
        ∧ is_open s' = true.
Proof.
  intros Hc Ht Ho. destruct (initializeDatabase_run s0 Ho) as (s' & Hi & Hi' & ?).
  exists s'. rewrite <-Ht. split; [|done]. unfold SQLiteStorage.
  assert (catch_sql (sql (createConnection db url);; mret ())
            (throw (RuntimeException "Failed to initialize database")) s = (s0, Return ())) as Hx.
  { unfold catch_sql, createConnection, mbind, M_bind, sql. by rewrite Hc. }
  by rewrite (bind_return _ _ _ _ _ Hx).
Qed.

Definition empty_storage : AbsStorage := mkAbs [] 0 0 ∅ true.

Lemma initialized_empty : tables_rel (initialized no_tables) empty_storage.
Proof.
  eexists _, _. split_and!; [reflexivity| | |].
  - intros i. cbn [a_log empty_storage]. unfold log_at. by destruct (i <=? 0).
  - by eexists _, _.
  - constructor.
Qed.

Lemma initialized_restart t a :
  tables_rel t a → tables_rel (initialized t) (set_open true a).
Proof.
  intros (m & rows & -> & Hlr & (r & rs & -> & Ha & Hc) & Hst).
  eexists _, _. split_and!; [reflexivity|done| |done]. by eexists _, _.
Qed.
End constructor.
