(* ===== verification/MemoryEngine.v ===== *)
(** * An in-memory engine that satisfies the laws of [SQLiteStorage.v]

    A function from statements to tables, so that the hypotheses of the
    storage theorems are met by a concrete database and the examples can be
    evaluated. *)

From S2P Require Import Prelude.
From S2P Require Import Java.
From S2P Require Import Messages.
From S2P Require Import Storage.
From S2P Require Import SQLiteStorage.
From stdpp Require Import base gmap strings list.
#[local] Open Scope Z_scope.

Record MemDB : Type := mkMem { mem_tables : Tables; mem_open : bool }.

Definition on_tables (f : Tables → Tables) (d : MemDB) : MemDB :=
  mkMem (f (mem_tables d)) (mem_open d).

Definition sql_fail {A} : M sqlexn MemDB A := throw (SQLException "no such table or bad parameters").

Definition update (f : Tables → Tables) (g : list Z) : M sqlexn MemDB sql_reply :=
  modify (on_tables f);; mret (Updated g).

Definition with_table {T} (get : Tables → option T) (k : T → M sqlexn MemDB sql_reply) :
    M sqlexn MemDB sql_reply :=
  o ← gets (λ d, get (mem_tables d));
  match o with Some t => k t | None => sql_fail end.

Definition select {T} (get : Tables → option T) (f : T → list row) : M sqlexn MemDB sql_reply :=
  with_table get (λ t, mret (Rows (f t))).

Definition mem_schema (q : string) : option (M sqlexn MemDB sql_reply) :=
  if String.eqb q CREATE_KV then
    Some (update (λ t, mkTables (Some (default ∅ (t_kv t))) (t_logs t) (t_state t)) [])
  else if String.eqb q CREATE_LOGS then
    Some (update (λ t, mkTables (t_kv t) (Some (default ∅ (t_logs t))) (t_state t)) [])
  else if String.eqb q CREATE_STATE then
    Some (update (λ t, mkTables (t_kv t) (t_logs t) (Some (default [] (t_state t)))) [])
  else if String.eqb q INIT_STATE then
    Some (update (with_state (λ l, l ++ [initial_state_row])) [])
  else if String.eqb q SELECT_MAX then
    Some (select t_logs (λ m,
      [[("MAX(index)", match max_rowid m with Some i => SInt i | None => SNull end)]]))
  else if String.eqb q SELECT_COMMIT then
    Some (select t_state (fmap (λ r, [("commitIndex", sr_commitIndex r)])))
  else if String.eqb q SELECT_APPLIED then
    Some (select t_state (fmap (λ r, [("lastApplied", sr_lastApplied r)])))
  else None.

Definition mem_statement (q : string) (args : list sqlval) : M sqlexn MemDB sql_reply :=
  match args with
  | [t; k; v] =>
      if String.eqb q INSERT_LOG then
        with_table t_logs (λ m,
          let i := default 0 (max_rowid m) + 1 in
          update (with_logs (<[i := {| lr_term := t; lr_key := k; lr_value := v |}]>)) [i])
      else sql_fail
  | [SInt a; SInt b] =>
      if String.eqb q SELECT_RANGE
      then select t_logs (λ m, log_columns <$> rows_between a b m) else sql_fail
  | [SText k; v] =>
      if String.eqb q REPLACE_KV
      then with_table t_kv (λ _, update (with_kv (<[k := v]>)) []) else sql_fail
  | [SInt i] =>
      if String.eqb q SELECT_ENTRY
      then select t_logs (λ m, log_columns <$> option_list (m !! i))
      else if String.eqb q DELETE_FROM
      then with_table t_logs (λ _, update (with_logs (filter (λ '(j, _), j < i))) [])
      else if String.eqb q UPDATE_COMMIT
      then with_table t_state (λ _, update (with_state (fmap (set_row_commit i))) [])
      else if String.eqb q UPDATE_APPLIED
      then with_table t_state (λ _, update (with_state (fmap (set_row_applied i))) [])
      else sql_fail
  | [SText k] =>
      if String.eqb q SELECT_KV
      then select t_kv (λ m, (λ v, [("value", v)]) <$> option_list (m !! k)) else sql_fail
  | [] => match mem_schema q with Some m => m | None => sql_fail end
  | _ => sql_fail
  end.

Definition mem_jdbc : JDBC MemDB := {|
  connect _ := modify (λ d, mkMem (mem_tables d) true);
  execute q args :=
    o ← gets mem_open; if o : bool then mem_statement q args else throw (SQLException "closed");
  disconnect := modify (λ d, mkMem (mem_tables d) false);
  long_of_text _ := 0;
  text_of_long _ := "";
|}.

Lemma mem_execute_open q args t :
  execute mem_jdbc q args (mkMem t true) = mem_statement q args (mkMem t true).
Proof. done. Qed.


#[export] Instance mem_laws : EngineLaws mem_jdbc.
Proof.
  refine {| tables := mem_tables; is_open := mem_open |}.
  - intros q args [t []]; simpl; [done|]. eauto.
  - intros [t o]. eexists. split_and!; reflexivity.
  - intros [t []] ?; [|done]. eexists. split_and!; reflexivity.
  - intros [t []] ?; [|done]. eexists. split_and!; reflexivity.
  - intros [t []] ?; [|done]. eexists. split_and!; reflexivity.
  - intros [t []] l ??; [|done]. eexists. split_and!; reflexivity.
  - intros [[] []] m t k v ???; simplify_eq/=. destruct t, k; eexists; split_and!; reflexivity.
  - intros [[] []] m a b ??; simplify_eq/=.
    eexists. split; [eexists; split_and!; reflexivity|done].
  - intros [[] []] m i ??; simplify_eq/=. eexists. split_and!; reflexivity.
  - intros [[] []] m ??; simplify_eq/=. eexists. split_and!; reflexivity.
  - intros [[] []] m i ??; simplify_eq/=. eexists _, _. split_and!; reflexivity.
  - intros [[] []] l ??; simplify_eq/=.
    eexists. split; [eexists; split_and!; reflexivity|done].
  - intros [[] []] l ??; simplify_eq/=.
    eexists. split; [eexists; split_and!; reflexivity|done].
  - intros [[] []] l c ??; simplify_eq/=. eexists _, _. split_and!; reflexivity.
  - intros [[] []] l c ??; simplify_eq/=. eexists _, _. split_and!; reflexivity.
  - intros [[] []] m k v ??; simplify_eq/=. eexists _, _. split_and!; reflexivity.
  - intros [[] []] m k ??; simplify_eq/=. eexists. split_and!; reflexivity.
Defined.

#[export] Instance mem_scan : ScanOrder mem_jdbc.
Proof.
  split.
  - intros [[] []] m a b s' rs ?? H; simplify_eq/=. by inversion H.
  - intros [[] []] l s' rs ?? H; simplify_eq/=. by inversion H.
  - intros [[] []] l s' rs ?? H; simplify_eq/=. by inversion H.
Qed.

Definition mem_empty : MemDB := mkMem no_tables false.
