(* ===== verification/StorageReplies.v ===== *)
(** * What SQLiteStorage makes of the answers of its engine

    [server/src/main/java/com/kvstore/storage/SQLiteStorage.java], over any JDBC
    driver and any engine behind it: the exception or the silence with which each
    method answers a statement that fails, and the value it reads out of the rows
    of one that succeeds. *)

From S2P Require Import Prelude.
From S2P Require Import Java.
From S2P Require Import Messages.
From S2P Require Import Storage.
From S2P Require Import SQLiteStorage.
From S2P Require Import MemoryEngine.
From stdpp Require Import base gmap strings list.
From Stdlib Require Import Lia.
#[local] Open Scope Z_scope.

Section replies.
Context {DB : Type} (db : JDBC DB).

(** The outcome of one statement, run in [s]. *)
Definition fails (q : string) (args : list sqlval) (s s' : DB) : Prop :=
  ∃ msg, execute db q args s = (s', Throw (SQLException msg)).
Definition finds (q : string) (args : list sqlval) (s s' : DB) (rs : list row) : Prop :=
  execute db q args s = (s', Return (Rows rs)).
Definition updates (q : string) (args : list sqlval) (s s' : DB) (generated : list Z) : Prop :=
  execute db q args s = (s', Return (Updated generated)).

(** The parameters of the insertion of an entry. *)
Definition entry_args (e : LogEntry) : list sqlval :=
  [SInt (le_term e); SText (le_key e); SText (le_value e)].

(** ** Statements that fail *)

Lemma query_fails {A} q args (k : list row → M (sqlexn + jexn) DB A) h s s' :
  fails q args s s' → catch_sql (executeQuery db q args ≫= k) h s = h s'.
Proof.
  intros [msg H]. unfold catch_sql, executeQuery, mbind, M_bind, sql. by rewrite H.
Qed.

Lemma update_fails {A} q args (k : list Z → M (sqlexn + jexn) DB A) h s s' :
  fails q args s s' → catch_sql (executeUpdate db q args ≫= k) h s = h s'.
Proof.
  intros [msg H]. unfold catch_sql, executeUpdate, mbind, M_bind, sql. by rewrite H.
Qed.

Lemma query_finds {A} q args (k : list row → M (sqlexn + jexn) DB A) h s s' rs :
  finds q args s s' rs → catch_sql (executeQuery db q args ≫= k) h s = catch_sql (k rs) h s'.
Proof.
  unfold finds. intros H. unfold catch_sql, executeQuery, mbind, M_bind, sql. by rewrite H.
Qed.

Lemma update_done {A} q args (k : list Z → M (sqlexn + jexn) DB A) h s s' g :
  updates q args s s' g → catch_sql (executeUpdate db q args ≫= k) h s = catch_sql (k g) h s'.
Proof.
  unfold updates. intros H. unfold catch_sql, executeUpdate, mbind, M_bind, sql. by rewrite H.
Qed.

Lemma lastIndex_fails s s' :
  fails SELECT_MAX [] s s' →
  sqlite_getLastLogIndex db s = (s', Throw (RuntimeException "Failed to get log index")).
Proof. intros H. unfold sqlite_getLastLogIndex. by rewrite (query_fails _ _ _ _ _ _ H). Qed.

Lemma entry_fails i s s' :
  fails SELECT_ENTRY [SInt i] s s' →
  sqlite_getLogEntry db i s = (s', Throw (RuntimeException "Failed to get log entry")).
Proof. intros H. unfold sqlite_getLogEntry. by rewrite (query_fails _ _ _ _ _ _ H). Qed.

Lemma swallow_fails q args s s' :
  fails q args s s' → swallow (executeUpdate db q args) s = (s', Return ()).
Proof. intros H. unfold swallow. by rewrite (update_fails _ _ _ _ _ _ H). Qed.

(** C7: whatever the engine, a method of the log whose statement fails throws a
    [RuntimeException] with its message, and the others go on as if nothing had
    happened: the indices are read as 0, a key as absent, and a write or a
    deletion that failed, of log entries too, returns as one that succeeded. *)
Theorem storage_failures s s' :
  (∀ e, fails INSERT_LOG (entry_args e) s s' →
     sqlite_appendLogEntry db e s = (s', Throw (RuntimeException "Failed to append log entry")))
  ∧ (∀ a b, fails SELECT_RANGE [SInt a; SInt b] s s' →
     sqlite_getLogEntries db a b s = (s', Throw (RuntimeException "Failed to get log entries")))
  ∧ (∀ i, fails SELECT_ENTRY [SInt i] s s' →
     sqlite_getLogEntry db i s = (s', Throw (RuntimeException "Failed to get log entry")))
  ∧ (fails SELECT_MAX [] s s' →
     sqlite_getLastLogIndex db s = (s', Throw (RuntimeException "Failed to get log index"))
     ∧ sqlite_getLastLogTerm db s = (s', Throw (RuntimeException "Failed to get log index")))
  ∧ (fails SELECT_COMMIT [] s s' → sqlite_getCommitIndex db s = (s', Return 0))
  ∧ (fails SELECT_APPLIED [] s s' → sqlite_getLastApplied db s = (s', Return 0))
  ∧ (∀ i, fails UPDATE_COMMIT [SInt i] s s' → sqlite_setCommitIndex db i s = (s', Return ()))
  ∧ (∀ i, fails UPDATE_APPLIED [SInt i] s s' → sqlite_setLastApplied db i s = (s', Return ()))
  ∧ (∀ i, fails DELETE_FROM [SInt i] s s' → sqlite_deleteLogEntriesFrom db i s = (s', Return ()))
  ∧ (∀ k v, fails REPLACE_KV [SText k; SText v] s s' →
     sqlite_updateKeyValue db k v s = (s', Return ()))
  ∧ (∀ k, fails SELECT_KV [SText k] s s' → sqlite_get db k s = (s', Return None))
  ∧ ∀ e, disconnect db s = (s', Throw e) → sqlite_close db s = (s', Return ()).
Proof.
  split_and!; try (intros; by apply swallow_fails).
  - intros e H. unfold sqlite_appendLogEntry. by rewrite (update_fails _ _ _ _ _ _ H).
  - intros a b H. unfold sqlite_getLogEntries. by rewrite (query_fails _ _ _ _ _ _ H).
  - intros i. apply entry_fails.
  - intros H%lastIndex_fails. split; [done|]. unfold sqlite_getLastLogTerm. by apply bind_throw.
  - intros H. unfold sqlite_getCommitIndex, state_get. by rewrite (query_fails _ _ _ _ _ _ H).
  - intros H. unfold sqlite_getLastApplied, state_get. by rewrite (query_fails _ _ _ _ _ _ H).
  - intros k H. unfold sqlite_get. by rewrite (query_fails _ _ _ _ _ _ H).
  - intros e H. unfold sqlite_close, catch_sql, sql. by rewrite H.
Qed.

(** ** Statements that succeed *)

(** The cells of a row of [logs], and the entry they are read as: NULL is 0 for
    a number, and a string that is NULL is refused by the builder. *)
Abbreviation Cells := (sqlval * sqlval * sqlval)%type.
Definition cells_row (c : Cells) : row :=
  let '(term, key, value) := c in [("term", term); ("key", key); ("value", value)].
Definition cells_entry (c : Cells) : option LogEntry :=
  let '(term, key, value) := c in
  key ← string_of db key; value ← string_of db value; Some (log_entry (long_of db term) key value).

Definition or_null_pointer {A} (o : option A) : outcome jexn A :=
  match o with Some a => Return a | None => Throw NullPointerException end.

Lemma read_cells c s :
  read_entry db (cells_row c) s
  = (s, match cells_entry c with Some e => Return e | None => Throw (inr NullPointerException) end).
Proof.
  destruct c as [[t k] v]. unfold read_entry, getLong, getString, builder_string. simpl.
  unfold mbind, M_bind, fmap, M_fmap, mret, M_ret. simpl.
  destruct (string_of db k); simpl; [|done]. by destruct (string_of db v).
Qed.

Lemma read_all_cells cs s :
  read_entries db (cells_row <$> cs) s
  = (s, match mapM cells_entry cs with
        | Some es => Return es | None => Throw (inr NullPointerException) end).
Proof.
  induction cs as [|c cs IH]; [done|]. csimpl. unfold mbind at 1, M_bind at 1. rewrite read_cells.
  destruct (cells_entry c) as [e|]; simpl; [|done]. unfold mbind, M_bind. rewrite IH.
  by destruct (mapM cells_entry cs).
Qed.

Lemma lastIndex_finds s s' label v rs :
  finds SELECT_MAX [] s s' (((label, v) :: []) :: rs) →
  sqlite_getLastLogIndex db s = (s', Return (long_of db v)).
Proof. intros H. unfold sqlite_getLastLogIndex. by rewrite (query_finds _ _ _ _ _ _ _ H). Qed.

Lemma entry_finds i s s' cs :
  finds SELECT_ENTRY [SInt i] s s' (cells_row <$> cs) →
  sqlite_getLogEntry db i s
  = (s', match cs with
         | [] => Return None
         | c :: _ => or_null_pointer (Some <$> cells_entry c)
         end).
Proof.
  intros H. unfold sqlite_getLogEntry. rewrite (query_finds _ _ _ _ _ _ _ H).
  destruct cs as [|c cs]; [done|]. cbn [fmap list_fmap].
  unfold catch_sql, mbind, M_bind. rewrite read_cells. by destruct (cells_entry c).
Qed.

Lemma swallow_done q args s s' g :
  updates q args s s' g → swallow (executeUpdate db q args) s = (s', Return ()).
Proof. intros H. unfold swallow. by rewrite (update_done _ _ _ _ _ _ _ H). Qed.

(** C6: whatever the engine, the methods read its answers so: an inserted entry
    has the first generated key, and without one the insertion counts as failed;
    the entries of a range are the rows in the order in which they come, NULL as
    a key or a value of any of them being a [NullPointerException] that no
    handler catches; of the other queries the first row counts, NULL being 0, or
    no value of the key; the last term is that of the entry at the last index. *)
Theorem storage_replies s s' :
  (∀ e g, updates INSERT_LOG (entry_args e) s s' g →
     sqlite_appendLogEntry db e s
     = (s', match g with
            | k :: _ => Return k
            | [] => Throw (RuntimeException "Failed to append log entry")
            end))
  ∧ (∀ a b cs, finds SELECT_RANGE [SInt a; SInt b] s s' (cells_row <$> cs) →
     sqlite_getLogEntries db a b s = (s', or_null_pointer (mapM cells_entry cs)))
  ∧ (∀ i cs, finds SELECT_ENTRY [SInt i] s s' (cells_row <$> cs) →
     sqlite_getLogEntry db i s
     = (s', match cs with
            | [] => Return None
            | c :: _ => or_null_pointer (Some <$> cells_entry c)
            end))
  ∧ (∀ label v rs, finds SELECT_MAX [] s s' ([(label, v)] :: rs) →
     sqlite_getLastLogIndex db s = (s', Return (long_of db v))
     ∧ sqlite_getLastLogTerm db s
       = (if 0 <? long_of db v
          then e ← sqlite_getLogEntry db (long_of db v); mret (from_option le_term 0 e)
          else mret 0) s')
  ∧ (∀ v rs, finds SELECT_COMMIT [] s s' ([("commitIndex", v)] :: rs) →
     sqlite_getCommitIndex db s = (s', Return (long_of db v)))
  ∧ (∀ v rs, finds SELECT_APPLIED [] s s' ([("lastApplied", v)] :: rs) →
     sqlite_getLastApplied db s = (s', Return (long_of db v)))
  ∧ (∀ k vs, finds SELECT_KV [SText k] s s' ((λ v, [("value", v)]) <$> vs) →
     sqlite_get db k s = (s', Return (head vs ≫= string_of db)))
  ∧ (∀ i g, updates DELETE_FROM [SInt i] s s' g →
     sqlite_deleteLogEntriesFrom db i s = (s', Return ()))
  ∧ ∀ k v g, updates REPLACE_KV [SText k; SText v] s s' g →
     sqlite_updateKeyValue db k v s = (s', Return ()).
Proof.
  split_and!; try (intros; by eapply swallow_done).
  - intros e g H. unfold sqlite_appendLogEntry. rewrite (update_done _ _ _ _ _ _ _ H). by destruct g.
  - intros a b cs H. unfold sqlite_getLogEntries. rewrite (query_finds _ _ _ _ _ _ _ H).
    unfold catch_sql. rewrite read_all_cells. by destruct (mapM cells_entry cs).
  - intros i cs. apply entry_finds.
  - intros label v rs H. apply lastIndex_finds in H. split; [done|].
    unfold sqlite_getLastLogTerm. rewrite (bind_return _ _ _ _ _ H).
    by destruct (0 <? long_of db v).
  - intros v rs H. unfold sqlite_getCommitIndex, state_get. by rewrite (query_finds _ _ _ _ _ _ _ H).
  - intros v rs H. unfold sqlite_getLastApplied, state_get. by rewrite (query_finds _ _ _ _ _ _ _ H).
  - intros k vs H. unfold sqlite_get. rewrite (query_finds _ _ _ _ _ _ _ H). by destruct vs.
Qed.
End replies.

(** ** On the in-memory engine *)

(** Before its tables are there every statement fails, and so does a closed one. *)
Lemma storage_failures_witness :
  sqlite_deleteLogEntriesFrom mem_jdbc 1 (mkMem no_tables true) = (mkMem no_tables true, Return ())
  ∧ sqlite_getLastLogTerm mem_jdbc mem_empty
    = (mem_empty, Throw (RuntimeException "Failed to get log index")).
Proof.
  destruct (storage_failures mem_jdbc (mkMem no_tables true) (mkMem no_tables true))
    as (_ & _ & _ & _ & _ & _ & _ & _ & Hdelete & _).
  destruct (storage_failures mem_jdbc mem_empty mem_empty) as (_ & _ & _ & Hmax & _).
  split; [apply Hdelete; by eexists|apply Hmax; by eexists].
Defined.

(** A log whose second row has no key. *)
Definition null_key : MemDB :=
  mkMem (mkTables (Some ∅)
    (Some {[1 := {| lr_term := SInt 3; lr_key := SText "a"; lr_value := SText "1" |};
            2 := {| lr_term := SNull; lr_key := SNull; lr_value := SText "2" |}]})
    (Some [])) true.

Lemma storage_replies_witness :
  sqlite_getLogEntries mem_jdbc 1 1 null_key = (null_key, Return [log_entry 3 "a" "1"])
  ∧ sqlite_getLogEntries mem_jdbc 1 2 null_key = (null_key, Throw NullPointerException)
  ∧ sqlite_getLastLogIndex mem_jdbc null_key = (null_key, Return 2).
Proof.
  destruct (storage_replies mem_jdbc null_key null_key) as (_ & Hrange & _ & Hmax & _).
  split_and!.
  - apply (Hrange 1 1 [(SInt 3, SText "a", SText "1")]). vm_compute. reflexivity.
  - apply (Hrange 1 2 [(SInt 3, SText "a", SText "1"); (SNull, SNull, SText "2")]).
    vm_compute. reflexivity.
  - apply (Hmax "MAX(index)" (SInt 2) []). vm_compute. reflexivity.
Defined.
