(* ===== verification/StorageStart.v ===== *)
(** * Starting on a database file

    The constructor of [SQLiteStorage.java], lines 12-36, statement by statement:
    a process that stops in the middle of it leaves some of the tables, and the
    next start goes on from there.  [on_file] says what a file stands for in any
    of these states. *)

From S2P Require Import Prelude.
From S2P Require Import Java.
From S2P Require Import Messages.
From S2P Require Import Storage.
From S2P Require Import SQLiteStorage.
From S2P Require Import Concurrency.
From stdpp Require Import base gmap strings list.
From Stdlib Require Import Lia.
#[local] Open Scope Z_scope.

Section split.
Context {DB : Type} (db : JDBC DB).

(** One statement of [initializeDatabase], within its [try]. *)
Definition init_statement (q : string) : M jexn DB () :=
  catch_sql (sql (execute db q []);; mret ())
    (throw (RuntimeException "Failed to initialize database tables")).

Definition split_initializeDatabase : prog jexn DB () :=
  _ ⇐ init_statement CREATE_KV;
  _ ⇐ init_statement CREATE_LOGS;
  _ ⇐ init_statement CREATE_STATE;
  _ ⇐ init_statement INIT_STATE;
  Done tt.

Definition split_SQLiteStorage (dbUrl : string) : prog jexn DB () :=
  _ ⇐ catch_sql (sql (createConnection db dbUrl);; mret ())
        (throw (RuntimeException "Failed to initialize database"));
  split_initializeDatabase.

(** A [try] that turns every exception of its body into one may be cut. *)
Lemma catch_sql_bind {A} (m : M (sqlexn + jexn) DB A) (n : M (sqlexn + jexn) DB ()) e s :
  catch_sql (m;; n) (throw e) s
  = (catch_sql (m;; mret ()) (throw e);; catch_sql n (throw e)) s.
Proof.
  unfold catch_sql, mbind, M_bind. destruct (m s) as [s' [a|[|]|]]; try done.
Qed.

Lemma denote_initializeDatabase s : denote split_initializeDatabase s = initializeDatabase db s.
Proof.
  unfold split_initializeDatabase, initializeDatabase, init_statement. cbn [denote].
  rewrite catch_sql_bind. apply bind_ext. intros _ s1.
  rewrite catch_sql_bind. apply bind_ext. intros _ s2.
  rewrite catch_sql_bind. apply bind_ext. intros _ s3.
  rewrite catch_sql_bind. by apply bind_ext.
Qed.

Lemma denote_SQLiteStorage url s : denote (split_SQLiteStorage url) s = SQLiteStorage db url s.
Proof.
  unfold split_SQLiteStorage, SQLiteStorage. cbn [denote]. apply bind_ext. intros _ s1.
  apply denote_initializeDatabase.
Qed.

(** Starts one after the other, each stopped after so many accesses. *)
Definition interrupted (dbUrl : string) (starts : list nat) (s : DB) : DB :=
  foldl (λ s i, stopped i (split_SQLiteStorage dbUrl) s) s starts.
End split.

(** What a file stands for: the contents that a start finds in it. *)
Definition on_file (t : Tables) (a : AbsStorage) : Prop :=
  tables_rel (initialized t) (set_open true a).

Lemma on_file_empty : on_file no_tables empty_storage.
Proof. apply initialized_empty. Qed.

Lemma on_file_rel t a : tables_rel t a → on_file t a.
Proof. apply initialized_restart. Qed.

Lemma on_file_open t a b : on_file t a → on_file t (set_open b a).
Proof. done. Qed.

Section start.
Context {DB : Type} (db : JDBC DB) `{HL : !EngineLaws db}.

(** [DriverManager.getConnection] on the file of the configuration. *)
Definition connects (url : string) : Prop :=
  ∀ s, ∃ s0, connect db url s = (s0, Return ()) ∧ tables s0 = tables s ∧ is_open s0 = true.

Lemma init_statement_run q f r s :
  stmt q [] f r s → ∃ s', init_statement db q s = (s', Return ())
    ∧ tables s' = f (tables s) ∧ is_open s' = true.
Proof.
  intros (s' & H & ? & ?). exists s'. unfold init_statement, catch_sql, mbind, M_bind, sql.
  by rewrite H.
Qed.

(** No statement fails, and after each the file stands for the same contents. *)
Lemma start_always url s a :
  connects url → on_file (tables s) a →
  always (λ s, on_file (tables s) a) (λ _ s', sqlite_rel db s' (set_open true a))
    (split_SQLiteStorage db url) s.
Proof.
  intros Hc Hf. destruct (Hc s) as (s0 & H0 & T0 & O0).
  destruct (init_statement_run _ _ _ _ (law_create_kv s0 O0)) as (s1 & H1 & T1 & O1).
  destruct (init_statement_run _ _ _ _ (law_create_logs s1 O1)) as (s2 & H2 & T2 & O2).
  destruct (init_statement_run _ _ _ _ (law_create_state s2 O2)) as (s3 & H3 & T3 & O3).
  destruct (init_statement_run _ _ _ _ (law_init_state s3 (default [] (t_state (tables s2))) O3
    ltac:(by rewrite T3))) as (s4 & H4 & T4 & O4).
  assert (Hfull : tables s4 = initialized (tables s)) by (rewrite T4, T3, T2, T1, T0; done).
  assert (Hsame : ∀ t, initialized t = initialized (tables s) → on_file t a).
  { intros t E. unfold on_file. by rewrite E. }
  eapply always_write.
  { unfold createConnection, catch_sql, mbind, M_bind, sql. by rewrite H0. }
  { by rewrite T0. }
  eapply always_write; [exact H1|apply Hsame; by rewrite T1, T0|].
  eapply always_write; [exact H2|apply Hsame; by rewrite T2, T1, T0|].
  eapply always_write; [exact H3|apply Hsame; by rewrite T3, T2, T1, T0|].
  eapply always_write; [exact H4|rewrite Hfull; by apply on_file_rel in Hf|].
  split; [done|]. by rewrite Hfull.
Qed.

Lemma open_run url s a :
  connects url → on_file (tables s) a →
  ∃ s', SQLiteStorage db url s = (s', Return ()) ∧ sqlite_rel db s' (set_open true a).
Proof.
  intros Hc Hf. destruct (always_denote _ _ _ _ (start_always url s a Hc Hf)) as (s' & [] & Hrun & Hs).
  exists s'. by rewrite denote_SQLiteStorage in Hrun.
Qed.

Lemma interrupted_on_file url starts : ∀ s a,
  connects url → on_file (tables s) a → on_file (tables (interrupted db url starts s)) a.
Proof.
  induction starts as [|i starts IH]; intros s a Hc Hf; [done|]. apply IH; [done|].
  apply (always_stopped (λ s, on_file (tables s) a)
    (λ _ s', sqlite_rel db s' (set_open true a)) i (split_SQLiteStorage db url) s Hf).
  by apply start_always.
Qed.

Lemma sqlite_rel_file s a : sqlite_rel db s a → on_file (tables s) a.
Proof. intros [_ Ht]. by apply on_file_rel. Qed.
End start.
