(* ===== verification/StorageScript.v ===== *)
(** * The storage over its whole life

    Over an engine with the laws of SQLiteStorage.v, any sequence of calls, over
    any number of runs of the server on the same database file, each after any
    number of starts that did not get to their end: [SQLiteStorage] answers what
    the abstract storage answers.  And what happens with an engine that refuses
    the schema, as SQLite does. *)

From S2P Require Import Prelude.
From S2P Require Import Java.
From S2P Require Import Messages.
From S2P Require Import Storage.
From S2P Require Import SQLiteStorage.
From S2P Require Import MemoryEngine.
From S2P Require Import Concurrency.
From S2P Require Import StorageStart.
From stdpp Require Import base gmap strings list.
From Stdlib Require Import Lia.
#[local] Open Scope Z_scope.

(** ** Calls *)

Inductive StorageCall : Type :=
| CAppend (e : LogEntry)
| CEntries (startIdx endIdx : Z)
| CEntry (index : Z)
| CLastIndex
| CLastTerm
| CGetCommit
| CSetCommit (i : Z)
| CGetApplied
| CSetApplied (i : Z)
| CDeleteFrom (index : Z)
| CUpdate (key value : string)
| CGet (key : string).

Inductive Answer : Type :=
| ADone
| ANumber (z : Z)
| AEntries (es : list LogEntry)
| AEntry (e : option LogEntry)
| AValue (v : option string).

Section script.
Context {S : Type} `{HS : !Storage S}.

Definition call (c : StorageCall) : M jexn S Answer :=
  match c with
  | CAppend e => ANumber <$> appendLogEntry e
  | CEntries s e => AEntries <$> getLogEntries s e
  | CEntry i => AEntry <$> getLogEntry i
  | CLastIndex => ANumber <$> getLastLogIndex
  | CLastTerm => ANumber <$> getLastLogTerm
  | CGetCommit => ANumber <$> getCommitIndex
  | CSetCommit i => (λ _, ADone) <$> setCommitIndex i
  | CGetApplied => ANumber <$> getLastApplied
  | CSetApplied i => (λ _, ADone) <$> setLastApplied i
  | CDeleteFrom i => (λ _, ADone) <$> deleteLogEntriesFrom i
  | CUpdate k v => (λ _, ADone) <$> updateKeyValue k v
  | CGet k => AValue <$> storage_get k
  end.

(** The answers of a sequence of calls, exceptions included. *)
Fixpoint script (cs : list StorageCall) (s : S) : S * list (outcome jexn Answer) :=
  match cs with
  | [] => (s, [])
  | c :: cs' =>
      let '(s1, o) := call c s in
      let '(s2, os) := script cs' s1 in (s2, o :: os)
  end.

(** Runs of the server on one file: some starts that are interrupted, then
    [open], calls, and the end, with a [close] or without. *)
Record Run : Type := mkRun {
  run_starts : list nat;
  run_calls : list StorageCall;
  run_closes : bool;
}.

Fixpoint sessions (begin : list nat → S → S) (open : M jexn S ()) (runs : list Run) (s : S) :
    S * list (outcome jexn () * list (outcome jexn Answer)) :=
  match runs with
  | [] => (s, [])
  | r :: runs' =>
      let '(s1, o) := open (begin (run_starts r) s) in
      let '(s2, os) := script (run_calls r) s1 in
      let s3 := if run_closes r then (storage_close s2).1 else s2 in
      let '(s4, rest) := sessions begin open runs' s3 in
      (s4, (o, os) :: rest)
  end.
End script.

(** The abstract storage keeps everything between two runs. *)
Definition unchanged (_ : list nat) (a : AbsStorage) : AbsStorage := a.

Definition all_defined (os : list (outcome jexn Answer)) : Prop := Forall (λ o, o ≠ Undefined) os.

(** ** The calls refine the specification *)

Section refine.
Context {S : Type} `{HS : !Storage S} (R : S → AbsStorage → Prop) `{HR : !StorageRefines S R}.

Lemma refines_map {A B} (f : A → B) (m1 : M jexn S A) (m2 : M jexn AbsStorage A) :
  refines R eq m1 m2 → refines R eq (f <$> m1) (f <$> m2).
Proof.
  intros H. unfold fmap, M_fmap. eapply refines_bind; [exact H|]. intros a ? <-.
  by apply refines_ret.
Qed.

Lemma refines_call c : refines R eq (call c) (call c).
Proof. destruct c; simpl; apply refines_map; eauto with refinement. Qed.

Lemma refines_script cs : ∀ s a, R s a → all_defined (script cs a).2 →
  (script cs s).2 = (script cs a).2 ∧ R (script cs s).1 (script cs a).1.
Proof.
  induction cs as [|c cs IH]; intros s a HRsa Hd; simpl; [done|].
  pose proof (refines_call c s a HRsa) as Hc. simpl in Hd.
  destruct (call c s) as [s1 o1], (call c a) as [a1 o2]; simpl in *.
  specialize (IH s1 a1).
  destruct (script cs s1) as [s2 os1], (script cs a1) as [a2 os2]; simpl in *.
  apply Forall_cons in Hd as [Ho Hos].
  destruct Hc as [?|[HR1 Hrel]]; [done|]. destruct (IH HR1 Hos) as [-> HR2].
  split; [|done]. destruct Hrel; by subst.
Qed.
End refine.

(** ** Runs on one database file *)

(** [SQLiteStorage] outlives its process. *)
Lemma SQLite_Reopens {DB} (db : JDBC DB) `{HL : !EngineLaws db} url :
  connects db url → Reopens DB (H := SQLite_Storage db) (sqlite_rel db) (SQLiteStorage db url).
Proof.
  intros Hc s a HR. apply (open_run db url s a Hc). by apply sqlite_rel_file.
Qed.

Section lifetime.
Context {DB : Type} (db : JDBC DB) `{HL : !EngineLaws db, HI : !ScanOrder db}.

(** Over any number of runs of the server on one file, from an empty one or one
    that an interrupted start left, with any calls in each run, ended by a
    [close] or by the end of the process, each run after any number of starts
    stopped at any statement: [SQLiteStorage] gives the answers of the abstract
    storage, which keeps its contents from one run to the next. *)
Lemma sqlite_sessions url runs : ∀ s a,
  connects db url → on_file (tables s) a →
  Forall (λ r, all_defined r.2) (sessions unchanged abs_reopen runs a).2 →
  (sessions (HS := SQLite_Storage db) (interrupted db url) (SQLiteStorage db url) runs s).2
  = (sessions unchanged abs_reopen runs a).2.
Proof.
  induction runs as [|r runs IH]; intros s a Hc Hf Hd; [done|].
  pose proof (interrupted_on_file db url (run_starts r) s a Hc Hf) as Hf'.
  destruct (open_run db url _ a Hc Hf') as (s1 & Hopen & HR1). simpl in *. rewrite Hopen.
  pose proof (refines_script (HS := SQLite_Storage db) (sqlite_rel db) (run_calls r) s1 _ HR1) as Hs.
  unfold unchanged in *. destruct (script (run_calls r) (set_open true a)) as [a2 os] eqn:E2.
  destruct (@script _ (SQLite_Storage db) (run_calls r) s1) as [s2 os'] eqn:E1. simpl in *.
  set (a3 := if run_closes r then set_open false a2 else a2) in *.
  change (storage_close s2) with (sqlite_close db s2).
  set (s3 := if run_closes r then (sqlite_close db s2).1 else s2).
  destruct (sessions _ abs_reopen runs a3) as [a4 rest] eqn:E4. simpl in *.
  apply Forall_cons in Hd as [Hos Hrest]. destruct (Hs Hos) as [-> HR2].
  assert (HR3 : sqlite_rel db s3 a3).
  { subst s3 a3. destruct (run_closes r); [|done].
    by destruct (refines_close db s2 a2 HR2) as [?|[? _]]. }
  specialize (IH s3 a3 Hc (sqlite_rel_file _ _ _ HR3)).
  rewrite E4 in IH. specialize (IH Hrest).
  destruct (sessions _ (SQLiteStorage db url) runs s3) as [s4 rest']. simpl in *. by rewrite IH.
Qed.
End lifetime.

Section schema.
Context {DB : Type} (db : JDBC DB).


(** Every start of the server adds a row to the table [state], which has no
    unique column for OR IGNORE to find; the log, the map and the two indices,
    which are read from the first row, survive. *)
Lemma restart_adds_row `{HL : !EngineLaws db, HI : !ScanOrder db} url s a :
  connects db url → tables_rel (tables s) (set_open true a) →
  ∃ s', SQLiteStorage db url s = (s', Return ()) ∧ sqlite_rel db s' (set_open true a)
    ∧ t_kv (tables s') = t_kv (tables s) ∧ t_logs (tables s') = t_logs (tables s)
    ∧ t_state (tables s') = (λ rows, rows ++ [initial_state_row]) <$> t_state (tables s).
Proof.
  intros Hc Ht. destruct (Hc s) as (s0 & H0 & Ht0 & Ho).
  destruct (SQLiteStorage_run db url s s0 H0 Ht0 Ho) as (s' & Hrun & Ht' & Ho').
  exists s'. split; [done|]. split; [|rewrite Ht'].
  - split; [done|]. rewrite Ht'. apply initialized_restart in Ht. exact Ht.
  - destruct Ht as (m & rows & -> & _). done.
Qed.
End schema.

(** ** On the in-memory engine *)

Lemma mem_connects url : connects mem_jdbc url.
Proof. intros [t o]. eexists. split_and!; reflexivity. Qed.

(** Two runs, after a start that stopped when two tables were there: writes, the
    end of the process, another interrupted start, then reads that see them. *)
Definition two_runs : list Run :=
  [mkRun [3%nat] [CAppend (log_entry 1 "a" "1"); CAppend (log_entry 1 "b" "2"); CSetCommit 2;
                  CUpdate "a" "1"; CDeleteFrom 2; CLastIndex] false;
   mkRun [5%nat; 1%nat] [CEntries 1 9; CGetCommit; CGet "a"; CGet "b";
                         CAppend (log_entry 2 "c" "3"); CLastTerm] true].

Lemma sqlite_sessions_witness :
  (sessions (HS := SQLite_Storage mem_jdbc) (interrupted mem_jdbc "db")
     (SQLiteStorage mem_jdbc "db") two_runs mem_empty).2
  = [(Return (), [Return (ANumber 1); Return (ANumber 2); Return ADone; Return ADone; Return ADone;
                  Return (ANumber 1)]);
     (Return (), [Return (AEntries [log_entry 1 "a" "1"]); Return (ANumber 2);
                  Return (AValue (Some "1")); Return (AValue None); Return (ANumber 2);
                  Return (ANumber 2)])].
Proof.
  rewrite (sqlite_sessions mem_jdbc "db" two_runs mem_empty empty_storage).
  - vm_compute. reflexivity.
  - apply mem_connects.
  - apply on_file_empty.
  - vm_compute. repeat constructor; discriminate.
Defined.

(** An engine with the keyword: SQLite's answer to the schema. *)
Definition keyword_jdbc : JDBC MemDB := {|
  connect := connect mem_jdbc;
  execute q args :=
    if String.eqb q CREATE_LOGS then throw (SQLException "near index: syntax error")
    else execute mem_jdbc q args;
  disconnect := disconnect mem_jdbc;
  long_of_text := long_of_text mem_jdbc;
  text_of_long := text_of_long mem_jdbc;
|}.


Lemma restart_adds_row_witness :
  ∃ s', SQLiteStorage mem_jdbc "db" (SQLiteStorage mem_jdbc "db" mem_empty).1 = (s', Return ())
    ∧ t_state (tables s') = Some [initial_state_row; initial_state_row].
Proof.
  destruct (restart_adds_row mem_jdbc "db" (SQLiteStorage mem_jdbc "db" mem_empty).1 empty_storage)
    as (s' & H1 & _ & _ & _ & H2).
  - apply mem_connects.
  - exact initialized_empty.
  - exists s'. split; [exact H1|]. rewrite H2. reflexivity.
Defined.
