(* ===== verification/Hoare.v ===== *)
(** * A Hoare logic with one invariant

    [typed I Q m]: [m] keeps the invariant [I] whatever its outcome, returns
    values of [Q], and is never [Undefined].  The database [typing] holds the
    rules of the primitives; [type_step] applies the rule of a command. *)

From S2P Require Import Prelude.
From stdpp Require Import base gmap strings list.

(** From a state of [I], [m] ends in a state of [I]; what it returns is in [Q]. *)
Definition typed {E S A} (I : S → Prop) (Q : A → Prop) (m : M E S A) : Prop :=
  ∀ s, I s →
    I (m s).1 ∧ match (m s).2 with Return a => Q a | Throw _ => True | Undefined => False end.

Section typed.
Context {E S : Type} (I : S → Prop).
Implicit Types s : S.

Lemma typed_ret {A} (Q : A → Prop) a : Q a → typed (E:=E) I Q (mret a).
Proof. intros HQ s Hs. by split. Qed.
Lemma typed_throw {A} (Q : A → Prop) (e : E) : typed I Q (throw e).
Proof. intros s Hs. by split. Qed.
Lemma typed_gets {A} (Q : A → Prop) (f : S → A) :
  (∀ s, I s → Q (f s)) → typed (E:=E) I Q (gets f).
Proof. intros H s Hs. split; [done|]. by apply H. Qed.
Lemma typed_getS : typed (E:=E) I I getS.
Proof. intros s Hs. by split. Qed.
Lemma typed_modify (f : S → S) : (∀ s, I s → I (f s)) → typed (E:=E) I (λ _, True) (modify f).
Proof. intros H s Hs. split; [by apply H|done]. Qed.
Lemma typed_bind {A B} (Q : A → Prop) (Q' : B → Prop) (m : M E S A) (f : A → M E S B) :
  typed I Q m → (∀ a, Q a → typed I Q' (f a)) → typed I Q' (m ≫= f).
Proof.
  intros Hm Hf s Hs. unfold mbind, M_bind. specialize (Hm s Hs).
  destruct (m s) as [s' []]; destruct Hm as [Hs' HQ]; simpl in *; [by apply Hf|done|done].
Qed.
Lemma typed_weaken {A} (Q Q' : A → Prop) (m : M E S A) :
  typed I Q m → (∀ a, Q a → Q' a) → typed I Q' m.
Proof. intros Hm HQ s Hs. specialize (Hm s Hs). destruct (m s).2; naive_solver. Qed.
Lemma typed_if {A} (Q : A → Prop) (b : bool) (m1 m2 : M E S A) :
  (b = true → typed I Q m1) → (b = false → typed I Q m2) → typed I Q (if b then m1 else m2).
Proof. destruct b; auto. Qed.
Lemma typed_try_catch {A} (Q : A → Prop) (m : M E S A) h :
  typed I Q m → (∀ e, typed I Q (h e)) → typed I Q (try_catch m h).
Proof.
  intros Hm Hh s Hs. unfold try_catch. specialize (Hm s Hs).
  destruct (m s) as [s' []]; destruct Hm as [Hs' HQ]; simpl in *; [done|by apply Hh|done].
Qed.
Lemma typed_try_finally {A} (Q : A → Prop) Q' (m : M E S A) f :
  typed I Q m → typed I Q' f → typed I Q (try_finally m f).
Proof.
  intros Hm Hf s Hs. unfold try_finally. specialize (Hm s Hs).
  destruct (m s) as [s' o]; destruct Hm as [Hs' HQ]; simpl in *.
  specialize (Hf s' Hs'). destruct (f s') as [s'' []]; destruct Hf as [Hs'' HQ']; simpl in *;
    destruct o; by split.
Qed.
Lemma typed_forM {A} (l : list A) (f : A → M E S ()) :
  (∀ x, typed I (λ _, True) (f x)) → typed I (λ _, True) (forM l f).
Proof.
  intros Hf. induction l; simpl; [by apply typed_ret|]. by eapply typed_bind.
Qed.
Lemma typed_zoom {T A} (J : T → Prop) (Q : A → Prop) get set (m : M E T A) :
  typed J Q m → (∀ s, I s → J (get s)) → (∀ s t, I s → J t → I (set t s)) →
  typed I Q (zoom get set m).
Proof.
  intros Hm Hget Hset s Hs. unfold zoom. specialize (Hm _ (Hget _ Hs)).
  destruct (m (get s)) as [t o]; simpl in *. destruct Hm. split; [by apply Hset|done].
Qed.
End typed.

Create HintDb typing discriminated.

(** [type_step] applies the rule of the first command. *)
Ltac type_step :=
  lazymatch goal with
  | |- typed _ _ (mbind _ _) => eapply typed_bind
  | |- ∀ _, _ => intros; cbv beta zeta in *
  | |- typed _ _ (let _ := _ in _) => cbv zeta
  | |- typed _ _ (if _ then _ else _) => apply typed_if
  | |- typed _ _ (mret _) => apply typed_ret
  | |- typed _ _ (throw _) => apply typed_throw
  | |- typed _ _ getS => apply typed_getS
  | |- True => constructor
  | |- typed _ _ (forM _ _) => apply typed_forM
  | |- typed _ _ (try_catch _ _) => apply typed_try_catch
  | |- typed _ _ (try_finally _ _) => eapply typed_try_finally
  | |- typed _ _ (gets _) => apply (typed_gets _ (λ _, True)); done
  | |- typed _ _ _ => solve [ eauto with typing ]
  end.

