(* ===== verification/RaftNode.v ===== *)
(** * RaftNode: the operations of a node

    [server/src/main/java/com/kvstore/raft/RaftNode.java], each method as a
    computation over the fields of the object, generic in the storage.  Each
    definition is the effect of one uninterrupted execution of the method; the
    tasks it hands to the thread pools are its result.  [RaftSystem.v]
    interleaves them; NodeSteps.v and ElectionSteps.v split them at their accesses. *)

From S2P Require Import Prelude.
From S2P Require Import Java.
From S2P Require Import Messages.
From S2P Require Import RaftState.
From S2P Require Import Storage.
From stdpp Require Import base gmap strings list.
#[local] Open Scope Z_scope.

Record NodeInfo : Type := mkNodeInfo { ni_id : string; ni_host : string; ni_port : Z }.

(** A gRPC channel is known by the address it was built for. *)
Record Channel : Type := mkChannel { ch_host : string; ch_port : Z; ch_shutdown : bool }.

(** The part of the [ScheduledExecutorService] that [resetElectionTimer] uses:
    the pending one-shot tasks with their delays. *)
Record Scheduler : Type := mkScheduler {
  sch_pending : gmap nat Z;
  sch_next : nat;
  sch_down : bool;
}.

(** Hold counts of the [ReentrantReadWriteLock] by the running thread. *)
Record RWLock : Type := mkRWLock { lk_write : nat; lk_read : nat }.

(** A [ConcurrentHashMap] iterates in an order of its own. *)
Class HashOrder : Type := {
  hash_order {A} : gmap string A → list (string * A);
  hash_order_perm {A} (m : gmap string A) : hash_order m ≡ₚ map_to_list m;
}.
#[export] Instance list_order : HashOrder := {
  hash_order A m := map_to_list m;
  hash_order_perm A m := reflexivity _;
}.

(** [Math.random()]: the sequence of [(long) (Math.random() * 150)] draws. *)
Class Draws : Type := draw : nat → Z.

Record RaftNode (S : Type) : Type := mkNode {
  nodeId : string;
  peers : gmap string NodeInfo;
  storage : S;
  state : RaftState;
  scheduler : Scheduler;
  workerPool_down : bool;
  grpcChannels : gmap string Channel;
  nextIndex : gmap string Z;
  matchIndex : gmap string Z;
  rwLock : RWLock;
  votedFor : option string;
  electionTimer : option nat;
  draws_done : nat;
}.
Arguments mkNode {_}. Arguments nodeId {_}. Arguments peers {_}. Arguments storage {_}.
Arguments state {_}. Arguments scheduler {_}. Arguments workerPool_down {_}.
Arguments grpcChannels {_}. Arguments nextIndex {_}. Arguments matchIndex {_}.
Arguments rwLock {_}. Arguments votedFor {_}. Arguments electionTimer {_}.
Arguments draws_done {_}.

(** Assignments to the fields. *)
Section setters.
Context {S : Type}.
Implicit Types n : RaftNode S.
Definition set_storage {T} (s : T) n : RaftNode T :=
  mkNode (nodeId n) (peers n) s (state n) (scheduler n) (workerPool_down n) (grpcChannels n)
    (nextIndex n) (matchIndex n) (rwLock n) (votedFor n) (electionTimer n) (draws_done n).
Definition set_state (r : RaftState) n : RaftNode S :=
  mkNode (nodeId n) (peers n) (storage n) r (scheduler n) (workerPool_down n) (grpcChannels n)
    (nextIndex n) (matchIndex n) (rwLock n) (votedFor n) (electionTimer n) (draws_done n).
Definition set_timer (sch : Scheduler) (t : option nat) (d : nat) n : RaftNode S :=
  mkNode (nodeId n) (peers n) (storage n) (state n) sch (workerPool_down n) (grpcChannels n)
    (nextIndex n) (matchIndex n) (rwLock n) (votedFor n) t d.
Definition set_pools (sch : Scheduler) (down : bool) (ch : gmap string Channel) n : RaftNode S :=
  mkNode (nodeId n) (peers n) (storage n) (state n) sch down ch
    (nextIndex n) (matchIndex n) (rwLock n) (votedFor n) (electionTimer n) (draws_done n).
Definition set_indices (ni mi : gmap string Z) n : RaftNode S :=
  mkNode (nodeId n) (peers n) (storage n) (state n) (scheduler n) (workerPool_down n)
    (grpcChannels n) ni mi (rwLock n) (votedFor n) (electionTimer n) (draws_done n).
Definition set_rwLock (l : RWLock) n : RaftNode S :=
  mkNode (nodeId n) (peers n) (storage n) (state n) (scheduler n) (workerPool_down n)
    (grpcChannels n) (nextIndex n) (matchIndex n) l (votedFor n) (electionTimer n) (draws_done n).
Definition set_votedFor (v : option string) n : RaftNode S :=
  mkNode (nodeId n) (peers n) (storage n) (state n) (scheduler n) (workerPool_down n)
    (grpcChannels n) (nextIndex n) (matchIndex n) (rwLock n) v (electionTimer n) (draws_done n).

Definition on_state (f : RaftState → RaftState) n : RaftNode S := set_state (f (state n)) n.
Definition put_next (p : string) (i : Z) n : RaftNode S :=
  set_indices (<[p := i]> (nextIndex n)) (matchIndex n) n.
Definition put_match (p : string) (i : Z) n : RaftNode S :=
  set_indices (nextIndex n) (<[p := i]> (matchIndex n)) n.
End setters.

(** ** Construction *)

(** The constructor gives every peer the address localhost:50051, whatever its
    id says. *)
Definition peer_map (peerIds : list string) : gmap string NodeInfo :=
  foldl (λ m id, <[id := mkNodeInfo id "localhost" 50051]> m) ∅ peerIds.

Definition initializeGrpcChannels (ps : gmap string NodeInfo) (peerIds : list string) :
    gmap string Channel :=
  foldl (λ m id, match ps !! id with
                 | Some info => <[id := mkChannel (ni_host info) (ni_port info) false]> m
                 | None => m
                 end) ∅ peerIds.

Definition newRaftNode {S} (nodeId : string) (peerIds : list string) (st : S) : RaftNode S :=
  let ps := peer_map peerIds in
  mkNode nodeId ps st newRaftState (mkScheduler ∅ 0 false) false
    (initializeGrpcChannels ps peerIds) ∅ ∅ (mkRWLock 0 0) None None 0.

(** ** Methods *)

(** A value of a [CompletableFuture] slot at run time: generics are erased, so
    the array declared [CompletableFuture<Boolean>[]] can hold futures that
    complete with another future. *)
Inductive jobject : Type := JBoolean (b : bool) | JFuture (peer : string).

Definition as_Boolean {S} (o : jobject) : M jexn S bool :=
  match o with JBoolean b => mret b | JFuture _ => throw ClassCastException end.

(** A [requestVote] call to run on the worker pool. *)
Record VoteTask : Type := mkVoteTask {
  vt_peer : NodeInfo; vt_lastLogIndex : Z; vt_lastLogTerm : Z
}.

(** [ConcurrentHashMap.getOrDefault]. *)
Definition getOrDefault (k : string) (d : Z) (m : gmap string Z) : Z := default d (m !! k).

Section methods.
Context {S : Type} `{!Storage S} `{!HashOrder} `{!Draws}.
Abbreviation J := (M jexn (RaftNode S)).

Definition sto {A} (m : M jexn S A) : J A := zoom storage set_storage m.

Definition peer_values (n : RaftNode S) : list NodeInfo := snd <$> hash_order (peers n).

Definition getCurrentTerm : J Z := gets (λ n, currentTerm (state n)).
Definition getVotedFor : J (option string) := gets votedFor.

(** *** Locking *)
Definition lockWrite : J () :=
  modify (λ n, set_rwLock (mkRWLock (Datatypes.S (lk_write (rwLock n))) (lk_read (rwLock n))) n).
Definition unlockWrite : J () :=
  n ← getS;
  match lk_write (rwLock n) with
  | O => throw IllegalMonitorStateException
  | Datatypes.S w => modify (set_rwLock (mkRWLock w (lk_read (rwLock n))))
  end.
Definition lockRead : J () :=
  modify (λ n, set_rwLock (mkRWLock (lk_write (rwLock n)) (Datatypes.S (lk_read (rwLock n)))) n).
Definition unlockRead : J () :=
  n ← getS;
  match lk_read (rwLock n) with
  | O => throw IllegalMonitorStateException
  | Datatypes.S r => modify (set_rwLock (mkRWLock (lk_write (rwLock n)) r))
  end.

(** *** The election timer *)

(** [electionTimer.cancel(false)]: a pending task is dropped, one that has
    started or finished is left alone. *)
Definition cancel_timer (t : option nat) (sch : Scheduler) : Scheduler :=
  match t with
  | Some id => mkScheduler (delete id (sch_pending sch)) (sch_next sch) (sch_down sch)
  | None => sch
  end.

Definition resetElectionTimer : J () :=
  modify (λ n, set_timer (cancel_timer (electionTimer n) (scheduler n)) (electionTimer n) (draws_done n) n);;
  n ← getS;
  let timeout := 150 + draw (draws_done n) in
  let sch := scheduler n in
  if sch_down sch then
    modify (set_timer sch (electionTimer n) (Datatypes.S (draws_done n)));;
    throw RejectedExecutionException
  else
    modify (set_timer
      (mkScheduler (<[sch_next sch := timeout]> (sch_pending sch)) (Datatypes.S (sch_next sch)) false)
      (Some (sch_next sch)) (Datatypes.S (draws_done n))).

(** *** Applying committed entries *)

Definition applyToStateMachine (entry : option LogEntry) : J () :=
  e ← nonnull entry;
  sto (updateKeyValue (le_key e) (le_value e)).

(** [while (lastApplied < commitIndex)]; [fuel] is the number of rounds, and a
    loop that is not over when it is spent has no result here. *)
Fixpoint applyLoop (fuel : nat) (lastApplied commitIndex : Z) : J Z :=
  match fuel with
  | O => if lastApplied <? commitIndex then undefined else mret lastApplied
  | Datatypes.S fuel' =>
      if lastApplied <? commitIndex then
        let lastApplied := jadd lastApplied 1 in
        entry ← sto (getLogEntry lastApplied);
        applyToStateMachine entry;;
        applyLoop fuel' lastApplied commitIndex
      else mret lastApplied
  end.

Definition applyCommittedEntries : J () :=
  lastApplied ← sto getLastApplied;
  commitIndex ← sto getCommitIndex;
  lastApplied ← applyLoop (Z.to_nat (commitIndex - lastApplied)) lastApplied commitIndex;
  sto (setLastApplied lastApplied).

(** *** Receiving entries *)

(** The loop over [entries], [i] being its counter. *)
Fixpoint appendLoop (prevLogIndex : Z) (i : nat) (entries : list LogEntry) : J () :=
  match entries with
  | [] => mret ()
  | e :: entries' =>
      let index := jadd (jadd prevLogIndex 1) (Z.of_nat i) in
      last ← sto getLastLogIndex;
      (if index <=? last then
         mine ← sto (getLogEntry index);
         mine ← nonnull mine;
         if negb (le_term mine =? le_term e)
         then sto (deleteLogEntriesFrom index);; sto (appendLogEntry e);; mret ()
         else mret ()
       else sto (appendLogEntry e);; mret ());;
      appendLoop prevLogIndex (Datatypes.S i) entries'
  end.

(** The test of lines 199-202, [true] when the prefixes disagree. *)
Definition prefixMismatch (prevLogIndex prevLogTerm : Z) : J bool :=
  last ← sto getLastLogIndex;
  if last <? prevLogIndex then mret true
  else if 0 <? prevLogIndex then
    entry ← sto (getLogEntry prevLogIndex);
    entry ← nonnull entry;
    mret (negb (le_term entry =? prevLogTerm))
  else mret false.

(** The [try] block of [appendEntries]. *)
Definition appendEntries_locked (term prevLogIndex prevLogTerm : Z)
    (entries : list LogEntry) (leaderCommit : Z) : J bool :=
  cur ← getCurrentTerm;
  if term <? cur then mret false
  else
    (if cur <? term then
       modify (on_state (setCurrentTerm term));;
       modify (on_state (becomeFollower term));;
       modify (set_votedFor None)
     else mret ());;
    resetElectionTimer;;
    mismatch ← prefixMismatch prevLogIndex prevLogTerm;
    if mismatch : bool then mret false
    else
      appendLoop prevLogIndex 0 entries;;
      commitIndex ← sto getCommitIndex;
      (if commitIndex <? leaderCommit then
         last ← sto getLastLogIndex;
         sto (setCommitIndex (Z.min leaderCommit last));;
         applyCommittedEntries
       else mret ());;
      mret true.

Definition appendEntries (leaderId : string) (term prevLogIndex prevLogTerm : Z)
    (entries : list LogEntry) (leaderCommit : Z) : J bool :=
  lockWrite;;
  try_finally (appendEntries_locked term prevLogIndex prevLogTerm entries leaderCommit)
    unlockWrite.

(** *** Replication by the leader *)

Definition replicationCount (n : Z) (m : gmap string Z) : Z :=
  foldl (λ c matchIdx, if n <=? matchIdx then c + 1 else c) 1 (map_to_list m).*2.

Definition majority_of_peers (count : Z) (n : RaftNode S) : bool :=
  Z.of_nat (size (peers n)) `quot` 2 <? count.

(** [for (long n = ...; n <= lastLogIndex; n++)]; [fuel] counts the rounds. *)
Fixpoint commitLoop (fuel : nat) (n lastLogIndex : Z) : J () :=
  match fuel with
  | O => if n <=? lastLogIndex then undefined else mret ()
  | Datatypes.S fuel' =>
      if n <=? lastLogIndex then
        entry ← sto (getLogEntry n);
        entry ← nonnull entry;
        cur ← getCurrentTerm;
        (if le_term entry =? cur then
           ok ← gets (λ nd, majority_of_peers (replicationCount n (matchIndex nd)) nd);
           if ok : bool then sto (setCommitIndex n);; applyCommittedEntries else mret ()
         else mret ());;
        commitLoop fuel' (jadd n 1) lastLogIndex
      else mret ()
  end.

Definition updateCommitIndex : J () :=
  lastLogIndex ← sto getLastLogIndex;
  commitIndex ← sto getCommitIndex;
  let n := jadd commitIndex 1 in
  commitLoop (Z.to_nat (lastLogIndex - n + 1)) n lastLogIndex.

(** The entries are handed to this node's own [appendEntries]: no message is
    sent to the follower. *)
Definition sendAppendEntries (follower : NodeInfo) : J () :=
  nextIdx ← gets (λ n, getOrDefault (ni_id follower) 1 (nextIndex n));
  last ← sto getLastLogIndex;
  entries ← sto (getLogEntries nextIdx last);
  let prevLogIndex := jsub nextIdx 1 in
  prevLogTerm ← (if 0 <? prevLogIndex then
                   entry ← sto (getLogEntry prevLogIndex);
                   entry ← nonnull entry; mret (le_term entry)
                 else mret 0);
  term ← getCurrentTerm;
  commitIndex ← sto getCommitIndex;
  success ← appendEntries (ni_id follower) term prevLogIndex prevLogTerm entries commitIndex;
  if success : bool then
    last ← sto getLastLogIndex;
    modify (put_next (ni_id follower) (jadd last 1));;
    last ← sto getLastLogIndex;
    modify (put_match (ni_id follower) last);;
    updateCommitIndex
  else
    modify (λ n, put_next (ni_id follower)
              (Z.max 1 (jsub (getOrDefault (ni_id follower) 1 (nextIndex n)) 1)) n).

(** The future of [replicateEntry] is completed with [true] before it is
    returned, so its value is the result. *)
Definition replicateEntry (index : Z) : J bool :=
  ps ← gets peer_values;
  forM ps sendAppendEntries;;
  updateCommitIndex;;
  mret true.

Definition proposeEntry (key value : string) : J bool :=
  role ← gets (λ n, currentRole (state n));
  if bool_decide (role ≠ LEADER) then mret false
  else
    term ← getCurrentTerm;
    sto (appendLogEntry (log_entry term key value));;
    index ← sto getLastLogIndex;
    replicateEntry index.

(** *** Elections *)

Definition node_becomeLeader : J () :=
  modify (on_state becomeLeader);;
  lastLogIndex ← sto getLastLogIndex;
  modify (λ n, set_indices
    (foldr (λ p m, <[p := jadd lastLogIndex 1]> m) (nextIndex n) (hash_order (peers n)).*1)
    (foldr (λ p m, <[p := 0]> m) (matchIndex n) (hash_order (peers n)).*1) n).

(** [startElection] up to [allOf]: the tasks it submits to the worker pool,
    in the order of the stream. *)
Definition startElection : J (list VoteTask) :=
  modify (on_state becomeCandidate);;
  modify (λ n, set_votedFor (Some (nodeId n)) n);;
  lastLogIndex ← sto getLastLogIndex;
  lastLogTerm ← sto getLastLogTerm;
  n ← getS;
  if workerPool_down n && negb (bool_decide (peer_values n = []))
  then throw RejectedExecutionException
  else mret ((λ p, mkVoteTask p lastLogIndex lastLogTerm) <$> peer_values n).

(** [requestVote] itself: it submits the call and returns its future, which
    is what the task of [startElection] completes with. *)
Definition requestVote (t : VoteTask) : J (VoteTask * jobject) :=
  n ← getS;
  if workerPool_down n then throw RejectedExecutionException
  else mret (t, JFuture (ni_id (vt_peer t))).

Definition voteRequest (t : VoteTask) (n : RaftNode S) : RequestVoteRequest :=
  {| rvq_term := currentTerm (state n); rvq_candidateId := nodeId n;
     rvq_lastLogIndex := vt_lastLogIndex t; rvq_lastLogTerm := vt_lastLogTerm t |}.

(** A blocking stub call: the response, or the exception of a failed call. *)
Definition blocking_call {A} (o : option A) : J A :=
  match o with Some a => mret a | None => throw StatusRuntimeException end.

(** The body of the future of [requestVote]; [rpc] is the blocking gRPC call
    on the peer's channel, [None] when it throws. *)
Definition requestVote_locked (rpc : Channel → RequestVoteRequest → option RequestVoteResponse)
    (t : VoteTask) : J bool :=
  try_catch
    (n ← getS;
     ch ← nonnull (grpcChannels n !! ni_id (vt_peer t));
     response ← blocking_call (rpc ch (voteRequest t n));
     cur ← getCurrentTerm;
     if cur <? rvr_term response then
       modify (on_state (setCurrentTerm (rvr_term response)));;
       modify (on_state (becomeFollower (rvr_term response)));;
       modify (set_votedFor None);;
       mret false
     else mret (rvr_voteGranted response))
    (λ _, mret false).

Definition requestVoteBody (rpc : Channel → RequestVoteRequest → option RequestVoteResponse)
    (t : VoteTask) : J bool :=
  lockRead;; try_finally (requestVote_locked rpc t) unlockRead.

(** The [thenAccept] of [startElection], on the values of [voteFutures]. *)
Fixpoint countVotes (votes : list jobject) : J Z :=
  match votes with
  | [] => mret 0
  | v :: votes' =>
      b ← as_Boolean v;
      c ← countVotes votes';
      mret (if b : bool then c + 1 else c)
  end.

Definition electionDone (votes : list jobject) : J () :=
  c ← countVotes votes;
  ok ← gets (majority_of_peers (c + 1));
  if ok : bool then node_becomeLeader else mret ().

(** [leaderElectionTask] and [heartbeatTask]: the tasks they submit. *)
Definition leaderElectionTask : J (list VoteTask) :=
  role ← gets (λ n, currentRole (state n));
  if bool_decide (role ≠ LEADER) then startElection else mret [].

Definition heartbeatTask : J (list NodeInfo) :=
  n ← getS;
  if bool_decide (currentRole (state n) = LEADER) then
    if workerPool_down n && negb (bool_decide (peer_values n = []))
    then throw RejectedExecutionException
    else mret (peer_values n)
  else mret [].

Definition shutdown : J () :=
  modify (λ n, set_pools (mkScheduler (sch_pending (scheduler n)) (sch_next (scheduler n)) true)
                 true (grpcChannels n) n);;
  sto storage_close;;
  modify (λ n, set_pools (scheduler n) (workerPool_down n)
    ((λ c, mkChannel (ch_host c) (ch_port c) true) <$> grpcChannels n) n).
End methods.
