(* ===== verification/NodeSteps.v ===== *)
(** * The methods of a node, access by access

    [server/src/main/java/com/kvstore/raft/RaftNode.java], lines 145-276: the
    methods of a put and of [appendEntries], split at their accesses to the
    storage and to the fields.  Without interruption each is the method of
    RaftNode.v.  NodeThreads.v, LoneThreads.v and CommitRace.v interleave them;
    DurableServer.v stops them where the process may stop.  A lock that another
    thread holds blocks the thread that wants it. *)

From S2P Require Import Prelude.
From S2P Require Import Java.
From S2P Require Import Messages.
From S2P Require Import RaftState.
From S2P Require Import Storage.
From S2P Require Import RaftNode.
From S2P Require Import Concurrency.
From stdpp Require Import base gmap strings list.
From Stdlib Require Import Lia.
#[local] Open Scope Z_scope.

(** ** The methods, access by access *)

Section split.
Context {S : Type} `{HS : !Storage S} `{HO : !HashOrder} `{HD : !Draws}.
Abbreviation P := (prog jexn (RaftNode S)).

Fixpoint split_applyLoop (fuel : nat) (lastApplied commitIndex : Z) : P Z :=
  match fuel with
  | O => if lastApplied <? commitIndex then Act undefined Done else Done lastApplied
  | Datatypes.S fuel' =>
      if lastApplied <? commitIndex then
        let lastApplied := jadd lastApplied 1 in
        entry ⇐ sto (getLogEntry lastApplied);
        _ ⇐ applyToStateMachine entry;
        split_applyLoop fuel' lastApplied commitIndex
      else Done lastApplied
  end.

Definition split_applyCommittedEntries : P () :=
  lastApplied ⇐ sto getLastApplied;
  commitIndex ⇐ sto getCommitIndex;
  prog_bind (split_applyLoop (Z.to_nat (commitIndex - lastApplied)) lastApplied commitIndex)
    (λ lastApplied, Act (sto (setLastApplied lastApplied)) Done).

(** The read of the term is part of the comparison; the map of match indices is
    read at once. *)
Fixpoint split_commitLoop (fuel : nat) (n lastLogIndex : Z) : P () :=
  match fuel with
  | O => if n <=? lastLogIndex then Act undefined Done else Done tt
  | Datatypes.S fuel' =>
      if n <=? lastLogIndex then
        entry ⇐ sto (getLogEntry n);
        current ⇐ (entry ← nonnull entry; cur ← getCurrentTerm; mret (le_term entry =? cur));
        if current : bool then
          ok ⇐ gets (λ nd, majority_of_peers (replicationCount n (matchIndex nd)) nd);
          if ok : bool then
            _ ⇐ sto (setCommitIndex n);
            prog_bind split_applyCommittedEntries
              (λ _, split_commitLoop fuel' (jadd n 1) lastLogIndex)
          else split_commitLoop fuel' (jadd n 1) lastLogIndex
        else split_commitLoop fuel' (jadd n 1) lastLogIndex
      else Done tt
  end.

Definition split_updateCommitIndex : P () :=
  lastLogIndex ⇐ sto getLastLogIndex;
  commitIndex ⇐ sto getCommitIndex;
  let n := jadd commitIndex 1 in
  split_commitLoop (Z.to_nat (lastLogIndex - n + 1)) n lastLogIndex.

Definition split_prefixMismatch (prevLogIndex prevLogTerm : Z) : P bool :=
  last ⇐ sto getLastLogIndex;
  if last <? prevLogIndex then Done true
  else if 0 <? prevLogIndex then
    mismatch ⇐ (entry ← sto (getLogEntry prevLogIndex);
                entry ← nonnull entry; mret (negb (le_term entry =? prevLogTerm)));
    Done mismatch
  else Done false.

Fixpoint split_appendLoop (prevLogIndex : Z) (i : nat) (entries : list LogEntry) : P () :=
  match entries with
  | [] => Done tt
  | e :: entries' =>
      let index := jadd (jadd prevLogIndex 1) (Z.of_nat i) in
      last ⇐ sto getLastLogIndex;
      if index <=? last then
        conflict ⇐ (mine ← sto (getLogEntry index);
                    mine ← nonnull mine; mret (negb (le_term mine =? le_term e)));
        if conflict : bool then
          _ ⇐ sto (deleteLogEntriesFrom index);
          _ ⇐ sto (appendLogEntry e);
          split_appendLoop prevLogIndex (Datatypes.S i) entries'
        else split_appendLoop prevLogIndex (Datatypes.S i) entries'
      else
        _ ⇐ sto (appendLogEntry e);
        split_appendLoop prevLogIndex (Datatypes.S i) entries'
  end.

(** [state.setCurrentTerm(term); state.becomeFollower(term); votedFor = null]. *)
Definition split_stepDown (term : Z) : P () :=
  _ ⇐ modify (on_state (setCurrentTerm term));
  _ ⇐ modify (on_state (set_role FOLLOWER));
  _ ⇐ modify (on_state (setCurrentTerm term));
  _ ⇐ modify (on_state (set_rs_votedFor None));
  _ ⇐ modify (set_votedFor None);
  Done tt.

Definition split_appendEntries_locked (term prevLogIndex prevLogTerm : Z)
    (entries : list LogEntry) (leaderCommit : Z) : P bool :=
  cur ⇐ getCurrentTerm;
  if term <? cur then Done false
  else
    prog_bind (if cur <? term then split_stepDown term else Done tt) (λ _,
    _ ⇐ resetElectionTimer;
    prog_bind (split_prefixMismatch prevLogIndex prevLogTerm) (λ mismatch,
      if mismatch : bool then Done false
      else
        prog_bind (split_appendLoop prevLogIndex 0 entries) (λ _,
          commitIndex ⇐ sto getCommitIndex;
          if commitIndex <? leaderCommit then
            last ⇐ sto getLastLogIndex;
            _ ⇐ sto (setCommitIndex (Z.min leaderCommit last));
            prog_bind split_applyCommittedEntries (λ _, Done true)
          else Done true))).

(** [ReentrantReadWriteLock]: [lock()] blocks a writer while any other thread
    holds a lock, and a reader while another thread holds the write lock.  No
    method asks for a lock while it holds one. *)
Definition may_write (n : RaftNode S) : bool :=
  (lk_write (rwLock n) =? 0)%nat && (lk_read (rwLock n) =? 0)%nat.
Definition may_read (n : RaftNode S) : bool := (lk_write (rwLock n) =? 0)%nat.

Definition split_appendEntries (leaderId : string) (term prevLogIndex prevLogTerm : Z)
    (entries : list LogEntry) (leaderCommit : Z) : P bool :=
  await may_write; _ ⇐ lockWrite;
  prog_finally (split_appendEntries_locked term prevLogIndex prevLogTerm entries leaderCommit)
    unlockWrite.

Definition split_sendAppendEntries (follower : NodeInfo) : P () :=
  nextIdx ⇐ gets (λ n, getOrDefault (ni_id follower) 1 (nextIndex n));
  last ⇐ sto getLastLogIndex;
  entries ⇐ sto (getLogEntries nextIdx last);
  let prevLogIndex := jsub nextIdx 1 in
  prevLogTerm ⇐ (if 0 <? prevLogIndex then
                   entry ← sto (getLogEntry prevLogIndex);
                   entry ← nonnull entry; mret (le_term entry)
                 else mret 0);
  term ⇐ getCurrentTerm;
  commitIndex ⇐ sto getCommitIndex;
  prog_bind (split_appendEntries (ni_id follower) term prevLogIndex prevLogTerm entries commitIndex)
    (λ success,
      if success : bool then
        last ⇐ sto getLastLogIndex;
        _ ⇐ modify (put_next (ni_id follower) (jadd last 1));
        last ⇐ sto getLastLogIndex;
        _ ⇐ modify (put_match (ni_id follower) last);
        split_updateCommitIndex
      else
        Act (modify (λ n, put_next (ni_id follower)
              (Z.max 1 (jsub (getOrDefault (ni_id follower) 1 (nextIndex n)) 1)) n)) Done).

Definition split_replicateEntry (index : Z) : P bool :=
  ps ⇐ gets peer_values;
  prog_bind (prog_for ps split_sendAppendEntries)
    (λ _, prog_bind split_updateCommitIndex (λ _, Done true)).

Definition split_proposeEntry (key value : string) : P bool :=
  role ⇐ gets (λ n, currentRole (state n));
  if bool_decide (role ≠ LEADER) then Done false
  else
    term ⇐ getCurrentTerm;
    _ ⇐ sto (appendLogEntry (log_entry term key value));
    index ⇐ sto getLastLogIndex;
    split_replicateEntry index.

(** *** Without interruption they are the methods *)

(** [same_run] goes down both sides of an equation of runs. *)
Ltac same_run :=
  cbv zeta;
  repeat first
    [ done
    | rewrite bind_assoc
    | rewrite denote_bind
    | progress (cbn [denote]; cbv zeta)
    | lazymatch goal with
      | |- (?m ≫= _) ?s = (?m ≫= _) ?s => apply bind_ext; intros
      | |- (if ?b then _ else _) _ = (if ?b then _ else _) _ => destruct b
      | |- denote (if ?b then _ else _) _ = _ => destruct b
      end ].

Lemma bind_done {A} (m : M jexn (RaftNode S) A) n : (m ≫= (λ a, denote (Done a))) n = m n.
Proof. unfold mbind, M_bind. by destruct (m n) as [? []]. Qed.

Lemma denote_applyLoop fuel : ∀ i c (n : RaftNode S),
  denote (split_applyLoop fuel i c) n = applyLoop fuel i c n.
Proof.
  induction fuel as [|fuel IH]; intros i c n; cbn [split_applyLoop applyLoop];
    destruct (i <? c); try done.
  same_run.
Qed.

Lemma denote_applyCommitted (n : RaftNode S) :
  denote split_applyCommittedEntries n = applyCommittedEntries n.
Proof.
  unfold split_applyCommittedEntries, applyCommittedEntries. same_run.
  apply bind_cong; [apply denote_applyLoop|]. intros. cbn [denote].
  apply bind_done.
Qed.

Lemma denote_commitLoop fuel : ∀ i last (n : RaftNode S),
  denote (split_commitLoop fuel i last) n = commitLoop fuel i last n.
Proof.
  induction fuel as [|fuel IH]; intros i last n; cbn [split_commitLoop commitLoop];
    destruct (i <=? last); try done.
  cbn [denote]. apply bind_ext. intros entry n1. rewrite bind_assoc. apply bind_ext. intros e n2.
  rewrite !bind_assoc. apply bind_ext. intros cur n3.
  rewrite ret_bind.
  destruct (le_term e =? cur); [|apply IH]. cbn [denote]. rewrite bind_assoc.
  apply bind_ext. intros ok n4. destruct ok; [|apply IH]. cbn [denote]. rewrite bind_assoc.
  apply bind_ext. intros _ n5. rewrite denote_bind. apply bind_cong; [apply denote_applyCommitted|].
  intros. apply IH.
Qed.

Lemma denote_updateCommitIndex (n : RaftNode S) :
  denote split_updateCommitIndex n = updateCommitIndex n.
Proof.
  unfold split_updateCommitIndex, updateCommitIndex. same_run. apply denote_commitLoop.
Qed.

Lemma denote_prefixMismatch prev pt (n : RaftNode S) :
  denote (split_prefixMismatch prev pt) n = prefixMismatch prev pt n.
Proof.
  unfold split_prefixMismatch, prefixMismatch. cbn [denote]. apply bind_ext. intros last n1.
  destruct (last <? prev); [done|]. destruct (0 <? prev); [|done]. cbn [denote].
  apply bind_done.
Qed.

Lemma denote_appendLoop prev es : ∀ i (n : RaftNode S),
  denote (split_appendLoop prev i es) n = appendLoop prev i es n.
Proof.
  induction es as [|e es IH]; intros i n; [done|]. cbn [split_appendLoop appendLoop denote].
  apply bind_ext. intros last n1. destruct (_ <=? last); cbn [denote].
  - rewrite !bind_assoc. apply bind_ext. intros o n2. rewrite !bind_assoc. apply bind_ext.
    intros mine n3. rewrite ret_bind. destruct (negb _); cbn [denote]; [|apply IH].
    rewrite bind_assoc. apply bind_ext. intros _ n4. rewrite bind_assoc. apply bind_ext.
    intros _ n5. apply IH.
  - rewrite bind_assoc. apply bind_ext. intros _ n2. apply IH.
Qed.

Lemma denote_stepDown t (n : RaftNode S) :
  denote (split_stepDown t) n
  = (set_votedFor None (on_state (becomeFollower t) n), Return ()).
Proof. done. Qed.

Lemma denote_appendEntries_locked t prev pt es lc (n : RaftNode S) :
  denote (split_appendEntries_locked t prev pt es lc) n = appendEntries_locked t prev pt es lc n.
Proof.
  unfold split_appendEntries_locked, appendEntries_locked. cbn [denote]. apply bind_ext.
  intros cur n1. destruct (t <? cur); [done|]. rewrite denote_bind.
  apply bind_cong; [by destruct (cur <? t)|]. intros _ n2. cbn [denote]. apply bind_ext.
  intros _ n3. rewrite denote_bind. apply bind_cong; [apply denote_prefixMismatch|]. intros mismatch n4.
  destruct mismatch; [done|]. rewrite denote_bind.
  apply bind_cong; [apply denote_appendLoop|]. intros _ n5. cbn [denote]. apply bind_ext.
  intros c n6. destruct (c <? lc); [|done]. cbn [denote]. rewrite bind_assoc. apply bind_ext.
  intros last n7. rewrite bind_assoc. apply bind_ext. intros _ n8. rewrite denote_bind.
  by apply bind_cong; [apply denote_applyCommitted|].
Qed.

Lemma denote_appendEntries id t prev pt es lc (n : RaftNode S) :
  denote (split_appendEntries id t prev pt es lc) n = appendEntries id t prev pt es lc n.
Proof.
  unfold split_appendEntries, appendEntries. cbn [denote]. apply bind_ext. intros _ n1.
  rewrite denote_finally. unfold try_finally. by rewrite denote_appendEntries_locked.
Qed.

Lemma denote_sendAppendEntries p (n : RaftNode S) :
  denote (split_sendAppendEntries p) n = sendAppendEntries p n.
Proof.
  unfold split_sendAppendEntries, sendAppendEntries. cbn [denote].
  do 3 (apply bind_ext; intros). cbv zeta. cbn [denote]. do 3 (apply bind_ext; intros).
  rewrite denote_bind. apply bind_cong; [apply denote_appendEntries|]. intros success n1.
  destruct success.
  - cbn [denote]. do 4 (apply bind_ext; intros). apply denote_updateCommitIndex.
  - apply bind_done.
Qed.

Lemma denote_replicateEntry i (n : RaftNode S) :
  denote (split_replicateEntry i) n = replicateEntry i n.
Proof.
  unfold split_replicateEntry, replicateEntry. cbn [denote]. apply bind_ext. intros ps n1.
  rewrite denote_bind. apply bind_cong.
  - rewrite denote_for. revert n1. induction ps as [|p ps IH]; intros n1; simpl; [done|].
    apply bind_cong; [apply denote_sendAppendEntries|]. intros. apply IH.
  - intros _ n2. rewrite denote_bind. by apply bind_cong; [apply denote_updateCommitIndex|].
Qed.

Lemma denote_proposeEntry k v (n : RaftNode S) :
  denote (split_proposeEntry k v) n = proposeEntry k v n.
Proof.
  unfold split_proposeEntry, proposeEntry. cbn [denote]. apply bind_ext. intros r n1.
  destruct (bool_decide _); [done|]. cbn [denote]. do 3 (apply bind_ext; intros).
  apply denote_replicateEntry.
Qed.
End split.

