(* ===== verification/ElectionSteps.v ===== *)
(** * Elections, access by access

    [server/src/main/java/com/kvstore/raft/RaftNode.java], lines 63-143 and
    278-284, and the methods of [RaftState.java] they call: the election task,
    the bodies of [requestVote], the end of an election and the heartbeat, split
    at their accesses to the storage and to the fields.  Without interruption
    each is the method of RaftNode.v. *)

From S2P Require Import Prelude.
From S2P Require Import Java.
From S2P Require Import Messages.
From S2P Require Import RaftState.
From S2P Require Import Storage.
From S2P Require Import RaftNode.
From S2P Require Import Concurrency.
From S2P Require Import NodeSteps.
From stdpp Require Import base gmap strings list.
#[local] Open Scope Z_scope.

Section split.
Context {S : Type} `{HS : !Storage S} `{HO : !HashOrder} `{HD : !Draws}.
Abbreviation P := (prog jexn (RaftNode S)).

(** [currentTerm++] reads and writes. *)
Definition split_becomeCandidate : P () :=
  _ ⇐ modify (on_state (set_role CANDIDATE));
  t ⇐ getCurrentTerm;
  _ ⇐ modify (on_state (setCurrentTerm (jadd t 1)));
  Done tt.

(** The peers and the pool do not change while a node runs: what the stream
    submits is one action. *)
Definition split_startElection : P (list VoteTask) :=
  prog_bind split_becomeCandidate (λ _,
  _ ⇐ modify (λ n, set_votedFor (Some (nodeId n)) n);
  lastLogIndex ⇐ sto getLastLogIndex;
  lastLogTerm ⇐ sto getLastLogTerm;
  tasks ⇐ (n ← getS;
           if workerPool_down n && negb (bool_decide (peer_values n = []))
           then throw RejectedExecutionException
           else mret ((λ p, mkVoteTask p lastLogIndex lastLogTerm) <$> peer_values n)
             : M jexn (RaftNode S) (list VoteTask));
  Done tasks).

Definition split_leaderElectionTask : P (list VoteTask) :=
  role ⇐ gets (λ n, currentRole (state n));
  if bool_decide (role ≠ LEADER) then split_startElection else Done [].

(** The request is built from one read of the term; the response is compared
    with a second one. *)
Definition split_requestVote_locked
    (rpc : Channel → RequestVoteRequest → option RequestVoteResponse) (t : VoteTask) : P bool :=
  prog_catch
    (sent ⇐ (n ← getS; ch ← nonnull (grpcChannels n !! ni_id (vt_peer t)); mret (ch, voteRequest t n));
     response ⇐ blocking_call (rpc sent.1 sent.2);
     cur ⇐ getCurrentTerm;
     if cur <? rvr_term response then
       prog_bind (split_stepDown (rvr_term response)) (λ _, Done false)
     else Done (rvr_voteGranted response))
    (λ _, Done false).

Definition split_requestVoteBody
    (rpc : Channel → RequestVoteRequest → option RequestVoteResponse) (t : VoteTask) : P bool :=
  await may_read; _ ⇐ lockRead;
  prog_finally (split_requestVote_locked rpc t) unlockRead.

Definition split_becomeLeader : P () :=
  _ ⇐ modify (on_state (set_role LEADER));
  lastLogIndex ⇐ sto getLastLogIndex;
  ids ⇐ gets (λ n, (hash_order (peers n)).*1);
  prog_for ids (λ p,
    _ ⇐ modify (put_next p (jadd lastLogIndex 1));
    _ ⇐ modify (put_match p 0);
    Done tt).

(** The futures are complete when the votes are counted. *)
Definition split_electionDone (votes : list jobject) : P () :=
  c ⇐ countVotes votes;
  ok ⇐ gets (majority_of_peers (c + 1));
  if ok : bool then split_becomeLeader else Done tt.

Definition split_heartbeatTask : P (list NodeInfo) :=
  role ⇐ gets (λ n, currentRole (state n));
  if bool_decide (role = LEADER) then
    ps ⇐ (n ← getS;
          if workerPool_down n && negb (bool_decide (peer_values n = []))
          then throw RejectedExecutionException else mret (peer_values n));
    Done ps
  else Done [].

(** *** Without interruption they are the methods *)

Lemma denote_startElection (n : RaftNode S) : denote split_startElection n = startElection n.
Proof.
  unfold split_startElection, startElection. rewrite denote_bind.
  change (denote split_becomeCandidate) with
    (modify (on_state (set_role CANDIDATE));; t ← getCurrentTerm;
     modify (on_state (setCurrentTerm (jadd t 1)));; mret () : M jexn (RaftNode S) ()).
  rewrite !bind_assoc. do 2 mstep.
  cbn [denote]. apply (bind_ext _ _ _ (on_state becomeCandidate n)). intros _ n1.
  do 2 (apply bind_ext; intros). apply bind_done.
Qed.

Lemma denote_leaderElectionTask (n : RaftNode S) :
  denote split_leaderElectionTask n = leaderElectionTask n.
Proof.
  unfold split_leaderElectionTask, leaderElectionTask. cbn [denote]. apply bind_ext. intros r n1.
  destruct (bool_decide _); [apply denote_startElection|done].
Qed.

Lemma denote_requestVote_locked rpc t (n : RaftNode S) :
  denote (split_requestVote_locked rpc t) n = requestVote_locked rpc t n.
Proof.
  unfold split_requestVote_locked, requestVote_locked. rewrite denote_catch.
  apply try_catch_ext; [|done]. cbn [denote]. rewrite bind_assoc. apply bind_ext. intros n1 n2.
  rewrite bind_assoc. apply bind_ext. intros ch n3. rewrite ret_bind. cbn [fst snd].
  do 2 (apply bind_ext; intros). destruct (_ <? _); [|done]. by rewrite denote_bind.
Qed.

Lemma denote_requestVoteBody rpc t (n : RaftNode S) :
  denote (split_requestVoteBody rpc t) n = requestVoteBody rpc t n.
Proof.
  unfold split_requestVoteBody, requestVoteBody. cbn [denote]. apply bind_ext. intros _ n1.
  rewrite denote_finally. unfold try_finally. by rewrite denote_requestVote_locked.
Qed.

(** Writes of one value at several keys, in any order. *)
Lemma foldr_insert_same {A} (v : A) x l (m : gmap string A) :
  foldr (λ p m, <[p := v]> m) (<[x := v]> m) l = <[x := v]> (foldr (λ p m, <[p := v]> m) m l).
Proof.
  induction l as [|y l IH]; simpl; [done|]. rewrite IH.
  destruct (decide (x = y)) as [->|]; [done|by apply insert_insert_ne].
Qed.

Lemma put_indices i l (n : RaftNode S) :
  forM l (λ p, modify (put_next p i);; modify (put_match p 0);; mret () : M jexn (RaftNode S) ()) n
  = (set_indices (foldr (λ p m, <[p := i]> m) (nextIndex n) l)
       (foldr (λ p m, <[p := 0]> m) (matchIndex n) l) n, Return ()).
Proof.
  revert n. induction l as [|p l IH]; intros n; cbn [forM]; [by destruct n|].
  rewrite !bind_assoc. do 2 mstep. rewrite IH. simpl. by rewrite !foldr_insert_same.
Qed.

Lemma denote_becomeLeader (n : RaftNode S) : denote split_becomeLeader n = node_becomeLeader n.
Proof.
  unfold split_becomeLeader, node_becomeLeader. cbn [denote]. apply bind_ext. intros _ n1.
  apply bind_ext. intros i n2. mstep. rewrite denote_for. apply put_indices.
Qed.

Lemma denote_electionDone votes (n : RaftNode S) :
  denote (split_electionDone votes) n = electionDone votes n.
Proof.
  unfold split_electionDone, electionDone. cbn [denote]. do 2 (apply bind_ext; intros).
  case_match; [apply denote_becomeLeader|done].
Qed.

Lemma denote_heartbeatTask (n : RaftNode S) : denote split_heartbeatTask n = heartbeatTask n.
Proof.
  unfold split_heartbeatTask, heartbeatTask. cbn [denote]. mstep. mstep.
  destruct (bool_decide _); [|done]. cbn [denote]. rewrite bind_assoc. mstep.
  apply bind_done.
Qed.
End split.
