(* ===== verification/RaftRefinement.v ===== *)
(** * A node over any storage behaves as a node over the abstract storage

    Every method of [RaftNode.v] is carried from the abstract storage of
    [Storage.v] to an implementation of the interface: same results, same
    exceptions, same fields, related storages. *)

From S2P Require Import Prelude.
From S2P Require Import Java.
From S2P Require Import Messages.
From S2P Require Import RaftState.
From S2P Require Import Storage.
From S2P Require Import RaftNode.
From stdpp Require Import base gmap strings list.
#[local] Open Scope Z_scope.

(** Two nodes that differ in their storage only, the storages being related. *)
Definition node_rel {S} (R : S → AbsStorage → Prop)
    (n : RaftNode S) (m : RaftNode AbsStorage) : Prop :=
  R (storage n) (storage m) ∧ set_storage (storage m) n = m.

(** A reading or an assignment that does not touch the storage. *)
Ltac same_fields :=
  let Heq := fresh in intros [] [] [? Heq]; injection Heq; intros; subst; clear Heq;
  first [ reflexivity | split; [done | reflexivity] | idtac ].

Ltac node_step :=
  first
    [ lazymatch goal with
      | |- refines _ _ (mbind _ getS) _ =>
          eapply refines_bind; [apply refines_getS|];
          let Heq := fresh in
          intros [] [] [? Heq]; injection Heq; intros; subst; clear Heq; cbn
      end
    | refine_step
    | apply (refines_gets _ eq); same_fields
    | apply refines_gets; same_fields
    | apply refines_modify; same_fields
    | reflexivity ].
Ltac node_refines := repeat node_step.

Section refinement.
Context {S : Type} `{Hst : Storage S} (R : S → AbsStorage → Prop) `{Href : !StorageRefines S R}.
Context `{!HashOrder} `{!Draws}.
Abbreviation NR := (node_rel R).

Lemma refines_sto {A} (m1 : M jexn S A) (m2 : M jexn AbsStorage A) :
  refines R eq m1 m2 → refines NR eq (sto m1) (sto m2).
Proof.
  intros Hm. eapply refines_zoom; [exact Hm|by intros ?? []|].
  intros [] [] ?? [? Heq] ?; injection Heq; intros; subst; by split.
Qed.
#[local] Hint Resolve refines_sto : refinement.

Lemma refines_nonnull {T1 T2 A} (R' : T1 → T2 → Prop) (o : option A) :
  refines R' eq (nonnull o) (nonnull o).
Proof. destruct o; [by apply refines_ret|apply refines_throw]. Qed.
#[local] Hint Resolve refines_nonnull : refinement.

Lemma refines_getCurrentTerm : refines NR eq (getCurrentTerm (S:=S)) getCurrentTerm.
Proof. unfold getCurrentTerm. node_refines. Qed.
#[local] Hint Resolve refines_getCurrentTerm : refinement.

Lemma refines_applyToStateMachine e :
  refines NR eq (applyToStateMachine (S:=S) e) (applyToStateMachine e).
Proof. unfold applyToStateMachine. node_refines. Qed.
#[local] Hint Resolve refines_applyToStateMachine : refinement.

Lemma refines_applyLoop fuel i c :
  refines NR eq (applyLoop (S:=S) fuel i c) (applyLoop fuel i c).
Proof. revert i. induction fuel as [|fuel IH]; intros i; cbn [applyLoop appendLoop]; node_refines. Qed.
#[local] Hint Resolve refines_applyLoop : refinement.

Lemma refines_applyCommittedEntries :
  refines NR eq (applyCommittedEntries (S:=S)) applyCommittedEntries.
Proof. unfold applyCommittedEntries. node_refines. Qed.
#[local] Hint Resolve refines_applyCommittedEntries : refinement.

Lemma refines_appendLoop prev i es :
  refines NR eq (appendLoop (S:=S) prev i es) (appendLoop prev i es).
Proof. revert i. induction es as [|e es IH]; intros i; cbn [applyLoop appendLoop]; node_refines. Qed.
#[local] Hint Resolve refines_appendLoop : refinement.


Lemma refines_lockWrite : refines NR eq (lockWrite (S:=S)) lockWrite.
Proof. unfold lockWrite. node_refines. Qed.
Lemma refines_unlockWrite : refines NR eq (unlockWrite (S:=S)) unlockWrite.
Proof. unfold unlockWrite. node_refines. Qed.
Lemma refines_lockRead : refines NR eq (lockRead (S:=S)) lockRead.
Proof. unfold lockRead. node_refines. Qed.
Lemma refines_unlockRead : refines NR eq (unlockRead (S:=S)) unlockRead.
Proof. unfold unlockRead. node_refines. Qed.
#[local] Hint Resolve refines_lockWrite refines_unlockWrite refines_lockRead
  refines_unlockRead : refinement.

Lemma refines_resetElectionTimer : refines NR eq (resetElectionTimer (S:=S)) resetElectionTimer.
Proof. unfold resetElectionTimer. node_refines. Qed.
Lemma refines_prefixMismatch i t :
  refines NR eq (prefixMismatch (S:=S) i t) (prefixMismatch i t).
Proof. unfold prefixMismatch. node_refines. Qed.
#[local] Hint Resolve refines_resetElectionTimer refines_prefixMismatch : refinement.

Lemma refines_appendEntries id t pi pt es lc :
  refines NR eq (appendEntries (S:=S) id t pi pt es lc) (appendEntries id t pi pt es lc).
Proof. unfold appendEntries, appendEntries_locked. node_refines. Qed.
#[local] Hint Resolve refines_appendEntries : refinement.

Lemma refines_commitLoop fuel n last :
  refines NR eq (commitLoop (S:=S) fuel n last) (commitLoop fuel n last).
Proof. revert n. induction fuel as [|fuel IH]; intros n; cbn [commitLoop]; node_refines. Qed.
#[local] Hint Resolve refines_commitLoop : refinement.

Lemma refines_updateCommitIndex : refines NR eq (updateCommitIndex (S:=S)) updateCommitIndex.
Proof. unfold updateCommitIndex. node_refines. Qed.
#[local] Hint Resolve refines_updateCommitIndex : refinement.

Lemma refines_sendAppendEntries p :
  refines NR eq (sendAppendEntries (S:=S) p) (sendAppendEntries p).
Proof. unfold sendAppendEntries. node_refines. Qed.
#[local] Hint Resolve refines_sendAppendEntries : refinement.

Lemma refines_replicateEntry i : refines NR eq (replicateEntry (S:=S) i) (replicateEntry i).
Proof. unfold replicateEntry. node_refines. Qed.
#[local] Hint Resolve refines_replicateEntry : refinement.

Lemma refines_proposeEntry k v : refines NR eq (proposeEntry (S:=S) k v) (proposeEntry k v).
Proof. unfold proposeEntry. node_refines. Qed.

Lemma refines_node_becomeLeader : refines NR eq (node_becomeLeader (S:=S)) node_becomeLeader.
Proof. unfold node_becomeLeader. node_refines. Qed.
#[local] Hint Resolve refines_node_becomeLeader : refinement.

Lemma refines_startElection : refines NR eq (startElection (S:=S)) startElection.
Proof. unfold startElection. node_refines. Qed.
#[local] Hint Resolve refines_startElection : refinement.

Lemma refines_requestVote t : refines NR eq (requestVote (S:=S) t) (requestVote t).
Proof. unfold requestVote. node_refines. Qed.

Lemma refines_blocking_call {A} (o : option A) :
  refines NR eq (blocking_call (S:=S) o) (blocking_call o).
Proof. destruct o; [by apply refines_ret|apply refines_throw]. Qed.

#[local] Hint Extern 1 (refines _ _ (blocking_call _) _) =>
  apply refines_blocking_call : refinement.

Lemma refines_requestVoteBody rpc t :
  refines NR eq (requestVoteBody (S:=S) rpc t) (requestVoteBody rpc t).
Proof. unfold requestVoteBody, requestVote_locked. node_refines. Qed.

Lemma refines_as_Boolean {T1 T2} (R' : T1 → T2 → Prop) v :
  refines R' eq (as_Boolean v) (as_Boolean v).
Proof. destruct v; [by apply refines_ret|apply refines_throw]. Qed.
#[local] Hint Resolve refines_as_Boolean : refinement.

Lemma refines_countVotes vs : refines NR eq (countVotes (S:=S) vs) (countVotes vs).
Proof. induction vs as [|v vs IH]; cbn [countVotes]; node_refines. Qed.
#[local] Hint Resolve refines_countVotes : refinement.

Lemma refines_electionDone vs : refines NR eq (electionDone (S:=S) vs) (electionDone vs).
Proof. unfold electionDone. node_refines. Qed.

Lemma refines_leaderElectionTask :
  refines NR eq (leaderElectionTask (S:=S)) leaderElectionTask.
Proof. unfold leaderElectionTask. node_refines. Qed.
Lemma refines_heartbeatTask : refines NR eq (heartbeatTask (S:=S)) heartbeatTask.
Proof. unfold heartbeatTask. node_refines. Qed.
Lemma refines_shutdown : refines NR eq (shutdown (S:=S)) shutdown.
Proof. unfold shutdown. node_refines. Qed.
End refinement.
