(* ===== verification/StepsRefinement.v ===== *)
(** * The split methods over a storage that refines the abstract one

    Each program of NodeSteps.v over such a storage refines, access by access,
    the one over [AbsStorage], so that the two may be stopped at the same point
    in related states ([prog_refines_stopped]). *)

From S2P Require Import Prelude.
From S2P Require Import Java.
From S2P Require Import Messages.
From S2P Require Import RaftState.
From S2P Require Import Storage.
From S2P Require Import RaftNode.
From S2P Require Import RaftRefinement.
From S2P Require Import Concurrency.
From S2P Require Import NodeSteps.
From S2P Require Import ElectionSteps.
From stdpp Require Import base gmap strings list.
#[local] Open Scope Z_scope.

Section split_refines.
Context {S : Type} `{HS : !Storage S} (R : S → AbsStorage → Prop) `{HR : !StorageRefines S R}.
Context `{HO : !HashOrder} `{HD : !Draws}.
#[local] Hint Resolve refines_sto refines_nonnull refines_getCurrentTerm
  refines_applyToStateMachine refines_lockWrite refines_unlockWrite
  refines_resetElectionTimer : refinement.

(** The fields of related nodes are equal, so the same locks are free. *)
Ltac same_guard := intros ?? [_ <-]; reflexivity.

Ltac prog_step :=
  first
    [ apply pr_done
    | apply pr_act; [solve [node_refines]|intros ?]
    | apply pr_wait; [solve [same_guard]|solve [node_refines]|intros ?]
    | apply prog_refines_bind; [|intros ?]
    | apply prog_refines_finally; [|solve [node_refines]]
    | apply prog_refines_for; intros ?
    | lazymatch goal with |- prog_refines _ (if ?b then _ else _) _ => destruct b end
    | solve [eauto with refinement] ].
Ltac prog_refines := cbv zeta; repeat (prog_step; cbv zeta).
Abbreviation NR := (node_rel R).

Lemma split_refines_applyLoop fuel i c :
  prog_refines NR (split_applyLoop (S:=S) fuel i c) (split_applyLoop fuel i c).
Proof. revert i. induction fuel as [|fuel IH]; intros i; cbn [split_applyLoop]; prog_refines. Qed.
#[local] Hint Resolve split_refines_applyLoop : refinement.
Lemma split_refines_applyCommitted :
  prog_refines NR (split_applyCommittedEntries (S:=S)) split_applyCommittedEntries.
Proof. unfold split_applyCommittedEntries. prog_refines. Qed.
#[local] Hint Resolve split_refines_applyCommitted : refinement.
Lemma split_refines_commitLoop fuel i last :
  prog_refines NR (split_commitLoop (S:=S) fuel i last) (split_commitLoop fuel i last).
Proof. revert i. induction fuel as [|fuel IH]; intros i; cbn [split_commitLoop]; prog_refines. Qed.
#[local] Hint Resolve split_refines_commitLoop : refinement.
Lemma split_refines_updateCommitIndex :
  prog_refines NR (split_updateCommitIndex (S:=S)) split_updateCommitIndex.
Proof. unfold split_updateCommitIndex. prog_refines. Qed.
#[local] Hint Resolve split_refines_updateCommitIndex : refinement.
Lemma split_refines_prefixMismatch i pt :
  prog_refines NR (split_prefixMismatch (S:=S) i pt) (split_prefixMismatch i pt).
Proof. unfold split_prefixMismatch. prog_refines. Qed.
Lemma split_refines_appendLoop prev i es :
  prog_refines NR (split_appendLoop (S:=S) prev i es) (split_appendLoop prev i es).
Proof. revert i. induction es as [|e es IH]; intros i; cbn [split_appendLoop]; prog_refines. Qed.
#[local] Hint Resolve split_refines_prefixMismatch split_refines_appendLoop : refinement.
Lemma split_refines_appendEntries id t prev pt es lc :
  prog_refines NR (split_appendEntries (S:=S) id t prev pt es lc)
    (split_appendEntries id t prev pt es lc).
Proof. unfold split_appendEntries, split_appendEntries_locked. prog_refines. Qed.
#[local] Hint Resolve split_refines_appendEntries : refinement.
Lemma split_refines_sendAppendEntries p :
  prog_refines NR (split_sendAppendEntries (S:=S) p) (split_sendAppendEntries p).
Proof. unfold split_sendAppendEntries. prog_refines. Qed.
#[local] Hint Resolve split_refines_sendAppendEntries : refinement.
Lemma split_refines_proposeEntry k v :
  prog_refines NR (split_proposeEntry (S:=S) k v) (split_proposeEntry k v).
Proof. unfold split_proposeEntry, split_replicateEntry. prog_refines. Qed.
#[local] Hint Resolve split_refines_proposeEntry refines_countVotes : refinement.
Lemma split_refines_startElection :
  prog_refines NR (split_startElection (S:=S)) split_startElection.
Proof. unfold split_startElection, split_becomeCandidate. prog_refines. Qed.
Lemma split_refines_electionDone votes :
  prog_refines NR (split_electionDone (S:=S) votes) (split_electionDone votes).
Proof. unfold split_electionDone, split_becomeLeader. prog_refines. Qed.
End split_refines.
