(* ===== verification/RaftLog.v ===== *)
(** * Reconciling two logs: the reference definition of the append loop

    What the loop of [appendEntries] is meant to compute, as a function on
    lists: keep the agreeing entries, cut at the first conflict, take the rest
    from the sender. *)

From S2P Require Import Prelude.
From S2P Require Import Messages.
From S2P Require Import Storage.
From stdpp Require Import base gmap strings list.
From Stdlib Require Import Lia.
#[local] Open Scope Z_scope.

Fixpoint overlay (mine theirs : list LogEntry) : list LogEntry :=
  match theirs, mine with
  | [], _ => mine
  | _ :: _, [] => stored <$> theirs
  | e :: es, x :: xs =>
      if le_term x =? le_term e then x :: overlay xs es else stored <$> theirs
  end.

Definition reconcile (prev : Z) (theirs mine : list LogEntry) : list LogEntry :=
  take (Z.to_nat prev) mine ++ overlay (drop (Z.to_nat prev) mine) theirs.

(** Entries of the two logs at the same position have the same term. *)
Definition agree (mine theirs : list LogEntry) : Prop :=
  ∀ k x e, mine !! k = Some x → theirs !! k = Some e → le_term x = le_term e.

(** Raft's log matching assumption: same position and term, same entry. *)
Definition matching (mine theirs : list LogEntry) : Prop :=
  ∀ k x e, mine !! k = Some x → theirs !! k = Some e → le_term x = le_term e → x = stored e.

Section overlay.
Implicit Types xs es : list LogEntry.

Lemma overlay_nil_l es : overlay [] es = stored <$> es.
Proof. by destruct es. Qed.

Lemma overlay_nil_r xs : overlay xs [] = xs.
Proof. by destruct xs. Qed.

Lemma overlay_length_ge xs es : (length es ≤ length (overlay xs es))%nat.
Proof.
  revert xs. induction es as [|e es IH]; intros [|x xs]; simpl; rewrite ?length_fmap; [lia..|].
  destruct (le_term x =? le_term e); simpl; rewrite ?length_fmap; [|done].
  specialize (IH xs). lia.
Qed.

Lemma overlay_length_le xs es : (length (overlay xs es) ≤ length xs + length es)%nat.
Proof.
  revert xs. induction es as [|e es IH]; intros [|x xs]; simpl; rewrite ?length_fmap; [lia..|].
  destruct (le_term x =? le_term e); simpl; rewrite ?length_fmap; [|lia].
  specialize (IH xs). lia.
Qed.

Lemma overlay_term xs es k e :
  es !! k = Some e → ∃ x, overlay xs es !! k = Some x ∧ le_term x = le_term e.
Proof.
  revert xs k. induction es as [|e' es IH]; intros xs k He; [done|].
  destruct xs as [|x xs]; [rewrite overlay_nil_l, list_lookup_fmap, He; by eexists|].
  cbn [overlay]. destruct (Z.eqb_spec (le_term x) (le_term e')).
  - destruct k; simplify_eq/=; eauto.
  - rewrite list_lookup_fmap, He. by eexists.
Qed.

Lemma matching_tail x e xs es : matching (x :: xs) (e :: es) → matching xs es.
Proof. intros H k. apply (H (S k)). Qed.
Lemma agree_tail x e xs es : agree (x :: xs) (e :: es) → agree xs es.
Proof. intros H k. apply (H (S k)). Qed.

Lemma overlay_matching xs es k e :
  matching xs es → es !! k = Some e → overlay xs es !! k = Some (stored e).
Proof.
  revert xs k. induction es as [|e' es IH]; intros xs k Hm He; [done|].
  destruct xs as [|x xs]; [by rewrite overlay_nil_l, list_lookup_fmap, He|].
  cbn [overlay]. destruct (Z.eqb_spec (le_term x) (le_term e')) as [Ht|].
  - destruct k; simplify_eq/=; [|by eapply IH; [eapply matching_tail|]].
    by rewrite (Hm 0%nat x e).
  - by rewrite list_lookup_fmap, He.
Qed.

Lemma overlay_agree xs es :
  agree xs es → overlay xs es = xs ++ (stored <$> drop (length xs) es).
Proof.
  revert xs. induction es as [|e es IH]; intros [|x xs] Ha; simpl; rewrite ?app_nil_r; [done..|].
  rewrite (Ha 0%nat x e), Z.eqb_refl by done. f_equal. by eapply IH, agree_tail.
Qed.

Lemma overlay_self xs : overlay xs xs = xs.
Proof.
  rewrite overlay_agree; [by rewrite drop_all, app_nil_r|]. intros k x e ??. by simplify_eq.
Qed.

Lemma overlay_idem xs es : overlay (overlay xs es) es = overlay xs es.
Proof.
  rewrite overlay_agree.
  - rewrite drop_ge; [by rewrite app_nil_r|apply overlay_length_ge].
  - intros k x e Hx He. destruct (overlay_term xs es k e He) as (x' & ? & ?). by simplify_eq.
Qed.

(** Beyond the entries sent there is nothing that was not there before. *)
Lemma overlay_beyond xs es k x :
  (length es ≤ k)%nat → overlay xs es !! k = Some x → xs !! k = Some x.
Proof.
  revert xs k. induction es as [|e es IH]; intros [|y xs] k Hk Hx; [done|done|..]; simpl in Hk.
  { apply lookup_lt_Some in Hx. rewrite overlay_nil_l, length_fmap in Hx. simpl in Hx. lia. }
  cbn [overlay] in Hx. destruct (le_term y =? le_term e).
  - destruct k as [|k]; [lia|]. simpl in *. apply IH; [lia|done].
  - apply lookup_lt_Some in Hx. rewrite length_fmap in Hx. simpl in Hx. lia.
Qed.

(** The agreeing part of the receiver's log survives. *)
Lemma overlay_take j xs es :
  agree (take j xs) es → (j ≤ length xs)%nat → take j (overlay xs es) = take j xs.
Proof.
  revert j xs. induction es as [|e es IH]; intros j xs Ha Hj; [by rewrite overlay_nil_r|].
  destruct xs as [|x xs]; [by destruct j; simpl in *; [|lia]|].
  destruct j as [|j]; [done|]. simpl in *.
  rewrite (Ha 0%nat x e), Z.eqb_refl by done. simpl. f_equal.
  apply IH; [by eapply agree_tail|lia].
Qed.
End overlay.

Section reconcile.
Implicit Types l es : list LogEntry.
Context (prev : Z) (es l : list LogEntry) (Hprev : 0 ≤ prev ≤ last_index l).

Lemma reconcile_length_ge : prev + last_index es ≤ last_index (reconcile prev es l).
Proof.
  unfold reconcile. rewrite last_index_app. unfold last_index in *.
  rewrite length_take_le by lia.
  pose proof (overlay_length_ge (drop (Z.to_nat prev) l) es). lia.
Qed.

Lemma reconcile_length_le : last_index (reconcile prev es l) ≤ last_index l + last_index es.
Proof.
  unfold reconcile. rewrite last_index_app. unfold last_index in *.
  rewrite length_take_le by lia.
  pose proof (overlay_length_le (drop (Z.to_nat prev) l) es) as H. rewrite length_drop in H. lia.
Qed.

Lemma reconcile_below i : i ≤ prev → log_at i (reconcile prev es l) = log_at i l.
Proof.
  intros Hi. unfold log_at, reconcile. destruct (Z.leb_spec i 0); [done|].
  unfold last_index in *. rewrite lookup_app_l by (rewrite length_take_le; lia).
  apply lookup_take_lt. lia.
Qed.

Lemma reconcile_lookup k :
  reconcile prev es l !! (Z.to_nat prev + k)%nat = overlay (drop (Z.to_nat prev) l) es !! k.
Proof.
  unfold reconcile, last_index in *.
  rewrite lookup_app_r by (rewrite length_take; lia). rewrite length_take_le by lia.
  f_equal. lia.
Qed.

Lemma reconcile_at i : prev < i →
  log_at i (reconcile prev es l)
  = overlay (drop (Z.to_nat prev) l) es !! Z.to_nat (i - prev - 1).
Proof.
  intros Hi. unfold log_at. destruct (Z.leb_spec i 0); [lia|].
  replace (Z.to_nat (i - 1)) with (Z.to_nat prev + Z.to_nat (i - prev - 1))%nat by lia.
  apply reconcile_lookup.
Qed.

Lemma reconcile_beyond i e :
  prev + last_index es < i → log_at i (reconcile prev es l) = Some e → log_at i l = Some e.
Proof.
  intros Hi. rewrite reconcile_at by (unfold last_index in *; lia).
  intros He%overlay_beyond; [|unfold last_index in *; lia]. rewrite lookup_drop in He.
  apply log_at_Some. unfold last_index in *. split; [lia|]. rewrite <-He. f_equal. lia.
Qed.

Lemma drop_reconcile :
  drop (Z.to_nat prev) (reconcile prev es l) = overlay (drop (Z.to_nat prev) l) es.
Proof.
  unfold reconcile, last_index in *. rewrite drop_app_length'; [done|].
  rewrite length_take_le; lia.
Qed.

Lemma take_reconcile : take (Z.to_nat prev) (reconcile prev es l) = take (Z.to_nat prev) l.
Proof.
  unfold reconcile, last_index in *. rewrite take_app_length'; [done|].
  rewrite length_take_le; lia.
Qed.

(** Entries up to [c] that the sender does not contradict survive. *)
Lemma reconcile_committed c :
  c ≤ last_index l → agree (drop (Z.to_nat prev) (take (Z.to_nat c) l)) es →
  take (Z.to_nat c) (reconcile prev es l) = take (Z.to_nat c) l.
Proof.
  intros Hc Ha. unfold last_index in *. destruct (decide (c ≤ prev)).
  - assert (Htt : ∀ l', take (Z.to_nat c) l' = take (Z.to_nat c) (take (Z.to_nat prev) l')).
    { intros l'. rewrite take_take. f_equal. lia. }
    by rewrite (Htt l), (Htt (reconcile prev es l)), take_reconcile.
  - rewrite <-(take_drop (Z.to_nat prev) (take (Z.to_nat c) (reconcile _ _ _))).
    rewrite <-(take_drop (Z.to_nat prev) (take (Z.to_nat c) l)).
    rewrite !take_take, Nat.min_l, take_reconcile by lia. f_equal.
    rewrite !skipn_firstn_comm, drop_reconcile. rewrite skipn_firstn_comm in Ha.
    apply overlay_take; [done|]. rewrite length_drop. lia.
Qed.
End reconcile.

Lemma reconcile_idem prev es l :
  0 ≤ prev ≤ last_index l → reconcile prev es (reconcile prev es l) = reconcile prev es l.
Proof.
  intros H. unfold reconcile at 1. rewrite take_reconcile, drop_reconcile by done.
  by rewrite overlay_idem.
Qed.

Lemma reconcile_self prev l :
  reconcile prev (drop (Z.to_nat prev) l) l = l.
Proof. unfold reconcile. rewrite overlay_self. apply take_drop. Qed.

(** One round of the append loop, at position [p + 1]. *)
Section reconcile_step.
Context (p : Z) (e : LogEntry) (es l : list LogEntry) (Hp : 0 ≤ p ≤ last_index l).

Lemma lookup_of_drop x xs : drop (Z.to_nat p) l = x :: xs → l !! Z.to_nat p = Some x.
Proof. intros Hd. by rewrite <-(Nat.add_0_r (Z.to_nat p)), <-lookup_drop, Hd. Qed.

Lemma log_at_of_drop x xs : drop (Z.to_nat p) l = x :: xs → log_at (p + 1) l = Some x.
Proof.
  intros Hd%lookup_of_drop. apply log_at_Some. split; [lia|].
  by replace (Z.to_nat (p + 1 - 1)) with (Z.to_nat p) by lia.
Qed.

Lemma reconcile_same x xs :
  drop (Z.to_nat p) l = x :: xs → le_term x = le_term e →
  reconcile p (e :: es) l = reconcile (p + 1) es l.
Proof.
  intros Hd Ht. assert (Hx := lookup_of_drop _ _ Hd). unfold reconcile. rewrite Hd.
  cbn [overlay]. rewrite Ht, Z.eqb_refl.
  replace (Z.to_nat (p + 1)) with (S (Z.to_nat p)) by lia.
  rewrite (take_S_r _ _ _ Hx), <-app_assoc. simpl. do 3 f_equal.
  rewrite (drop_S _ _ _ Hx) in Hd. by simplify_eq.
Qed.

Lemma reconcile_append q :
  last_index q = p → reconcile (p + 1) es (q ++ [stored e]) = q ++ (stored <$> e :: es).
Proof.
  intros Hq. unfold reconcile, last_index in *.
  rewrite take_ge, drop_ge by (rewrite length_app; simpl; lia).
  rewrite overlay_nil_l, <-app_assoc. done.
Qed.

Lemma reconcile_conflict x xs :
  drop (Z.to_nat p) l = x :: xs → le_term x ≠ le_term e →
  reconcile p (e :: es) l = reconcile (p + 1) es (take (Z.to_nat p) l ++ [stored e]).
Proof.
  intros Hd Ht. rewrite reconcile_append.
  - unfold reconcile. rewrite Hd. cbn [overlay]. by apply Z.eqb_neq in Ht as ->.
  - unfold last_index in *. rewrite length_take_le; lia.
Qed.

Lemma reconcile_end :
  p = last_index l → reconcile p (e :: es) l = reconcile (p + 1) es (l ++ [stored e]).
Proof.
  intros Hl. rewrite reconcile_append by done. unfold reconcile, last_index in *.
  rewrite take_ge, drop_ge by lia. done.
Qed.
End reconcile_step.
