(* ===== verification/NodeRun.v ===== *)
(** * Running a node over the abstract storage

    Execution lemmas for the methods of [RaftNode.v] on [AbsStorage], in the
    form [method n = (n', outcome)]; they are the hints of [mrun]. *)

From S2P Require Import Prelude.
From S2P Require Import Java.
From S2P Require Import Messages.
From S2P Require Import RaftState.
From S2P Require Import Storage.
From S2P Require Import RaftNode.
From S2P Require Import RaftLog.
From stdpp Require Import base gmap strings list.
From Stdlib Require Import Lia.
#[local] Open Scope Z_scope.

Abbreviation ANode := (RaftNode AbsStorage).

(** Short names for what the theorems look at. *)
Abbreviation log n := (a_log (storage n)).
Abbreviation commit n := (a_commit (storage n)).
Abbreviation applied n := (a_applied (storage n)).
Abbreviation kv n := (a_kv (storage n)).
Abbreviation term n := (currentTerm (state n)).
Abbreviation role n := (currentRole (state n)).

(** Replacing the storage by a function of it. *)
Definition upd (f : AbsStorage → AbsStorage) (n : ANode) : ANode := set_storage (f (storage n)) n.

Definition is_open (n : ANode) : Prop := a_open (storage n) = true.
#[export] Hint Extern 1 (is_open _) => (unfold is_open in *; cbn; assumption) : mrun.
#[export] Hint Extern 1 (is_open _) => (unfold is_open in *; cbn; congruence) : mrun.

Lemma set_storage_id {S} (n : RaftNode S) : set_storage (storage n) n = n.
Proof. by destruct n. Qed.

Section run.
Context `{HO : !HashOrder} `{HD : !Draws}.
Implicit Types n : ANode.

Lemma run_get {A} (m : M jexn AbsStorage A) n x :
  m (storage n) = (storage n, Return x) → sto m n = (n, Return x).
Proof. intros H. unfold sto, zoom. rewrite H. by rewrite set_storage_id. Qed.

Lemma run_put {A} (m : M jexn AbsStorage A) n f x :
  m (storage n) = (f (storage n), Return x) → sto m n = (upd f n, Return x).
Proof. intros H. unfold sto, zoom. by rewrite H. Qed.

Lemma run_lastIndex n : is_open n →
  sto getLastLogIndex n = (n, Return (last_index (log n))).
Proof. intros Ho. apply run_get. by apply (if_open_run _ Ho). Qed.
Lemma run_lastTerm n : is_open n → sto getLastLogTerm n = (n, Return (last_term (log n))).
Proof. intros Ho. apply run_get. by apply (if_open_run _ Ho). Qed.
Lemma run_entry i n : is_open n → sto (getLogEntry i) n = (n, Return (log_at i (log n))).
Proof. intros Ho. apply run_get. by apply (if_open_run _ Ho). Qed.
Lemma run_entries s e n : is_open n →
  sto (getLogEntries s e) n = (n, Return (log_range s e (log n))).
Proof. intros Ho. apply run_get. by apply (if_open_run _ Ho). Qed.
Lemma run_getCommit n : is_open n → sto getCommitIndex n = (n, Return (commit n)).
Proof. intros Ho. apply run_get. by apply (if_open_run _ Ho). Qed.
Lemma run_getApplied n : is_open n → sto getLastApplied n = (n, Return (applied n)).
Proof. intros Ho. apply run_get. by apply (if_open_run _ Ho). Qed.
Lemma run_setCommit c n : is_open n → sto (setCommitIndex c) n = (upd (set_commit c) n, Return ()).
Proof. intros Ho. apply run_put. by apply (if_open_run _ Ho). Qed.
Lemma run_setApplied i n : is_open n → sto (setLastApplied i) n = (upd (set_applied i) n, Return ()).
Proof. intros Ho. apply run_put. by apply (if_open_run _ Ho). Qed.
Lemma run_delete i n : is_open n →
  sto (deleteLogEntriesFrom i) n
  = (upd (λ a, set_log (take (Z.to_nat (i - 1)) (a_log a)) a) n, Return ()).
Proof.
  intros Ho. apply (run_put _ n (λ a, set_log (take (Z.to_nat (i - 1)) (a_log a)) a)).
  by apply (if_open_run _ Ho).
Qed.
Lemma run_update k v n : is_open n →
  sto (updateKeyValue k v) n = (upd (λ a, set_kv (<[k := v]> (a_kv a)) a) n, Return ()).
Proof.
  intros Ho. apply (run_put _ n (λ a, set_kv (<[k := v]> (a_kv a)) a)).
  by apply (if_open_run _ Ho).
Qed.
Lemma run_append e n : is_open n → last_index (log n) < long_max →
  sto (appendLogEntry e) n
  = (upd (λ a, set_log (a_log a ++ [stored e]) a) n, Return (last_index (log n) + 1)).
Proof.
  intros Ho Hl. apply (run_put _ n (λ a, set_log (a_log a ++ [stored e]) a)).
  by apply abs_append_run.
Qed.

Lemma run_nonnull {S A} (o : option A) (a : A) (s : S) :
  o = Some a → nonnull o s = (s, Return a).
Proof. by intros ->. Qed.
Lemma run_currentTerm n : getCurrentTerm n = (n, Return (term n)).
Proof. done. Qed.
Lemma run_getS {E S} (s : S) : (getS : M E S S) s = (s, Return s).
Proof. done. Qed.
End run.

#[export] Hint Resolve run_lastIndex run_lastTerm run_entry run_entries run_getCommit
  run_getApplied run_setCommit run_setApplied run_delete run_update run_currentTerm
  run_getS : mrun.

(** ** The fields a reader never sees [upd] through *)

Section upd.
Implicit Types n : ANode.
Lemma upd_upd f g n : upd f (upd g n) = upd (f ∘ g) n.
Proof. done. Qed.
Lemma upd_id f n : f (storage n) = storage n → upd f n = n.
Proof. intros H. unfold upd. by rewrite H, set_storage_id. Qed.
Lemma upd_ext f g n : f (storage n) = g (storage n) → upd f n = upd g n.
Proof. intros H. unfold upd. by rewrite H. Qed.
End upd.

Lemma set_log_id a : set_log (a_log a) a = a.
Proof. by destruct a. Qed.
Lemma set_commit_id a : set_commit (a_commit a) a = a.
Proof. by destruct a. Qed.
Lemma set_applied_kv_id a : set_applied (a_applied a) (set_kv (a_kv a) a) = a.
Proof. by destruct a. Qed.

(** ** Applying committed entries *)

(** [apply_committed a]: the effect of [applyCommittedEntries]. *)
Definition apply_committed (a : AbsStorage) : AbsStorage :=
  set_applied (Z.max (a_applied a) (a_commit a))
    (set_kv (replay (log_range (a_applied a + 1) (a_commit a) (a_log a)) (a_kv a)) a).

Lemma log_range_cons i c l e :
  1 ≤ i ≤ c → log_at i l = Some e → log_range i c l = e :: log_range (i + 1) c l.
Proof.
  intros Hi [_ He]%log_at_Some. unfold log_range.
  rewrite (drop_S _ e (Z.to_nat (i - 1))); [|rewrite lookup_take_lt; [done|lia]].
  do 2 f_equal. lia.
Qed.

Lemma log_range_empty i c l : c < i → log_range i c l = [].
Proof. intros. unfold log_range. rewrite drop_ge; [done|]. rewrite length_take. lia. Qed.

Lemma log_range_split a b c l : 1 ≤ a ≤ b + 1 → b ≤ c →
  log_range a c l = log_range a b l ++ log_range (b + 1) c l.
Proof.
  intros Hab Hbc. unfold log_range.
  rewrite <-(take_drop (Z.to_nat b) (take (Z.to_nat c) l)) at 1.
  rewrite take_take, Nat.min_l, drop_app by lia.
  replace (Z.to_nat (b + 1 - 1)) with (Z.to_nat b) by lia.
  f_equal. destruct (decide (b ≤ last_index l)) as [Hb|Hb]; unfold last_index in Hb.
  - rewrite length_take_le by lia.
    by replace (Z.to_nat (a - 1) - Z.to_nat b)%nat with 0%nat by lia.
  - rewrite (drop_ge (take _ _) (Z.to_nat b)) by (rewrite length_take; lia). by rewrite drop_nil.
Qed.

Lemma log_at_in_range i l : 1 ≤ i ≤ last_index l → ∃ e, log_at i l = Some e.
Proof. intros H%log_at_is_Some. exact H. Qed.

Section apply.
Context `{HO : !HashOrder} `{HD : !Draws}.
Implicit Types n : ANode.

Lemma applyLoop_run fuel : ∀ i n,
  is_open n → 0 ≤ i → i + Z.of_nat fuel ≤ last_index (log n) → last_index (log n) ≤ long_max →
  applyLoop fuel i (i + Z.of_nat fuel) n
  = (upd (λ a, set_kv (replay (log_range (i + 1) (i + Z.of_nat fuel) (a_log a)) (a_kv a)) a) n,
     Return (i + Z.of_nat fuel)).
Proof.
  induction fuel as [|fuel IH]; intros i n Ho Hi Hc Hmax; cbn [applyLoop].
  - rewrite Z.add_0_r, Z.ltb_irrefl, upd_id; [done|]. rewrite log_range_empty by lia.
    by destruct (storage n).
  - destruct (Z.ltb_spec i (i + Z.of_nat (S fuel))); [|lia]. long_arith.
    destruct (log_at_in_range (i + 1) (log n)) as [e He]; [lia|].
    mstep. rewrite He. unfold applyToStateMachine. cbn [nonnull]. do 3 mstep.
    replace (i + Z.of_nat (S fuel)) with ((i + 1) + Z.of_nat fuel) by lia.
    rewrite IH by (first [assumption|simpl; lia]). f_equal.
    rewrite upd_upd. apply upd_ext. simpl. by rewrite (log_range_cons (i + 1) _ _ e) by (done || lia).
Qed.

Lemma applyCommittedEntries_run n :
  is_open n → 0 ≤ applied n → commit n ≤ last_index (log n) → last_index (log n) ≤ long_max →
  applyCommittedEntries n = (upd apply_committed n, Return ()).
Proof.
  intros Ho Ha Hc Hmax. unfold applyCommittedEntries. do 2 mstep.
  destruct (decide (applied n ≤ commit n)).
  - erewrite bind_return.
    2: { pose proof (applyLoop_run (Z.to_nat (commit n - applied n)) (applied n) n) as Hx.
         replace (applied n + Z.of_nat _) with (commit n) in Hx by lia. apply Hx; done || lia. }
    cbn beta. rewrite run_setApplied by done. f_equal. rewrite upd_upd. apply upd_ext. unfold apply_committed.
    simpl. by rewrite Z.max_r by lia.
  - replace (Z.to_nat _) with 0%nat by lia. cbn [applyLoop].
    rewrite (proj2 (Z.ltb_ge _ _)) by lia. mstep. rewrite run_setApplied by done. f_equal.
    apply upd_ext. unfold apply_committed. rewrite log_range_empty, Z.max_l by lia.
    simpl. by destruct (storage n).
Qed.
End apply.
#[export] Hint Resolve applyCommittedEntries_run : mrun.

(** ** Receiving entries *)

Section append.
Context `{HO : !HashOrder} `{HD : !Draws}.
Implicit Types n : ANode.

Lemma appendLoop_run es : ∀ prev i n,
  is_open n → 0 ≤ prev → prev + Z.of_nat i ≤ last_index (log n) →
  last_index (log n) + last_index es ≤ long_max →
  appendLoop prev i es n
  = (upd (λ a, set_log (reconcile (prev + Z.of_nat i) es (a_log a)) a) n, Return ()).
Proof.
  induction es as [|e es IH]; intros prev i n Ho Hp Hi Hmax; cbn [appendLoop].
  { rewrite upd_id; [done|]. unfold reconcile. rewrite overlay_nil_r, take_drop. apply set_log_id. }
  assert (Hlen : last_index (e :: es) = last_index es + 1) by (unfold last_index; simpl; lia).
  assert (0 ≤ last_index es) by (unfold last_index; lia). long_arith.
  set (p := prev + Z.of_nat i) in *. replace (prev + 1 + Z.of_nat i) with (p + 1) by lia.
  assert (Hpi : prev + Z.of_nat (S i) = p + 1) by lia.
  mstep. destruct (Z.leb_spec (p + 1) (last_index (log n))) as [Hin|Hout].
  - destruct (drop (Z.to_nat p) (log n)) as [|x xs] eqn:Hd.
    { apply (f_equal length) in Hd. rewrite length_drop in Hd. unfold last_index in *.
      simpl in Hd. lia. }
    msteps. rewrite (log_at_of_drop p) with (x := x) (xs := xs) by (done || lia).
    cbn [nonnull]. msteps.
    destruct (Z.eqb_spec (le_term x) (le_term e)) as [Ht|Ht]; cbn [negb].
    + msteps. rewrite IH, Hpi by (done || lia). f_equal. apply upd_ext.
      by rewrite (reconcile_same p e es (log n)) with (x := x) (xs := xs) by (done || lia).
    + msteps. erewrite bind_return; [|apply run_append; [done|]].
      2: { simpl. unfold last_index in *. rewrite length_take. lia. }
      cbn beta. msteps. replace (Z.to_nat (p + 1 - 1)) with (Z.to_nat p) by lia.
      assert (last_index (take (Z.to_nat p) (log n)) = p)
        by (unfold last_index in *; rewrite length_take; lia).
      rewrite IH, Hpi; [|done|done|simpl; rewrite last_index_snoc; lia..].
      f_equal. rewrite !upd_upd. apply upd_ext. simpl.
      by rewrite (reconcile_conflict p e es (log n)) with (x := x) (xs := xs) by (done || lia).
  - erewrite bind_return; [|erewrite bind_return; [|apply run_append; [done|lia]]; reflexivity].
    cbn beta. rewrite IH, Hpi; [|done|done|simpl; rewrite last_index_snoc; lia..].
    f_equal. rewrite !upd_upd. apply upd_ext. simpl.
    by rewrite (reconcile_end p e es (log n)) by lia.
Qed.

(** *** The parts of [appendEntries] *)

Definition timer_reset n : ANode :=
  let sch := cancel_timer (electionTimer n) (scheduler n) in
  set_timer
    (mkScheduler (<[sch_next sch := 150 + draw (draws_done n)]> (sch_pending sch))
       (S (sch_next sch)) false)
    (Some (sch_next sch)) (S (draws_done n)) n.

Definition step_down (t : Z) n : ANode :=
  if term n <? t then set_votedFor None (set_state (becomeFollower t (state n)) n) else n.

Definition prefix_mismatch (prev pt : Z) (l : list LogEntry) : bool :=
  (last_index l <? prev)
  || ((0 <? prev) && negb (from_option le_term 0 (log_at prev l) =? pt)).

Definition accept (prev : Z) (es : list LogEntry) (lc : Z) (a : AbsStorage) : AbsStorage :=
  let a' := set_log (reconcile prev es (a_log a)) a in
  if a_commit a <? lc
  then apply_committed (set_commit (Z.min lc (last_index (a_log a'))) a')
  else a'.

(** What a call of [appendEntries] does and answers. *)
Definition append_result (t prev pt : Z) (es : list LogEntry) (lc : Z) n : ANode * bool :=
  if t <? term n then (n, false)
  else let n' := timer_reset (step_down t n) in
       if prefix_mismatch prev pt (log n') then (n', false)
       else (upd (accept prev es lc) n', true).

(** A node that can run the method to its end. *)
Record ready (k : Z) n : Prop := {
  ready_open : is_open n;
  ready_scheduler : sch_down (scheduler n) = false;
  ready_applied : 0 ≤ applied n;
  ready_room : last_index (log n) + k ≤ long_max;
}.

Lemma cancel_down t sch : sch_down (cancel_timer t sch) = sch_down sch.
Proof. by destruct t. Qed.

Lemma resetElectionTimer_run n :
  sch_down (scheduler n) = false → resetElectionTimer n = (timer_reset n, Return ()).
Proof.
  intros Hd. unfold resetElectionTimer. do 2 mstep. simpl. rewrite cancel_down, Hd.
  unfold timer_reset. done.
Qed.

Lemma prefixMismatch_run prev pt n :
  is_open n → prefixMismatch prev pt n = (n, Return (prefix_mismatch prev pt (log n))).
Proof.
  intros Ho. unfold prefixMismatch, prefix_mismatch. mstep.
  destruct (Z.ltb_spec (last_index (log n)) prev) as [?|Hle]; cbn [orb]; [done|].
  destruct (Z.ltb_spec 0 prev); cbn [andb]; [|done]. mstep.
  destruct (log_at_in_range prev (log n)) as [e ->]; [lia|]. done.
Qed.

(** The body of the [try] block, when the term is not stale. *)
Lemma accept_run prev es lc n :
  ready (last_index es) n → 0 ≤ prev ≤ last_index (log n) →
  (appendLoop prev 0 es;;
   commitIndex ← sto getCommitIndex;
   (if commitIndex <? lc then
      last ← sto getLastLogIndex;
      sto (setCommitIndex (Z.min lc last));;
      applyCommittedEntries
    else mret ());;
   mret true) n
  = (upd (accept prev es lc) n, Return true).
Proof.
  intros [Ho _ Ha Hr] Hp.
  erewrite bind_return; [|apply appendLoop_run; [done|lia|simpl; lia|lia]]. cbn beta.
  replace (prev + Z.of_nat 0) with prev by lia. mstep. unfold accept.
  pose proof (reconcile_length_le prev es (log n) Hp) as Hlen.
  set (f := λ a, set_log (reconcile prev es (a_log a)) a).
  replace (commit (upd f n)) with (commit n) by done. destruct (commit n <? lc) eqn:Hlt.
  - erewrite bind_return;
      [|do 2 mstep; apply applyCommittedEntries_run; simpl; first [done | subst f; simpl in *; lia]].
    unfold mret, M_ret. f_equal. rewrite !upd_upd. apply upd_ext. simpl. by rewrite Hlt.
  - mstep. unfold mret, M_ret. f_equal. apply upd_ext. by rewrite Hlt.
Qed.

Lemma with_lock_run {A} (m : M jexn ANode A) (f : ANode → ANode) o n :
  m (set_rwLock (mkRWLock (S (lk_write (rwLock n))) (lk_read (rwLock n))) n)
  = (f (set_rwLock (mkRWLock (S (lk_write (rwLock n))) (lk_read (rwLock n))) n), o) →
  (∀ l n, f (set_rwLock l n) = set_rwLock l (f n)) → rwLock (f n) = rwLock n →
  o ≠ Undefined →
  (lockWrite;; try_finally m unlockWrite) n = (f n, o).
Proof.
  intros Hm Hf Hl Ho. unfold lockWrite. mstep. unfold try_finally.
  rewrite Hm, Hf. cbn. destruct (f n) as [? ? ? ? ? ? ? ? ? [w r] ? ? ?] eqn:E.
  simpl in Hl. subst. destruct o; try done; simpl; by rewrite <-Hl.
Qed.

Lemma append_result_lock t prev pt es lc l n :
  append_result t prev pt es lc (set_rwLock l n)
  = (set_rwLock l (append_result t prev pt es lc n).1, (append_result t prev pt es lc n).2).
Proof.
  unfold append_result, step_down. simpl. destruct (t <? term n); [done|].
  destruct (term n <? t); simpl; by destruct (prefix_mismatch prev pt (log n)).
Qed.

Lemma append_result_same_lock t prev pt es lc n :
  rwLock (append_result t prev pt es lc n).1 = rwLock n.
Proof.
  unfold append_result, step_down. destruct (t <? term n); [done|].
  destruct (term n <? t); simpl; by destruct (prefix_mismatch prev pt (log n)).
Qed.

Lemma step_down_run t n :
  (if term n <? t then
     modify (on_state (setCurrentTerm t));; modify (on_state (becomeFollower t));;
     modify (set_votedFor None)
   else mret () : M jexn ANode ()) n = (step_down t n, Return ()).
Proof. unfold step_down. by destruct (term n <? t). Qed.

Lemma step_down_storage t n : storage (step_down t n) = storage n.
Proof. unfold step_down. by destruct (term n <? t). Qed.
Lemma step_down_scheduler t n : scheduler (step_down t n) = scheduler n.
Proof. unfold step_down. by destruct (term n <? t). Qed.

Lemma appendEntries_locked_run t prev pt es lc n :
  ready (last_index es) n → 0 ≤ prev →
  appendEntries_locked t prev pt es lc n
  = ((append_result t prev pt es lc n).1, Return (append_result t prev pt es lc n).2).
Proof.
  intros [Ho Hd Ha Hr] Hp. unfold appendEntries_locked, append_result. mstep.
  destruct (t <? term n); [done|].
  erewrite bind_return by apply step_down_run. cbn beta.
  erewrite bind_return; [|apply resetElectionTimer_run; by rewrite step_down_scheduler]. cbn beta.
  set (n' := timer_reset (step_down t n)).
  assert (Hst : storage n' = storage n) by (subst n'; simpl; by rewrite step_down_storage).
  assert (Hopen : is_open n') by (unfold is_open in *; by rewrite Hst).
  erewrite bind_return by by apply prefixMismatch_run. cbn beta.
  destruct (prefix_mismatch prev pt (log n')) eqn:Hm; [done|].
  rewrite accept_run; [done| |].
  - by split; rewrite ?Hst.
  - rewrite Hst. unfold prefix_mismatch in Hm. rewrite Hst in Hm.
    apply orb_false_iff in Hm as [Hm%Z.ltb_ge _]. lia.
Qed.

Lemma appendEntries_run id t prev pt es lc n :
  ready (last_index es) n → 0 ≤ prev →
  appendEntries id t prev pt es lc n
  = ((append_result t prev pt es lc n).1, Return (append_result t prev pt es lc n).2).
Proof.
  intros [] Hp. unfold appendEntries.
  apply (with_lock_run _ (λ n, (append_result t prev pt es lc n).1));
    [|by intros; rewrite append_result_lock|apply append_result_same_lock|done].
  rewrite appendEntries_locked_run by done. by rewrite append_result_lock.
Qed.
End append.
