(* ===== verification/RaftReplication.v ===== *)
(** * Receiving entries: what [appendEntries] guarantees

    Properties of [RaftNode.appendEntries]: its contract over any storage, log
    matching, safety of the committed prefix, idempotence, rejection of stale
    terms, release of the lock and the election timer. *)

From S2P Require Import Prelude.
From S2P Require Import Java.
From S2P Require Import Messages.
From S2P Require Import RaftState.
From S2P Require Import Storage.
From S2P Require Import SQLiteStorage.
From S2P Require Import MemoryEngine.
From S2P Require Import RaftNode.
From S2P Require Import RaftRefinement.
From S2P Require Import RaftLog.
From S2P Require Import NodeRun.
From stdpp Require Import base gmap strings list.
From Stdlib Require Import Lia.
#[local] Open Scope Z_scope.

(** ** The invariant of a node's storage *)

(** The indices are ordered and the map is the replay of the applied prefix. *)
Record storage_inv (a : AbsStorage) : Prop := {
  inv_open : a_open a = true;
  inv_applied : 0 ≤ a_applied a ≤ a_commit a;
  inv_commit : a_commit a ≤ last_index (a_log a);
  inv_kv : a_kv a = replay (take (Z.to_nat (a_applied a)) (a_log a)) ∅;
}.

(** The indices alone, whatever the map. *)
Record indices_ok (a : AbsStorage) : Prop := {
  ix_open : a_open a = true;
  ix_applied : 0 ≤ a_applied a ≤ a_commit a;
  ix_commit : a_commit a ≤ last_index (a_log a);
}.

Lemma storage_inv_indices a : storage_inv a → indices_ok a.
Proof. intros []. by split. Qed.
#[export] Hint Resolve storage_inv_indices : mrun.

Lemma take_range i c l : 0 ≤ i ≤ c →
  take (Z.to_nat c) l = take (Z.to_nat i) l ++ log_range (i + 1) c l.
Proof.
  intros. unfold log_range. replace (Z.to_nat (i + 1 - 1)) with (Z.to_nat i) by lia.
  rewrite <-(take_drop (Z.to_nat i) (take (Z.to_nat c) l)) at 1.
  by rewrite take_take, Nat.min_l by lia.
Qed.

Lemma apply_committed_inv a :
  a_open a = true → 0 ≤ a_applied a ≤ a_commit a → a_commit a ≤ last_index (a_log a) →
  a_kv a = replay (take (Z.to_nat (a_applied a)) (a_log a)) ∅ →
  storage_inv (apply_committed a).
Proof.
  intros Ho Ha Hc Hkv. split; simpl; [done|lia|lia|].
  rewrite Z.max_r by lia. by rewrite (take_range (a_applied a)), replay_app, Hkv by lia.
Qed.

(** The sender does not contradict what is committed here. *)
Definition respects_commit (prev : Z) (es : list LogEntry) (a : AbsStorage) : Prop :=
  agree (drop (Z.to_nat prev) (take (Z.to_nat (a_commit a)) (a_log a))) es.

Section accept.
Context (prev : Z) (es : list LogEntry) (lc : Z) (a : AbsStorage).
Context (Hinv : storage_inv a) (Hprev : 0 ≤ prev ≤ last_index (a_log a)).

Lemma accept_log : a_log (accept prev es lc a) = reconcile prev es (a_log a).
Proof. unfold accept. by destruct (a_commit a <? lc). Qed.

Lemma accept_commit :
  a_commit (accept prev es lc a)
  = if a_commit a <? lc then Z.min lc (last_index (reconcile prev es (a_log a))) else a_commit a.
Proof. unfold accept. by destruct (a_commit a <? lc). Qed.

Context (Hresp : respects_commit prev es a).

Lemma accept_take i :
  i ≤ a_commit a → take (Z.to_nat i) (reconcile prev es (a_log a)) = take (Z.to_nat i) (a_log a).
Proof.
  intros Hi. pose proof (inv_commit a Hinv) as Hc.
  pose proof (reconcile_committed prev es (a_log a) Hprev (a_commit a) Hc Hresp) as Ht.
  apply (f_equal (take (Z.to_nat i))) in Ht. rewrite !take_take in Ht.
  by rewrite !Nat.min_l in Ht by lia.
Qed.

Lemma accept_last : a_commit a ≤ last_index (reconcile prev es (a_log a)).
Proof.
  pose proof (accept_take (a_commit a) ltac:(lia)) as Ht. destruct Hinv.
  apply (f_equal length) in Ht. unfold last_index in *. rewrite !length_take in Ht. lia.
Qed.

Lemma accept_commit_grows : a_commit a ≤ a_commit (accept prev es lc a).
Proof. rewrite accept_commit. pose proof accept_last. destruct (Z.ltb_spec (a_commit a) lc); lia. Qed.

Lemma accept_inv : storage_inv (accept prev es lc a).
Proof.
  pose proof accept_last as Hlast. pose proof accept_take (a_applied a) as Ht.
  destruct Hinv as [Ho Ha Hc Hkv]. unfold accept. destruct (Z.ltb_spec (a_commit a) lc).
  - apply apply_committed_inv; simpl; [done|lia|lia|]. by rewrite Ht by lia.
  - split; simpl; [done..|]. by rewrite Ht by lia.
Qed.
End accept.

(** ** Facts on the pure result *)

Section result.
Context `{HO : !HashOrder} `{HD : !Draws}.
Context (t prev pt : Z) (es : list LogEntry) (lc : Z).
Implicit Types n : ANode.

Lemma append_result_rejected n :
  (append_result t prev pt es lc n).2 = false →
  storage (append_result t prev pt es lc n).1 = storage n.
Proof.
  unfold append_result. destruct (t <? term n); [done|]. simpl.
  destruct (prefix_mismatch _ _ _); simpl; [|done]. by rewrite step_down_storage.
Qed.

Lemma append_result_accepted n :
  (append_result t prev pt es lc n).2 = true →
  term n ≤ t ∧ prefix_mismatch prev pt (log n) = false
  ∧ storage (append_result t prev pt es lc n).1 = accept prev es lc (storage n).
Proof.
  unfold append_result. destruct (Z.ltb_spec t (term n)); [done|]. simpl.
  rewrite step_down_storage.
  destruct (prefix_mismatch _ _ _); simpl; [done|]. by rewrite step_down_storage.
Qed.

Lemma append_result_term n :
  (append_result t prev pt es lc n).2 = true →
  term (append_result t prev pt es lc n).1 = t.
Proof.
  unfold append_result, step_down. destruct (Z.ltb_spec t (term n)); [done|].
  destruct (Z.ltb_spec (term n) t); simpl; destruct (prefix_mismatch _ _ _); simpl; done || lia.
Qed.

Lemma append_result_scheduler n :
  sch_down (scheduler n) = false →
  sch_down (scheduler (append_result t prev pt es lc n).1) = false.
Proof.
  unfold append_result. destruct (t <? term n); [done|]. intros _. simpl.
  by destruct (prefix_mismatch _ _ _).
Qed.

Lemma prefix_mismatch_ext l l' :
  prefix_mismatch prev pt l = false → prev ≤ last_index l' →
  log_at prev l' = log_at prev l → prefix_mismatch prev pt l' = false.
Proof.
  unfold prefix_mismatch. intros [_ H]%orb_false_iff Hl ->.
  by rewrite (proj2 (Z.ltb_ge _ _) Hl), H.
Qed.

Lemma append_result_same_term n :
  term n = t → prefix_mismatch prev pt (log n) = false →
  append_result t prev pt es lc n = (upd (accept prev es lc) (timer_reset n), true).
Proof.
  intros Ht Hm. unfold append_result, step_down. rewrite Ht, Z.ltb_irrefl.
  cbv zeta. change (log (timer_reset n)) with (log n). by rewrite Hm.
Qed.

Lemma prefix_ok l : prefix_mismatch prev pt l = false → prev ≤ last_index l.
Proof. by intros [?%Z.ltb_ge _]%orb_false_iff. Qed.
End result.

Section idempotence.
Context (prev : Z) (es : list LogEntry) (lc : Z) (a : AbsStorage).
Context (Happ : 0 ≤ a_applied a) (Hprev : 0 ≤ prev ≤ last_index (a_log a)).

Lemma apply_committed_idem b : apply_committed (apply_committed b) = apply_committed b.
Proof.
  unfold apply_committed. simpl. rewrite log_range_empty by lia. simpl.
  by rewrite (Z.max_l (Z.max _ _)) by lia.
Qed.

Lemma accept_idem : accept prev es lc (accept prev es lc a) = accept prev es lc a.
Proof.
  unfold accept. destruct (Z.ltb_spec (a_commit a) lc) as [H|H].
  - simpl. rewrite reconcile_idem by done.
    set (c := Z.min lc _). destruct (Z.ltb_spec c lc); [|done].
    assert (Hs : set_commit c (set_log (reconcile prev es (a_log a))
             (apply_committed (set_commit c (set_log (reconcile prev es (a_log a)) a))))
           = apply_committed (set_commit c (set_log (reconcile prev es (a_log a)) a)))
      by done.
    by rewrite Hs, apply_committed_idem.
  - simpl. apply Z.ltb_ge in H as ->. by rewrite reconcile_idem.
Qed.
End idempotence.

(** ** Frames over any storage *)

Definition same_lock {S} (n n' : RaftNode S) : Prop := rwLock n' = rwLock n.
#[export] Instance same_lock_preorder {S} : PreOrder (@same_lock S).
Proof. split; [done|]. intros ??? H1 H2. unfold same_lock in *. congruence. Qed.

Section frames.
Context {S : Type} `{!Storage S} `{HO : !HashOrder} `{HD : !Draws}.
Abbreviation J := (M jexn (RaftNode S)).

Ltac frame :=
  repeat first [ frame_step | apply steps_modify; intros; reflexivity ].

Lemma frame_sto {A} (m : M jexn S A) : steps same_lock (sto m).
Proof. apply steps_zoom. done. Qed.
#[local] Hint Resolve frame_sto : frame.
Lemma frame_nonnull {A} (o : option A) : steps same_lock (nonnull o : J A).
Proof. destruct o; simpl; frame. Qed.
Lemma frame_blocking {A} (o : option A) : steps same_lock (blocking_call o : J A).
Proof. destruct o; simpl; frame. Qed.
#[local] Hint Resolve frame_nonnull frame_blocking : frame.
Lemma frame_currentTerm : steps same_lock (getCurrentTerm : J Z).
Proof. unfold getCurrentTerm. frame. Qed.
#[local] Hint Resolve frame_currentTerm : frame.
Lemma frame_applyTo e : steps same_lock (applyToStateMachine e : J ()).
Proof. unfold applyToStateMachine. frame. Qed.
#[local] Hint Resolve frame_applyTo : frame.
Lemma frame_applyLoop fuel i c : steps same_lock (applyLoop fuel i c : J Z).
Proof. revert i. induction fuel; intros; cbn [applyLoop]; frame. Qed.
#[local] Hint Resolve frame_applyLoop : frame.
Lemma frame_applyCommitted : steps same_lock (applyCommittedEntries : J ()).
Proof. unfold applyCommittedEntries. frame. Qed.
Lemma frame_appendLoop prev i es : steps same_lock (appendLoop prev i es : J ()).
Proof. revert i. induction es; intros; cbn [appendLoop]; frame. Qed.
Lemma frame_reset : steps same_lock (resetElectionTimer : J ()).
Proof. unfold resetElectionTimer. frame. Qed.
Lemma frame_mismatch i t : steps same_lock (prefixMismatch i t : J bool).
Proof. unfold prefixMismatch. frame. Qed.
#[local] Hint Resolve frame_applyCommitted frame_appendLoop frame_reset frame_mismatch : frame.
Lemma frame_append_locked t prev pt es lc :
  steps same_lock (appendEntries_locked t prev pt es lc : J bool).
Proof. unfold appendEntries_locked. frame. Qed.
Lemma frame_vote_locked rpc t : steps same_lock (requestVote_locked rpc t : J bool).
Proof. unfold requestVote_locked. frame. Qed.

(** [lock(); try { m } finally { unlock() }]. *)
Lemma write_lock_released {A} (m : J A) n :
  steps same_lock m →
  ((lockWrite;; try_finally m unlockWrite) n).2 ≠ Undefined →
  rwLock ((lockWrite;; try_finally m unlockWrite) n).1 = rwLock n.
Proof.
  intros Hm. unfold lockWrite. mstep. unfold try_finally.
  set (n1 := set_rwLock _ n). specialize (Hm n1). destruct (m n1) as [n2 o].
  unfold same_lock in Hm; simpl in Hm. unfold unlockWrite, mbind, M_bind, getS, modify.
  rewrite Hm. simpl. destruct o; simpl; try done; destruct (rwLock n); done.
Qed.

Lemma read_lock_released {A} (m : J A) n :
  steps same_lock m →
  ((lockRead;; try_finally m unlockRead) n).2 ≠ Undefined →
  rwLock ((lockRead;; try_finally m unlockRead) n).1 = rwLock n.
Proof.
  intros Hm. unfold lockRead. mstep. unfold try_finally.
  set (n1 := set_rwLock _ n). specialize (Hm n1). destruct (m n1) as [n2 o].
  unfold same_lock in Hm; simpl in Hm. unfold unlockRead, mbind, M_bind, getS, modify.
  rewrite Hm. simpl. destruct o; simpl; try done; destruct (rwLock n); done.
Qed.
End frames.

(** ** The election timer *)

(** At most the last scheduled election is pending. *)
Definition timers_ok {S} (n : RaftNode S) : Prop :=
  ∀ id d, sch_pending (scheduler n) !! id = Some d → electionTimer n = Some id.

(** [Math.random()] is in [0, 1). *)
Definition draws_in_range (D : Draws) : Prop := ∀ i, 0 ≤ draw i < 150.

Lemma timer_reset_pending `{HD : !Draws} (n : ANode) :
  timers_ok n → ∃ id,
    electionTimer (timer_reset n) = Some id ∧
    sch_pending (scheduler (timer_reset n)) = {[ id := 150 + draw (draws_done n) ]}.
Proof.
  intros Ht. unfold timer_reset. eexists. split; [reflexivity|].
  cbn -[cancel_timer]. set (sch := cancel_timer _ _).
  assert (sch_pending sch = ∅) as ->; [|apply insert_empty].
  apply map_empty. intros id. subst sch. destruct (electionTimer n) as [j|] eqn:Hj; simpl.
  - destruct (decide (j = id)) as [->|]; [apply lookup_delete_eq|].
    rewrite lookup_delete_ne by done.
    destruct (sch_pending (scheduler n) !! id) eqn:Hid; [|done]. apply Ht in Hid. congruence.
  - destruct (sch_pending (scheduler n) !! id) eqn:Hid; [|done]. apply Ht in Hid. congruence.
Qed.

(** ** Theorems *)

Section theorems.
Context `{HO : !HashOrder} `{HD : !Draws}.
Implicit Types n : ANode.

(** C1: over any storage that refines the abstract one, [appendEntries]
    answers and does exactly what [append_result] says: refuse a stale term
    without effect; otherwise step down if the term is newer, restart the
    election timer, refuse a mismatching prefix, else reconcile the log,
    advance the commit index and apply. *)
Theorem appendEntries_contract {S} `{!Storage S} (R : S → AbsStorage → Prop)
    `{!StorageRefines S R} (n : RaftNode S) (m : ANode) id t prev pt es lc :
  node_rel R n m → ready (last_index es) m → 0 ≤ prev →
  ∃ n' : RaftNode S, appendEntries id t prev pt es lc n
        = (n', Return (append_result t prev pt es lc m).2)
        ∧ node_rel R n' (append_result t prev pt es lc m).1.
Proof.
  intros HR Hr Hp. eapply refines_return; [by apply refines_appendEntries|exact HR|].
  by apply appendEntries_run.
Qed.

(** C13: log matching.  An accepted call found an entry of the sender's term before
    the first one sent, keeps the log up to there, and leaves after it, at the
    place of every entry sent, an entry of the same term.  It is the entry sent
    if the receiver's entries of the same place and term were the sender's
    ([matching]); an entry of that term with another key or value is kept. *)
Theorem appendEntries_log_matching n n' id t prev pt es lc :
  ready (last_index es) n → 0 ≤ prev →
  appendEntries id t prev pt es lc n = (n', Return true) →
  prev ≤ last_index (log n)
  ∧ (0 < prev → le_term <$> log_at prev (log n) = Some pt)
  ∧ (∀ i, i ≤ prev → log_at i (log n') = log_at i (log n))
  ∧ (∀ k e, es !! k = Some e →
       le_term <$> log_at (prev + 1 + Z.of_nat k) (log n') = Some (le_term e))
  ∧ (matching (drop (Z.to_nat prev) (log n)) es → ∀ k e, es !! k = Some e →
       log_at (prev + 1 + Z.of_nat k) (log n') = Some (stored e)).
Proof.
  intros Hr Hp Hrun. rewrite appendEntries_run in Hrun by done. simplify_eq/=.
  destruct (append_result_accepted t prev pt es lc n) as (_ & Hmm & Hst); [done|].
  pose proof (prefix_ok _ _ _ Hmm) as Hle. rewrite Hst, accept_log. split_and!.
  - done.
  - intros Hpos. unfold prefix_mismatch in Hmm. apply orb_false_iff in Hmm as [_ Hmm].
    rewrite (proj2 (Z.ltb_lt _ _) Hpos) in Hmm. simpl in Hmm.
    apply negb_false_iff, Z.eqb_eq in Hmm.
    destruct (log_at_in_range prev (log n)) as [e He]; [lia|]. rewrite He in *. by subst.
  - intros i Hi. by apply reconcile_below.
  - intros k e He. rewrite reconcile_at by lia.
    replace (Z.to_nat (prev + 1 + Z.of_nat k - prev - 1)) with k by lia.
    destruct (overlay_term (drop (Z.to_nat prev) (log n)) es k e He) as (x & -> & Hx).
    simpl. by rewrite Hx.
  - intros Hm k e He. rewrite reconcile_at by lia.
    replace (Z.to_nat (prev + 1 + Z.of_nat k - prev - 1)) with k by lia.
    by apply overlay_matching.
Qed.

(** C14: safety of the committed prefix. *)
Theorem appendEntries_commit_safe n n' b id t prev pt es lc :
  ready (last_index es) n → 0 ≤ prev →
  storage_inv (storage n) → respects_commit prev es (storage n) →
  appendEntries id t prev pt es lc n = (n', Return b) →
  storage_inv (storage n') ∧ commit n ≤ commit n' ∧ term n ≤ term n'
  ∧ take (Z.to_nat (commit n)) (log n') = take (Z.to_nat (commit n)) (log n).
Proof.
  intros Hr Hp Hinv Hresp Hrun. rewrite appendEntries_run in Hrun by done. simplify_eq/=.
  assert (Hterm : term n ≤ term (append_result t prev pt es lc n).1).
  { unfold append_result, step_down. destruct (Z.ltb_spec t (term n)); [done|].
    destruct (Z.ltb_spec (term n) t); simpl; destruct (prefix_mismatch _ _ _); simpl; lia. }
  destruct (append_result t prev pt es lc n).2 eqn:Hb.
  - destruct (append_result_accepted _ _ _ _ _ _ Hb) as (_ & Hmm & ->).
    apply prefix_ok in Hmm. rewrite accept_log. split_and!.
    + by apply accept_inv.
    + by apply accept_commit_grows.
    + done.
    + by apply accept_take.
  - by rewrite (append_result_rejected _ _ _ _ _ _ Hb).
Qed.

(** C24: an accepted call with a newer commit index commits up to the end of the
    *whole* local log, not up to the last entry that it brought or checked: the
    entries beyond that one are the receiver's own, unchanged, and those not yet
    applied are applied to its map. *)
Theorem appendEntries_commits_unverified n n' id t prev pt es lc :
  ready (last_index es) n → 0 ≤ prev →
  appendEntries id t prev pt es lc n = (n', Return true) → commit n < lc →
  commit n' = Z.min lc (last_index (log n'))
  ∧ applied n' = Z.max (applied n) (commit n')
  ∧ kv n' = replay (log_range (applied n + 1) (commit n') (log n')) (kv n)
  ∧ ∀ i e, prev + last_index es < i ≤ last_index (log n') → log_at i (log n') = Some e →
      log_at i (log n) = Some e
      ∧ (i ≤ lc → applied n < i →
           i ≤ commit n' ∧ e ∈ log_range (applied n + 1) (commit n') (log n')).
Proof.
  intros Hr Hp Hrun Hlc. rewrite appendEntries_run in Hrun by done. simplify_eq/=.
  destruct (append_result_accepted t prev pt es lc n) as (_ & Hmm & Hst); [done|].
  pose proof (prefix_ok _ _ _ Hmm) as Hle. rewrite Hst.
  assert (Hacc : accept prev es lc (storage n) = apply_committed
    (set_commit (Z.min lc (last_index (reconcile prev es (log n))))
       (set_log (reconcile prev es (log n)) (storage n)))).
  { unfold accept. by rewrite (proj2 (Z.ltb_lt _ _) Hlc). }
  rewrite Hacc. simpl. split_and!; [done..|]. intros i e Hi He. split; [by apply (reconcile_beyond prev es (log n)); [lia..|]|].
  intros Hlci Ha. pose proof (ready_applied _ _ Hr). split; [lia|]. apply log_at_Some in He as [_ He]. unfold log_range.
  apply (list_elem_of_lookup_2 _ (Z.to_nat (i - 1) - Z.to_nat (applied n + 1 - 1))%nat).
  rewrite lookup_drop, lookup_take_lt by lia. rewrite <-He. f_equal. lia.
Qed.

(** C23: idempotence.  A call that was accepted is accepted again when it is
    delivered a second time, and changes neither the storage nor the term. *)
Theorem appendEntries_idempotent n n' id t prev pt es lc :
  ready (2 * last_index es) n → 0 ≤ prev →
  appendEntries id t prev pt es lc n = (n', Return true) →
  ∃ n'', appendEntries id t prev pt es lc n' = (n'', Return true)
         ∧ storage n'' = storage n' ∧ term n'' = term n'.
Proof.
  intros [Ho Hd Ha Hr] Hp Hrun. pose proof (last_index_nonneg es).
  rewrite appendEntries_run in Hrun by (try split; done || lia). injection Hrun as <- Hb.
  destruct (append_result_accepted _ _ _ _ _ _ Hb) as (Ht & Hmm & Hst).
  pose proof (append_result_term _ _ _ _ _ _ Hb) as Hterm.
  pose proof (append_result_scheduler t prev pt es lc n Hd) as Hd'.
  set (n' := (append_result t prev pt es lc n).1) in *.
  pose proof (prefix_ok _ _ _ Hmm) as Hle.
  assert (Hlog : log n' = reconcile prev es (log n)) by (rewrite Hst; apply accept_log).
  pose proof (reconcile_length_ge prev es (log n) ltac:(lia)).
  pose proof (reconcile_length_le prev es (log n) ltac:(lia)).
  assert (Hmm' : prefix_mismatch prev pt (log n') = false).
  { eapply prefix_mismatch_ext; [done|rewrite Hlog; lia|].
    rewrite Hlog. by apply reconcile_below. }
  assert (Hready : ready (last_index es) n').
  { split; [|done| |rewrite Hlog; lia].
    - unfold is_open in *. rewrite Hst. unfold accept. by destruct (_ <? _).
    - rewrite Hst. unfold accept. destruct (_ <? _); simpl; lia. }
  eexists. rewrite appendEntries_run, append_result_same_term by done.
  split_and!; [done| |done]. simpl. rewrite Hst. by apply accept_idem.
Qed.

(** A stale leader changes nothing, on any storage. *)
Lemma appendEntries_stale {S} `{!Storage S} (n : RaftNode S) id t prev pt es lc :
  t < term n → appendEntries id t prev pt es lc n = (n, Return false).
Proof.
  intros Ht. unfold appendEntries, lockWrite. mstep. unfold try_finally, appendEntries_locked.
  mstep. simpl. rewrite (proj2 (Z.ltb_lt _ _) Ht). destruct n as [? ? ? ? ? ? ? ? ? [w r]]. done.
Qed.

(** Locks. *)
Lemma locks_released {S} `{!Storage S} (n : RaftNode S) id t prev pt es lc rpc vt :
  ((appendEntries id t prev pt es lc n).2 ≠ Undefined →
   rwLock (appendEntries id t prev pt es lc n).1 = rwLock n)
  ∧ ((requestVoteBody rpc vt n).2 ≠ Undefined →
     rwLock (requestVoteBody rpc vt n).1 = rwLock n).
Proof.
  split.
  - apply write_lock_released, frame_append_locked.
  - apply read_lock_released, frame_vote_locked.
Qed.

(** One election is scheduled. *)
Lemma appendEntries_timer n n' b id t prev pt es lc :
  ready (last_index es) n → 0 ≤ prev → timers_ok n → draws_in_range HD → term n ≤ t →
  appendEntries id t prev pt es lc n = (n', Return b) →
  ∃ tid delay, electionTimer n' = Some tid ∧ sch_pending (scheduler n') = {[ tid := delay ]}
               ∧ 150 ≤ delay < 300.
Proof.
  intros Hr Hp Hto Hdr Ht Hrun. rewrite appendEntries_run in Hrun by done. simplify_eq/=.
  assert (Hto' : timers_ok (step_down t n)).
  { unfold step_down. by destruct (term n <? t). }
  destruct (timer_reset_pending (step_down t n) Hto') as (tid & Htimer & Hpend).
  exists tid, (150 + draw (draws_done (step_down t n))).
  unfold append_result. rewrite (proj2 (Z.ltb_ge _ _) Ht).
  split_and!; [| |specialize (Hdr (draws_done (step_down t n))); lia..];
    by destruct (prefix_mismatch _ _ _).
Qed.

End theorems.

(** ** A follower, and the theorems on it *)

Definition zero_draws : Draws := λ _, 0.
#[local] Existing Instance zero_draws.

(** Two entries of term 1 in the log, the first one committed and applied. *)
Definition follower_storage : AbsStorage :=
  mkAbs [log_entry 1 "a" "1"; log_entry 1 "b" "2"] 1 1 {["a" := "1"]} true.
Definition follower : ANode := newRaftNode "node1" ["node2"; "node3"] follower_storage.
Definition news : list LogEntry := [log_entry 2 "c" "3"].

(** The call of a leader of term 2 that holds [a] and then [c]. *)
Abbreviation delivery n := (appendEntries "node2" 2 1 1 news 2 n).

Example delivery_result :
  (delivery follower).2 = Return true
  ∧ log (delivery follower).1 = [log_entry 1 "a" "1"; log_entry 2 "c" "3"]
  ∧ commit (delivery follower).1 = 2
  ∧ kv (delivery follower).1 = {["a" := "1"; "c" := "3"]}.
Proof. vm_compute. done. Qed.

Lemma follower_ready k : k ≤ 2 → ready k follower.
Proof. intros. split; [done|done|done|]. unfold long_max. simpl. unfold last_index. simpl. lia. Qed.

Lemma delivery_run : delivery follower = ((delivery follower).1, Return true).
Proof. vm_compute. reflexivity. Qed.

Lemma follower_inv : storage_inv follower_storage.
Proof. split; vm_compute; done. Qed.

Lemma appendEntries_contract_witness :
  ∃ (s : MemDB) n', appendEntries (Storage0 := SQLite_Storage mem_jdbc)
      "node2" 1 0 0 news 0 (set_storage s follower) = (n', Return true).
Proof.
  destruct (SQLiteStorage_run mem_jdbc "db" mem_empty (mkMem no_tables true)) as (s & _ & Ht & Ho);
    [done..|].
  exists s.
  destruct (appendEntries_contract (Storage0 := SQLite_Storage mem_jdbc) (sqlite_rel mem_jdbc)
    (set_storage s follower) (set_storage empty_storage follower) "node2" 1 0 0 news 0)
    as (n' & Hrun & _).
  - split; [|done]. split; [done|]. simpl storage. rewrite Ht. apply initialized_empty.
  - split; [done..|]. vm_compute. done.
  - done.
  - exists n'. exact Hrun.
Defined.

Lemma appendEntries_log_matching_witness :
  le_term <$> log_at 2 (log (delivery follower).1) = Some 2.
Proof.
  destruct (appendEntries_log_matching follower (delivery follower).1 "node2" 2 1 1 news 2)
    as (_ & _ & _ & H & _).
  - by apply follower_ready.
  - done.
  - exact delivery_run.
  - exact (H 0%nat (log_entry 2 "c" "3") eq_refl).
Defined.

Lemma appendEntries_commit_safe_witness :
  storage_inv (storage (delivery follower).1) ∧ 1 ≤ commit (delivery follower).1.
Proof.
  destruct (appendEntries_commit_safe follower (delivery follower).1 true "node2" 2 1 1 news 2)
    as (H1 & H2 & _).
  - by apply follower_ready.
  - done.
  - exact follower_inv.
  - intros k x e Hx. vm_compute in Hx. done.
  - exact delivery_run.
  - split; [exact H1|exact H2].
Defined.

Lemma appendEntries_idempotent_witness :
  ∃ n'', delivery (delivery follower).1 = (n'', Return true)
         ∧ storage n'' = storage (delivery follower).1.
Proof.
  destruct (appendEntries_idempotent follower (delivery follower).1 "node2" 2 1 1 news 2)
    as (n'' & H1 & H2 & _).
  - by apply follower_ready.
  - done.
  - exact delivery_run.
  - exists n''. split; [exact H1|exact H2].
Defined.

Lemma appendEntries_stale_witness :
  appendEntries "node3" 0 0 0 news 9 (set_state (mkRaftState FOLLOWER 1 None) follower)
  = (set_state (mkRaftState FOLLOWER 1 None) follower, Return false).
Proof. apply appendEntries_stale. vm_compute. reflexivity. Defined.

Lemma locks_released_witness :
  rwLock (delivery follower).1 = rwLock follower
  ∧ rwLock (requestVoteBody (λ _ _, None) (mkVoteTask (mkNodeInfo "node2" "localhost" 50051) 2 1)
              follower).1 = rwLock follower.
Proof.
  split.
  - apply (proj1 (locks_released follower "node2" 2 1 1 [log_entry 2 "c" "3"] 2 (λ _ _, None)
      (mkVoteTask (mkNodeInfo "node2" "localhost" 50051) 2 1))). vm_compute. done.
  - apply (proj2 (locks_released follower "node2" 2 1 1 [log_entry 2 "c" "3"] 2 (λ _ _, None)
      (mkVoteTask (mkNodeInfo "node2" "localhost" 50051) 2 1))). vm_compute. done.
Defined.

Lemma appendEntries_timer_witness :
  ∃ tid delay, electionTimer (delivery follower).1 = Some tid
    ∧ sch_pending (scheduler (delivery follower).1) = {[ tid := delay ]} ∧ 150 ≤ delay < 300.
Proof.
  apply (appendEntries_timer follower (delivery follower).1 true "node2" 2 1 1 news 2).
  - by apply follower_ready.
  - done.
  - intros id d Hid. vm_compute in Hid. done.
  - intros i. vm_compute. done.
  - done.
  - exact delivery_run.
Defined.

(** A heartbeat after the first entry commits the second one, which is of the
    receiver and not of the sender. *)
Lemma appendEntries_commits_unverified_witness :
  ∃ n', appendEntries "node2" 2 1 1 [] 2 follower = (n', Return true)
    ∧ commit n' = 2 ∧ log_at 2 (log follower) = Some (log_entry 1 "b" "2")
    ∧ log_entry 1 "b" "2" ∈ log_range (applied follower + 1) 2 (log n').
Proof.
  set (n' := (appendEntries "node2" 2 1 1 [] 2 follower).1).
  assert (Hrun : appendEntries "node2" 2 1 1 [] 2 follower = (n', Return true)) by (vm_compute; reflexivity).
  destruct (appendEntries_commits_unverified follower n' "node2" 2 1 1 [] 2) as (Hc & _ & _ & He).
  - apply follower_ready. vm_compute. discriminate.
  - lia.
  - exact Hrun.
  - vm_compute. reflexivity.
  - assert (Hc2 : commit n' = 2) by (rewrite Hc; vm_compute; reflexivity). rewrite Hc2 in He.
    destruct (He 2 (log_entry 1 "b" "2")) as [H1 H2]; [vm_compute; split; [reflexivity|discriminate]|vm_compute; reflexivity|].
    exists n'. split; [exact Hrun|]. split; [exact Hc2|]. split; [exact H1|].
    apply H2; [lia|vm_compute; reflexivity].
Defined.
