(* ===== verification/RaftCommit.v ===== *)
(** * Committing and proposing: the leader's side

    [updateCommitIndex], [sendAppendEntries], [proposeEntry]: which index is
    committed, that the loop terminates with it, and what a proposal on a
    leader achieves. *)

From S2P Require Import Prelude.
From S2P Require Import Java.
From S2P Require Import Messages.
From S2P Require Import RaftState.
From S2P Require Import Storage.
From S2P Require Import RaftNode.
From S2P Require Import RaftRefinement.
From S2P Require Import RaftLog.
From S2P Require Import NodeRun.
From S2P Require Import RaftReplication.
From stdpp Require Import base gmap strings list.
From Stdlib Require Import Lia.
#[local] Open Scope Z_scope.

(** ** Counting replicas *)

Lemma replicationCount_size i (m : gmap string Z) :
  replicationCount i m = 1 + Z.of_nat (length (filter (λ j, i ≤ j) (map_to_list m).*2)).
Proof.
  unfold replicationCount. generalize ((map_to_list m).*2) as l. intros l.
  assert (H : ∀ c, foldl (λ c j, if i <=? j then c + 1 else c) c l
                   = c + Z.of_nat (length (filter (λ j, i ≤ j) l))); [|apply H].
  induction l as [|j l IH]; intros c; simpl; [lia|]. rewrite IH.
  rewrite filter_cons. destruct (Z.leb_spec i j), (decide (i ≤ j)); simpl; lia.
Qed.

Lemma replicationCount_all i (m : gmap string Z) (ids : gset string) :
  (∀ id, id ∈ ids → ∃ j, m !! id = Some j ∧ i ≤ j) →
  1 + Z.of_nat (size ids) ≤ replicationCount i m.
Proof.
  intros Hall. rewrite replicationCount_size.
  assert (Hlen : ∀ l : list (string * Z),
    length (filter (λ j, i ≤ j) l.*2) = length (filter (λ p, i ≤ p.2) l)).
  { induction l as [|[id j] l IH]; [done|]. csimpl. rewrite !filter_cons. simpl.
    destruct (decide (i ≤ j)); simpl; by rewrite IH. }
  rewrite Hlen, <-(length_fmap fst).
  assert (elements ids ⊆+ (filter (λ p, i ≤ p.2) (map_to_list m)).*1) as Hsub%submseteq_length.
  { apply NoDup_submseteq; [apply NoDup_elements|].
    intros id Hid%elem_of_elements. destruct (Hall id Hid) as (j & Hj & Hle).
    apply list_elem_of_fmap. exists (id, j). split; [done|].
    apply list_elem_of_filter. split; [done|]. by apply elem_of_map_to_list. }
  unfold size, set_size, compose. lia.
Qed.

(** ** The commit loop *)

Section commit.
Context `{HO : !HashOrder} `{HD : !Draws}.
Implicit Types n : ANode.

(** The test of lines 168-175 for index [i]. *)
Definition committable n (i : Z) : bool :=
  match log_at i (log n) with
  | Some e => (le_term e =? term n)
              && majority_of_peers (replicationCount i (matchIndex n)) n
  | None => false
  end.

Fixpoint commit_upto (ok : Z → bool) (fuel : nat) (i : Z) (a : AbsStorage) : AbsStorage :=
  match fuel with
  | O => a
  | S fuel' =>
      commit_upto ok fuel' (i + 1) (if ok i then apply_committed (set_commit i a) else a)
  end.

(** The last index of [i .. i + fuel - 1] that passes the test. *)
Fixpoint last_ok (ok : Z → bool) (fuel : nat) (i : Z) : option Z :=
  match fuel with
  | O => None
  | S fuel' =>
      match last_ok ok fuel' (i + 1) with
      | Some j => Some j
      | None => if ok i then Some i else None
      end
  end.

Lemma last_ok_spec ok fuel i :
  match last_ok ok fuel i with
  | Some j => i ≤ j < i + Z.of_nat fuel ∧ ok j = true
              ∧ ∀ k, j < k < i + Z.of_nat fuel → ok k = false
  | None => ∀ k, i ≤ k < i + Z.of_nat fuel → ok k = false
  end.
Proof.
  revert i. induction fuel as [|fuel IH]; intros i; simpl; [lia|].
  specialize (IH (i + 1)). destruct (last_ok ok fuel (i + 1)) as [j|].
  - destruct IH as (? & ? & Hk). split_and!; [lia|lia|done|]. intros. apply Hk. lia.
  - destruct (ok i) eqn:Hi.
    + split_and!; [lia|lia|done|]. intros. apply IH. lia.
    + intros k Hk. destruct (decide (k = i)) as [->|]; [done|]. apply IH. lia.
Qed.

Lemma apply_committed_twice i j a :
  0 ≤ a_applied a ≤ i → i ≤ j →
  apply_committed (set_commit j (apply_committed (set_commit i a)))
  = apply_committed (set_commit j a).
Proof.
  intros Ha Hij. unfold apply_committed. simpl.
  rewrite (Z.max_r (a_applied a) i), Z.max_r, Z.max_r by lia.
  rewrite <-replay_app, <-log_range_split by lia. done.
Qed.

Lemma commit_upto_spec ok fuel : ∀ i a,
  0 ≤ a_applied a ≤ i →
  commit_upto ok fuel i a
  = match last_ok ok fuel i with
    | Some j => apply_committed (set_commit j a)
    | None => a
    end.
Proof.
  induction fuel as [|fuel IH]; intros i a Ha; simpl; [done|].
  pose proof (last_ok_spec ok fuel (i + 1)) as Hl.
  destruct (ok i) eqn:Hi; rewrite IH; [|simpl; lia| |lia].
  - destruct (last_ok ok fuel (i + 1)) as [j|]; [|done].
    apply apply_committed_twice; lia.
  - by destruct (last_ok ok fuel (i + 1)).
Qed.

Lemma commit_upto_ext ok ok' fuel : ∀ i a,
  (∀ k, ok k = ok' k) → commit_upto ok fuel i a = commit_upto ok' fuel i a.
Proof. induction fuel as [|fuel IH]; intros i a H; simpl; [done|]. by rewrite H, IH. Qed.

Lemma committable_upd f n i :
  a_log (f (storage n)) = log n → committable (upd f n) i = committable n i.
Proof. unfold committable. simpl. by intros ->. Qed.

Lemma commitLoop_run fuel : ∀ i n,
  is_open n → 0 ≤ applied n → 1 ≤ i →
  fuel = Z.to_nat (last_index (log n) + 1 - i) → last_index (log n) < long_max →
  commitLoop fuel i (last_index (log n)) n
  = (upd (commit_upto (committable n) fuel i) n, Return ()).
Proof.
  induction fuel as [|fuel IH]; intros i n Ho Ha Hi Hl Hmax; cbn [commitLoop commit_upto].
  { rewrite (proj2 (Z.leb_gt _ _)) by lia. by rewrite upd_id. }
  rewrite (proj2 (Z.leb_le _ _)) by lia.
  destruct (log_at_in_range i (log n)) as [e He]; [lia|].
  mstep. rewrite He. cbn [nonnull]. msteps. long_arith.
  assert (Hc : committable n i = (le_term e =? term n)
            && majority_of_peers (replicationCount i (matchIndex n)) n)
    by (unfold committable; by rewrite He).
  assert (Hskip : committable n i = false →
    commitLoop fuel (i + 1) (last_index (log n)) n
    = (upd (λ a, commit_upto (committable n) fuel (i + 1)
             (if committable n i then apply_committed (set_commit i a) else a)) n, Return ())).
  { intros Hno. rewrite IH by (done || lia). f_equal. apply upd_ext. by rewrite Hno. }
  destruct (le_term e =? term n); [|mstep; by apply Hskip]. msteps.
  destruct (majority_of_peers _ n); [|mstep; by apply Hskip]. clear Hskip.
  set (f := λ a, apply_committed (set_commit i a)).
  assert (Hrun : (sto (setCommitIndex i);; applyCommittedEntries) n = (upd f n, Return ())).
  { mstep. rewrite applyCommittedEntries_run; [by rewrite upd_upd|done|simpl; lia..]. }
  erewrite bind_return by exact Hrun. cbn beta.
  change (last_index (log n)) with (last_index (log (upd f n))).
  rewrite IH; [|done|simpl; lia|lia|simpl; lia|done]. f_equal. rewrite upd_upd.
  apply upd_ext. rewrite Hc. simpl.
  apply commit_upto_ext. intros k. by apply committable_upd.
Qed.

(** The result of [updateCommitIndex], in closed form. *)
Definition commit_target n : option Z :=
  last_ok (committable n) (Z.to_nat (last_index (log n) - commit n)) (commit n + 1).

Definition update_commit n : ANode :=
  upd (λ a, match commit_target n with
            | Some j => apply_committed (set_commit j a)
            | None => a
            end) n.

Lemma updateCommitIndex_run n :
  indices_ok (storage n) → last_index (log n) < long_max →
  updateCommitIndex n = (update_commit n, Return ()).
Proof.
  intros [Ho Ha Hc] Hmax. unfold updateCommitIndex. do 2 mstep. long_arith.
  cbv zeta. rewrite commitLoop_run by (done || lia). f_equal. apply upd_ext.
  replace (last_index (log n) - (commit n + 1) + 1) with (last_index (log n) - commit n) by lia.
  by rewrite commit_upto_spec by lia.
Qed.

Lemma commit_target_spec n j :
  commit_target n = Some j → commit n < j ≤ last_index (log n) ∧ committable n j = true.
Proof.
  unfold commit_target. intros Hj.
  pose proof (last_ok_spec (committable n) (Z.to_nat (last_index (log n) - commit n)) (commit n + 1)) as H.
  rewrite Hj in H. destruct H as (? & ? & _). split; [lia|done].
Qed.

Lemma commit_target_max n k :
  indices_ok (storage n) → default (commit n) (commit_target n) < k ≤ last_index (log n) →
  committable n k = false.
Proof.
  intros [_ _ Hc] Hk. unfold commit_target in Hk.
  pose proof (last_ok_spec (committable n) (Z.to_nat (last_index (log n) - commit n)) (commit n + 1)) as H.
  destruct (last_ok _ _ _) as [j|]; simpl in Hk; [destruct H as (_ & _ & H)|]; apply H; lia.
Qed.

Lemma update_commit_commit n : commit (update_commit n) = default (commit n) (commit_target n).
Proof. unfold update_commit. simpl. by destruct (commit_target n). Qed.

Lemma update_commit_log n : log (update_commit n) = log n.
Proof. unfold update_commit. simpl. by destruct (commit_target n). Qed.

Lemma update_commit_inv n : storage_inv (storage n) → storage_inv (storage (update_commit n)).
Proof.
  intros Hinv. unfold update_commit. simpl. destruct (commit_target n) as [j|] eqn:Hj; [|done].
  apply commit_target_spec in Hj as [? _]. destruct Hinv as [? ? ? Hkv].
  apply apply_committed_inv; simpl; [done|lia|lia|done].
Qed.
End commit.
#[export] Hint Resolve updateCommitIndex_run : mrun.

(** ** Sending to a follower, and proposing *)

(** What holds of a node that may be leading. *)
Record leader_ok (n : ANode) : Prop := {
  lo_inv : storage_inv (storage n);
  lo_scheduler : sch_down (scheduler n) = false;
  lo_next p i : nextIndex n !! p = Some i → 1 ≤ i ≤ last_index (log n) + 1;
  lo_match p i : matchIndex n !! p = Some i → i ≤ last_index (log n);
  lo_room : 2 * last_index (log n) < long_max;
}.

(** The peers map is keyed by the ids it holds. *)
Definition peers_keyed {S} (n : RaftNode S) : Prop :=
  ∀ id info, peers n !! id = Some info → ni_id info = id.

Section send.
Context `{HO : !HashOrder} `{HD : !Draws}.
Implicit Types n : ANode.

Definition send_result (p : NodeInfo) n : ANode :=
  let last := last_index (log n) in
  update_commit (put_match (ni_id p) last (put_next (ni_id p) (last + 1) (timer_reset n))).

Lemma self_append_accepted next n :
  leader_ok n → 1 ≤ next ≤ last_index (log n) + 1 →
  append_result (term n) (next - 1) (if 0 <? next - 1 then from_option le_term 0 (log_at (next - 1) (log n)) else 0)
    (drop (Z.to_nat (next - 1)) (log n)) (commit n) n
  = (timer_reset n, true).
Proof.
  intros [Hinv _ _ _ _] Hn. rewrite append_result_same_term; [|done|].
  - f_equal. apply upd_id. unfold accept. simpl. rewrite Z.ltb_irrefl.
    change (log (timer_reset n)) with (log n). rewrite reconcile_self. apply set_log_id.
  - unfold prefix_mismatch. rewrite (proj2 (Z.ltb_ge _ _)) by lia. simpl.
    destruct (0 <? next - 1); [|done]. by rewrite Z.eqb_refl.
Qed.

Lemma next_bounds p n :
  leader_ok n → 1 ≤ getOrDefault p 1 (nextIndex n) ≤ last_index (log n) + 1.
Proof.
  intros Hn. unfold getOrDefault. destruct (nextIndex n !! p) as [i|] eqn:E; simpl.
  - by apply (lo_next n Hn) in E.
  - pose proof (last_index_nonneg (log n)). lia.
Qed.

Lemma sendAppendEntries_run p n :
  leader_ok n → sendAppendEntries p n = (send_result p n, Return ()).
Proof.
  intros Hn. pose proof (next_bounds (ni_id p) n Hn) as Hb.
  assert (Hn' := Hn). destruct Hn' as [[Ho Ha Hc _] Hd _ _ Hroom].
  pose proof (last_index_nonneg (log n)).
  unfold sendAppendEntries. set (next := getOrDefault _ _ _) in *.
  mstep. fold next. do 2 mstep. cbv zeta. long_arith.
  set (pt := if 0 <? next - 1 then from_option le_term 0 (log_at (next - 1) (log n)) else 0).
  assert (Hpt : (if 0 <? next - 1 then
             entry ← sto (getLogEntry (next - 1)); entry ← nonnull entry; mret (le_term entry)
           else mret 0 : M jexn ANode Z) n = (n, Return pt)).
  { subst pt. destruct (Z.ltb_spec 0 (next - 1)); [|done]. mstep.
    destruct (log_at_in_range (next - 1) (log n)) as [e ->]; [lia|]. done. }
  erewrite bind_return by exact Hpt. cbn beta. do 2 mstep.
  rewrite log_range_last. erewrite bind_return.
  2: { rewrite appendEntries_run; [by rewrite self_append_accepted| |lia].
       split; [done|done|lia|]. unfold last_index in *. rewrite length_drop. lia. }
  cbn beta iota delta [fst snd]. mstep. change (log (timer_reset n)) with (log n). long_arith. do 3 mstep.
  rewrite updateCommitIndex_run; [done|by destruct Hn|simpl; lia].
Qed.

Lemma update_commit_ok n : leader_ok n → leader_ok (update_commit n).
Proof.
  intros [Hinv Hd Hnext Hmatch Hroom].
  split; rewrite ?update_commit_log; try done. by apply update_commit_inv.
Qed.

Lemma send_result_ok p n : leader_ok n → leader_ok (send_result p n).
Proof.
  intros [Hinv Hd Hnext Hmatch Hroom]. pose proof (last_index_nonneg (log n)).
  unfold send_result. apply update_commit_ok. split; simpl.
  - exact Hinv.
  - done.
  - intros q i. rewrite lookup_insert. case_decide; [intros; simplify_eq; lia|apply Hnext].
  - intros q i. rewrite lookup_insert. case_decide; [intros; simplify_eq; lia|apply Hmatch].
  - done.
Qed.

(** The commit index moves forward, and then everything committed is applied. *)
Definition progress n n' : Prop :=
  storage n' = storage n ∨ (commit n < commit n' ∧ applied n' = commit n').

Lemma progress_trans n1 n2 n3 : progress n1 n2 → progress n2 n3 → progress n1 n3.
Proof.
  intros [E1|[? ?]] [E2|[? ?]]; unfold progress; rewrite ?E2 in *; rewrite ?E1 in *;
    [by left|right..]; split; try done; lia.
Qed.

Lemma update_commit_progress n : storage_inv (storage n) → progress n (update_commit n).
Proof.
  intros [_ Ha _ _]. unfold update_commit, progress. simpl.
  destruct (commit_target n) as [j|] eqn:E; [|by left].
  apply commit_target_spec in E. right. simpl. lia.
Qed.

(** What a round of [sendAppendEntries] keeps, and what it records. *)
Definition sent (ps : list NodeInfo) n n' : Prop :=
  leader_ok n' ∧ log n' = log n ∧ peers n' = peers n ∧ state n' = state n
  ∧ nodeId n' = nodeId n ∧ progress n n'
  ∧ (∀ p, p ∈ ps → matchIndex n' !! ni_id p = Some (last_index (log n)))
  ∧ (∀ id, matchIndex n !! id = Some (last_index (log n)) →
           matchIndex n' !! id = Some (last_index (log n))).

Lemma send_result_sent p n : leader_ok n → sent [p] n (send_result p n).
Proof.
  intros Hn. split; [by apply send_result_ok|]. unfold send_result.
  rewrite update_commit_log. split_and!; try done.
  - set (n1 := put_match _ _ _). change (progress n1 (update_commit n1)).
    apply update_commit_progress. apply Hn.
  - intros q ->%list_elem_of_singleton. simpl. by rewrite lookup_insert_eq.
  - intros id Hid. simpl. rewrite lookup_insert. by case_decide.
Qed.

Lemma send_all_run ps : ∀ n,
  leader_ok n → ∃ n', forM ps sendAppendEntries n = (n', Return ()) ∧ sent ps n n'.
Proof.
  induction ps as [|p ps IH]; intros n Hn; simpl.
  { exists n. split; [done|]. unfold sent. split_and!; try done; [by left|]. by intros p ?%elem_of_nil. }
  destruct (send_result_sent p n Hn) as (Hok & Hl & Hp & Hs & Hi & Hc & Hm & Hk).
  destruct (IH (send_result p n) Hok) as (n' & Hrun & Hok' & Hl' & Hp' & Hs' & Hi' & Hc' & Hm' & Hk').
  exists n'. erewrite bind_return by by apply sendAppendEntries_run. split; [done|].
  rewrite Hl in *. split_and!; try congruence; [by eapply progress_trans| |by intros; apply Hk', Hk].
  intros q [->|Hq]%elem_of_cons; [apply Hk', Hm; left|by apply Hm'].
Qed.

Lemma peer_values_elem n p : p ∈ peer_values n ↔ ∃ id, peers n !! id = Some p.
Proof.
  unfold peer_values. rewrite list_elem_of_fmap. split.
  - intros ([id q] & -> & Hin). rewrite hash_order_perm in Hin.
    apply elem_of_map_to_list in Hin. by exists id.
  - intros [id Hid]. exists (id, p). split; [done|]. rewrite hash_order_perm.
    by apply elem_of_map_to_list.
Qed.

(** With every peer recorded at the end of the log, an entry of the current
    term at the end is committed. *)
Lemma last_committed n e :
  leader_ok n → (∀ id, id ∈ dom (peers n) → matchIndex n !! id = Some (last_index (log n))) →
  log_at (last_index (log n)) (log n) = Some e → le_term e = term n →
  commit (update_commit n) = last_index (log n).
Proof.
  intros Hn Hall He Ht. pose proof (lo_inv n Hn) as Hinv.
  assert (Hc : committable n (last_index (log n)) = true).
  { unfold committable. rewrite He, Ht, Z.eqb_refl. simpl. unfold majority_of_peers.
    apply Z.ltb_lt. rewrite <-size_dom.
    pose proof (replicationCount_all (last_index (log n)) (matchIndex n) (dom (peers n))) as Hr.
    pose proof (Z.quot_le_upper_bound (Z.of_nat (size (dom (peers n)))) 2 (Z.of_nat (size (dom (peers n))))).
    assert (1 + Z.of_nat (size (dom (peers n))) ≤ replicationCount (last_index (log n)) (matchIndex n)).
    { apply Hr. intros id Hid. eexists. split; [by apply Hall|lia]. }
    lia. }
  rewrite update_commit_commit.
  destruct (decide (default (commit n) (commit_target n) = last_index (log n))) as [|Hne]; [done|].
  destruct Hinv as [? ? Hle ?] eqn:Hi.
  assert (default (commit n) (commit_target n) < last_index (log n)).
  { destruct (commit_target n) as [j|] eqn:Hj; simpl in *; [apply commit_target_spec in Hj|]; lia. }
  rewrite (commit_target_max n (last_index (log n))) in Hc; [done|done|lia].
Qed.
End send.

(** ** Theorems *)

Section theorems.
Context `{HO : !HashOrder} `{HD : !Draws}.
Implicit Types n : ANode.

(** C17: [updateCommitIndex] terminates; it commits an entry of the current
    term that a majority of [matchIndex] covers, the last such one, or
    nothing; everything committed is applied and the log is untouched. *)
Theorem updateCommitIndex_commits n :
  storage_inv (storage n) → last_index (log n) < long_max →
  ∃ n', updateCommitIndex n = (n', Return ())
    ∧ storage_inv (storage n') ∧ log n' = log n
    ∧ (storage n' = storage n
       ∨ commit n < commit n' ∧ applied n' = commit n'
         ∧ ∃ e, log_at (commit n') (log n) = Some e ∧ le_term e = term n
                ∧ majority_of_peers (replicationCount (commit n') (matchIndex n)) n = true)
    ∧ (∀ k e, commit n' < k → log_at k (log n) = Some e → le_term e = term n →
              majority_of_peers (replicationCount k (matchIndex n)) n = false).
Proof.
  intros Hinv Hmax. exists (update_commit n).
  split_and!; [apply updateCommitIndex_run; [by apply storage_inv_indices|done]|by apply update_commit_inv|by apply update_commit_log| |].
  - rewrite update_commit_commit. unfold update_commit. simpl.
    destruct (commit_target n) as [j|] eqn:E; [right|by left].
    apply commit_target_spec in E as [Hj Hc]. simpl. destruct Hinv.
    split_and!; [lia|lia|]. unfold committable in Hc. destruct (log_at j (log n)) as [e|]; [|done].
    apply andb_true_iff in Hc as [?%Z.eqb_eq ?]. eauto.
  - intros k e Hk He Ht. rewrite update_commit_commit in Hk.
    assert (Hin : is_Some (log_at k (log n))) by eauto. apply log_at_is_Some in Hin.
    pose proof (commit_target_max n k (storage_inv_indices _ Hinv) ltac:(lia)) as Hc.
    unfold committable in Hc. by rewrite He, Ht, Z.eqb_refl in Hc.
Qed.

(** What a proposal leaves on a leader, over the abstract storage. *)
Record proposed (k v : string) n n' : Prop := {
  pp_log : log n' = log n ++ [log_entry (term n) k v];
  pp_commit : commit n' = last_index (log n) + 1;
  pp_applied : applied n' = last_index (log n) + 1;
  pp_kv : kv n' = replay (log n') ∅;
  pp_key : kv n' !! k = Some v;
  pp_match id : id ∈ dom (peers n) → matchIndex n' !! id = Some (last_index (log n) + 1);
  pp_state : state n' = state n;
  pp_peers : peers n' = peers n;
  pp_ok : leader_ok n';
}.

Lemma proposeEntry_run n k v :
  leader_ok n → role n = LEADER → peers_keyed n → 2 * (last_index (log n) + 1) < long_max →
  ∃ n', proposeEntry k v n = (n', Return true) ∧ proposed k v n n'.
Proof.
  intros Hn Hrole Hkeyed Hroom. pose proof (last_index_nonneg (log n)).
  unfold proposeEntry. mstep. rewrite bool_decide_eq_false_2 by (by intros []). mstep.
  set (e := log_entry (term n) k v).
  set (n1 := upd (λ a, set_log (a_log a ++ [stored e]) a) n).
  assert (Hl1 : log n1 = log n ++ [e]) by done.
  assert (Hn1 : leader_ok n1).
  { destruct Hn as [[Ho Ha Hc Hkv] Hd Hnext Hmatch _].
    split; rewrite ?Hl1, ?last_index_snoc; try done.
    - split; simpl; rewrite ?last_index_snoc; try done; [lia|].
      rewrite take_app_le; [done|]. unfold last_index in *. lia.
    - intros p i Hi%Hnext. lia.
    - intros p i Hi%Hmatch. lia. }
  erewrite bind_return; [|apply run_append; [by destruct Hn as [[]]|lia]]. cbn beta. fold n1.
  assert (is_open n1) by by destruct Hn1 as [[]].
  mstep. unfold replicateEntry. mstep.
  destruct (send_all_run (peer_values n1) n1 Hn1) as (n2 & Hrun & Hok & Hl & Hp & Hs & _ & Hpr & Hm & _).
  rewrite Hl1 in *.
  pose proof (lo_inv _ Hok) as Hinv. pose proof (lo_room _ Hok) as Hr2. rewrite Hl in Hr2.
  mstep. erewrite bind_return; [|apply updateCommitIndex_run; [by apply storage_inv_indices|rewrite Hl; lia]]. cbn beta.
  exists (update_commit n2). rewrite last_index_snoc in *.
  assert (Hpeers : ∀ id, id ∈ dom (peers n) → matchIndex n2 !! id = Some (last_index (log n) + 1)).
  { intros id [p Hid]%elem_of_dom. rewrite <-(Hkeyed id p Hid). apply Hm, peer_values_elem.
    by exists id. }
  assert (Hlog : log (update_commit n2) = log n ++ [e]) by (by rewrite update_commit_log).
  assert (Hcommit : commit (update_commit n2) = last_index (log n) + 1).
  { rewrite (last_committed n2 e); rewrite ?Hl, ?last_index_snoc, ?Hp; try done.
    - apply log_at_snoc.
    - by rewrite Hs. }
  assert (Happlied : applied (update_commit n2) = last_index (log n) + 1).
  { destruct (progress_trans _ _ _ Hpr (update_commit_progress n2 Hinv)) as [E|[_ E]];
      [|congruence].
    pose proof (inv_commit _ (lo_inv n Hn)). rewrite E in Hcommit. simpl in Hcommit. lia. }
  assert (Hkv : kv (update_commit n2) = replay (log (update_commit n2)) ∅).
  { rewrite (inv_kv _ (update_commit_inv n2 Hinv)), Happlied, Hlog, take_ge; [done|].
    rewrite length_app. unfold last_index. simpl. lia. }
  split; [done|]. split; try done; [|by apply update_commit_ok].
  rewrite Hkv, Hlog, replay_app. simpl. apply lookup_insert_eq.
Qed.

(** C16: over any storage that refines the abstract one, a proposal on a leader
    is appended, committed, recorded for every peer and applied before the call
    returns, and the future is completed with [true]. *)
Theorem proposeEntry_leader {S} `{HS : !Storage S} (R : S → AbsStorage → Prop)
    `{HR : !StorageRefines S R} (n : RaftNode S) (m : ANode) k v :
  node_rel R n m → leader_ok m → role m = LEADER → peers_keyed m →
  2 * (last_index (log m) + 1) < long_max →
  ∃ (n' : RaftNode S) (m' : ANode), proposeEntry k v n = (n', Return true) ∧ node_rel R n' m'
    ∧ log m' = log m ++ [log_entry (term m) k v]
    ∧ commit m' = last_index (log m) + 1 ∧ applied m' = last_index (log m) + 1
    ∧ kv m' = replay (log m') ∅ ∧ kv m' !! k = Some v
    ∧ (∀ id, id ∈ dom (peers m) → matchIndex m' !! id = Some (last_index (log m) + 1))
    ∧ state m' = state m ∧ leader_ok m'.
Proof.
  intros HR' H1 H2 H3 H4. destruct (proposeEntry_run m k v H1 H2 H3 H4) as (m' & Hrun & H).
  destruct (refines_return (node_rel R) _ _ n m m' true (refines_proposeEntry R k v) HR' Hrun)
    as (n' & Hrun' & Hrel). exists n', m'. destruct H. by split_and!.
Qed.

(** A proposal to a node that is not leading is answered [false] and
    changes nothing, on any storage. *)
Lemma proposeEntry_not_leader {S} `{!Storage S} (n : RaftNode S) k v :
  role n ≠ LEADER → proposeEntry k v n = (n, Return false).
Proof. intros Hr. unfold proposeEntry. mstep. by rewrite bool_decide_eq_true_2. Qed.
End theorems.

(** ** A leader, and the theorems on it *)

#[local] Existing Instance zero_draws.

(** Two entries of term 1 and one of term 2, the current one, not yet known
    to be anywhere. *)
Definition leader_storage : AbsStorage :=
  mkAbs [log_entry 1 "a" "1"; log_entry 1 "b" "2"; log_entry 2 "c" "3"] 1 1 {["a" := "1"]} true.
Definition leader : ANode :=
  set_indices {["node2" := 4; "node3" := 4]} {["node2" := 3; "node3" := 0]}
    (set_state (mkRaftState LEADER 2 None) (newRaftNode "node1" ["node2"; "node3"] leader_storage)).

Lemma leader_leader_ok : leader_ok leader.
Proof.
  assert (Hnext : map_Forall (λ _ i, 1 ≤ i ≤ 4) (nextIndex leader)).
  { apply (bool_decide_eq_true_1 _). vm_compute. done. }
  assert (Hmatch : map_Forall (λ _ i, i ≤ 3) (matchIndex leader)).
  { apply (bool_decide_eq_true_1 _). vm_compute. done. }
  split; [split; vm_compute; done|done|exact Hnext|exact Hmatch|vm_compute; done].
Qed.

Lemma leader_peers_keyed : peers_keyed leader.
Proof.
  assert (H : map_Forall (λ id info, ni_id info = id) (peers leader)).
  { apply (bool_decide_eq_true_1 _). vm_compute. done. }
  exact H.
Qed.

Lemma updateCommitIndex_commits_witness :
  ∃ n', updateCommitIndex leader = (n', Return ()) ∧ storage_inv (storage n').
Proof.
  destruct (updateCommitIndex_commits leader) as (n' & Hrun & Hinv & _).
  - apply leader_leader_ok.
  - vm_compute. done.
  - exists n'. split; [exact Hrun|exact Hinv].
Defined.

Example updateCommitIndex_result :
  commit (updateCommitIndex leader).1 = 3
  ∧ kv (updateCommitIndex leader).1 = {["a" := "1"; "b" := "2"; "c" := "3"]}.
Proof. vm_compute. done. Qed.

Lemma proposeEntry_leader_witness :
  ∃ n' m' : ANode, proposeEntry "d" "4" leader = (n', Return true) ∧ node_rel eq n' m'
    ∧ kv m' !! "d" = Some "4".
Proof.
  destruct (proposeEntry_leader eq leader leader "d" "4")
    as (n' & m' & Hrun & Hrel & _ & _ & _ & _ & Hd & _).
  - split; reflexivity.
  - exact leader_leader_ok.
  - done.
  - exact leader_peers_keyed.
  - vm_compute. done.
  - exists n', m'. split; [exact Hrun|]. split; [exact Hrel|exact Hd].
Defined.

Lemma proposeEntry_not_leader_witness : proposeEntry "d" "4" follower = (follower, Return false).
Proof. apply proposeEntry_not_leader. done. Defined.
