(* ===== verification/NodeTypes.v ===== *)
(** * The longs of a node stay longs, and every method ends

    The logic of Hoare.v on the methods of [RaftNode.v] over [AbsStorage]: the
    invariant is that every Java [long] the node holds is in range, and no run
    is [Undefined], which is how a loop out of fuel and a full log show.  It
    asks nothing else of the node: its connection may be closed, its pools shut
    down, its indices inconsistent. *)

From S2P Require Import Prelude.
From S2P Require Import Hoare.
From S2P Require Import Java.
From S2P Require Import Messages.
From S2P Require Import RaftState.
From S2P Require Import Storage.
From S2P Require Import RaftNode.
From S2P Require Import NodeRun.
From S2P Require Import RaftReplication.
From S2P Require Import RaftCommit.
From stdpp Require Import base gmap strings list.
From Stdlib Require Import Lia.
#[local] Open Scope Z_scope.

(** ** The longs of a storage and of a node *)

Lemma int64_jadd a b : int64 (jadd a b).
Proof. apply wrap64_int64. Qed.
Lemma int64_jsub a b : int64 (jsub a b).
Proof. apply wrap64_int64. Qed.
Lemma int64_0 : int64 0.
Proof. done. Qed.
Lemma int64_1 : int64 1.
Proof. done. Qed.
#[export] Hint Resolve int64_jadd int64_jsub int64_0 int64_1 : typing.

Definition entry_ok (e : LogEntry) : Prop := int64 (le_term e).

(** [R] bounds the length of the log. *)
Record store_ok (R : Z) (a : AbsStorage) : Prop := {
  so_log : Forall entry_ok (a_log a);
  so_room : last_index (a_log a) ≤ R;
  so_commit : int64 (a_commit a);
  so_applied : int64 (a_applied a);
}.

Record node_ok (R : Z) (n : ANode) : Prop := {
  no_store : store_ok R (storage n);
  no_term : int64 (term n);
  no_next : map_Forall (λ _ i, 1 ≤ i ≤ long_max) (nextIndex n);
  no_match : map_Forall (λ _ i, int64 i) (matchIndex n);
}.

#[export] Instance entry_ok_dec e : Decision (entry_ok e).
Proof. unfold entry_ok, int64. apply _. Defined.

Definition opt_ok (o : option LogEntry) : Prop := ∀ e, o = Some e → entry_ok e.

(** What the bound [R] is: less than the largest [long]. *)
Class Bound (R : Z) : Prop := bound_room : R < long_max.

Section storage.
Context (R : Z) `{HR : !Bound R}.
Implicit Types a : AbsStorage.

Lemma typed_if_open {A} (Q : A → Prop) m d :
  typed (store_ok R) Q m → typed (store_ok R) Q d → typed (store_ok R) Q (if_open m d).
Proof. intros Hm Hd a Ha. unfold if_open. destruct (a_open a); auto. Qed.

Lemma last_index_int64 a : store_ok R a → int64 (last_index (a_log a)).
Proof.
  intros [_ H _ _]. pose proof (last_index_nonneg (a_log a)). unfold int64, Bound, long_max in *. lia.
Qed.

Lemma log_at_ok l i : Forall entry_ok l → opt_ok (log_at i l).
Proof.
  intros Hl e [_ He]%log_at_Some. by eapply Forall_lookup_1.
Qed.

Ltac open_typed :=
  cbv delta [getLogEntries getLogEntry getLastLogIndex getLastLogTerm getCommitIndex
    setCommitIndex getLastApplied setLastApplied updateKeyValue storage_close];
  cbn [AbsStorage_Storage]; try apply typed_if_open; try apply typed_throw.

Lemma typed_entries s e : typed (store_ok R) (Forall entry_ok) (getLogEntries s e).
Proof.
  open_typed. apply typed_gets. intros a [Hl _ _ _]. unfold log_range. by apply Forall_drop, Forall_take.
Qed.
Lemma typed_entry i : typed (store_ok R) opt_ok (getLogEntry i).
Proof. open_typed. apply typed_gets. intros a [Hl _ _ _]. by apply log_at_ok. Qed.
Lemma typed_lastIndex : typed (store_ok R) (λ i, 0 ≤ i ≤ R) getLastLogIndex.
Proof.
  open_typed. apply typed_gets.
  intros a [_ ? _ _]. split; [apply last_index_nonneg|done].
Qed.
Lemma typed_lastTerm : typed (store_ok R) int64 getLastLogTerm.
Proof.
  open_typed. apply typed_gets. intros a Ha. rewrite last_term_spec.
  destruct (log_at _ _) as [e|] eqn:E; [|done]. by eapply log_at_ok; [apply Ha|].
Qed.
Lemma typed_getCommit : typed (store_ok R) int64 getCommitIndex.
Proof. open_typed; [apply typed_gets; by intros a []|by apply typed_ret]. Qed.
Lemma typed_getApplied : typed (store_ok R) int64 getLastApplied.
Proof. open_typed; [apply typed_gets; by intros a []|by apply typed_ret]. Qed.
Lemma typed_setCommit c : int64 c → typed (store_ok R) (λ _, True) (setCommitIndex c).
Proof. intros Hc. open_typed; [apply typed_modify; intros a []; by split|by apply typed_ret]. Qed.
Lemma typed_setApplied i : int64 i → typed (store_ok R) (λ _, True) (setLastApplied i).
Proof. intros Hc. open_typed; [apply typed_modify; intros a []; by split|by apply typed_ret]. Qed.
Lemma typed_update k v : typed (store_ok R) (λ _, True) (updateKeyValue k v).
Proof. open_typed; [apply typed_modify; intros a []; by split|by apply typed_ret]. Qed.
Lemma typed_close : typed (store_ok R) (λ _, True) storage_close.
Proof. open_typed. apply typed_modify. intros a []. by split. Qed.
End storage.

(** ** The methods *)

Section methods.
Context (R : Z) `{HR : !Bound R} `{HO : !HashOrder} `{HD : !Draws}.
Implicit Types n : ANode.
Abbreviation I := (node_ok R).
Abbreviation any := (λ _, True).
Abbreviation typed := (Hoare.typed (E:=jexn)).

Lemma typed_sto {A} (Q : A → Prop) (m : M jexn AbsStorage A) :
  typed (store_ok R) Q m → typed I Q (sto m).
Proof. intros H. apply (typed_zoom _ _ _ _ _ _ H); [by intros n []|]. intros n a [] ?. by split. Qed.
#[local] Hint Resolve typed_sto : typing.
#[local] Hint Resolve typed_entries typed_entry typed_lastIndex typed_lastTerm typed_getCommit
  typed_getApplied typed_setCommit typed_setApplied typed_update typed_close : typing.

Lemma typed_nonnull (o : option LogEntry) : opt_ok o → typed I entry_ok (nonnull o).
Proof. intros Ho. destruct o; simpl; [by apply typed_ret, Ho|apply typed_throw]. Qed.
Lemma typed_nonnull_any {A} (o : option A) : typed I any (nonnull o).
Proof. destruct o; simpl; [by apply typed_ret|apply typed_throw]. Qed.
Lemma typed_blocking {A} (Q : A → Prop) (o : option A) :
  (∀ a, o = Some a → Q a) → typed I Q (blocking_call o).
Proof. intros Ho. destruct o; simpl; [by apply typed_ret, Ho|apply typed_throw]. Qed.
Lemma typed_currentTerm : typed I int64 getCurrentTerm.
Proof. apply typed_gets. by intros n []. Qed.
#[local] Hint Resolve typed_nonnull typed_currentTerm : typing.

(** An assignment to fields that hold no [long]. *)
Ltac same_longs := apply typed_modify; intros n []; by split.

Lemma typed_setTerm t : int64 t → typed I any (modify (on_state (setCurrentTerm t))).
Proof. intros Ht. same_longs. Qed.
Lemma typed_becomeFollower t : int64 t → typed I any (modify (on_state (becomeFollower t))).
Proof. intros Ht. same_longs. Qed.
Lemma typed_becomeCandidate : typed I any (modify (on_state becomeCandidate)).
Proof. apply typed_modify. intros n []. split; [done| |done..]. apply int64_jadd. Qed.
Lemma typed_becomeLeader : typed I any (modify (on_state becomeLeader)).
Proof. same_longs. Qed.
Lemma typed_set_votedFor v : typed I any (modify (set_votedFor v)).
Proof. same_longs. Qed.
Lemma typed_set_rwLock l : typed I any (modify (set_rwLock l)).
Proof. same_longs. Qed.
#[local] Hint Resolve typed_setTerm typed_becomeFollower typed_becomeCandidate typed_becomeLeader
  typed_set_votedFor typed_set_rwLock : typing.

Lemma typed_lockWrite : typed I any lockWrite.
Proof. same_longs. Qed.
Lemma typed_lockRead : typed I any lockRead.
Proof. same_longs. Qed.
Lemma typed_unlockWrite : typed I any unlockWrite.
Proof. unfold unlockWrite. repeat type_step. destruct (lk_write _); repeat type_step. Qed.
Lemma typed_unlockRead : typed I any unlockRead.
Proof. unfold unlockRead. repeat type_step. destruct (lk_read _); repeat type_step. Qed.
Lemma typed_reset : typed I any resetElectionTimer.
Proof.
  unfold resetElectionTimer. eapply typed_bind; [same_longs|]. repeat type_step; same_longs.
Qed.
#[local] Hint Resolve typed_lockWrite typed_lockRead typed_unlockWrite typed_unlockRead
  typed_reset : typing.

Lemma typed_put_next p f :
  (∀ n, I n → 1 ≤ f n ≤ long_max) → typed I any (modify (λ n, put_next p (f n) n)).
Proof.
  intros Hf. apply typed_modify. intros n Hn. specialize (Hf n Hn). destruct Hn.
  split; [done..| |done]. by apply map_Forall_insert_2.
Qed.
Lemma typed_put_match p i : int64 i → typed I any (modify (put_match p i)).
Proof.
  intros Hi. apply typed_modify. intros n []. split; [done..|]. by apply map_Forall_insert_2.
Qed.
Lemma foldr_insert_Forall (P : Z → Prop) (ps : list string) x (m : gmap string Z) :
  P x → map_Forall (λ _, P) m → map_Forall (λ _, P) (foldr (λ p m, <[p := x]> m) m ps).
Proof.
  intros Hx Hm. induction ps as [|p ps IH]; simpl; [done|]. by apply map_Forall_insert_2.
Qed.

(** *** Loops: the fuel is enough, the counters stay in range *)

Lemma typed_applyTo e : typed I any (applyToStateMachine e).
Proof.
  unfold applyToStateMachine. eapply typed_bind; [apply typed_nonnull_any|]. repeat type_step.
Qed.
#[local] Hint Resolve typed_applyTo : typing.

Lemma typed_applyLoop fuel : ∀ i c,
  int64 i → int64 c → c - i ≤ Z.of_nat fuel → typed I int64 (applyLoop fuel i c).
Proof.
  induction fuel as [|fuel IH]; intros i c Hi Hc Hf; cbn [applyLoop].
  - rewrite (proj2 (Z.ltb_ge _ _)) by lia. by apply typed_ret.
  - apply typed_if; intros Hlt; [apply Z.ltb_lt in Hlt|by apply typed_ret]. cbv zeta.
    repeat type_step. apply IH; [apply int64_jadd|done|].
    unfold int64 in *. long_arith. lia.
Qed.

Lemma typed_applyCommitted : typed I any applyCommittedEntries.
Proof.
  unfold applyCommittedEntries. eapply typed_bind; [eauto with typing|]. intros i Hi.
  eapply typed_bind; [eauto with typing|]. intros c Hc.
  eapply typed_bind; [apply typed_applyLoop; [done|done|lia]|]. eauto with typing.
Qed.
#[local] Hint Resolve typed_applyCommitted : typing.

Lemma typed_commitLoop fuel : ∀ i last,
  int64 i → last ≤ R → last - i < Z.of_nat fuel → typed I any (commitLoop fuel i last).
Proof.
  induction fuel as [|fuel IH]; intros i last Hi Hl Hf; cbn [commitLoop].
  - rewrite (proj2 (Z.leb_gt _ _)) by lia. by apply typed_ret.
  - apply typed_if; intros Hle; [apply Z.leb_le in Hle|by apply typed_ret].
    repeat type_step. apply IH; [apply int64_jadd|done|].
    unfold Bound, int64, long_max in *. long_arith. lia.
Qed.

Lemma typed_updateCommitIndex : typed I any updateCommitIndex.
Proof.
  unfold updateCommitIndex. eapply typed_bind; [eauto with typing|]. intros last Hl.
  eapply typed_bind; [eauto with typing|]. intros c Hc. cbv beta zeta in *.
  apply typed_commitLoop; [apply int64_jadd|lia..].
Qed.
#[local] Hint Resolve typed_updateCommitIndex : typing.

(** *** Receiving *)

(** The round of the append loop at [index]: the log grows up to it only. *)
Lemma typed_round index e :
  entry_ok e → index ≤ R →
  typed I any
    (last ← sto getLastLogIndex;
     if index <=? last then
       mine ← sto (getLogEntry index);
       mine ← nonnull mine;
       if negb (le_term mine =? le_term e)
       then sto (deleteLogEntriesFrom index);; sto (appendLogEntry e);; mret ()
       else mret ()
     else sto (appendLogEntry e);; mret ()).
Proof.
  intros He Hi n Hn. destruct (a_open (storage n)) eqn:Ho.
  2: { unfold mbind, M_bind, sto, zoom, getLastLogIndex. simpl.
       unfold abs_lastLogIndex, if_open. rewrite Ho. simpl. by rewrite set_storage_id. }
  pose proof (bound_room : R < long_max).
  assert (Happ : ∀ a, store_ok R a → last_index (a_log a) < R →
    store_ok R (set_log (a_log a ++ [stored e]) a)).
  { intros a [Hl Hr ??] Hlt. split; simpl; [|rewrite last_index_snoc; lia|done..].
    apply Forall_app. split; [done|]. by constructor. }
  destruct Hn as [Hs Ht Hnx Hmt]. pose proof (so_room _ _ Hs) as Hroom.
  mstep. destruct (Z.leb_spec index (last_index (log n))) as [Hle|Hgt].
  - mstep. destruct (log_at index (log n)) as [x|] eqn:Hx; cbn [nonnull].
    2: { mstep. split; [by split|done]. }
    assert (1 ≤ index) by (apply log_at_Some in Hx; tauto). mstep.
    destruct (negb _); [|split; [by split|done]]. mstep.
    set (f := λ a, set_log (take (Z.to_nat (index - 1)) (a_log a)) a).
    assert (Hlast : last_index (log (upd f n)) = index - 1).
    { simpl. unfold last_index in *. rewrite length_take. lia. }
    erewrite bind_return; [|apply run_append; [done|lia]]. cbn.
    split; [|done]. split; [|done..]. apply (Happ (f (storage n))); [|simpl in *; lia].
    destruct Hs. split; simpl in *; [by apply Forall_take|lia|done..].
  - erewrite bind_return; [|apply run_append; [done|lia]]. cbn.
    split; [|done]. split; [|done..]. apply Happ; [done|lia].
Qed.

Lemma typed_appendLoop prev es : ∀ i,
  int64 prev → Forall entry_ok es → (es ≠ [] → prev + Z.of_nat i + last_index es ≤ R) →
  typed I any (appendLoop prev i es).
Proof.
  induction es as [|e es IH]; intros i Hp Hes Hr; cbn [appendLoop]; [by apply typed_ret|].
  apply Forall_cons in Hes as [He Hes]. pose proof (bound_room : R < long_max).
  assert (last_index (e :: es) = last_index es + 1) by (unfold last_index; simpl; lia).
  pose proof (last_index_nonneg es). specialize (Hr ltac:(done)). cbv zeta.
  assert (Hix : jadd (jadd prev 1) (Z.of_nat i) = prev + 1 + Z.of_nat i).
  { unfold int64 in *. by long_arith. }
  rewrite Hix. intros n Hn. rewrite <-bind_assoc. revert n Hn.
  eapply typed_bind; [apply typed_round; [done|lia]|]. intros _ _. apply IH; [done..|intros; lia].
Qed.

Lemma typed_mismatch i t : typed I any (prefixMismatch i t).
Proof.
  unfold prefixMismatch. repeat type_step.
Qed.
#[local] Hint Resolve typed_mismatch : typing.

Lemma typed_min c i : int64 c → 0 ≤ i ≤ R → typed I any (sto (setCommitIndex (Z.min c i))).
Proof.
  intros Hc Hi. apply typed_sto, typed_setCommit. pose proof (bound_room : R < long_max).
  unfold int64, long_max in *. lia.
Qed.
#[local] Hint Resolve typed_min : typing.

Lemma typed_appendEntries id t prev pt es lc :
  int64 t → int64 prev → int64 lc → Forall entry_ok es →
  (es ≠ [] → prev + last_index es ≤ R) →
  typed I any (appendEntries id t prev pt es lc).
Proof.
  intros Ht Hp Hlc Hes Hr. unfold appendEntries. eapply typed_bind; [eauto with typing|].
  intros _ _. eapply typed_try_finally; [|eauto with typing]. unfold appendEntries_locked.
  assert (Hloop : typed I any (appendLoop prev 0 es)) 
    by (apply typed_appendLoop; [done..|intros Hne; specialize (Hr Hne); lia]).
  repeat type_step.
Qed.

(** *** Leading *)

Lemma typed_send p : typed I any (sendAppendEntries p).
Proof.
  pose proof (bound_room : R < long_max). unfold sendAppendEntries.
  eapply typed_bind with (Q := λ i, 1 ≤ i ≤ long_max).
  { apply typed_gets. intros n [_ _ Hn _]. unfold getOrDefault.
    destruct (nextIndex n !! ni_id p) eqn:E; [by apply (Hn _ _ E)|done]. }
  intros next Hnext.
  (* the entries end where the log does *)
  eapply typed_bind; [eauto with typing|]. intros last Hlast.
  eapply typed_bind with (Q := λ es, Forall entry_ok es ∧ last_index es ≤ Z.max 0 (last - next + 1)).
  { intros n Hn. pose proof (typed_sto _ _ (typed_entries R next last) n Hn) as [Hn' Hes].
    split; [done|]. revert Hes. unfold sto, zoom, getLogEntries. simpl. unfold if_open.
    destruct (a_open (storage n)); simpl; [|done]. intros Hes. split; [done|].
    unfold log_range, last_index. rewrite length_drop, length_take. lia. }
  intros es [Hes Hlen]. cbv beta zeta in *.
  assert (Hprev : jsub next 1 = next - 1) by (unfold int64, long_max in *; by long_arith).
  rewrite Hprev. eapply typed_bind with (Q := int64); [repeat type_step; done|]. intros pt Hpt.
  eapply typed_bind; [eauto with typing|]. intros t Ht.
  eapply typed_bind; [eauto with typing|]. intros c Hc.
  eapply typed_bind with (Q := any).
  { apply typed_appendEntries; [done|unfold int64, long_max in *; lia|done..|].
    intros Hne. destruct es; [done|]. unfold last_index in *. simpl in *. lia. }
  intros ok _. apply typed_if; intros _.
  - eapply typed_bind; [eauto with typing|]. intros i Hi.
    eapply typed_bind; [apply (typed_put_next _ (λ _, jadd i 1)); intros; cbv beta in *; long_arith; lia|].
    intros _ _. eapply typed_bind; [eauto with typing|]. intros j Hj.
    eapply typed_bind; [apply typed_put_match; unfold int64; cbv beta in *; unfold long_max in *; lia|].
    intros _ _. eauto with typing.
  - apply typed_put_next. intros n _. pose proof (int64_jsub (getOrDefault (ni_id p) 1 (nextIndex n)) 1).
    unfold int64, long_max in *. lia.
Qed.
#[local] Hint Resolve typed_send : typing.

Lemma typed_replicate i : typed I any (replicateEntry i).
Proof.
  unfold replicateEntry. repeat type_step.
Qed.
#[local] Hint Resolve typed_replicate : typing.

Lemma typed_becomeLeader_node : typed I any node_becomeLeader.
Proof.
  unfold node_becomeLeader. eapply typed_bind; [eauto with typing|]. intros _ _.
  eapply typed_bind; [eauto with typing|]. intros i Hi.
  pose proof (bound_room : R < long_max). cbv beta in *.
  apply typed_modify. intros n [Hs Ht Hn Hm]. split; simpl; [done|done|..].
  - apply foldr_insert_Forall; [|done]. long_arith. lia.
  - by apply foldr_insert_Forall.
Qed.
#[local] Hint Resolve typed_becomeLeader_node : typing.

(** *** Elections *)

Definition task_ok (t : VoteTask) : Prop := int64 (vt_lastLogIndex t) ∧ int64 (vt_lastLogTerm t).

Lemma typed_startElection : typed I (Forall task_ok) startElection.
Proof.
  pose proof (bound_room : R < long_max). unfold startElection.
  eapply typed_bind; [eauto with typing|]. intros _ _.
  eapply typed_bind with (Q := any); [apply typed_modify; intros n []; by split|]. intros _ _.
  eapply typed_bind; [eauto with typing|]. intros i Hi.
  eapply typed_bind; [eauto with typing|]. intros t Ht. repeat type_step.
  apply Forall_fmap, Forall_true. intros p. split; simpl; [|done].
  unfold int64, long_max in *. lia.
Qed.
#[local] Hint Resolve typed_startElection : typing.

Lemma typed_countVotes vs : typed I any (countVotes vs).
Proof.
  induction vs as [|v vs IH]; cbn [countVotes]; [by apply typed_ret|].
  eapply typed_bind with (Q := any); [destruct v; simpl; [by apply typed_ret|apply typed_throw]|].
  repeat type_step.
Qed.
#[local] Hint Resolve typed_countVotes : typing.

(** The answers of the peers carry [int64] terms. *)
Definition rpc_ok (rpc : Channel → RequestVoteRequest → option RequestVoteResponse) : Prop :=
  ∀ ch q r, rpc ch q = Some r → int64 (rvr_term r).

Lemma typed_voteBody rpc t : rpc_ok rpc → typed I any (requestVoteBody rpc t).
Proof.
  intros Hrpc. unfold requestVoteBody. eapply typed_bind; [eauto with typing|]. intros _ _.
  eapply typed_try_finally; [|eauto with typing]. unfold requestVote_locked.
  apply typed_try_catch; [|intros; by apply typed_ret].
  eapply typed_bind; [apply typed_getS|]. intros n _.
  eapply typed_bind; [apply typed_nonnull_any|]. intros ch _.
  eapply typed_bind; [apply typed_blocking, Hrpc|]. intros r Hr. cbv beta in *. repeat type_step.
Qed.
End methods.

(** ** All the entry points *)

(** What timers, pools, peers and clients call. *)
Inductive call : Type :=
| CallAppendEntries (leaderId : string) (t prev pt : Z) (es : list LogEntry) (lc : Z)
| CallProposeEntry (k v : string)
| CallSendAppendEntries (p : NodeInfo)
| CallLeaderElectionTask
| CallStartElection
| CallRequestVote (t : VoteTask)
| CallRequestVoteBody (rpc : Channel → RequestVoteRequest → option RequestVoteResponse) (t : VoteTask)
| CallElectionDone (votes : list jobject)
| CallHeartbeatTask
| CallShutdown.

Section calls.
Context {S : Type} `{HS : !Storage S} `{HO : !HashOrder} `{HD : !Draws}.

Definition run_call (c : call) : M jexn (RaftNode S) () :=
  match c with
  | CallAppendEntries id t prev pt es lc => appendEntries id t prev pt es lc;; mret ()
  | CallProposeEntry k v => proposeEntry k v;; mret ()
  | CallSendAppendEntries p => sendAppendEntries p
  | CallLeaderElectionTask => leaderElectionTask;; mret ()
  | CallStartElection => startElection;; mret ()
  | CallRequestVote t => requestVote t;; mret ()
  | CallRequestVoteBody rpc t => requestVoteBody rpc t;; mret ()
  | CallElectionDone votes => electionDone votes
  | CallHeartbeatTask => heartbeatTask;; mret ()
  | CallShutdown => shutdown
  end.

(** One call after the other; an exception goes to the caller. *)
Definition run_calls (cs : list call) (n : RaftNode S) : RaftNode S :=
  foldl (λ n c, (run_call c n).1) n cs.
End calls.

(** The arguments are [long]s, and a message ends at index [R] at most. *)
Definition call_ok (R : Z) (c : call) : Prop :=
  match c with
  | CallAppendEntries _ t prev _ es lc =>
      int64 t ∧ int64 prev ∧ int64 lc ∧ Forall entry_ok es ∧ (es ≠ [] → prev + last_index es ≤ R)
  | CallRequestVoteBody rpc _ => rpc_ok rpc
  | _ => True
  end.

Section theorems.
Context `{HO : !HashOrder} `{HD : !Draws}.
Implicit Types n : ANode.

Lemma node_ok_mono R R' n : R ≤ R' → node_ok R n → node_ok R' n.
Proof. intros HR [[] ? ? ?]. split; [split|..]; done || lia. Qed.

Lemma typed_proposeEntry R `{HR : !Bound (R + 1)} k v n :
  node_ok R n →
  node_ok (R + 1) (proposeEntry k v n).1 ∧ (proposeEntry k v n).2 ≠ Undefined.
Proof.
  intros Hn. pose proof (bound_room : R + 1 < long_max) as HR1.
  unfold proposeEntry. mstep. destruct (bool_decide _).
  { split; [by eapply node_ok_mono; [|done]; lia|done]. }
  mstep. destruct (a_open (storage n)) eqn:Ho.
  - erewrite bind_return; [|apply run_append; [done|]].
    2: { pose proof (so_room _ _ (no_store _ _ Hn)). lia. }
    cbn beta. set (n1 := upd _ n). assert (Hn1 : node_ok (R + 1) n1).
    { destruct Hn as [[Hl Hr ??] Ht ??]. split; [|done..].
      split; simpl; [|rewrite last_index_snoc; lia|done..]. apply Forall_app. split; [done|].
      by constructor. }
    assert (Hm : Hoare.typed (E:=jexn) (node_ok (R + 1)) (λ _, True)
      (index ← sto getLastLogIndex; replicateEntry index)).
    { eapply typed_bind; [apply typed_sto, typed_lastIndex; done|]. intros i _.
      by apply typed_replicate. }
    destruct (Hm n1 Hn1) as [H1 H2]. split; [exact H1|]. intros E. by rewrite E in H2.
  - unfold mbind at 1 3, M_bind, sto, zoom, appendLogEntry. simpl. unfold if_open. rewrite Ho.
    simpl. rewrite set_storage_id. split; [by eapply node_ok_mono; [|done]; lia|done].
Qed.

Lemma typed_run {A} R (Q : A → Prop) (m : M jexn ANode A) n :
  typed (node_ok R) Q m → node_ok R n →
  node_ok (R + 1) ((m;; mret ()) n).1 ∧ ((m;; mret ()) n).2 ≠ Undefined.
Proof.
  intros Hm Hn. specialize (Hm n Hn). unfold mbind, M_bind.
  destruct (m n) as [n' []]; destruct Hm as [Hn' HQ]; simpl in *;
    (split; [eapply node_ok_mono; [|done]; lia|done]).
Qed.

Lemma run_call_typed R c n :
  node_ok R n → call_ok R c → R + 1 < long_max →
  node_ok (R + 1) (run_call c n).1 ∧ (run_call c n).2 ≠ Undefined.
Proof.
  intros Hn Hc HR. assert (Bound R) by (unfold Bound in *; lia). assert (Bound (R + 1)) by done.
  assert (Hunit : ∀ m : M jexn ANode (), typed (node_ok R) (λ _, True) m →
    node_ok (R + 1) (m n).1 ∧ (m n).2 ≠ Undefined).
  { intros m Hm. destruct (Hm n Hn) as [H1 H2]. split; [eapply node_ok_mono; [|done]; lia|].
    intros E. by rewrite E in H2. }
  destruct c; cbn [run_call call_ok] in *.
  - destruct Hc as (?&?&?&?&?). eapply typed_run; [by apply typed_appendEntries|done].
  - destruct (typed_proposeEntry R k v n Hn) as [H1 H2]. unfold mbind, M_bind.
    by destruct (proposeEntry k v n) as [n' []].
  - by apply Hunit, typed_send.
  - eapply (typed_run _ (λ _, True)); [|done]. unfold leaderElectionTask. repeat type_step.
    eapply typed_weaken; [by apply typed_startElection|done].
  - eapply typed_run; [by apply typed_startElection|done].
  - eapply (typed_run _ (λ _, True)); [|done]. unfold requestVote. repeat type_step.
  - eapply typed_run; [by apply typed_voteBody|done].
  - apply Hunit. unfold electionDone. eapply typed_bind; [by apply typed_countVotes|].
    repeat type_step. by apply typed_becomeLeader_node.
  - eapply (typed_run _ (λ _, True)); [|done]. unfold heartbeatTask. repeat type_step.
  - apply Hunit. unfold shutdown. repeat type_step.
    all: try by apply typed_modify; intros ? []; split.
    by apply typed_sto, typed_close.
Qed.

(** C15: every entry point terminates, on every node whose longs are in range,
    over an open or a closed storage, with consistent indices or not: no loop
    runs out of fuel. *)
Theorem calls_terminate R c n :
  node_ok R n → call_ok R c → R + 1 < long_max →
  (run_call c n).2 = Return () ∨ ∃ e, (run_call c n).2 = Throw e.
Proof.
  intros Hn Hc HR. destruct (run_call_typed R c n Hn Hc HR) as [_ H].
  destruct ((run_call c n).2) as [[]|e|]; eauto. done.
Qed.

(** C18: whatever is called, in any order and whatever fails, every [long] of the
    node stays a [long] (the term may wrap, an index never does), every next
    index stays positive, and the log holds at most one entry more per call
    than its bound. *)
Theorem longs_in_range R cs n :
  node_ok R n → Forall (call_ok R) cs → R + Z.of_nat (length cs) < long_max →
  node_ok (R + Z.of_nat (length cs)) (run_calls cs n).
Proof.
  revert R n. induction cs as [|c cs IH]; intros R n Hn Hcs HR; simpl in *.
  { by rewrite Z.add_0_r. }
  apply Forall_cons in Hcs as [Hc Hcs].
  replace (R + Z.of_nat (S (length cs))) with (R + 1 + Z.of_nat (length cs)) in * by lia.
  destruct (run_call_typed R c n Hn Hc ltac:(lia)) as [Hn' _].
  apply IH; [done| |done]. eapply Forall_impl; [done|]. intros c'. destruct c'; simpl; [|done..].
  intros (?&?&?&?&Hr). split_and!; try done. intros Hne. specialize (Hr Hne). lia.
Qed.
End theorems.

(** ** A follower whose indices are wrong, and its calls *)

#[local] Existing Instance zero_draws.

(** The commit index is negative and the applied one is past the log. *)
Definition corrupt : ANode :=
  set_storage (mkAbs [log_entry 1 "a" "1"; log_entry 2 "b" "2"] (-3) 5 ∅ true) leader.

Lemma corrupt_ok : node_ok 3 corrupt.
Proof.
  assert (H1 : map_Forall (λ _ i, 1 ≤ i ≤ long_max) (nextIndex corrupt)).
  { apply (bool_decide_eq_true_1 _). vm_compute. done. }
  assert (H2 : map_Forall (λ _ i, - 2 ^ 63 ≤ i ∧ i < 2 ^ 63) (matchIndex corrupt)).
  { apply (bool_decide_eq_true_1 _). vm_compute. done. }
  split; [|done|exact H1|exact H2].
  split; [apply (bool_decide_eq_true_1 _); vm_compute; done|vm_compute; done..].
Qed.

Definition some_calls : list call :=
  [CallProposeEntry "c" "3";
   CallAppendEntries "node2" long_max 1 1 [log_entry 3 "d" "4"; log_entry 3 "e" "5"] 9;
   CallStartElection; CallShutdown; CallProposeEntry "f" "6"; CallHeartbeatTask].

Lemma some_calls_ok : Forall (call_ok 3) some_calls.
Proof.
  repeat constructor; try done; try by (intros; vm_compute).
Qed.

(** [updateCommitIndex] reads entry -2, and throws. *)
Lemma calls_terminate_witness :
  (run_call (CallProposeEntry "c" "3") corrupt).2 = Throw NullPointerException.
Proof.
  destruct (calls_terminate 3 (CallProposeEntry "c" "3") corrupt) as [H|[e H]].
  - exact corrupt_ok.
  - done.
  - vm_compute. done.
  - exfalso. vm_compute in H. done.
  - rewrite H. vm_compute in H. congruence.
Defined.

(** The election after a message of the largest term has the smallest one. *)
Lemma longs_in_range_witness :
  node_ok 9 (run_calls some_calls corrupt) ∧ term (run_calls some_calls corrupt) = - 2 ^ 63.
Proof.
  split.
  - apply (longs_in_range 3 some_calls corrupt).
    + exact corrupt_ok.
    + exact some_calls_ok.
    + vm_compute. done.
  - vm_compute. reflexivity.
Defined.
