(* ===== verification/RaftElection.v ===== *)
(** * Elections: candidates, votes, majorities

    [startElection], the body of [requestVote], the count of the votes and the
    majority test, over any storage. *)

From S2P Require Import Prelude.
From S2P Require Import Java.
From S2P Require Import Messages.
From S2P Require Import RaftState.
From S2P Require Import Storage.
From S2P Require Import RaftNode.
From S2P Require Import NodeRun.
From S2P Require Import RaftReplication.
From stdpp Require Import base gmap strings list.
From Stdlib Require Import Lia.
#[local] Open Scope Z_scope.

(** ** Majorities *)

(** The members of the cluster: the peers map does not hold the node itself. *)
Definition cluster {S} (n : RaftNode S) : gset string := {[ nodeId n ]} ∪ dom (peers n).

Definition is_majority {S} (n : RaftNode S) (A : gset string) : Prop :=
  A ⊆ cluster n ∧ majority_of_peers (Z.of_nat (size A)) n = true.

Section majority.
Context {S : Type} (n : RaftNode S) (Hself : nodeId n ∉ dom (peers n)).

Lemma cluster_size : Z.of_nat (size (cluster n)) = Z.of_nat (size (peers n)) + 1.
Proof.
  unfold cluster. rewrite size_union by set_solver. rewrite size_singleton, size_dom. lia.
Qed.

Lemma majority_even A :
  Z.even (Z.of_nat (size (peers n))) = true → is_majority n A →
  Z.of_nat (size (cluster n)) < 2 * Z.of_nat (size A).
Proof.
  intros Hev [_ HA]. rewrite cluster_size. unfold majority_of_peers in HA.
  apply Z.ltb_lt in HA. apply Z.even_spec in Hev as [k Hk]. rewrite Hk in *.
  rewrite Z.mul_comm, Z.quot_mul in HA by lia. lia.
Qed.

(** Any [k] of the members, as a set. *)
Lemma cluster_split (k : nat) :
  (k ≤ size (cluster n))%nat → ∃ A B, A ∪ B = cluster n ∧ A ## B ∧ size A = k
    ∧ (size B = size (cluster n) - k)%nat.
Proof.
  intros Hk. set (l := elements (cluster n)).
  assert (Hl : length l = size (cluster n)) by done.
  assert (Hnd : NoDup (take k l ++ drop k l)) by (rewrite take_drop; apply NoDup_elements).
  apply NoDup_app in Hnd as (H1 & Hd & H2).
  exists (list_to_set (take k l)), (list_to_set (drop k l)). split_and!.
  - rewrite <-list_to_set_app_L, take_drop. apply list_to_set_elements_L.
  - intros x Hx1%elem_of_list_to_set Hx2%elem_of_list_to_set. by eapply Hd.
  - rewrite size_list_to_set by done. rewrite length_take. lia.
  - rewrite size_list_to_set by done. rewrite length_drop. lia.
Qed.

Lemma majority_odd :
  Z.odd (Z.of_nat (size (peers n))) = true →
  ∃ A B, is_majority n A ∧ is_majority n B ∧ A ∩ B = ∅.
Proof.
  intros Hodd. pose proof cluster_size as Hsz.
  apply Z.odd_spec in Hodd as [k Hk].
  destruct (cluster_split (Z.to_nat (k + 1))) as (A & B & HU & HAB & HA & HB); [lia|].
  assert (Hmaj : majority_of_peers (k + 1) n = true).
  { unfold majority_of_peers. rewrite Hk. apply Z.ltb_lt.
    pose proof (Z.quot_div_nonneg (2 * k + 1) 2). 
    rewrite Z.quot_div_nonneg by lia. pose proof (Z.div_lt_upper_bound (2 * k + 1) 2 (k + 1)). lia. }
  exists A, B. split_and!.
  - split; [set_solver|]. by replace (Z.of_nat (size A)) with (k + 1) by lia.
  - split; [set_solver|]. by replace (Z.of_nat (size B)) with (k + 1) by lia.
  - set_solver.
Qed.
End majority.

(** ** What [startElection] hands to the worker pool *)

Section start.
Context {S : Type} `{!Storage S} `{HO : !HashOrder} `{HD : !Draws}.
Implicit Types n : RaftNode S.

Lemma startElection_inv n n1 o :
  startElection n = (n1, o) →
  peers n1 = peers n
  ∧ state n1 = becomeCandidate (state n) ∧ votedFor n1 = Some (nodeId n)
  ∧ (∀ tasks, o = Return tasks →
       ∃ i t, tasks = (λ p, mkVoteTask p i t) <$> peer_values n).
Proof.
  unfold startElection. do 2 mstep. unfold mbind, M_bind, sto, zoom, getS.
  destruct (getLastLogIndex _) as [s1 [i|e|]]; [|by intros [= <- <-]; split_and!..].
  destruct (getLastLogTerm _) as [s2 [t|e|]]; [|by intros [= <- <-]; split_and!..].
  cbn -[peer_values]. change (peer_values _) with (peer_values n).
  destruct (workerPool_down n && _); intros [= <- <-]; split_and!; try done.
  intros tasks [= <-]. eauto.
Qed.

Lemma peer_values_nonempty n : peers n ≠ ∅ → peer_values n ≠ [].
Proof.
  intros Hne Hnil. apply Hne. unfold peer_values in Hnil. apply fmap_nil_inv in Hnil.
  pose proof (hash_order_perm (peers n)) as Hp. rewrite Hnil in Hp.
  symmetry in Hp. apply Permutation_nil_r in Hp. by apply map_to_list_empty_iff.
Qed.

Lemma requestVote_future t n n' t' v :
  requestVote t n = (n', Return (t', v)) → v = JFuture (ni_id (vt_peer t)).
Proof.
  unfold requestVote, mbind, M_bind, getS, mret, M_ret, throw.
  destruct (workerPool_down n); congruence.
Qed.
End start.

(** ** Theorems *)

Section theorems.
Context {S : Type} `{!Storage S} `{HO : !HashOrder} `{HD : !Draws}.
Implicit Types n : RaftNode S.

(** C25: two sets of members that pass [count > peers.size() / 2] always meet
    exactly when the number of peers is even, that is when the cluster,
    which also counts the node itself, is odd. *)
Theorem majorities_intersect n :
  nodeId n ∉ dom (peers n) →
  (∀ A B, is_majority n A → is_majority n B → A ∩ B ≠ ∅)
  ↔ Z.even (Z.of_nat (size (peers n))) = true.
Proof.
  intros Hself. split.
  - intros Hall. destruct (Z.even _) eqn:E; [done|]. rewrite <-Z.negb_odd in E.
    apply negb_false_iff in E. destruct (majority_odd n Hself E) as (A & B & HA & HB & HAB).
    by destruct (Hall A B HA HB).
  - intros Hev A B HA HB Hdisj.
    pose proof (majority_even n Hself A Hev HA). pose proof (majority_even n Hself B Hev HB).
    assert (Hle : (size (A ∪ B) ≤ size (cluster n))%nat).
    { apply subseteq_size. destruct HA, HB. set_solver. }
    rewrite size_union in Hle by set_solver. lia.
Qed.

(** The body of [requestVote] never throws; a failed call counts as a
    refusal, a newer term in the answer makes the node a follower of that
    term with no vote, any other answer changes nothing. *)
Lemma requestVoteBody_run rpc t n :
  requestVoteBody rpc t n
  = match grpcChannels n !! ni_id (vt_peer t) ≫= (λ ch, rpc ch (voteRequest t n)) with
    | None => (n, Return false)
    | Some r =>
        if currentTerm (state n) <? rvr_term r
        then (set_votedFor None (set_state (becomeFollower (rvr_term r) (state n)) n), Return false)
        else (n, Return (rvr_voteGranted r))
    end.
Proof.
  unfold requestVoteBody, lockRead. mstep. unfold try_finally, requestVote_locked, try_catch.
  destruct n as [id ps st rs sch wp chs ni mi [w r] vf et d]. mstep. cbn -[rvr_term].
  unfold voteRequest. cbn -[rvr_term].
  destruct (chs !! ni_id (vt_peer t)) as [ch|]; [|done]. cbn [nonnull]. mstep.
  cbn -[rvr_term]. destruct (rpc ch _) as [resp|]; [|done]. cbn [blocking_call]. do 2 mstep.
  cbn -[rvr_term]. by destruct (currentTerm rs <? rvr_term resp).
Qed.

(** The votes of an election are futures, not booleans: with at least
    one peer the count throws [ClassCastException] and the node is never
    promoted. *)
Lemma election_never_won n n1 n2 tasks votes :
  peers n ≠ ∅ →
  startElection n = (n1, Return tasks) →
  Forall2 (λ t v, ∃ m m' : RaftNode S, requestVote t m = (m', Return (t, v))) tasks votes →
  electionDone votes n2 = (n2, Throw ClassCastException).
Proof.
  intros Hpeers Hrun Hvotes.
  destruct (startElection_inv _ _ _ Hrun) as (_ & _ & _ & Ht).
  destruct (Ht tasks eq_refl) as (i & t & ->).
  destruct (peer_values n) as [|p ps] eqn:Hp; [by apply peer_values_nonempty in Hp|].
  inversion Hvotes as [|? v ? vs (m & m' & Hv) Hvs]; subst.
  apply requestVote_future in Hv as ->. done.
Qed.

(** Without peers the same code promotes the node at once. *)
Lemma lone_node_wins (n : ANode) :
  peers n = ∅ → is_open n → last_index (log n) < long_max →
  ∃ n1 : ANode, startElection n = (n1, Return [])
    ∧ electionDone [] n1
      = (set_indices (nextIndex n) (matchIndex n) (on_state becomeLeader n1), Return ())
    ∧ state n1 = becomeCandidate (state n).
Proof.
  intros Hp Ho Hl.
  assert (Hpv : hash_order (peers n) = []).
  { apply Permutation_nil_r. by rewrite hash_order_perm, Hp, map_to_list_empty. }
  eexists. split; [|split].
  - unfold startElection. do 5 mstep. unfold peer_values. simpl. rewrite Hpv. simpl.
    by rewrite andb_false_r.
  - unfold electionDone. cbn [countVotes]. mstep. mstep. unfold majority_of_peers. simpl.
    rewrite Hp, map_size_empty. simpl. unfold node_becomeLeader. do 2 mstep.
    rewrite modify_run. simpl. by rewrite Hpv.
  - done.
Qed.

(** A candidate's term is the next one, until the largest [long], after
    which it is the smallest; its vote is for itself. *)
Lemma startElection_term n n' o :
  int64 (currentTerm (state n)) → startElection n = (n', o) →
  currentRole (state n') = CANDIDATE ∧ votedFor n' = Some (nodeId n)
  ∧ currentTerm (state n')
    = (if decide (currentTerm (state n) = long_max) then - 2 ^ 63 else currentTerm (state n) + 1).
Proof.
  intros Hi Hrun. destruct (startElection_inv _ _ _ Hrun) as (_ & -> & -> & _).
  split_and!; [done..|]. simpl. case_decide as Hm; [by rewrite Hm|].
  unfold int64, long_max in *. by long_arith.
Qed.
End theorems.

(** ** Concrete clusters *)

#[local] Existing Instance zero_draws.

Definition fresh_storage : AbsStorage := mkAbs [] 0 0 ∅ true.
(** The node of [RaftNodeTest.java]: three peers, a cluster of four. *)
Definition four_nodes : ANode := newRaftNode "node1" ["node2"; "node3"; "node4"] fresh_storage.
Definition lone_node : ANode := newRaftNode "node1" [] fresh_storage.

(** Two of four are a majority, twice over. *)
Example four_nodes_split :
  majority_of_peers (Z.of_nat (size ({["node1"; "node2"]} : gset string))) four_nodes = true
  ∧ majority_of_peers (Z.of_nat (size ({["node3"; "node4"]} : gset string))) four_nodes = true.
Proof. vm_compute. done. Qed.

Lemma follower_not_own_peer : nodeId follower ∉ dom (peers follower).
Proof. apply (bool_decide_eq_true_1 _). vm_compute. done. Qed.
Lemma four_nodes_not_own_peer : nodeId four_nodes ∉ dom (peers four_nodes).
Proof. apply (bool_decide_eq_true_1 _). vm_compute. done. Qed.

Lemma majorities_intersect_witness :
  (∀ A B, is_majority follower A → is_majority follower B → A ∩ B ≠ ∅)
  ∧ ¬ (∀ A B, is_majority four_nodes A → is_majority four_nodes B → A ∩ B ≠ ∅).
Proof.
  split.
  - apply (proj2 (majorities_intersect follower follower_not_own_peer)). vm_compute. done.
  - intros H. apply (proj1 (majorities_intersect four_nodes four_nodes_not_own_peer)) in H.
    vm_compute in H. done.
Defined.

Lemma election_never_won_witness :
  let r := startElection four_nodes in
  electionDone [JFuture "node3"; JFuture "node2"; JFuture "node4"] r.1
  = (r.1, Throw ClassCastException).
Proof.
  intros r.
  apply (election_never_won four_nodes r.1 r.1
    ((λ p, mkVoteTask p 0 0) <$> peer_values four_nodes)).
  - intros H. apply (f_equal size) in H. vm_compute in H. done.
  - vm_compute. reflexivity.
  - change (peer_values four_nodes)
      with (map (λ p, mkNodeInfo p "localhost" 50051) ["node3"; "node2"; "node4"]).
    repeat (constructor; [exists four_nodes, four_nodes; reflexivity|]). constructor.
Defined.

Lemma lone_node_wins_witness :
  ∃ n1 : ANode, startElection lone_node = (n1, Return [])
    ∧ currentRole (state (electionDone [] n1).1) = LEADER.
Proof.
  destruct (lone_node_wins lone_node) as (n1 & H1 & H2 & _).
  - vm_compute. reflexivity.
  - done.
  - vm_compute. done.
  - exists n1. split; [exact H1|]. rewrite H2. reflexivity.
Defined.

Lemma startElection_term_witness :
  currentTerm (state (startElection four_nodes).1) = 1
  ∧ currentTerm (state (startElection (set_state (mkRaftState FOLLOWER long_max None) four_nodes)).1)
    = - 2 ^ 63.
Proof.
  split.
  - destruct (startElection_term four_nodes (startElection four_nodes).1 (startElection four_nodes).2)
      as (_ & _ & H); [done|by destruct (startElection four_nodes)|exact H].
  - set (n := set_state _ _).
    destruct (startElection_term n (startElection n).1 (startElection n).2)
      as (_ & _ & H); [done|by destruct (startElection n)|exact H].
Defined.
