(* ===== verification/RaftSystem.v ===== *)
(** * A running node: timers, pools and clients interleaved

    The tasks that [RaftNode.v] hands to the scheduler and to the worker pool,
    as a step relation: each step is one uninterrupted execution of a method,
    in any order, with any answers from the network. *)

From S2P Require Import Prelude.
From S2P Require Import Java.
From S2P Require Import Messages.
From S2P Require Import RaftState.
From S2P Require Import Storage.
From S2P Require Import RaftNode.
From S2P Require Import NodeRun.
From S2P Require Import RaftReplication.
From S2P Require Import RaftElection.
From stdpp Require Import base gmap strings list.
From Stdlib Require Import Lia.
#[local] Open Scope Z_scope.

(** A slot of [voteFutures]: its task is queued, or its future is complete. *)
Inductive Slot : Type := Queued (t : VoteTask) | Complete (v : jobject).

(** The node and what is queued: the elections under way, the bodies of
    [requestVote], the heartbeats. *)
Record World : Type := mkWorld {
  w_node : ANode;
  w_elections : list (list Slot);
  w_bodies : list VoteTask;
  w_sends : list NodeInfo;
}.

Definition with_node (n : ANode) (w : World) : World :=
  mkWorld n (w_elections w) (w_bodies w) (w_sends w).

(** An election that has started. *)
Definition elect (n : ANode) (tasks : list VoteTask) (w : World) : World :=
  mkWorld n ((Queued <$> tasks) :: w_elections w) (w_bodies w) (w_sends w).

Section system.
Context `{HO : !HashOrder} `{HD : !Draws}.
Implicit Types w : World.

Inductive step : World → World → Prop :=
(** The fixed-rate task, every 150 ms. *)
| step_tick_leader w :
    currentRole (state (w_node w)) = LEADER → step w w
| step_tick w n tasks :
    currentRole (state (w_node w)) ≠ LEADER →
    leaderElectionTask (w_node w) = (n, Return tasks) → step w (elect n tasks w)
| step_tick_throws w n e :
    leaderElectionTask (w_node w) = (n, Throw e) → step w (with_node n w)
(** The one-shot timer of [resetElectionTimer] goes off. *)
| step_timer w id n tasks :
    is_Some (sch_pending (scheduler (w_node w)) !! id) →
    startElection (set_timer (cancel_timer (Some id) (scheduler (w_node w)))
      (electionTimer (w_node w)) (draws_done (w_node w)) (w_node w)) = (n, Return tasks) →
    step w (elect n tasks w)
| step_timer_throws w id n e :
    is_Some (sch_pending (scheduler (w_node w)) !! id) →
    startElection (set_timer (cancel_timer (Some id) (scheduler (w_node w)))
      (electionTimer (w_node w)) (draws_done (w_node w)) (w_node w)) = (n, Throw e) →
    step w (with_node n w)
(** A task of [startElection] runs: it calls [requestVote], and completes with
    the future of the body. *)
| step_request w es1 s1 t s2 es2 n t' v :
    w_elections w = es1 ++ (s1 ++ Queued t :: s2) :: es2 →
    requestVote t (w_node w) = (n, Return (t', v)) →
    step w (mkWorld n (es1 ++ (s1 ++ Complete v :: s2) :: es2) (t' :: w_bodies w) (w_sends w))
(** A body runs, whatever the peer answers. *)
| step_body w b1 t b2 rpc n o :
    w_bodies w = b1 ++ t :: b2 →
    requestVoteBody rpc t (w_node w) = (n, o) →
    step w (mkWorld n (w_elections w) (b1 ++ b2) (w_sends w))
(** All the futures of an election are complete. *)
| step_election_done w es1 votes es2 n o :
    w_elections w = es1 ++ (Complete <$> votes) :: es2 →
    electionDone votes (w_node w) = (n, o) →
    step w (mkWorld n (es1 ++ es2) (w_bodies w) (w_sends w))
(** The fixed-rate task, every 50 ms, and the sends it submits. *)
| step_heartbeat w n ps :
    heartbeatTask (w_node w) = (n, Return ps) →
    step w (mkWorld n (w_elections w) (w_bodies w) (w_sends w ++ ps))
| step_send w s1 p s2 n o :
    w_sends w = s1 ++ p :: s2 →
    sendAppendEntries p (w_node w) = (n, o) →
    step w (mkWorld n (w_elections w) (w_bodies w) (s1 ++ s2))
(** A client's [put]. *)
| step_put w k v n o :
    proposeEntry k v (w_node w) = (n, o) → step w (with_node n w).

Definition started (n : ANode) : World := mkWorld n [] [] [].
Definition reachable (n : ANode) : World → Prop := rtc step (started n).

(** ** Starting an election *)

Lemma startElection_keeps (n n' : ANode) o :
  startElection n = (n', o) →
  storage n' = storage n ∧ scheduler n' = scheduler n ∧ currentRole (state n') ≠ LEADER.
Proof.
  intros H. rewrite (assoc and). split.
  - revert H. unfold startElection. do 2 mstep. unfold mbind, M_bind, sto, zoom, getS.
    assert (H1 : ∀ a : AbsStorage, (getLastLogIndex a).1 = a).
    { intros a. unfold getLastLogIndex, AbsStorage_Storage, abs_lastLogIndex, if_open.
      by destruct (a_open a). }
    assert (H2 : ∀ a : AbsStorage, (getLastLogTerm a).1 = a).
    { intros a. unfold getLastLogTerm, AbsStorage_Storage, if_open. by destruct (a_open a). }
    specialize (H1 (storage n)). cbn [storage set_votedFor on_state set_state].
    destruct (getLastLogIndex (storage n)) as [a1 [i|e|]]; simpl in H1; subst a1;
      [|by intros [= <- <-]..].
    cbn [storage set_storage]. specialize (H2 (storage n)).
    destruct (getLastLogTerm (storage n)) as [a2 [t|e|]]; simpl in H2; subst a2;
      [|by intros [= <- <-]..].
    cbn -[peer_values]. destruct (workerPool_down n && _); by intros [= <- <-].
  - apply startElection_inv in H as (_ & -> & _). done.
Qed.

Lemma tick_starts (n n' : ANode) o :
  currentRole (state n) ≠ LEADER → leaderElectionTask n = (n', o) → startElection n = (n', o).
Proof. intros Hr. unfold leaderElectionTask. mstep. by rewrite bool_decide_eq_true_2. Qed.

Lemma requestVote_same t (n n' : ANode) o : requestVote t n = (n', o) → n' = n.
Proof.
  unfold requestVote, mbind, M_bind, getS, mret, M_ret, throw.
  destruct (workerPool_down n); congruence.
Qed.
End system.
