(* ===== verification/NodeThreads.v ===== *)
(** * A running node, access by access

    The tasks of RaftSystem.v, each on a thread of its own: the methods of
    NodeSteps.v and ElectionSteps.v are interleaved at their accesses to the node
    and its storage, with any number of elections, vote bodies, heartbeats, sends
    and puts under way.  A body of [requestVote] or an [appendEntries] waits where
    another thread holds the node's lock. *)

From S2P Require Import Prelude.
From S2P Require Import Java.
From S2P Require Import Messages.
From S2P Require Import RaftState.
From S2P Require Import Storage.
From S2P Require Import RaftNode.
From S2P Require Import NodeRun.
From S2P Require Import RaftReplication.
From S2P Require Import RaftElection.
From S2P Require Import RaftSystem.
From S2P Require Import Concurrency.
From S2P Require Import NodeSteps.
From S2P Require Import ElectionSteps.
From stdpp Require Import base gmap strings list.
From Stdlib Require Import Lia.
#[local] Open Scope Z_scope.

(** A method under way, and what its end does to the queues. *)
Record Job : Type := mkJob {
  job_result : Type;
  job_thread : thread (E:=jexn) (S:=ANode) job_result;
  job_end : job_result → World → World;
}.
Arguments mkJob {_} _ _.

Definition job {A} (p : prog jexn ANode A) (fin : A → World → World) : Job :=
  mkJob (Running p) fin.
(** A method whose result nobody takes. *)
Definition lone_job {A} (p : prog jexn ANode A) : Job := job p (λ _ w, w).

Section threads.
Context `{HO : !HashOrder} `{HD : !Draws}.
Implicit Types w : World.

(** An election has started: its requests are queued. *)
Definition election_started (tasks : list VoteTask) w : World := elect (w_node w) tasks w.

(** The fixed-rate task starts an election or does nothing. *)
Definition tick_prog : prog jexn ANode (option (list VoteTask)) :=
  role ⇐ gets (λ n, currentRole (state n));
  if bool_decide (role ≠ LEADER)
  then prog_bind split_startElection (λ tasks, Done (Some tasks)) else Done None.
Definition tick_end (r : option (list VoteTask)) : World → World :=
  match r with Some tasks => election_started tasks | None => id end.

Definition queue_sends (ps : list NodeInfo) w : World :=
  mkWorld (w_node w) (w_elections w) (w_bodies w) (w_sends w ++ ps).

(** A thread of the scheduler or of the pool, or one of gRPC, takes up a task;
    the task is no longer queued in the second world. *)
Inductive begins : World → Job → World → Prop :=
| begin_tick w : begins w (job tick_prog tick_end) w
| begin_timer w id :
    is_Some (sch_pending (scheduler (w_node w)) !! id) →
    begins w (job split_startElection election_started)
      (with_node (set_timer (cancel_timer (Some id) (scheduler (w_node w)))
         (electionTimer (w_node w)) (draws_done (w_node w)) (w_node w)) w)
| begin_body w b1 t b2 rpc :
    w_bodies w = b1 ++ t :: b2 →
    begins w (lone_job (split_requestVoteBody rpc t))
      (mkWorld (w_node w) (w_elections w) (b1 ++ b2) (w_sends w))
| begin_count w es1 votes es2 :
    w_elections w = es1 ++ (Complete <$> votes) :: es2 →
    begins w (lone_job (split_electionDone votes))
      (mkWorld (w_node w) (es1 ++ es2) (w_bodies w) (w_sends w))
| begin_heartbeat w : begins w (job split_heartbeatTask queue_sends) w
| begin_send w s1 p s2 :
    w_sends w = s1 ++ p :: s2 →
    begins w (lone_job (split_sendAppendEntries p))
      (mkWorld (w_node w) (w_elections w) (w_bodies w) (s1 ++ s2))
| begin_put w k v : begins w (lone_job (split_proposeEntry k v)) w.

(** The world and the methods under way. *)
Inductive fine_step : World * list Job → World * list Job → Prop :=
| fine_begin w js j w' : begins w j w' → fine_step (w, js) (w', j :: js)
(** One access. *)
| fine_access w js1 A (p : prog jexn ANode A) fin js2 t n :
    thread_step (Running p) (w_node w) = (t, n) →
    fine_step (w, js1 ++ mkJob (Running p) fin :: js2) (with_node n w, js1 ++ mkJob t fin :: js2)
(** The end of a method that returned, or threw. *)
| fine_return w js1 A (a : A) fin js2 :
    fine_step (w, js1 ++ mkJob (Finished (Return a)) fin :: js2) (fin a w, js1 ++ js2)
| fine_throw w js1 A o (fin : A → World → World) js2 :
    (∀ a, o ≠ Return a) →
    fine_step (w, js1 ++ mkJob (Finished o) fin :: js2) (w, js1 ++ js2)
(** A task of [startElection], which only hands the body to the pool. *)
| fine_request w js es1 s1 t s2 es2 n t' v :
    w_elections w = es1 ++ (s1 ++ Queued t :: s2) :: es2 →
    requestVote t (w_node w) = (n, Return (t', v)) →
    fine_step (w, js)
      (mkWorld n (es1 ++ (s1 ++ Complete v :: s2) :: es2) (t' :: w_bodies w) (w_sends w), js).

Definition fine_reachable (n : ANode) : World * list Job → Prop := rtc fine_step (started n, []).

(** ** A method that runs without interruption *)

Lemma with_node_id w : with_node (w_node w) w = w.
Proof. by destruct w. Qed.

Lemma fine_act {A B} (q : prog jexn ANode A) (m : M jexn ANode B) k fin w js :
  thread_step (Running q) (w_node w) = act_step m k (w_node w) →
  (∀ b n, m (w_node w) = (n, Return b) →
     rtc fine_step (with_node n w, mkJob (Running (k b)) fin :: js)
       (with_node (denote (k b) n).1 w, mkJob (Finished (denote (k b) n).2) fin :: js)) →
  rtc fine_step (w, mkJob (Running q) fin :: js)
    (with_node ((m ≫= (λ b, denote (k b))) (w_node w)).1 w,
     mkJob (Finished ((m ≫= (λ b, denote (k b))) (w_node w)).2) fin :: js).
Proof.
  intros Hq IH. unfold mbind, M_bind. unfold act_step in Hq.
  destruct (m (w_node w)) as [n [b|e|]].
  - eapply rtc_l; [by apply (fine_access w [] A q fin js (Running (k b)) n)|]. by apply IH.
  - apply rtc_once. by apply (fine_access w [] A q fin js).
  - apply rtc_once. by apply (fine_access w [] A q fin js).
Qed.

Lemma fine_run {A} (p : prog jexn ANode A) fin w js :
  enabled p (w_node w) →
  rtc fine_step (w, mkJob (Running p) fin :: js)
    (with_node (denote p (w_node w)).1 w, mkJob (Finished (denote p (w_node w)).2) fin :: js).
Proof.
  revert w. induction p as [a|B m k IH|g B m k IH]; intros w Hp; simpl in Hp.
  - apply rtc_once. by apply (fine_access w [] A (Done a) fin js).
  - apply fine_act; [done|]. intros b n Hm. rewrite Hm in Hp. by apply (IH b (with_node n w)).
  - destruct Hp as [Hg Hp]. apply fine_act; [simpl; by rewrite Hg|]. intros b n Hm. rewrite Hm in Hp.
    by apply (IH b (with_node n w)).
Qed.

(** A task that is taken up while the lock is free, and runs to its end. *)
Lemma fine_whole {A} (p : prog jexn ANode A) fin w w' js n o :
  begins w (job p fin) w' → enabled p (w_node w') → denote p (w_node w') = (n, o) →
  rtc fine_step (w, js)
    (match o with Return a => fin a (with_node n w') | _ => with_node n w' end, js).
Proof.
  intros Hb Hp Hrun. eapply rtc_l; [by apply fine_begin|]. etrans; [by apply fine_run|].
  rewrite Hrun. simpl. apply rtc_once. destruct o as [a|e|].
  - apply (fine_return _ []).
  - by apply (fine_throw _ []).
  - by apply (fine_throw _ []).
Qed.

Lemma denote_tick (n n' : ANode) o :
  currentRole (state n) ≠ LEADER → leaderElectionTask n = (n', o) →
  denote tick_prog n = (n', match o with Return tasks => Return (Some tasks)
                                       | Throw e => Throw e | Undefined => Undefined end).
Proof.
  intros Hr Hrun. apply tick_starts in Hrun; [|done]. unfold tick_prog. cbn [denote]. mstep.
  rewrite bool_decide_eq_true_2 by done. rewrite denote_bind. unfold mbind, M_bind.
  rewrite denote_startElection, Hrun. by destruct o.
Qed.

(** A body of [requestVote] waits at its lock and nowhere else. *)
Lemma enabled_requestVoteBody rpc t (n : ANode) :
  lk_write (rwLock n) = 0%nat → enabled (split_requestVoteBody rpc t) n.
Proof.
  intros Hw. unfold split_requestVoteBody. cbn [enabled]. split; [unfold may_read; by rewrite Hw|].
  unfold lockRead, modify. cbv beta iota. unfold split_requestVote_locked.
  apply unguarded_enabled, unguarded_finally, unguarded_catch; [|done].
  intros sent r cur. by destruct (cur <? rvr_term r).
Qed.

(** ** With a peer, nobody leads *)

(** The state of an election that can never promote: it has a vote to count for
    each peer, and each vote is a future. *)
Definition unpromotable (slots : list Slot) : Prop :=
  slots ≠ [] ∧ Forall (λ s, match s with Queued _ => True | Complete v => ∃ id, v = JFuture id end) slots.

Lemma unpromotable_complete s1 t s2 id :
  unpromotable (s1 ++ Queued t :: s2) → unpromotable (s1 ++ Complete (JFuture id) :: s2).
Proof.
  intros [_ Hx]. split; [by destruct s1|]. apply Forall_app in Hx as [Hx1 Hx2].
  apply Forall_cons in Hx2 as [_ Hx2]. apply Forall_app. split; [done|].
  constructor; [by eexists|done].
Qed.

Section invariant.
Context (a : AbsStorage) (ps : gmap string NodeInfo) (Hps : ps ≠ ∅).

(** What every access finds and leaves. *)
Record powerless (n : ANode) : Prop := {
  pl_role : currentRole (state n) ≠ LEADER;
  pl_storage : storage n = a;
  pl_peers : peers n = ps;
}.

Abbreviation holds := (holds (E:=jexn) powerless).
Abbreviation kept := (kept (E:=jexn) powerless).

Lemma kept_modify f :
  (∀ n, powerless n → currentRole (state (f n)) ≠ LEADER) →
  (∀ n, storage (f n) = storage n ∧ peers (f n) = peers n) → kept (modify f).
Proof.
  intros Hr Hf n Hn. destruct (Hf n) as [H1 H2]. split; simpl; [by apply Hr|..].
  - rewrite H1. apply Hn.
  - rewrite H2. apply Hn.
Qed.

(** Reads of the storage, open or not. *)
Lemma kept_sto {A} (m : M jexn AbsStorage A) : (∀ s, (m s).1 = s) → kept (sto m).
Proof.
  intros Hm n Hn. unfold sto, zoom. specialize (Hm (storage n)).
  destruct (m (storage n)) as [s o]. simpl in *. subst s. by rewrite set_storage_id.
Qed.
Lemma kept_lastIndex : kept (sto getLastLogIndex).
Proof. apply kept_sto. intros s. unfold getLastLogIndex. simpl. unfold abs_lastLogIndex, if_open. by destruct (a_open s). Qed.
Lemma kept_lastTerm : kept (sto getLastLogTerm).
Proof. apply kept_sto. intros s. unfold getLastLogTerm. simpl. unfold if_open. by destruct (a_open s). Qed.

Ltac kept_write := apply kept_modify; [by intros n0 []|by intros n0].

Lemma holds_stepDown t : holds (λ _, True) (split_stepDown t).
Proof. unfold split_stepDown. repeat (apply holds_any; [kept_write|intros _]). done. Qed.

Lemma kept_read {A} (f : ANode → A) : kept (gets f).
Proof. by intros n Hn. Qed.

Lemma holds_startElection : holds (λ tasks, unpromotable (Queued <$> tasks)) split_startElection.
Proof.
  unfold split_startElection, split_becomeCandidate. cbn [prog_bind].
  apply holds_any; [kept_write|intros _]. apply holds_any; [apply kept_read|intros t].
  do 2 (apply holds_any; [kept_write|intros _]).
  apply holds_any; [apply kept_lastIndex|intros i]. apply holds_any; [apply kept_lastTerm|intros lt].
  apply (holds_act _ _ _ _ (λ tasks : list VoteTask, unpromotable (Queued <$> tasks))); [|done].
  intros n Hn. mstep. destruct (workerPool_down n && _); [done|]. split; [done|]. split.
  - intros H%fmap_nil_inv%fmap_nil_inv. revert H. apply peer_values_nonempty.
    by rewrite (pl_peers _ Hn).
  - apply Forall_fmap, Forall_true. done.
Qed.

Lemma holds_requestVoteBody rpc t : holds (λ _, True) (split_requestVoteBody rpc t).
Proof.
  unfold split_requestVoteBody, split_requestVote_locked.
  apply holds_wait, holds_any; [kept_write|intros _]. apply holds_finally.
  { intros n Hn. unfold unlockRead. mstep. destruct (lk_read (rwLock n)); [done|].
    destruct Hn. by split. }
  apply holds_catch; [|done]. apply holds_any.
  { intros n Hn. mstep. by destruct (grpcChannels n !! _). }
  intros [ch rq]. apply holds_any; [intros n Hn; by destruct (rpc _ _)|]. intros r.
  apply holds_any; [apply kept_read|]. intros cur. destruct (cur <? _); [|done].
  eapply holds_bind; [apply holds_stepDown|done].
Qed.

Lemma holds_electionDone votes :
  unpromotable (Complete <$> votes) → holds (λ _, True) (split_electionDone votes).
Proof.
  intros [Hne Hall]. destruct votes as [|v votes]; [done|].
  apply Forall_cons in Hall as [(id & ->) _]. by apply (holds_act _ _ _ _ (λ _, False)).
Qed.

(** A node that does not lead sees it at the first access of its tasks. *)
Lemma holds_role {A} (Q : A → Prop) k :
  (∀ r, r ≠ LEADER → holds Q (k r)) → holds Q (Act (gets (λ n, currentRole (state n))) k).
Proof.
  intros Hk. apply (holds_act _ _ _ _ (λ r, r ≠ LEADER)); [|done].
  intros n Hn. split; [done|apply Hn].
Qed.

Lemma holds_proposeEntry k v : holds (λ b, b = false) (split_proposeEntry k v).
Proof. apply holds_role. intros r Hr. by rewrite bool_decide_eq_true_2. Qed.
Lemma holds_heartbeat : holds (λ l, l = []) split_heartbeatTask.
Proof. apply holds_role. intros r Hr. by rewrite bool_decide_eq_false_2. Qed.

(** *** The world *)

Record never_leads (w : World) : Prop := {
  nl_node : powerless (w_node w);
  nl_elections : Forall unpromotable (w_elections w);
  nl_sends : w_sends w = [];
}.

Definition job_harmless (j : Job) : Prop :=
  thread_holds powerless (λ x, ∀ w, never_leads w → never_leads (job_end j x w)) (job_thread j).

Lemma never_leads_node w n : never_leads w → powerless n → never_leads (with_node n w).
Proof. by intros [_ He Hs]. Qed.

Lemma never_leads_queues w es :
  never_leads w → Forall unpromotable es → ∀ bodies, never_leads (mkWorld (w_node w) es bodies []).
Proof. by intros [Hn _ _]. Qed.

Lemma election_harmless w tasks :
  unpromotable (Queued <$> tasks) → never_leads w → never_leads (election_started tasks w).
Proof. intros Ht [Hn He Hs]. split; [done|by constructor|done]. Qed.

Lemma begins_harmless w j w' : begins w j w' → never_leads w → job_harmless j ∧ never_leads w'.
Proof.
  intros Hb Hw. pose proof Hw as [Hn He Hs].
  destruct Hb as [w|w id Hid|w b1 t b2 rpc Heq|w es1 votes es2 Heq|w|w s1 p s2 Heq|w k v].
  - split; [|done]. apply holds_role. intros r Hr. rewrite bool_decide_eq_true_2 by done.
    eapply holds_bind; [apply holds_startElection|]. intros tasks Ht w'. by apply election_harmless.
  - split; [|apply never_leads_node; [done|by destruct Hn]].
    eapply holds_weaken; [|apply holds_startElection]. intros tasks Ht w'. by apply election_harmless.
  - split; [by eapply holds_weaken, holds_requestVoteBody|]. rewrite Hs. by apply never_leads_queues.
  - rewrite Heq in He. apply Forall_app in He as [He1 He2]. apply Forall_cons in He2 as [Hx He2].
    split; [by eapply holds_weaken, holds_electionDone|].
    rewrite Hs. apply never_leads_queues; [done|]. by apply Forall_app.
  - split; [|done]. eapply holds_weaken; [|apply holds_heartbeat]. intros l -> w' [Hn' He' Hs'].
    split; simpl; try done. by rewrite Hs'.
  - rewrite Hs in Heq. by destruct s1.
  - split; [by eapply holds_weaken, holds_proposeEntry|done].
Qed.

Lemma fine_step_harmless w js w' js' :
  fine_step (w, js) (w', js') → never_leads w → Forall job_harmless js →
  never_leads w' ∧ Forall job_harmless js'.
Proof.
  intros Hstep Hw Hjs. inversion Hstep as [w0 js0 j w1 Hb|w0 js1 A p fin js2 t n Ht|w0 js1 A x fin js2
    |w0 js1 A o fin js2 Ho|w0 js0 es1 s1 t s2 es2 n t' v Heq Hrun]; subst.
  - destruct (begins_harmless _ _ _ Hb Hw). split; [done|]. by constructor.
  - apply Forall_app in Hjs as [H1 [Hj H2]%Forall_cons].
    pose proof (thread_step_holds powerless _ (Running p) (w_node w) (nl_node _ Hw) Hj) as [Hj' Hn].
    rewrite Ht in Hj', Hn. split; [by apply never_leads_node|].
    apply Forall_app. split; [done|]. by constructor.
  - apply Forall_app in Hjs as [H1 [Hj H2]%Forall_cons]. split; [by apply Hj|].
    by apply Forall_app.
  - apply Forall_app in Hjs as [H1 [Hj H2]%Forall_cons]. split; [done|]. by apply Forall_app.
  - pose proof (requestVote_future _ _ _ _ _ Hrun) as ->. apply requestVote_same in Hrun as ->.
    split; [|done]. destruct Hw as [Hn He Hs]. split; simpl; try done.
    rewrite Heq in He. apply Forall_app in He as [He1 [Hx He2]%Forall_cons]. apply Forall_app.
    split; [done|]. constructor; [by eapply unpromotable_complete|done].
Qed.

Lemma fine_steps_harmless s s' :
  rtc fine_step s s' → never_leads s.1 → Forall job_harmless s.2 →
  never_leads s'.1 ∧ Forall job_harmless s'.2.
Proof.
  induction 1 as [s|[w1 js1] [w2 js2] s3 Hs _ IH]; intros Hw Hjs; [done|].
  destruct (fine_step_harmless _ _ _ _ Hs Hw Hjs). by apply IH.
Qed.
End invariant.

Lemma peer_map_nonempty ids : ids ≠ [] → peer_map ids ≠ ∅.
Proof.
  destruct ids as [|p ids]; [done|]. intros _. unfold peer_map. simpl.
  assert (Hin : ∀ l (m : gmap string NodeInfo), m ≠ ∅ →
    foldl (λ m id, <[id := mkNodeInfo id "localhost" 50051]> m) m l ≠ ∅);
    [|apply Hin, insert_non_empty].
  induction l as [|x l IH]; intros m Hm; simpl; [done|]. apply IH, insert_non_empty.
Qed.

(** C11: a node with at least one peer never becomes leader, whatever its timers,
    its peers and its clients do and however the accesses of all its threads are
    interleaved: in every reachable state its storage is the one it started
    with, a [put] changes nothing and is answered [false], and no heartbeat is
    queued. *)
Theorem no_leader_with_peers id peerIds a w js k v :
  peerIds ≠ [] → fine_reachable (newRaftNode id peerIds a) (w, js) →
  currentRole (state (w_node w)) ≠ LEADER ∧ storage (w_node w) = a ∧ w_sends w = []
  ∧ proposeEntry k v (w_node w) = (w_node w, Return false).
Proof.
  intros Hne Hreach. apply peer_map_nonempty in Hne.
  destruct (fine_steps_harmless a (peer_map peerIds) Hne _ _ Hreach) as [[[Hr Hst _] _ Hs] _];
    [by split|done|].
  split_and!; [done..|]. unfold proposeEntry. mstep. by rewrite bool_decide_eq_true_2.
Qed.
End threads.

(** ** A node of a cluster of three *)

#[local] Existing Instance zero_draws.

Abbreviation three := (newRaftNode "node1" ["node2"; "node3"] fresh_storage).

(** It starts an election, asks for a vote and is refused with a newer term; a
    put is under way. *)
Lemma no_leader_with_peers_witness :
  ∃ w js, fine_reachable three (w, js) ∧ js ≠ [] ∧ currentTerm (state (w_node w)) = 7
    ∧ proposeEntry "a" "1" (w_node w) = (w_node w, Return false).
Proof.
  set (n1 := (startElection three).1).
  set (t2 := mkVoteTask (mkNodeInfo "node2" "localhost" 50051) 0 0).
  set (t3 := mkVoteTask (mkNodeInfo "node3" "localhost" 50051) 0 0).
  set (rpc := λ (_ : Channel) (_ : RequestVoteRequest),
    Some {| rvr_term := 7; rvr_voteGranted := false |}).
  set (w2 := mkWorld n1 [[Complete (JFuture "node3"); Queued t2]] [t3] []).
  set (w3 := mkWorld (requestVoteBody rpc t3 n1).1
    [[Complete (JFuture "node3"); Queued t2]] [] []).
  assert (Hf : fine_reachable three (w3, [lone_job (split_proposeEntry "b" "2")])).
  { unfold fine_reachable. etrans; [|etrans; [|transitivity (w3, @nil Job)]].
    - apply (fine_whole tick_prog tick_end (started three) (started three) [] n1
        (Return (Some [t3; t2])) (begin_tick _)); [by vm_compute|vm_compute; reflexivity].
    - apply rtc_once, (fine_request _ _ [] [] t3 [Queued t2] [] n1 t3 (JFuture "node3"));
        [reflexivity|vm_compute; reflexivity].
    - change (rtc fine_step (w2, []) (w3, [])).
      pose proof (fine_whole (split_requestVoteBody rpc t3) (λ _ w, w) w2
        (mkWorld n1 [[Complete (JFuture "node3"); Queued t2]] [] []) [] _ _
        (begin_body w2 [] t3 [] rpc eq_refl) (enabled_requestVoteBody rpc t3 n1 eq_refl)
        (surjective_pairing _)) as Hb.
      rewrite denote_requestVoteBody in Hb. exact Hb.
    - apply rtc_once, fine_begin, begin_put. }
  eexists _, _. split; [exact Hf|]. split; [done|]. split; [vm_compute; reflexivity|].
  apply (no_leader_with_peers "node1" ["node2"; "node3"] fresh_storage _
    [lone_job (split_proposeEntry "b" "2")] "a" "1").
  - done.
  - exact Hf.
Defined.
