(* ===== verification/RaftLone.v ===== *)
(** * A node without peers

    The only cluster in which this code elects a leader is a cluster of one.
    Here: what a put does on such a leader, that the node can always reach
    leadership and never loses it, and that every put then succeeds. *)

From S2P Require Import Prelude.
From S2P Require Import Java.
From S2P Require Import Messages.
From S2P Require Import RaftState.
From S2P Require Import Storage.
From S2P Require Import RaftNode.
From S2P Require Import RaftLog.
From S2P Require Import NodeRun.
From S2P Require Import RaftReplication.
From S2P Require Import RaftCommit.
From S2P Require Import RaftElection.
From S2P Require Import RaftSystem.
From stdpp Require Import base gmap strings list.
From Stdlib Require Import Lia.
#[local] Open Scope Z_scope.

Section lone.
Context `{HO : !HashOrder} `{HD : !Draws}.
Implicit Types n : ANode.

Lemma no_peers_order n : peers n = ∅ → hash_order (peers n) = [].
Proof.
  intros Hp. apply Permutation_nil_r. by rewrite hash_order_perm, Hp, map_to_list_empty.
Qed.

Lemma no_peers_values n : peers n = ∅ → peer_values n = [].
Proof. intros Hp. unfold peer_values. by rewrite no_peers_order. Qed.

Lemma no_peers_majority n c : peers n = ∅ → 1 ≤ c → majority_of_peers c n = true.
Proof.
  intros Hp Hc. unfold majority_of_peers. rewrite Hp, map_size_empty. apply Z.ltb_lt. change (Z.of_nat 0 `quot` 2) with 0. lia.
Qed.

(** ** A put *)

Definition append_own (k v : string) n : ANode :=
  upd (λ a, set_log (a_log a ++ [log_entry (term n) k v]) a) n.
Definition lone_put (k v : string) n : ANode := update_commit (append_own k v n).

Lemma append_own_inv k v n : storage_inv (storage n) → storage_inv (storage (append_own k v n)).
Proof.
  intros [Ho Ha Hc Hkv]. split; simpl; rewrite ?last_index_snoc; try done; [lia|].
  rewrite take_app_le; [done|]. unfold last_index in *. lia.
Qed.

Lemma append_own_indices k v n : indices_ok (storage n) → indices_ok (storage (append_own k v n)).
Proof. intros [Ho Ha Hc]. split; simpl; rewrite ?last_index_snoc; done || lia. Qed.

Lemma lone_put_run k v n :
  indices_ok (storage n) → role n = LEADER → peers n = ∅ → last_index (log n) + 1 < long_max →
  proposeEntry k v n = (lone_put k v n, Return true).
Proof.
  intros Hinv Hrole Hp Hroom. unfold proposeEntry. mstep.
  rewrite bool_decide_eq_false_2 by (by intros []). mstep.
  pose proof (ix_open _ Hinv) as Ho. pose proof (append_own_indices k v n Hinv) as Hinv1.
  pose proof (ix_open _ Hinv1) as Ho1.
  erewrite bind_return; [|apply run_append; [done|lia]]. cbn beta.
  change (upd _ n) with (append_own k v n).
  mstep. unfold replicateEntry. mstep. rewrite no_peers_values by done. cbn [forM]. mstep.
  erewrite bind_return; [|apply updateCommitIndex_run; [done|simpl; rewrite last_index_snoc; lia]].
  done.
Qed.

(** What it commits is everything, whatever the map was. *)
Lemma lone_put_indices k v n :
  indices_ok (storage n) → peers n = ∅ →
  let n' := lone_put k v n in
  indices_ok (storage n') ∧ log n' = log n ++ [log_entry (term n) k v]
  ∧ commit n' = last_index (log n') ∧ applied n' = last_index (log n')
  ∧ kv n' = replay (log_range (applied n + 1) (last_index (log n')) (log n')) (kv n)
  ∧ state n' = state n ∧ peers n' = peers n ∧ scheduler n' = scheduler n.
Proof.
  intros Hinv Hp. cbv zeta. set (n1 := append_own k v n).
  pose proof (append_own_indices k v n Hinv) as Hinv1. fold n1 in Hinv1.
  assert (Hl : last_index (log n1) = last_index (log n) + 1) by apply last_index_snoc.
  pose proof (last_index_nonneg (log n)). destruct Hinv as [Ho Ha Hc].
  assert (Hok : committable n1 (last_index (log n1)) = true).
  { unfold committable. rewrite Hl. simpl. rewrite log_at_snoc. simpl. rewrite Z.eqb_refl.
    apply no_peers_majority; [done|]. rewrite replicationCount_size. lia. }
  assert (Ht : commit_target n1 = Some (last_index (log n1))).
  { destruct (commit_target n1) as [j|] eqn:Hj.
    - pose proof (commit_target_spec _ _ Hj) as [Hb _].
      destruct (decide (j = last_index (log n1))) as [->|]; [done|].
      rewrite (commit_target_max n1) in Hok; [done..|]. rewrite Hj.
      change (default (commit n1) (Some j)) with j. lia.
    - rewrite (commit_target_max n1) in Hok; [done..|]. rewrite Hj.
      change (default (commit n1) None) with (commit n). lia. }
  unfold lone_put. fold n1. unfold update_commit. rewrite Ht. simpl in *.
  assert (Hm : Z.max (applied n) (last_index (log n ++ [log_entry (term n) k v]))
    = last_index (log n ++ [log_entry (term n) k v])) by lia.
  split_and!; try done. split; simpl; [done|lia|lia].
Qed.

Lemma lone_put_spec k v n :
  storage_inv (storage n) → peers n = ∅ →
  let n' := lone_put k v n in
  storage_inv (storage n') ∧ log n' = log n ++ [log_entry (term n) k v]
  ∧ commit n' = last_index (log n') ∧ applied n' = last_index (log n')
  ∧ kv n' = replay (log n') ∅ ∧ kv n' !! k = Some v
  ∧ state n' = state n ∧ peers n' = peers n ∧ scheduler n' = scheduler n.
Proof.
  intros Hinv Hp. cbv zeta.
  destruct (lone_put_indices k v n (storage_inv_indices _ Hinv) Hp) as (_ & Hl & Hc & Ha & _ & Hrest).
  pose proof (update_commit_inv _ (append_own_inv k v n Hinv)) as Hinv2.
  assert (Hkv : kv (lone_put k v n) = replay (log (lone_put k v n)) ∅).
  { etrans; [apply (inv_kv _ Hinv2)|]. fold (lone_put k v n). rewrite Ha, take_ge; [done|].
    unfold last_index. lia. }
  split_and!; try done || apply Hrest. rewrite Hkv, Hl, replay_app. apply lookup_insert_eq.
Qed.

(** ** The log is never cut *)

(** Only the storage changes, and not its log. *)
Definition keeps_log n n' : Prop := set_storage (storage n') n = n' ∧ log n' = log n.
#[export] Instance keeps_log_preorder : PreOrder keeps_log.
Proof.
  split; [intros n; split; [apply set_storage_id|done]|].
  intros n1 n2 n3 [H1 L1] [H2 L2]. split; [|congruence]. rewrite <-H2, <-H1. done.
Qed.

Lemma keeps_sto {A} (m : M jexn AbsStorage A) :
  (∀ a, a_log (m a).1 = a_log a) → steps keeps_log (sto m).
Proof.
  intros H n. unfold sto, zoom. specialize (H (storage n)). by destruct (m (storage n)).
Qed.

Ltac keeps :=
  repeat first
    [ frame_step
    | apply keeps_sto; let a := fresh "a" in intros a; unfold getLogEntry, getLastLogIndex, getCommitIndex,
        getLastApplied, setCommitIndex, setLastApplied, updateKeyValue; simpl;
        unfold abs_lastLogIndex, if_open; by destruct (a_open a) ].

Lemma keeps_nonnull {A} (o : option A) : steps keeps_log (nonnull o : M jexn ANode A).
Proof. destruct o; simpl; keeps. Qed.
Lemma keeps_currentTerm : steps keeps_log (getCurrentTerm : M jexn ANode Z).
Proof. unfold getCurrentTerm. keeps. Qed.
#[local] Hint Resolve keeps_nonnull keeps_currentTerm : frame.
Lemma keeps_applyTo e : steps keeps_log (applyToStateMachine e : M jexn ANode ()).
Proof. unfold applyToStateMachine. keeps. Qed.
#[local] Hint Resolve keeps_applyTo : frame.
Lemma keeps_applyLoop fuel i c : steps keeps_log (applyLoop fuel i c : M jexn ANode Z).
Proof. revert i. induction fuel; intros; cbn [applyLoop]; keeps. Qed.
#[local] Hint Resolve keeps_applyLoop : frame.
Lemma keeps_applyCommitted : steps keeps_log (applyCommittedEntries : M jexn ANode ()).
Proof. unfold applyCommittedEntries. keeps. Qed.
#[local] Hint Resolve keeps_applyCommitted : frame.
Lemma keeps_commitLoop fuel i c : steps keeps_log (commitLoop fuel i c : M jexn ANode ()).
Proof. revert i. induction fuel; intros; cbn [commitLoop]; keeps. Qed.
#[local] Hint Resolve keeps_commitLoop : frame.
Lemma keeps_updateCommitIndex : steps keeps_log (updateCommitIndex : M jexn ANode ()).
Proof. unfold updateCommitIndex. keeps. Qed.

(** Without peers, a proposal changes the storage only, and appends. *)
Definition grows n n' : Prop :=
  peers n = ∅ → set_storage (storage n') n = n' ∧ log n `prefix_of` log n'.
#[export] Instance grows_preorder : PreOrder grows.
Proof.
  split; [intros n _; split; [apply set_storage_id|done]|].
  intros n1 n2 n3 H12 H23 Hp. destruct (H12 Hp) as [E1 P1]. destruct H23 as [E2 P2].
  - by rewrite <-E1.
  - split; [by rewrite <-E2, <-E1|by etrans].
Qed.

Lemma grows_append e : steps grows (sto (appendLogEntry e) : M jexn ANode Z).
Proof.
  intros n _. unfold sto, zoom, appendLogEntry. simpl. unfold if_open, abs_append.
  destruct (a_open (storage n)); [destruct (last_index (log n) <? long_max)|]; simpl.
  all: split; try done. by apply prefix_app_r.
Qed.
Lemma grows_keeps {A} (m : M jexn ANode A) : steps keeps_log m → steps grows m.
Proof. intros H n _. destruct (H n) as [E L]. split; [done|]. by rewrite L. Qed.

Lemma grows_replicate i : steps grows (replicateEntry i : M jexn ANode bool).
Proof.
  intros n Hp. unfold replicateEntry. mstep. rewrite no_peers_values by done. cbn [forM]. mstep.
  revert Hp. apply (grows_keeps (updateCommitIndex;; mret true)). keeps.
  apply keeps_updateCommitIndex.
Qed.

Lemma proposeEntry_grows k v : steps grows (proposeEntry k v : M jexn ANode bool).
Proof.
  unfold proposeEntry, getCurrentTerm.
  repeat first
    [ frame_step | apply grows_append | apply grows_replicate
    | apply grows_keeps; keeps ].
Qed.

(** ** The node and its tasks *)

Definition room (w : World) : Prop := last_index (log (w_node w)) + 1 < long_max.

(** An election of such a node has no vote to wait for, and no timer of
    [resetElectionTimer] is ever set. *)
Record alone (w : World) : Prop := {
  al_peers : peers (w_node w) = ∅;
  al_elections : Forall (λ slots, slots = []) (w_elections w);
  al_bodies : w_bodies w = [];
  al_sends : w_sends w = [];
  al_pending : sch_pending (scheduler (w_node w)) = ∅;
  al_storage : room w → storage_inv (storage (w_node w));
}.

(** What a step does to a node that is alone. *)
Record moved n n' : Prop := {
  mv_log : log n `prefix_of` log n';
  mv_leads : role n = LEADER → role n' = LEADER ∧ term n' = term n;
}.

Lemma room_back w w' : moved (w_node w) (w_node w') → room w' → room w.
Proof.
  intros [[r Hr] _]. unfold room. rewrite Hr, last_index_app. pose proof (last_index_nonneg r). lia.
Qed.

(** A step that leaves the storage, the peers and the scheduler. *)
Lemma alone_same w n es :
  alone w → peers n = peers (w_node w) → storage n = storage (w_node w) →
  scheduler n = scheduler (w_node w) → Forall (λ slots, slots = []) es →
  (role (w_node w) = LEADER → role n = LEADER ∧ term n = term (w_node w)) →
  alone (mkWorld n es [] []) ∧ moved (w_node w) n.
Proof.
  intros [H1 H2 H3 H4 H5 H6] Ep Es Ec He Hl. split; [|by split; [rewrite Es|]].
  split; simpl; rewrite ?Ep, ?Ec, ?Es; try done. intros Hr. apply H6. unfold room in *.
  simpl in Hr. by rewrite Es in Hr.
Qed.

Lemma alone_election w n o es :
  alone w → (role (w_node w) = LEADER → False) → startElection (w_node w) = (n, o) →
  Forall (λ slots, slots = []) es → alone (mkWorld n es [] []) ∧ moved (w_node w) n.
Proof.
  intros Hw Hl Hrun He. pose proof (startElection_keeps _ _ _ Hrun) as (E1 & E2 & _).
  pose proof (startElection_inv _ _ _ Hrun) as (E3 & _). by apply alone_same; try done; intros ?%Hl.
Qed.

Lemma alone_start w n tasks :
  alone w → startElection (w_node w) = (n, Return tasks) → tasks = [].
Proof.
  intros Hw Hrun. pose proof (startElection_inv _ _ _ Hrun) as (_ & _ & _ & Ht).
  destruct (Ht tasks eq_refl) as (i & t & ->). by rewrite no_peers_values by apply Hw.
Qed.

(** The only election there can be is won. *)
Lemma alone_done n n' o :
  peers n = ∅ → electionDone [] n = (n', o) →
  storage n' = storage n ∧ peers n' = peers n ∧ scheduler n' = scheduler n
  ∧ state n' = becomeLeader (state n).
Proof.
  intros Hp. unfold electionDone. cbn [countVotes]. do 2 mstep.
  rewrite no_peers_majority by done. unfold node_becomeLeader. mstep.
  unfold mbind, M_bind, sto, zoom.
  assert (Hsame : ∀ a : AbsStorage, (getLastLogIndex a).1 = a).
  { intros a. unfold getLastLogIndex. simpl. unfold abs_lastLogIndex, if_open.
    by destruct (a_open a). }
  cbn [storage on_state set_state]. specialize (Hsame (storage n)).
  destruct (getLastLogIndex (storage n)) as [a [i| |]]; simpl in Hsame; subst a;
    intros [= <- <-]; done.
Qed.

Lemma alone_step w w' : alone w → step w w' → alone w' ∧ moved (w_node w) (w_node w').
Proof.
  intros Hw Hstep. pose proof Hw as [H1 H2 H3 H4 H5 H6].
  destruct Hstep as [w H|w n tasks H Hrun|w n e Hrun|w id n tasks Hp Hrun|w id n e Hp Hrun
    |w es1 s1 t s2 es2 n t' v Heq Hrun|w b1 t b2 rpc n o Heq Hrun|w es1 votes es2 n o Heq Hrun
    |w n ps' Hrun|w s1 p s2 n o Heq Hrun|w k v n o Hrun].
  - by split; [|split].
  - apply tick_starts in Hrun; [|done]. rewrite (alone_start _ _ _ Hw Hrun) in *.
    unfold elect. rewrite H3, H4. eapply alone_election; [done..|]. by constructor.
  - destruct (decide (role (w_node w) = LEADER)) as [Hl|Hl].
    { unfold leaderElectionTask in Hrun. revert Hrun. mstep.
      rewrite bool_decide_eq_false_2 by (by intros []). done. }
    apply tick_starts in Hrun; [|done]. unfold with_node. rewrite H3, H4. by eapply alone_election.
  - rewrite H5 in Hp. by destruct Hp.
  - rewrite H5 in Hp. by destruct Hp.
  - rewrite Heq in H2. apply Forall_app in H2 as [_ H2]. apply Forall_cons in H2 as [H2 _].
    by destruct s1.
  - rewrite H3 in Heq. by destruct b1.
  - rewrite Heq in H2. apply Forall_app in H2 as [He1 He2]. apply Forall_cons in He2 as [He He2].
    apply fmap_nil_inv in He as ->. rewrite H3, H4.
    destruct (alone_done _ _ _ H1 Hrun) as (E1 & E2 & E3 & E4).
    apply alone_same; try done; [by apply Forall_app|]. simpl. by rewrite E4.
  - rewrite H3, H4. revert Hrun. unfold heartbeatTask. mstep. rewrite no_peers_values by done.
    rewrite andb_false_r. destruct (bool_decide _); intros [= <- <-]; by apply alone_same.
  - rewrite H4 in Heq. by destruct s1.
  - unfold with_node. rewrite H3, H4. assert (Hn : n = (proposeEntry k v (w_node w)).1) by by rewrite Hrun.
    destruct (proposeEntry_grows k v (w_node w) H1) as [E Hl]. rewrite <-Hn in E, Hl.
    assert (Hf : peers n = ∅ ∧ state n = state (w_node w) ∧ scheduler n = scheduler (w_node w))
      by by rewrite <-E.
    destruct Hf as (Ep & Est & Esc).
    assert (Hm : moved (w_node w) n) by (split; [done|by rewrite Est]).
    split; [|done]. split; simpl; rewrite ?Esc; try done. intros Hroom.
    assert (Hroom' : room w) by by eapply (room_back w (mkWorld n (w_elections w) [] [])).
    specialize (H6 Hroom').
    destruct (decide (role (w_node w) = LEADER)) as [Hlead|Hno].
    + rewrite lone_put_run in Hrun by (done || by apply storage_inv_indices). injection Hrun as <- _. by apply lone_put_spec.
    + assert (proposeEntry k v (w_node w) = (w_node w, Return false)) as Hsame.
      { unfold proposeEntry. mstep. by rewrite bool_decide_eq_true_2. }
      rewrite Hsame in Hn. by rewrite Hn.
Qed.

Lemma alone_steps w w' : rtc step w w' → alone w → alone w' ∧ moved (w_node w) (w_node w').
Proof.
  induction 1 as [w|w w1 w2 Hs _ IH]; intros Hw; [by split; [|split]|].
  destruct (alone_step _ _ Hw Hs) as [Hw1 [L1 M1]]. destruct (IH Hw1) as [Hw2 [L2 M2]].
  split; [done|]. split; [by etrans|]. intros Hl. destruct (M1 Hl) as [Hl1 ?].
  destruct (M2 Hl1). split; congruence.
Qed.

Lemma alone_started id a : storage_inv a → alone (started (newRaftNode id [] a)).
Proof. intros Ha. by split. Qed.

(** From any world, the next tick and the end of its election lead. *)
Lemma alone_can_lead w :
  alone w → room w → role (w_node w) ≠ LEADER →
  ∃ w1 w2, step w w1 ∧ step w1 w2 ∧ role (w_node w2) = LEADER
           ∧ storage (w_node w2) = storage (w_node w).
Proof.
  intros Hw Hroom Hl. pose proof (inv_open _ (al_storage _ Hw Hroom)) as Ho.
  assert (Hrun : ∃ n1, startElection (w_node w) = (n1, Return [])).
  { unfold startElection. do 5 mstep. rewrite no_peers_values by apply Hw.
    rewrite andb_false_r. eexists. reflexivity. }
  destruct Hrun as (n1 & Hrun).
  assert (Htick : leaderElectionTask (w_node w) = (n1, Return [])).
  { unfold leaderElectionTask. mstep. by rewrite bool_decide_eq_true_2. }
  pose proof (step_tick w n1 [] Hl Htick) as Hs1. destruct (alone_step _ _ Hw Hs1) as [Hw1 _].
  destruct (electionDone [] n1) as [n2 o2] eqn:Hdone.
  destruct (alone_done n1 n2 o2 (al_peers _ Hw1) Hdone) as (E1 & _ & _ & E4).
  pose proof (startElection_keeps _ _ _ Hrun) as (E5 & _).
  eexists _, (mkWorld n2 (w_elections w) _ _). split; [exact Hs1|]. split.
  - by apply (step_election_done (elect n1 [] w) [] [] (w_elections w) n2 o2).
  - simpl. rewrite E4, E1, E5. done.
Qed.

(** ** Theorems *)

(** C12: a node without peers is live. From every world it can reach, while
    its log has room: if it does not lead, its next tick and the end of the
    election that the tick starts make it lead, with its data untouched; once
    it leads it leads for ever, in the same term, its log only grows, and every
    put is committed, applied and seen. *)
Theorem lone_node_live id a w :
  storage_inv a → reachable (newRaftNode id [] a) w → room w →
  (role (w_node w) ≠ LEADER → ∃ w1 w2, step w w1 ∧ step w1 w2
     ∧ role (w_node w2) = LEADER ∧ storage (w_node w2) = storage (w_node w))
  ∧ (role (w_node w) = LEADER → ∀ w', rtc step w w' → room w' →
     role (w_node w') = LEADER ∧ term (w_node w') = term (w_node w)
     ∧ log (w_node w) `prefix_of` log (w_node w') ∧ storage_inv (storage (w_node w'))
     ∧ ∀ k v, ∃ n, proposeEntry k v (w_node w') = (n, Return true)
         ∧ log n = log (w_node w') ++ [log_entry (term (w_node w)) k v]
         ∧ commit n = last_index (log n) ∧ kv n = replay (log n) ∅ ∧ kv n !! k = Some v).
Proof.
  intros Ha Hr Hroom. destruct (alone_steps _ _ Hr (alone_started id a Ha)) as [Hw _].
  split; [by apply alone_can_lead|]. intros Hl w' Hr' Hroom'.
  destruct (alone_steps _ _ Hr' Hw) as [Hw' [Hlog Hlead]]. destruct (Hlead Hl) as [Hl' Ht].
  pose proof (al_storage _ Hw' Hroom') as Hinv. split_and!; try done. intros k v.
  exists (lone_put k v (w_node w')). rewrite lone_put_run by (done || (by apply storage_inv_indices) || apply Hw').
  destruct (lone_put_spec k v (w_node w') Hinv (al_peers _ Hw')) as (_ & E1 & E2 & _ & E3 & E4 & _).
  rewrite <-Ht. by split_and!.
Qed.
End lone.

(** ** A fresh server *)

#[local] Existing Instance zero_draws.

Lemma fresh_storage_inv : storage_inv fresh_storage.
Proof. by split. Qed.

(** The node starts, leads after two steps, and a put succeeds. *)
Lemma lone_node_live_witness :
  ∃ w, reachable lone_node w ∧ role (w_node w) = LEADER
    ∧ ∃ n, proposeEntry "a" "1" (w_node w) = (n, Return true) ∧ kv n !! "a" = Some "1".
Proof.
  destruct (lone_node_live "node1" fresh_storage (started lone_node) fresh_storage_inv)
    as [Hlead _]; [apply rtc_refl|vm_compute; done|].
  destruct (Hlead ltac:(done)) as (w1 & w2 & Hs1 & Hs2 & Hl & Hst).
  assert (Hr : reachable lone_node w2) by (eapply rtc_l; [exact Hs1|]; by apply rtc_once).
  assert (Hroom : room w2) by (unfold room; rewrite Hst; vm_compute; done).
  destruct (lone_node_live "node1" fresh_storage w2 fresh_storage_inv Hr Hroom) as [_ Hlive].
  destruct (Hlive Hl w2 (rtc_refl _ _) Hroom) as (_ & _ & _ & _ & Hput).
  destruct (Hput "a" "1") as (n & Hrun & _ & _ & _ & Hk).
  exists w2. split; [exact Hr|]. split; [exact Hl|]. exists n. split; [exact Hrun|exact Hk].
Defined.
