(* ===== verification/RaftRace.v ===== *)
(** * Vote responses under a shared lock

    The bodies of [requestVote] (RaftNode.java, lines 113-142) hold the *read*
    lock of the node while they write its term, so any number of them run at
    once.  Here the bodies of ElectionSteps.v are interleaved: each waits until
    nobody holds the write lock, and does not wait for the other. *)

From S2P Require Import Prelude.
From S2P Require Import Java.
From S2P Require Import Messages.
From S2P Require Import RaftState.
From S2P Require Import Storage.
From S2P Require Import RaftNode.
From S2P Require Import NodeRun.
From S2P Require Import RaftReplication.
From S2P Require Import RaftElection.
From S2P Require Import Concurrency.
From S2P Require Import NodeSteps.
From S2P Require Import ElectionSteps.
From stdpp Require Import base gmap strings list.
From Stdlib Require Import Lia.
#[local] Open Scope Z_scope.

Section race.
Context {S : Type} `{HS : !Storage S} `{HO : !HashOrder} `{HD : !Draws}.
Implicit Types n : RaftNode S.

(** The body that asks for the vote of [t], and the peer's answer. *)
Definition body_thread (t : VoteTask) (r : RequestVoteResponse) :
    thread (E:=jexn) (S:=RaftNode S) bool :=
  Running (split_requestVoteBody (λ _ _, Some r) t).

Definition node_term n : Z := currentTerm (state n).

(** One after the other, two newer answers leave the larger of their terms. *)
Lemma serial_votes n t1 t2 r1 r2 :
  is_Some (grpcChannels n !! ni_id (vt_peer t1)) → is_Some (grpcChannels n !! ni_id (vt_peer t2)) →
  node_term n < rvr_term r1 → node_term n < rvr_term r2 →
  node_term (requestVoteBody (λ _ _, Some r2) t2 (requestVoteBody (λ _ _, Some r1) t1 n).1).1
  = Z.max (rvr_term r1) (rvr_term r2).
Proof.
  intros [c1 H1] [c2 H2] Hr1 Hr2. unfold node_term in *. rewrite (requestVoteBody_run _ t1 n), H1.
  cbn [mbind option_bind]. rewrite (proj2 (Z.ltb_lt _ _) Hr1). cbn [fst].
  rewrite requestVoteBody_run. cbn -[rvr_term Z.max]. rewrite H2. cbn -[rvr_term Z.max].
  destruct (Z.ltb_spec (rvr_term r1) (rvr_term r2)); cbn -[rvr_term Z.max]; lia.
Qed.

(** A body that has compared its answer with the term, and found it newer. *)
Definition stepping_down (r : RequestVoteResponse) : thread (E:=jexn) (S:=RaftNode S) bool :=
  Running (prog_finally (prog_catch (prog_bind (split_stepDown (rvr_term r)) (λ _, Done false))
    (λ _, Done false)) unlockRead).

Definition add_reader n : RaftNode S :=
  set_rwLock (mkRWLock (lk_write (rwLock n)) (Datatypes.S (lk_read (rwLock n)))) n.
Definition remove_reader n : RaftNode S :=
  set_rwLock (mkRWLock (lk_write (rwLock n)) (pred (lk_read (rwLock n)))) n.

Lemma body_compares t r n :
  lk_write (rwLock n) = 0%nat →
  is_Some (grpcChannels n !! ni_id (vt_peer t)) → node_term n < rvr_term r →
  solo 4 (body_thread t r) n = (stepping_down r, add_reader n).
Proof.
  intros Hw [c Hc] Hr. unfold node_term in Hr. assert (Hg : may_read n = true) by (unfold may_read; by rewrite Hw).
  unfold body_thread. cbn -[rvr_term Z.ltb]. rewrite Hg. cbn -[rvr_term Z.ltb].
  unfold act_step, on_throw, attempt, mbind, M_bind, getS. cbn -[rvr_term Z.ltb]. rewrite Hc. cbn -[rvr_term Z.ltb].
  by rewrite (proj2 (Z.ltb_lt _ _) Hr).
Qed.

Lemma body_steps_down r n :
  lk_read (rwLock n) ≠ 0%nat →
  solo 7 (stepping_down r) n
  = (Finished (Return false),
     remove_reader (set_votedFor None (on_state (becomeFollower (rvr_term r)) n))).
Proof.
  intros Hk. unfold remove_reader. destruct n as [id ps st rs sch wp chs ni mi [w [|k]] vf et d]; [done|].
  cbn -[rvr_term]. unfold act_step, on_throw, attempt. cbn -[rvr_term]. done.
Qed.

(** The first body compares; the second one runs; the first goes on. *)
Definition compared : list nat := replicate 4 0%nat.
Definition other_done : list nat := replicate (4 + 7) 1%nat.
Definition late_write : list nat := replicate 7 0%nat.
Definition overtaken r n : RaftNode S :=
  remove_reader (set_votedFor None (on_state (becomeFollower (rvr_term r)) (add_reader (add_reader n)))).

Lemma run_overtaken t1 t2 r1 r2 n :
  lk_write (rwLock n) = 0%nat →
  is_Some (grpcChannels n !! ni_id (vt_peer t1)) → is_Some (grpcChannels n !! ni_id (vt_peer t2)) →
  node_term n < rvr_term r1 → node_term n < rvr_term r2 →
  run_threads (compared ++ other_done) [body_thread t1 r1; body_thread t2 r2] n
  = ([stepping_down r1; Finished (Return false)], overtaken r2 n).
Proof.
  intros Hw H1 H2 Hr1 Hr2. rewrite run_threads_app. unfold compared, other_done.
  rewrite (run_solo 4 0 _ (body_thread t1 r1)), body_compares by done. cbn [fst snd].
  rewrite (run_solo (4 + 7) 1 _ (body_thread t2 r2)), solo_add by done.
  rewrite body_compares by done. cbn [fst snd]. by rewrite body_steps_down by done.
Qed.

Lemma run_late r1 o n :
  lk_read (rwLock n) ≠ 0%nat →
  run_threads late_write [stepping_down r1; Finished o] n
  = ([Finished (Return false); Finished o],
     remove_reader (set_votedFor None (on_state (becomeFollower (rvr_term r1)) n))).
Proof.
  intros Hk. unfold late_write. rewrite (run_solo 7 0 _ (stepping_down r1)) by done.
  by rewrite body_steps_down.
Qed.

(** C33: one after the other, in either order, two newer answers leave the node
    in the larger of the two terms; interleaved, as the read lock that both
    bodies hold allows, they can leave it in the smaller one after it has been in
    the larger one. *)
Theorem concurrent_votes_regress n t1 t2 r1 r2 :
  lk_write (rwLock n) = 0%nat →
  is_Some (grpcChannels n !! ni_id (vt_peer t1)) → is_Some (grpcChannels n !! ni_id (vt_peer t2)) →
  node_term n < rvr_term r1 < rvr_term r2 →
  let serially ta ra tb rb :=
    (requestVoteBody (λ _ _, Some rb) tb (requestVoteBody (λ _ _, Some ra) ta n).1).1 in
  let run schedule := run_threads schedule [body_thread t1 r1; body_thread t2 r2] n in
  node_term (serially t1 r1 t2 r2) = rvr_term r2
  ∧ node_term (serially t2 r2 t1 r1) = rvr_term r2
  ∧ ∃ before after,
      node_term (run before).2 = rvr_term r2
      ∧ (run (before ++ after)).1 = [Finished (Return false); Finished (Return false)]
      ∧ node_term (run (before ++ after)).2 = rvr_term r1
      ∧ rwLock (run (before ++ after)).2 = rwLock n.
Proof.
  intros Hw H1 H2 Hr. cbv beta zeta. rewrite !serial_votes by (done || lia). split; [lia|]. split; [lia|].
  exists (compared ++ other_done), late_write.
  rewrite (run_threads_app (compared ++ other_done)), run_overtaken by (done || lia).
  cbn [fst snd]. rewrite run_late by done. cbn [fst snd].
  split_and!; try done. by destruct n as [id ps st rs sch wp chs ni mi [w k] vf et d].
Qed.
End race.

#[local] Existing Instance zero_draws.

Lemma concurrent_votes_regress_witness :
  let t2 := mkVoteTask (mkNodeInfo "node2" "localhost" 50051) 0 0 in
  let t3 := mkVoteTask (mkNodeInfo "node3" "localhost" 50051) 0 0 in
  let bodies := [body_thread t2 {| rvr_term := 5; rvr_voteGranted := false |};
                 body_thread t3 {| rvr_term := 7; rvr_voteGranted := false |}] in
  ∃ before after,
    node_term (run_threads before bodies four_nodes).2 = 7
    ∧ node_term (run_threads (before ++ after) bodies four_nodes).2 = 5.
Proof.
  intros t2 t3 bodies.
  destruct (concurrent_votes_regress four_nodes t2 t3 {| rvr_term := 5; rvr_voteGranted := false |}
    {| rvr_term := 7; rvr_voteGranted := false |}) as (_ & _ & before & after & H1 & _ & H2 & _).
  - reflexivity.
  - vm_compute. by eexists.
  - vm_compute. by eexists.
  - vm_compute. done.
  - exists before, after. split; [exact H1|exact H2].
Defined.
