(* ===== verification/KVStoreService.v ===== *)
(** * The key-value service and the server

    [server/src/main/java/com/kvstore/server/KVStoreServiceImpl.java],
    [KVStoreServer.java] and [config/ServerConfig.java].  The service answers
    from the same storage object that its node writes to. *)

From S2P Require Import Prelude.
From S2P Require Import Java.
From S2P Require Import Messages.
From S2P Require Import RaftState.
From S2P Require Import Storage.
From S2P Require Import SQLiteStorage.
From S2P Require Import RaftNode.
From Stdlib Require Import Ascii.
From stdpp Require Import base gmap strings list pretty.
From Stdlib Require Import Lia.
#[local] Open Scope Z_scope.

(** ** KVStoreServiceImpl *)

Section service.
Context {S : Type} `{HS : !Storage S} `{HO : !HashOrder} `{HD : !Draws}.
Abbreviation J := (M jexn (RaftNode S)).

(** The result is the one message handed to [onNext], before [onCompleted]. *)
Definition service_get (request : GetRequest) : J GetResponse :=
  value ← sto (storage_get (gq_key request));
  mret {| gr_value := default "" value; gr_found := bool_decide (is_Some value) |}.

(** The future is complete when [thenAccept] is called, so the answer is given
    by the thread of the call; [old_value] is never set. *)
Definition service_put (request : PutRequest) : J PutResponse :=
  success ← proposeEntry (pq_key request) (pq_value request);
  mret {| pr_success := success; pr_old_value := "" |}.
End service.

(** ** ServerConfig *)

Record ServerConfig : Type := mkServerConfig {
  cfg_nodeId : option string; cfg_peers : list string; cfg_storagePath : option string
}.

(** A file of properties, as [Properties.load] reads it. *)
Abbreviation Properties := (gmap string string).

Definition newServerConfig (file : option Properties) : jexn + ServerConfig :=
  match file with
  | None => inl IOException
  | Some props =>
      match props !! "peers" with
      | None => inl NullPointerException
      | Some peers =>
          inr (mkServerConfig (props !! "node.id") (java_split ","%char peers)
                 (props !! "storage.path"))
      end
  end.

(** ** KVStoreServer *)

(** The object, with the state of its gRPC server; [srv_tasks] are the
    fixed-rate tasks of [RaftNode.start] with their periods in milliseconds. *)
Inductive PeriodicTask : Type := LeaderElectionTask | HeartbeatTask.
Record KVStoreServer (S : Type) : Type := mkServer {
  srv_port : Z; srv_node : RaftNode S; srv_listening : bool;
  srv_tasks : list (PeriodicTask * Z);
}.
Arguments mkServer {_}. Arguments srv_port {_}. Arguments srv_node {_}.
Arguments srv_listening {_}. Arguments srv_tasks {_}.

Section server.
Context {DB : Type} (db : JDBC DB).
#[local] Instance server_storage : Storage DB := SQLite_Storage db.

(** [Integer.parseInt(nodeId.split(":")[1])] *)
Definition server_port (nodeId : option string) : jexn + Z :=
  match nodeId with
  | None => inl NullPointerException
  | Some id =>
      match java_split ":"%char id !! 1%nat with
      | None => inl ArrayIndexOutOfBoundsException
      | Some p => match parseInt p with Some z => inr z | None => inl NumberFormatException end
      end
  end.

(** [new SQLiteStorage(path)]: a null URL is an [SQLException] of the driver. *)
Definition open_storage (path : option string) : M jexn DB () :=
  match path with
  | Some url => SQLiteStorage db url
  | None => throw (RuntimeException "Failed to initialize database")
  end.

(** [ServerBuilder.forPort(port)] makes an [InetSocketAddress] of the port. *)
Definition forPort (port : Z) : M jexn DB () :=
  if (0 <=? port) && (port <=? 65535) then mret () else throw IllegalArgumentException.

(** The constructor: port, storage, node, and the builder of the gRPC server. *)
Definition newKVStoreServer (config : ServerConfig) : M jexn DB (KVStoreServer DB) :=
  match server_port (cfg_nodeId config) with
  | inl e => throw e
  | inr port =>
      open_storage (cfg_storagePath config);;
      s ← getS;
      let raftNode := newRaftNode (default "" (cfg_nodeId config)) (cfg_peers config) s in
      forPort port;;
      mret (mkServer port raftNode false [])
  end.

(** [raftNode.start()] *)
Definition node_start : list (PeriodicTask * Z) := [(LeaderElectionTask, 150); (HeartbeatTask, 50)].

(** [start]; [can_bind] is whether the port is free. *)
Definition server_start (can_bind : Z → bool) : M jexn (KVStoreServer DB) () :=
  srv ← getS;
  if can_bind (srv_port srv)
  then modify (λ srv, mkServer (srv_port srv) (srv_node srv) true (srv_tasks srv ++ node_start))
  else throw IOException.

(** [stop]: the gRPC server and the storage, not the node. *)
Definition server_stop : M jexn (KVStoreServer DB) () :=
  modify (λ srv, mkServer (srv_port srv) (srv_node srv) false (srv_tasks srv));;
  zoom srv_node (λ n srv, mkServer (srv_port srv) n (srv_listening srv) (srv_tasks srv))
    (sto storage_close).

(** [main] up to [blockUntilShutdown]: [None] for the usage message and
    [System.exit(1)]. *)
Definition server_main (files : string → option Properties) (can_bind : Z → bool)
    (args : list string) : M jexn DB (option (KVStoreServer DB)) :=
  match args with
  | [path] =>
      match newServerConfig (files path) with
      | inl e => throw e
      | inr config =>
          srv ← newKVStoreServer config;
          match server_start can_bind srv with
          | (srv', Return _) => mret (Some srv')
          | (_, Throw e) => throw e
          | (_, Undefined) => undefined
          end
      end
  | _ => mret None
  end.
End server.
