(* ===== verification/LoneThreads.v ===== *)
(** * A server without peers and the threads it has

    The node's scheduler runs its election task, gRPC calls [get] and [put] on a
    thread of its own for each request, and the shutdown hook calls [stop] while
    they go on.  Nothing that they do takes a lock ([appendEntries] does, and is
    never called).  Here all of them are interleaved at their accesses to the
    node and its storage, and what the server keeps and answers under every
    schedule is proved by rely and guarantee; a thread throws only once the
    storage is closed.  ConcurrentServer.v carries it to any storage, through stops and
    crashes. *)

From S2P Require Import Prelude.
From S2P Require Import Java.
From S2P Require Import Messages.
From S2P Require Import RaftState.
From S2P Require Import Storage.
From S2P Require Import RaftNode.
From S2P Require Import RaftLog.
From S2P Require Import NodeRun.
From S2P Require Import RaftReplication.
From S2P Require Import RaftCommit.
From S2P Require Import RaftElection.
From S2P Require Import RaftLone.
From S2P Require Import Concurrency.
From S2P Require Import NodeSteps.
From S2P Require Import ElectionSteps.
From S2P Require Import KVStoreService.
From stdpp Require Import base gmap strings list.
From Stdlib Require Import Lia.
#[local] Open Scope Z_scope.

(** ** The threads *)

Section threads.
Context {S : Type} `{HS : !Storage S} `{HO : !HashOrder} `{HD : !Draws}.
Abbreviation P := (prog jexn (RaftNode S)).

Definition split_service_get (request : GetRequest) : P GetResponse :=
  value ⇐ sto (storage_get (gq_key request));
  Done {| gr_value := default "" value; gr_found := bool_decide (is_Some value) |}.

Definition split_service_put (request : PutRequest) : P PutResponse :=
  prog_bind (split_proposeEntry (pq_key request) (pq_value request))
    (λ success, Done {| pr_success := success; pr_old_value := "" |}).

Lemma denote_service_get rq (n : RaftNode S) : denote (split_service_get rq) n = service_get rq n.
Proof. done. Qed.

Lemma denote_service_put rq (n : RaftNode S) : denote (split_service_put rq) n = service_put rq n.
Proof.
  unfold split_service_put, service_put. rewrite denote_bind.
  apply bind_cong; [apply denote_proposeEntry|done].
Qed.

(** A round of the election task of a node without peers: there is no future to
    wait for, so [thenAccept] counts the votes on the scheduler's own thread. *)
Definition lone_tick : P () :=
  role ⇐ gets (λ n, currentRole (state n));
  if bool_decide (role ≠ LEADER) then
    prog_bind split_startElection (λ _, split_electionDone [])
  else Done tt.

Inductive Request : Type := Get (rq : GetRequest) | Put (rq : PutRequest).

Inductive Answer : Type :=
| Ticked
| GetAnswer (r : GetResponse)
| PutAnswer (r : PutResponse)
| Stopped.

Definition ticks (rounds : nat) : P Answer :=
  prog_bind (prog_for (replicate rounds ()) (λ _, lone_tick)) (λ _, Done Ticked).

Definition serve (rq : Request) : P Answer :=
  match rq with
  | Get rq => prog_bind (split_service_get rq) (λ r, Done (GetAnswer r))
  | Put rq => prog_bind (split_service_put rq) (λ r, Done (PutAnswer r))
  end.

(** [KVStoreServer.stop] on the thread of the shutdown hook: the requests that
    gRPC has accepted and the node's tasks go on, and find the storage closed. *)
Definition stop_hook : P Answer :=
  _ ⇐ sto storage_close;
  Done Stopped.

(** The scheduler's thread first, then one for each request; last the hook, in a
    process that is told to stop. *)
Definition server_threads (rounds : nat) (requests : list Request) (stops : bool) :
    list (thread (E:=jexn) (S:=RaftNode S) Answer) :=
  Running (ticks rounds) :: (Running ∘ serve <$> requests)
    ++ if stops then [Running stop_hook] else [].
End threads.

(** A binding of a replayed log was in it, or was there before. *)
Lemma replay_logged l m k v :
  replay l m !! k = Some v →
  (∃ e, e ∈ l ∧ le_key e = k ∧ le_value e = v) ∨ m !! k = Some v.
Proof.
  revert m. induction l as [|x l IH]; intros m; simpl; [by right|].
  intros [(e & He & ?)|Hm]%IH.
  - left. exists e. split; [by right|done].
  - destruct (decide (le_key x = k)) as [<-|Hne].
    + rewrite lookup_insert_eq in Hm. injection Hm as <-. left. exists x. split; [left|done].
    + rewrite lookup_insert_ne in Hm by done. by right.
Qed.

(** ** On a closed storage

    The reads of the log throw, the other methods do nothing and answer nothing. *)

Definition closed (n : ANode) : Prop := a_open (storage n) = false.

Lemma open_or_closed n : is_open n ∨ closed n.
Proof. unfold is_open, closed. destruct (a_open _); auto. Qed.

Section closed.
Context (n : ANode) (Hn : closed n).

Lemma closed_throw {A} (m : M jexn AbsStorage A) e : ∃ e', sto (if_open m (throw e)) n = (n, Throw e').
Proof. exists e. unfold sto, zoom, if_open. rewrite Hn. unfold throw. by rewrite set_storage_id. Qed.

Lemma closed_return {A} (m : M jexn AbsStorage A) a : sto (if_open m (mret a)) n = (n, Return a).
Proof. apply run_get. unfold if_open. by rewrite Hn. Qed.
End closed.

(** ** What they keep *)

Section lone.
Context `{HO : !HashOrder} `{HD : !Draws}.
Implicit Types n : ANode.

(** The node as it was, and the requests under way. *)
Context (n0 : ANode) (requests : list Request) (stops : bool).

(** The term it leads in, now or later. *)
Definition led_term : Z :=
  if decide (role n0 = LEADER) then term n0 else jadd (term n0) 1.

Definition entry_of_put (e : LogEntry) : Prop :=
  ∃ rq, Put rq ∈ requests ∧ e = log_entry led_term (pq_key rq) (pq_value rq).

(** Every binding of the map was logged, and no key of it is lost. *)
Definition kv_logged (a : AbsStorage) : Prop :=
  ∀ k v, a_kv a !! k = Some v → ∃ e, e ∈ a_log a ∧ le_key e = k ∧ le_value e = v.
Definition keys_kept (a : AbsStorage) : Prop := dom (kv n0) ⊆ dom (a_kv a).

(** A credit is an entry that a put may still append. *)
Record lone_inv (credits : nat) n : Prop := {
  li_term : role n = LEADER → term n = led_term;
  li_peers : peers n = ∅;
  li_open : stops = false → is_open n;
  li_applied : 0 ≤ applied n ≤ last_index (log n);
  li_commit : 0 ≤ commit n ≤ last_index (log n);
  li_log : ∃ new, log n = log n0 ++ new ∧ Forall entry_of_put new;
  li_room : last_index (log n) + Z.of_nat credits < long_max;
  li_kv : kv_logged (storage n);
  li_keys : keys_kept (storage n);
  li_leader : role n0 = LEADER → role n = LEADER;
  li_count : last_index (log n) + Z.of_nat credits
    ≤ last_index (log n0) + Z.of_nat (length requests);
}.

(** A leader stays what it is and the log grows; that is all the scheduler's
    thread promises.  The requests do not touch the state at all.  What is closed
    is not opened again. *)
Record leads_on n n' : Prop := {
  lo_state : role n = LEADER → state n' = state n;
  lo_log : log n `prefix_of` log n';
  lo_closed : closed n → closed n';
}.
Record serves_on n n' : Prop := {
  so_state : state n' = state n;
  so_log : log n `prefix_of` log n';
  so_closed : closed n → closed n';
}.
#[export] Instance leads_on_preorder : PreOrder leads_on.
Proof.
  split; [by intros n; split|]. intros n1 n2 n3 [H1 L1 ?] [H2 L2 ?]. split; [|by etrans|auto].
  intros Hl. rewrite H2; [by apply H1|]. by rewrite H1.
Qed.
#[export] Instance serves_on_preorder : PreOrder serves_on.
Proof.
  split; [by intros n; split|]. intros n1 n2 n3 [H1 L1 ?] [H2 L2 ?].
  split; [congruence|by etrans|auto].
Qed.
Lemma serves_leads n n' : serves_on n n' → leads_on n n'.
Proof. by intros [H L C]. Qed.

Lemma leads_on_last n n' : leads_on n n' → last_index (log n) ≤ last_index (log n').
Proof. intros [_ [r H] _]. rewrite H, last_index_app. pose proof (last_index_nonneg r). lia. Qed.

(** Requests rely on the one and guarantee the other. *)
Abbreviation safe := (safe (E:=jexn) lone_inv closed leads_on serves_on).
Abbreviation below := (λ (i : Z) n, 0 ≤ i ≤ last_index (log n)).
Abbreviation any := (λ (_ : ()) (_ : ANode), True).

(** *** Single accesses *)

(** What only answers on an open storage. *)
Lemma lone_access (R G : ANode → ANode → Prop) {A B} (Q : A → ANode → Prop)
    (m : M jexn ANode B) k b n :
  (∀ n, G n n) → (∀ n', closed n' → ∃ e, m n' = (n', Throw e)) →
  (∀ c n', lone_inv c n' → R n n' → is_open n' →
     ∃ r, m n' = (n', Return r) ∧ Concurrency.safe (E:=jexn) lone_inv closed R G Q b (k r) n') →
  Concurrency.safe (E:=jexn) lone_inv closed R G Q b (Act m k) n.
Proof.
  intros HG Hm H. apply safe_try_read; [done|]. intros c n' Hn' Hg.
  destruct (open_or_closed n') as [Ho|Hc]; [right; by eapply H|left; auto].
Qed.

Lemma lone_log_at c n i :
  lone_inv c n → 1 ≤ i ≤ last_index (log n) → is_open n →
  ∃ e, sto (getLogEntry i) n = (n, Return (Some e)) ∧ e ∈ log n.
Proof.
  intros Hn Hi Ho. destruct (log_at_in_range i (log n) Hi) as [e He]. exists e.
  rewrite run_entry, He by apply Ho. split; [done|].
  apply log_at_Some in He as [_ He]. by eapply list_elem_of_lookup_2.
Qed.

(** An index is within the log also where it is not read. *)
Lemma lone_getApplied c n : lone_inv c n → ∃ i, sto getLastApplied n = (n, Return i)
  ∧ 0 ≤ i ≤ last_index (log n).
Proof.
  intros Hn. destruct (open_or_closed n) as [Ho|Hc].
  - exists (applied n). split; [by apply run_getApplied|apply Hn].
  - exists 0. split; [by apply closed_return|]. pose proof (last_index_nonneg (log n)). lia.
Qed.

Lemma lone_getCommit c n : lone_inv c n → ∃ i, sto getCommitIndex n = (n, Return i)
  ∧ 0 ≤ i ≤ last_index (log n).
Proof.
  intros Hn. destruct (open_or_closed n) as [Ho|Hc].
  - exists (commit n). split; [by apply run_getCommit|apply Hn].
  - exists 0. split; [by apply closed_return|]. pose proof (last_index_nonneg (log n)). lia.
Qed.

(** A write to the storage that leaves the log alone; nothing is written to a
    closed one. *)
Lemma lone_write c n (m : M jexn ANode ()) f :
  lone_inv c n → (closed n → m n = (n, Return ())) → (is_open n → m n = (upd f n, Return ())) →
  a_log (f (storage n)) = log n → a_open (f (storage n)) = a_open (storage n) →
  0 ≤ a_applied (f (storage n)) ≤ last_index (log n) →
  0 ≤ a_commit (f (storage n)) ≤ last_index (log n) →
  kv_logged (f (storage n)) → keys_kept (f (storage n)) →
  ∃ n', m n = (n', Return ()) ∧ lone_inv c n' ∧ serves_on n n'.
Proof.
  intros Hn Hcl Hop Hl Ho Ha Hc Hk Hd. destruct (open_or_closed n) as [Hopen|Hclosed].
  - exists (upd f n). split; [auto|]. destruct Hn. split.
    + split; simpl; unfold is_open in *; simpl; rewrite ?Hl, ?Ho; done.
    + split; [done|unfold upd; simpl; by rewrite Hl|]. unfold closed. simpl. by rewrite Ho.
  - exists n. split_and!; [auto|done|by split].
Qed.

Lemma lone_setCommit c n i : lone_inv c n → 0 ≤ i ≤ last_index (log n) →
  ∃ n', sto (setCommitIndex i) n = (n', Return ()) ∧ lone_inv c n' ∧ serves_on n n'.
Proof.
  intros Hn Hi. apply (lone_write c n _ (set_commit i)); try by destruct Hn.
  - intros Hc. by apply closed_return.
  - apply run_setCommit.
Qed.

Lemma lone_setApplied c n i : lone_inv c n → 0 ≤ i ≤ last_index (log n) →
  ∃ n', sto (setLastApplied i) n = (n', Return ()) ∧ lone_inv c n' ∧ serves_on n n'.
Proof.
  intros Hn Hi. apply (lone_write c n _ (set_applied i)); try by destruct Hn.
  - intros Hc. by apply closed_return.
  - apply run_setApplied.
Qed.

Lemma lone_apply c n e : lone_inv c n → e ∈ log n →
  ∃ n', applyToStateMachine (Some e) n = (n', Return ()) ∧ lone_inv c n' ∧ serves_on n n'.
Proof.
  intros Hn He.
  apply (lone_write c n _ (λ a, set_kv (<[le_key e := le_value e]> (a_kv a)) a)); try by destruct Hn.
  - intros Hc. unfold applyToStateMachine. cbn [nonnull]. mstep. by apply closed_return.
  - intros Ho. unfold applyToStateMachine. cbn [nonnull]. mstep. by apply run_update.
  - intros k v. simpl. destruct (decide (k = le_key e)) as [->|].
    + rewrite lookup_insert_eq. intros [= <-]. by exists e.
    + rewrite lookup_insert_ne by done. apply (li_kv c n Hn).
  - unfold keys_kept. simpl. rewrite dom_insert. pose proof (li_keys c n Hn) as Hk.
    unfold keys_kept in Hk. set_solver.
Qed.

(** A write to the state. *)
Lemma lone_state c n f :
  lone_inv c n → (currentRole (f (state n)) = LEADER → currentTerm (f (state n)) = led_term) →
  (role n ≠ LEADER) → lone_inv c (on_state f n) ∧ leads_on n (on_state f n).
Proof.
  intros [] Ht Hr. split; [split; try done; intros ?; by destruct Hr; auto|].
  split; [done|reflexivity|done].
Qed.

Ltac safe_read := apply safe_read; [intros; reflexivity|].
Ltac safe_access :=
  apply lone_access; [intros; reflexivity|by intros ? ?; eapply closed_throw|].

(** A part of a request, and then the rest if it does not throw. *)
Lemma safe_then {A B} (Q : A → ANode → Prop) (Q' : B → ANode → Prop) p f c n :
  lone_inv c n → safe Q 0 p n →
  (∀ a c' n', lone_inv c' n' → leads_on n n' → Q a n' → safe Q' 0 (f a) n') →
  safe Q' 0 (prog_bind p f) n.
Proof. apply (safe_bind lone_inv leads_on closed leads_on serves_on); [done|apply serves_leads]. Qed.

(** *** The commit of a put *)

Lemma safe_applyLoop fuel : ∀ i c cr n,
  lone_inv cr n → 0 ≤ i → c ≤ last_index (log n) → i ≤ last_index (log n) →
  c - i ≤ Z.of_nat fuel → safe below 0 (split_applyLoop fuel i c) n.
Proof.
  induction fuel as [|fuel IH]; intros i c cr n Hn Hi Hc Hil Hf; cbn [split_applyLoop].
  { rewrite (proj2 (Z.ltb_ge _ _)) by lia. simpl. lia. }
  destruct (Z.ltb_spec i c); [|simpl; lia]. pose proof (li_room _ n Hn). long_arith.
  safe_access. intros c1 n1 Hn1 Hg1%leads_on_last Ho.
  destruct (lone_log_at c1 n1 (i + 1) Hn1) as (e & Hrun & He); [lia|done|].
  exists (Some e). split; [done|].
  apply safe_write. intros c2 n2 Hn2 Hg2.
  destruct (lone_apply c2 n2 e Hn2) as (n3 & Hrun3 & Hn3 & Hg3).
  { eapply elem_of_prefix; [exact He|apply Hg2]. }
  exists tt, n3. split_and!; [done..|]. apply serves_leads, leads_on_last in Hg3.
  apply leads_on_last in Hg2. apply (IH _ _ c2); [done|lia..].
Qed.

Lemma safe_applyCommitted cr n : lone_inv cr n → safe any 0 split_applyCommittedEntries n.
Proof.
  intros Hn. unfold split_applyCommittedEntries.
  safe_read. intros c1 n1 Hn1 _. destruct (lone_getApplied c1 n1 Hn1) as (i & Hrun1 & Hi).
  exists i. split; [done|]. safe_read. intros c2 n2 Hn2 Hg%leads_on_last.
  destruct (lone_getCommit c2 n2 Hn2) as (c & Hrun2 & Hc). exists c. split; [done|].
  eapply safe_then; [exact Hn2|apply (safe_applyLoop _ _ _ c2); [done|lia..]|].
  intros i' c3 n3 Hn3 Hg3 Hi'. apply safe_write. intros c4 n4 Hn4 Hg4%leads_on_last. simpl in Hi'.
  destruct (lone_setApplied c4 n4 i' Hn4) as (n5 & Hrun5 & Hn5 & Hg5); [lia|].
  by exists tt, n5.
Qed.

Lemma safe_commitLoop fuel : ∀ i last cr n,
  lone_inv cr n → 1 ≤ i → last ≤ last_index (log n) → last - i < Z.of_nat fuel →
  safe any 0 (split_commitLoop fuel i last) n.
Proof.
  induction fuel as [|fuel IH]; intros i last cr n Hn Hi Hl Hf; cbn [split_commitLoop].
  { rewrite (proj2 (Z.leb_gt _ _)) by lia. done. }
  destruct (Z.leb_spec i last); [|done]. pose proof (li_room _ n Hn). long_arith.
  safe_access. intros c1 n1 Hn1 Hg1%leads_on_last Ho.
  destruct (lone_log_at c1 n1 i Hn1) as (e & Hrun & He); [lia|done|].
  exists (Some e). split; [done|]. cbn [nonnull].
  safe_read. intros c2 n2 Hn2 Hg2%leads_on_last. eexists. split; [do 2 mstep; reflexivity|].
  assert (Hnext : ∀ c' n', lone_inv c' n' → leads_on n2 n' →
    safe any 0 (split_commitLoop fuel (i + 1) last) n').
  { intros c' n' Hn' Hg'%leads_on_last. apply (IH _ _ c'); [done|lia..]. }
  destruct (_ =? _); [|by apply (Hnext c2)].
  safe_read. intros c3 n3 Hn3 Hg3. eexists. split; [reflexivity|].
  destruct (majority_of_peers _ _); [|by apply (Hnext c3)].
  apply safe_write. intros c4 n4 Hn4 Hg4.
  pose proof (leads_on_last _ _ Hg3). pose proof (leads_on_last _ _ Hg4).
  destruct (lone_setCommit c4 n4 i Hn4) as (n5 & Hrun5 & Hn5 & Hg5); [lia|].
  exists tt, n5. split_and!; try done.
  eapply safe_then; [exact Hn5|by eapply safe_applyCommitted|].
  intros _ c6 n6 Hn6 Hg6 _. apply (Hnext c6); [done|]. apply serves_leads in Hg5.
  by repeat (etrans; [eassumption|]).
Qed.

Lemma safe_updateCommitIndex cr n : lone_inv cr n → safe any 0 split_updateCommitIndex n.
Proof.
  intros Hn. unfold split_updateCommitIndex.
  safe_access. intros c1 n1 Hn1 _ Ho. exists (last_index (log n1)).
  rewrite run_lastIndex by apply Ho. split; [done|].
  safe_read. intros c2 n2 Hn2 Hg%leads_on_last.
  destruct (lone_getCommit c2 n2 Hn2) as (c & Hrun2 & Hc). exists c. split; [done|]. cbv zeta.
  pose proof (li_room _ n2 Hn2). long_arith.
  apply (safe_commitLoop _ _ _ c2); [done|lia..].
Qed.

(** ** What each thread does *)

Definition answered (rq : Request) (a : Answer) n : Prop :=
  match rq, a with
  | Get rq, GetAnswer r =>
      (gr_found r = true →
         ∃ e, e ∈ log n ∧ le_key e = gq_key rq ∧ le_value e = gr_value r)
      ∧ (is_Some (kv n0 !! gq_key rq) → gr_found r = true ∨ closed n)
  | Put rq, PutAnswer r =>
      (role n0 = LEADER → pr_success r = true)
      ∧ (pr_success r = true →
           role n = LEADER ∧ log_entry led_term (pq_key rq) (pq_value rq) ∈ log n)
  | _, _ => False
  end.

Lemma answered_stable rq : stable leads_on (answered rq).
Proof.
  intros a n n' [Hs Hl Hcl]. destruct rq, a; simpl; try done.
  - intros [H1 H2]. split; [|intros [?|?]%H2; auto]. intros (e & He & ?)%H1. exists e.
    split; [|done]. by eapply elem_of_prefix.
  - intros [H1 H2]. split; [done|]. intros [Hr He]%H2. split; [by rewrite Hs|].
    by eapply elem_of_prefix.
Qed.

(** A put spends the credit of its entry. *)
Lemma safe_put rq n :
  Put rq ∈ requests → safe (answered (Put rq)) 1 (serve (Put rq)) n.
Proof.
  intros Hput. cbn [serve]. unfold split_service_put, split_proposeEntry.
  cbn [prog_bind]. safe_read. intros c1 n1 Hn1 _. eexists. split; [apply gets_run|].
  destruct (decide (role n1 = LEADER)) as [Hr|Hr]; last first.
  { rewrite bool_decide_eq_true_2 by done. simpl. split; [|done].
    intros Hl. by destruct Hr; apply (li_leader _ _ Hn1). }
  rewrite bool_decide_eq_false_2 by (by intros []). cbn [prog_bind].
  safe_read. intros c2 n2 Hn2 [Hs2 _]. specialize (Hs2 Hr).
  assert (Ht2 : term n2 = led_term) by (apply (li_term _ _ Hn2); by rewrite Hs2).
  exists led_term. rewrite run_currentTerm, Ht2. split; [done|].
  apply safe_try_spend; [intros; reflexivity|]. intros c3 n3 Hn3 [Hs3 _].
  destruct (open_or_closed n3) as [Ho3|Hc3]; [right|left; split; [done|by apply closed_throw]].
  assert (Hr3 : role n3 = LEADER) by (rewrite Hs3; by rewrite Hs2).
  set (e := log_entry led_term (pq_key rq) (pq_value rq)).
  set (n4 := upd (λ a, set_log (a_log a ++ [stored e]) a) n3).
  exists (last_index (log n3) + 1), n4.
  pose proof (li_room _ _ Hn3). rewrite run_append; [|apply Ho3|lia]. split; [done|].
  assert (Hn4 : lone_inv c3 n4).
  { destruct Hn3 as [H1 H2 H3 H4 H5 (new & H6 & H6') H7 H8 H9 H10 H11].
    split; simpl; rewrite ?last_index_snoc; try done; try lia.
    - exists (new ++ [stored e]). rewrite H6, <-app_assoc. split; [done|].
      apply Forall_app. split; [done|]. apply Forall_singleton. by exists rq.
    - intros k' v' (x & Hx & ?)%H8. exists x. split; [|done]. apply elem_of_app. by left. }
  split_and!; [done|by split; [|apply prefix_app_r|]|].
  safe_access. intros c5 n5 Hn5 Hg5 Ho5. eexists. split; [by apply run_lastIndex|].
  unfold split_replicateEntry. cbn [prog_bind]. safe_read. intros c6 n6 Hn6 Hg6. exists [].
  split; [rewrite gets_run, no_peers_values by apply Hn6; done|]. cbn [prog_for prog_bind].
  set (led := λ n', role n' = LEADER ∧ e ∈ log n').
  assert (Hled : ∀ n', leads_on n6 n' → led n').
  { intros n' Hg. assert (Hg' : leads_on n4 n') by (etrans; [exact Hg5|]; by etrans).
    destruct Hg' as [Hs Hl _]. split; [by rewrite (Hs Hr3)|]. eapply elem_of_prefix; [|exact Hl].
    simpl. apply elem_of_app. right. by left. }
  eapply (safe_then (λ r n', pr_success r = true ∧ led n')); [exact Hn6| |].
  - eapply (safe_then (λ b n', b = true ∧ led n')); [exact Hn6| |].
    + eapply safe_then; [exact Hn6|by eapply safe_updateCommitIndex|].
      intros _ c7 n7 _ Hg7 _. by split; [|apply Hled].
    + by intros b c7 n7 _ _ [-> ?].
  - intros r c7 n7 _ _ [Hr7 ?]. by split.
Qed.

Lemma safe_get rq n : safe (answered (Get rq)) 0 (serve (Get rq)) n.
Proof.
  cbn [serve split_service_get prog_bind]. safe_read. intros c1 n1 Hn1 _.
  destruct (open_or_closed n1) as [Ho|Hc]; last first.
  { exists None. split; [by apply closed_return|]. simpl. split; [done|by right]. }
  exists (kv n1 !! gq_key rq). split.
  { apply run_get. by apply (if_open_run _ Ho). }
  simpl. split.
  - intros [v Hv]%bool_decide_eq_true. rewrite Hv. by apply (li_kv _ _ Hn1).
  - intros Hk%elem_of_dom. left. apply bool_decide_eq_true_2. apply elem_of_dom.
    by apply (li_keys _ _ Hn1).
Qed.

(** The election task relies on nobody else writing to the state. *)
Abbreviation tick_safe := (Concurrency.safe (E:=jexn) lone_inv closed serves_on leads_on).

Lemma tick_then {A B} (Q : A → ANode → Prop) (Q' : B → ANode → Prop) p f c n :
  lone_inv c n → tick_safe Q 0 p n →
  (∀ a c' n', lone_inv c' n' → Q a n' → tick_safe Q' 0 (f a) n') →
  tick_safe Q' 0 (prog_bind p f) n.
Proof.
  intros Hn Hp Hf.
  apply (safe_bind lone_inv leads_on closed serves_on leads_on serves_leads (λ _ _ H, H) Q _ p f c n Hn Hp).
  intros a c' n' Hn' _. by apply (Hf a c').
Qed.

Lemma tick_write {A} (Q : A → ANode → Prop) f k n :
  (∀ c n', lone_inv c n' → serves_on n n' →
     (lone_inv c (f n') ∧ leads_on n' (f n')) ∧ tick_safe Q 0 (k tt) (f n')) →
  tick_safe Q 0 (Act (modify f) k) n.
Proof.
  intros H. apply safe_write. intros c n' Hn' Hg. destruct (H c n' Hn' Hg) as [[??] ?].
  by exists tt, (f n').
Qed.

Lemma lone_votedFor c n v :
  lone_inv c n → lone_inv c (set_votedFor v n) ∧ leads_on n (set_votedFor v n).
Proof. intros []. split; by split. Qed.

Lemma tick_candidate c n :
  lone_inv c n → role n ≠ LEADER → tick_safe (λ _ n', state n' = becomeCandidate (state n)) 0
    split_startElection n.
Proof.
  intros Hn Hr. unfold split_startElection, split_becomeCandidate. cbn [prog_bind].
  apply tick_write. intros c2 n2 Hn2 [Hs2 _].
  split; [apply lone_state; [done..|by rewrite Hs2]|].
  safe_read. intros c3 n3 Hn3 [Hs3 _]. eexists. split; [apply run_currentTerm|].
  apply tick_write. intros c4 n4 Hn4 [Hs4 _].
  assert (Hs : state n4 = set_role CANDIDATE (state n)) by (rewrite Hs4, Hs3; simpl; by rewrite Hs2).
  split; [apply lone_state; [done|by rewrite Hs..]|].
  apply tick_write. intros c5 n5 Hn5 [Hs5 _]. split; [by apply lone_votedFor|].
  safe_access. intros c6 n6 Hn6 [Hs6 _] Ho6. eexists. split; [by apply run_lastIndex|].
  safe_access. intros c7 n7 Hn7 [Hs7 _] Ho7. eexists. split; [by apply run_lastTerm|].
  safe_read. intros c8 n8 Hn8 [Hs8 _]. exists []. split.
  { mstep. rewrite no_peers_values by apply Hn8. by rewrite andb_false_r. }
  simpl. rewrite Hs8, Hs7, Hs6. simpl. rewrite Hs5. simpl. rewrite Hs, Hs3. simpl. by rewrite Hs2.
Qed.

Lemma tick_won n :
  role n ≠ LEADER → term n = led_term →
  tick_safe (λ _ n', role n' = LEADER) 0 (split_electionDone []) n.
Proof.
  intros Hr Ht. unfold split_electionDone. safe_read. intros c1 n1 Hn1 [Hs1 _]. exists 0.
  split; [done|]. safe_read. intros c2 n2 Hn2 [Hs2 _]. exists true. split.
  { rewrite gets_run. by rewrite no_peers_majority by (done || apply Hn2). }
  apply tick_write. intros c3 n3 Hn3 [Hs3 _].
  assert (Hs : state n3 = state n) by congruence.
  split; [apply lone_state; [done|by rewrite Hs..]|].
  safe_access. intros c4 n4 Hn4 [Hs4 _] Ho4. eexists. split; [by apply run_lastIndex|].
  safe_read. intros c5 n5 Hn5 [Hs5 _]. exists []. split.
  { rewrite gets_run. by rewrite no_peers_order by apply Hn5. }
  simpl. by rewrite Hs5, Hs4.
Qed.

Definition led_or_new n : Prop := role n = LEADER ∨ state n = state n0.

Lemma safe_tick c n :
  lone_inv c n → led_or_new n → tick_safe (λ _ n', role n' = LEADER) 0 lone_tick n.
Proof.
  intros Hn Hst. unfold lone_tick. safe_read. intros c1 n1 Hn1 [Hs1 _]. eexists.
  split; [apply gets_run|]. unfold led_or_new in Hst. rewrite <-Hs1 in Hst.
  destruct (decide (role n1 = LEADER)) as [Hr|Hr].
  { by rewrite bool_decide_eq_false_2 by (by intros []). }
  rewrite bool_decide_eq_true_2 by done. destruct Hst as [Hst|Hst]; [done|].
  eapply tick_then; [exact Hn1|by eapply tick_candidate|].
  intros ? c2 n2 _ Hs2. apply tick_won; rewrite Hs2; [done|].
  unfold led_term. by rewrite decide_False by (by rewrite <-Hst); rewrite Hst.
Qed.

Lemma safe_ticks rounds : ∀ c n,
  lone_inv c n → led_or_new n →
  tick_safe (λ a n', a = Ticked ∧ (rounds ≠ 0%nat → role n' = LEADER)) 0 (ticks rounds) n.
Proof.
  unfold ticks. intros c n Hn Hst.
  eapply (tick_then (λ _ n', rounds ≠ 0%nat → role n' = LEADER)); [exact Hn| |].
  - revert c n Hn Hst. induction rounds as [|rounds IH]; intros c n Hn Hst; [simpl; congruence|].
    cbn [replicate prog_for]. eapply tick_then; [exact Hn|by eapply safe_tick|].
    intros ? c1 n1 Hn1 Hl. destruct rounds as [|rounds]; [by simpl; intros _|].
    eapply safe_weaken; [|apply (IH c1); [done|by left]].
    intros ? n' H _. by apply H.
  - by intros [] c1 n1 _ ?.
Qed.

(** The hook closes the storage. *)
Lemma safe_stop n : stops = true → safe (λ a n', a = Stopped ∧ closed n') 0 stop_hook n.
Proof.
  intros Hs. apply safe_write. intros c n1 Hn1 _. exists tt, (upd (set_open false) n1).
  split; [by apply run_put|]. destruct Hn1. split_and!; [split; try done; by rewrite Hs|by split|].
  by split.
Qed.

(** ** All of them together *)

Definition stop_spec : spec (S:=ANode) Answer :=
  mkSpec leads_on serves_on (λ a n', a = Stopped ∧ closed n').
Definition tick_spec (rounds : nat) : spec (S:=ANode) Answer :=
  mkSpec serves_on leads_on (λ a n', a = Ticked ∧ (rounds ≠ 0%nat → role n' = LEADER)).
Definition request_spec (rq : Request) : spec (S:=ANode) Answer :=
  mkSpec leads_on serves_on (answered rq).
Definition server_specs (rounds : nat) : list (spec (S:=ANode) Answer) :=
  tick_spec rounds :: (request_spec <$> requests) ++ if stops then [stop_spec] else [].

(** Every thread but the first does what a request does. *)
Lemma server_spec_inv rounds i sp : server_specs rounds !! Datatypes.S i = Some sp →
  rely sp = leads_on ∧ guarantee sp = serves_on.
Proof.
  intros Hi. simpl in Hi. apply list_elem_of_lookup_2, elem_of_app in Hi as [Hi|Hi].
  - by apply list_elem_of_fmap in Hi as (rq & -> & _).
  - destruct stops; [by apply list_elem_of_singleton in Hi as ->|by apply not_elem_of_nil in Hi].
Qed.

Lemma server_specs_ok rounds : Forall (spec_ok leads_on) (server_specs rounds).
Proof.
  constructor; [|apply Forall_app; split].
  - split; simpl; [apply _|apply serves_leads|done|].
    intros a n n' [Hs _] [Ha H]. split; [done|]. intros Hr. rewrite Hs. by apply H.
  - apply Forall_fmap, Forall_true. intros rq.
    split; simpl; [apply _|done|apply serves_leads|apply answered_stable].
  - destruct stops; constructor; [|done]. split; simpl; [apply _|done|apply serves_leads|].
    intros a n n' [_ _ Hc] [Ha H]. auto.
Qed.

(** Only the scheduler's thread writes to the state. *)
Lemma server_specs_compatible rounds : compatible (server_specs rounds).
Proof.
  intros [|i] [|j] sp sp' n n' Hij Hi Hj; [done| | |].
  - injection Hi as <-. by apply server_spec_inv in Hj as [-> _].
  - injection Hj as <-. by apply server_spec_inv in Hi as [_ ->].
  - apply server_spec_inv in Hi as [_ ->], Hj as [-> _]. apply serves_leads.
Qed.

Definition credit (rq : Request) : nat := match rq with Get _ => 0 | Put _ => 1 end.

Lemma sum_credits l : (sum_list (credit <$> l) ≤ length l)%nat.
Proof. induction l as [|[] l IH]; csimpl; lia. Qed.

Lemma requests_safe l :
  l ⊆ requests → Forall3 (λ sp b t, spec_safe lone_inv closed sp b t n0)
    (request_spec <$> l) (credit <$> l) (Running ∘ serve <$> l).
Proof.
  induction l as [|rq l IH]; intros Hl; constructor; [|apply IH; set_solver].
  destruct rq; [apply safe_get|apply safe_put; set_solver].
Qed.

Lemma server_threads_safe rounds c :
  lone_inv c n0 → (length requests ≤ c)%nat →
  threads_safe lone_inv closed (server_specs rounds) c (server_threads rounds requests stops) n0.
Proof.
  intros Hn Hc. exists (0%nat :: (credit <$> requests) ++ if stops then [0%nat] else []). split.
  - constructor; [by eapply safe_ticks; [|right]|]. apply Forall3_app; [by apply requests_safe|].
    destruct stops eqn:Hs; constructor; [by apply safe_stop|constructor].
  - simpl. rewrite sum_list_with_app. etrans; [|exact Hc]. pose proof (sum_credits requests).
    destruct stops; simpl; lia.
Qed.
End lone.

(** A storage whose indices are within its log and whose map holds nothing that
    was not logged; the map need not be the one the log says (CommitRace.v). *)
Record sound (a : AbsStorage) : Prop := {
  sd_applied : 0 ≤ a_applied a ≤ last_index (a_log a);
  sd_commit : 0 ≤ a_commit a ≤ last_index (a_log a);
  sd_kv : kv_logged a;
}.

Lemma sound_inv a : storage_inv a → sound a.
Proof.
  intros [Ho Ha Hc Hkv]. split; [lia|lia|]. intros k v Hk. rewrite Hkv in Hk.
  apply replay_logged in Hk as [(e & He & ?)|Hk]; [|done].
  exists e. split; [|done]. by apply elem_of_take in He as (? & ?%list_elem_of_lookup_2 & _).
Qed.

(** How a thread has ended: with a result, or, where the storage is closed, by an
    exception. *)
Definition ended (Q : Answer → Prop) (n' : ANode) (o : outcome jexn Answer) : Prop :=
  match o with
  | Return a => Q a
  | Throw _ => closed n'
  | Undefined => False
  end.

(** What holds when threads have run from [n] to [n'], wherever they are. *)
Record requests_served (n : ANode) rounds requests (stops : bool)
    (ts : list (thread (E:=jexn) (S:=ANode) Answer)) (n' : ANode) : Prop := {
  rs_length : length ts = (Datatypes.S (length requests) + if stops then 1 else 0)%nat;
  rs_open : stops = false → is_open n';
  rs_tick o : ts !! 0%nat = Some (Finished o) →
    ended (λ a, a = Ticked ∧ (rounds ≠ 0%nat → role n' = LEADER)) n' o;
  rs_answers i rq : requests !! i = Some rq → ∃ t, ts !! Datatypes.S i = Some t
    ∧ ∀ o, t = Finished o → ended (λ a, answered n rq a n') n' o;
  rs_leads : role n = LEADER → state n' = state n;
  rs_log : ∃ new, log n' = log n ++ new ∧ Forall (entry_of_put n requests) new
    ∧ (length new ≤ length requests)%nat;
  rs_sound : sound (storage n');
  rs_keys : dom (kv n) ⊆ dom (kv n');
  rs_ends i t : ts !! i = Some t → ∃ k o,
    (run_threads (replicate k i) ts n').1 !! i = Some (Finished o)
    ∧ (stops = false → ∃ a, o = Return a) ∧ o ≠ Undefined;
}.

Section served.
Context `{HO : !HashOrder} `{HD : !Draws}.
Implicit Types n : ANode.

Lemma sound_lone n requests stops :
  sound (storage n) → is_open n → peers n = ∅ →
  last_index (log n) + Z.of_nat (length requests) < long_max →
  lone_inv n requests stops (length requests) n.
Proof.
  intros [Ha Hc Hkv] Ho Hp Hroom. split; try done; [| |by unfold keys_kept].
  - intros Hl. unfold led_term. by rewrite decide_True.
  - exists []. by rewrite app_nil_r.
Qed.

Lemma leads_on_closed n n' : leads_on n n' → closed n → closed n'.
Proof. apply lo_closed. Qed.

Lemma length_server_threads rounds requests stops :
  length (server_threads (S:=AbsStorage) rounds requests stops)
  = (Datatypes.S (length requests) + if stops then 1 else 0)%nat.
Proof. simpl. rewrite length_app, length_fmap. by destruct stops. Qed.

Lemma requests_run n rounds requests stops schedule :
  sound (storage n) → is_open n → peers n = ∅ →
  last_index (log n) + Z.of_nat (length requests) < long_max →
  let '(ts, n') := run_threads schedule (server_threads rounds requests stops) n in
  requests_served n rounds requests stops ts n'.
Proof.
  intros Hsd Ho Hp Hroom. pose proof (sound_lone n requests stops Hsd Ho Hp Hroom) as Hinv.
  pose proof (run_threads_safe (lone_inv n requests stops) leads_on closed leads_on_closed
    (server_specs n requests stops rounds) schedule (length requests)
    (server_threads rounds requests stops) n (server_specs_ok _ _ _ _)
    (server_specs_compatible _ _ _ _) Hinv (server_threads_safe _ _ _ _ _ Hinv (le_n _))) as Hrun.
  pose proof (length_run_threads schedule (server_threads rounds requests stops) n) as Hlen.
  rewrite length_server_threads in Hlen.
  destruct (run_threads schedule _ n) as [ts n'].
  destruct Hrun as (c & Hinv' & [Hs _ _] & (bs & Hts & Hsum)).
  pose proof Hinv' as [H1 H2 H3 H4 H5 (new & H6 & H6') H7 H8 H9 H10 H11].
  split; try done.
  - intros o Hts0. destruct (Forall3_lookup_r _ _ _ _ _ _ Hts Hts0) as (sp & b & Hsp & _ & Hsafe).
    injection Hsp as <-. by destruct o.
  - intros i rq Hi.
    assert (Hsp : server_specs n requests stops rounds !! Datatypes.S i = Some (request_spec n rq)).
    { simpl. apply lookup_app_l_Some. by rewrite list_lookup_fmap, Hi. }
    destruct (Forall3_lookup_l _ _ _ _ _ _ Hts Hsp) as (b & t & _ & Ht & Hsafe).
    exists t. split; [done|]. intros o ->. by destruct o.
  - exists new. split_and!; [done..|]. rewrite H6, last_index_app in H11. unfold last_index in H11. lia.
  - intros i t Hi. destruct (Forall3_lookup_r _ _ _ _ _ _ Hts Hi) as (sp & b & Hsp & Hb & Hsafe).
    pose proof (sum_list_insert bs i b 0 Hb).
    pose proof (Forall_lookup_1 _ _ _ _ (server_specs_ok n requests stops rounds) Hsp) as [Hpre _ _ _].
    destruct (thread_safe_ends (lone_inv n requests stops) closed (rely sp) (guarantee sp) (post sp)
      b c t n') as (k & o & n'' & Hrun & [c' Hn''] & Ho'); [lia|done..|].
    exists k, o. rewrite (run_solo k i _ t), Hrun by done. simpl.
    split; [apply list_lookup_insert_eq; by eapply lookup_lt_Some|].
    destruct Ho' as [[a ->]|[Hc [e ->]]]; [split; [by exists a|done]|]. split; [|done].
    intros Hno. pose proof (li_open _ _ _ _ _ Hn'' Hno) as Ho2.
    unfold is_open, closed in *. congruence.
Qed.
End served.
