(* ===== verification/CommitRace.v ===== *)
(** * What puts that run at the same time lose

    gRPC calls [put] on a thread of its own for each request, and nothing
    between [proposeEntry] and [applyCommittedEntries] takes a lock.  LoneThreads.v
    has what is kept under every schedule; here are schedules under which the
    order of two puts, or the commit index, is lost. *)

From S2P Require Import Prelude.
From S2P Require Import Java.
From S2P Require Import Messages.
From S2P Require Import RaftState.
From S2P Require Import Storage.
From S2P Require Import RaftNode.
From S2P Require Import RaftLog.
From S2P Require Import NodeRun.
From S2P Require Import RaftReplication.
From S2P Require Import RaftCommit.
From S2P Require Import RaftElection.
From S2P Require Import RaftLone.
From S2P Require Import Concurrency.
From S2P Require Import NodeSteps.
From stdpp Require Import base gmap strings list.
From Stdlib Require Import Lia.
#[local] Open Scope Z_scope.

(** ** Two puts of the same key *)

#[local] Existing Instance zero_draws.

(** Each put as a thread. *)
Definition put_threads (puts : list (string * string)) : list (thread (E:=jexn) (S:=ANode) bool) :=
  (λ kv, Running (split_proposeEntry kv.1 kv.2)) <$> puts.

Definition lone_leader : ANode := set_state (mkRaftState LEADER 1 None) lone_node.

(** The first put stops before it writes its value; the second one runs; the
    third one stops when it has read how much is applied; the first one goes on,
    and then the third. *)
Definition stale_puts : list (string * string) := [("a", "1"); ("a", "2"); ("b", "3")].
Definition stale_schedule : list nat :=
  replicate 14 0%nat ++ replicate 40 1%nat ++ replicate 13 2%nat ++ replicate 10 0%nat
  ++ replicate 10 2%nat.
(** The first put stops before it sets the commit index; the second one when it
    has set it. *)
Definition unapplied_puts : list (string * string) := [("a", "1"); ("b", "2")].
Definition unapplied_schedule : list nat :=
  replicate 10 0%nat ++ replicate 20 1%nat ++ replicate 10 0%nat ++ replicate 10 1%nat.

(** Puts one after the other. *)
Definition put_all (puts : list (string * string)) (n : ANode) : ANode :=
  foldl (λ n kv, (proposeEntry kv.1 kv.2 n).1) n puts.

(** A leader that has applied its whole log changes the map by the puts only. *)
Lemma put_all_other puts k : ∀ n : ANode,
  indices_ok (storage n) → applied n = last_index (log n) → role n = LEADER → peers n = ∅ →
  last_index (log n) + Z.of_nat (length puts) < long_max → k ∉ puts.*1 →
  kv (put_all puts n) !! k = kv n !! k.
Proof.
  induction puts as [|[k1 v1] puts IH]; intros n Hix Ha Hrole Hp Hroom Hk; [done|]. csimpl in *.
  apply not_elem_of_cons in Hk as [Hne Hk].
  destruct (lone_put_indices k1 v1 n Hix Hp) as (Hix' & Hl & _ & Ha' & Hkv & Hst & Hp' & _).
  rewrite lone_put_run by (done || lia). cbn [fst].
  rewrite IH; [|done|by rewrite Ha'|by rewrite Hst|by rewrite Hp'|rewrite Hl, last_index_snoc; lia|done].
  rewrite Hkv, Hl, last_index_snoc, Ha. unfold log_range, last_index.
  rewrite take_ge by (rewrite length_app; simpl; lia).
  replace (Z.to_nat _) with (length (log n)) by lia.
  rewrite drop_app_length. simpl. by rewrite lookup_insert_ne.
Qed.

(** C32: one after the other, two puts leave the map that the log says, and
    everything committed. Interleaved, all can answer [true] and (first) leave
    a key with the older of its two values, the log applied to its end, so that
    no later puts of other keys ever bring the newer one back, or (second) leave
    a key that was put unknown to the map, its entry not even committed. *)
Theorem concurrent_puts_race :
  (∀ (n : ANode) k1 v1 k2 v2,
     storage_inv (storage n) → role n = LEADER → peers n = ∅ →
     last_index (log n) + 2 < long_max →
     let n2 := put_all [(k1, v1); (k2, v2)] n in
     log n2 = log n ++ [log_entry (term n) k1 v1; log_entry (term n) k2 v2]
     ∧ kv n2 = replay (log n2) ∅ ∧ commit n2 = last_index (log n2))
  ∧ (let '(ts, n') := run_threads stale_schedule (put_threads stale_puts) lone_leader in
     ts = replicate 3 (Finished (Return true))
     ∧ log n' = [log_entry 1 "a" "1"; log_entry 1 "a" "2"; log_entry 1 "b" "3"]
     ∧ commit n' = 3 ∧ applied n' = 3 ∧ kv n' !! "a" = Some "1"
     ∧ ∀ puts, "a" ∉ puts.*1 → 3 + Z.of_nat (length puts) < long_max →
         kv (put_all puts n') !! "a" = Some "1")
  ∧ (let '(ts, n') := run_threads unapplied_schedule (put_threads unapplied_puts) lone_leader in
     ts = replicate 2 (Finished (Return true))
     ∧ log n' = [log_entry 1 "a" "1"; log_entry 1 "b" "2"] ∧ commit n' = 1
     ∧ kv n' !! "b" = None).
Proof.
  split; [|split].
  - intros n k1 v1 k2 v2 Hinv Hrole Hp Hroom. cbv zeta. cbn [put_all foldl fst snd].
    rewrite (lone_put_run k1 v1 n) by (done || (by apply storage_inv_indices) || lia). cbn [fst].
    destruct (lone_put_spec k1 v1 n Hinv Hp) as (Hinv1 & L1 & _ & _ & _ & _ & S1 & P1 & _).
    rewrite lone_put_run by (rewrite ?S1, ?P1, ?L1, ?last_index_snoc;
      done || (by apply storage_inv_indices) || lia). cbn [fst].
    destruct (lone_put_spec k2 v2 (lone_put k1 v1 n) Hinv1) as (_ & L2 & C2 & _ & K2 & _).
    { by rewrite P1. }
    split_and!; [|done..]. rewrite L2, L1, S1. by rewrite <-app_assoc.
  - destruct (run_threads _ _ _) as [ts n'] eqn:E. vm_compute in E. injection E as <- <-.
    split_and!; [vm_compute; reflexivity..|]. intros puts Hk Hroom.
    rewrite put_all_other; [vm_compute; reflexivity| |vm_compute; reflexivity..|exact Hroom|exact Hk].
    split; vm_compute; [reflexivity|split; discriminate|discriminate].
  - vm_compute. split_and!; reflexivity.
Qed.
