(* ===== verification/StopRace.v ===== *)
(** * What an orderly stop loses

    [KVStoreServer.stop] closes the storage without waiting for the calls that
    gRPC still serves, and on a closed connection [setCommitIndex] prints the error
    and goes on.  LoneThreads.v and ConcurrentServer.v have what is kept
    under every schedule; here is a stop in the middle of a put which is then
    answered [true] and forgotten. *)

From S2P Require Import Prelude.
From S2P Require Import Java.
From S2P Require Import Messages.
From S2P Require Import RaftState.
From S2P Require Import Storage.
From S2P Require Import RaftNode.
From S2P Require Import RaftLog.
From S2P Require Import NodeRun.
From S2P Require Import RaftReplication.
From S2P Require Import RaftCommit.
From S2P Require Import RaftElection.
From S2P Require Import RaftLone.
From S2P Require Import Concurrency.
From S2P Require Import NodeSteps.
From S2P Require Import ElectionSteps.
From S2P Require Import KVStoreService.
From S2P Require Import LoneThreads.
From stdpp Require Import base gmap strings list.
From Stdlib Require Import Lia.
#[local] Open Scope Z_scope.

(** ** Moves of one thread *)

Section moves.
Context {E S : Type}.

Lemma solo_act {A B} j (m : M E S B) (k : B → prog E S A) s s' b :
  m s = (s', Return b) → solo (Datatypes.S j) (Running (Act m k)) s = solo j (Running (k b)) s'.
Proof. intros Hm. cbn [solo thread_step]. unfold act_step. by rewrite Hm. Qed.

(** Threads that keep an invariant and whose results are known, together. *)
Lemma run_threads_holds {A} (I : S → Prop) (Qs : list (A → Prop)) schedule :
  ∀ (ts : list (thread (E:=E) (S:=S) A)) s,
  I s → Forall2 (thread_holds I) Qs ts →
  Forall2 (thread_holds I) Qs (run_threads schedule ts s).1 ∧ I (run_threads schedule ts s).2.
Proof.
  induction schedule as [|i schedule IH]; intros ts s Hs Hts; simpl; [done|].
  destruct (ts !! i) as [t|] eqn:Hi; [|by apply IH].
  destruct (Forall2_lookup_r _ _ _ _ _ Hts Hi) as (Q & HQ & Ht).
  destruct (thread_step_holds I Q t s Hs Ht) as [Ht' Hs'].
  destruct (thread_step t s) as [t' s']. apply IH; [done|].
  rewrite <-(list_insert_id Qs i Q HQ). by apply Forall2_insert.
Qed.
End moves.

(** ** A run without puts *)

Section readers.
Context `{HO : !HashOrder} `{HD : !Draws}.
Implicit Types n : ANode.
Context (a0 : AbsStorage) (Hopen : a_open a0 = true).

Definition unchanged n : Prop := storage n = a0.

Lemma unchanged_modify f : (∀ n : ANode, storage (f n) = storage n) → kept unchanged (modify (E:=jexn) f).
Proof. intros Hf n Hn. unfold unchanged. simpl. by rewrite Hf. Qed.

Lemma unchanged_reads {A} (m : M jexn ANode A) : (∀ n, (m n).1 = n) → kept unchanged m.
Proof. intros Hm n Hn. by rewrite Hm. Qed.

(** A read of an open log. *)
Lemma unchanged_if_open {A} (f : AbsStorage → A) d : kept unchanged (sto (if_open (gets f) d)).
Proof.
  intros n Hn. unfold unchanged, sto, zoom, if_open in *. by rewrite Hn, Hopen.
Qed.

Lemma unchanged_tasks {A} (down : ANode → bool) e (f : ANode → A) :
  kept unchanged (n ← getS; if down n then throw e else mret (f n) : M jexn ANode A).
Proof. apply unchanged_reads. intros n. unfold mbind, M_bind, getS. by destruct (down n). Qed.

Ltac keeps :=
  apply holds_any;
  [first [by apply unchanged_modify|by apply unchanged_reads|by apply unchanged_if_open|apply unchanged_tasks]|intros].

Lemma holds_lone_tick : holds unchanged (λ _, True) lone_tick.
Proof.
  unfold lone_tick. keeps. destruct (bool_decide _); [|done].
  apply (holds_bind _ (λ _, True)).
  - unfold split_startElection, split_becomeCandidate. cbn [prog_bind]. by repeat keeps.
  - intros _ _. unfold split_electionDone. keeps. keeps.
    match goal with |- holds _ _ (if ?b then _ else _) => destruct b; [|done] end.
    unfold split_becomeLeader. do 3 keeps.
    match goal with |- holds _ _ (prog_for ?l _) => generalize l; intros ids end.
    induction ids as [|p ids IH]; [done|]. cbn [prog_for prog_bind]. by keeps; keeps.
Qed.

Lemma holds_ticks rounds : holds unchanged (λ a, a = Ticked) (ticks rounds).
Proof.
  apply (holds_bind _ (λ _, True)); [|done].
  induction (replicate rounds ()) as [|u l IH]; [done|]. cbn [prog_for].
  eapply holds_bind; [apply holds_lone_tick|by intros].
Qed.

(** A get finds what the map has. *)
Definition found_in (rq : GetRequest) (a : Answer) : Prop :=
  a = GetAnswer {| gr_value := default "" (a_kv a0 !! gq_key rq);
                   gr_found := bool_decide (is_Some (a_kv a0 !! gq_key rq)) |}.

Lemma holds_get rq : holds unchanged (found_in rq) (serve (Get rq)).
Proof.
  cbn [serve split_service_get prog_bind].
  apply (holds_act _ _ _ _ (λ b, b = a_kv a0 !! gq_key rq)); [|by intros b ->].
  intros n Hn. unfold unchanged in Hn.
  rewrite (run_get _ n (a_kv a0 !! gq_key rq)); [done|]. rewrite Hn. by apply (if_open_run a0 Hopen).
Qed.

Lemma gets_only n rounds (gets : list GetRequest) schedule :
  storage n = a0 →
  let '(ts, n') := run_threads schedule (server_threads rounds (Get <$> gets) false) n in
  storage n' = a0 ∧ ∀ i rq, gets !! i = Some rq → ∃ t, ts !! Datatypes.S i = Some t
    ∧ ∀ a, t = Finished (Return a) → found_in rq a.
Proof.
  intros Hn. set (ts0 := server_threads _ _ _).
  destruct (run_threads_holds unchanged ((λ a, a = Ticked) :: (found_in <$> gets)) schedule ts0 n)
    as [Hts Hsame]; [done| |].
  { constructor; [apply holds_ticks|]. rewrite app_nil_r. clear -Hopen.
    induction gets as [|rq gets IH]; constructor; [apply holds_get|apply IH]. }
  destruct (run_threads schedule ts0 n) as [ts n']. split; [done|]. intros i rq Hi.
  cbn [fst] in Hts. inversion Hts as [|? ? ? ts' _ Hgets]; subst.
  destruct (Forall2_lookup_l _ _ _ i (found_in rq) Hgets) as (t & Ht & Hq).
  { by rewrite list_lookup_fmap, Hi. }
  exists t. split; [done|]. by intros a ->.
Qed.
End readers.

(** ** A stop in the middle of a put *)

Section stopped_put.
Context `{HO : !HashOrder} `{HD : !Draws}.
Implicit Types n : ANode.

(** The put that has found its entry in the majority and has not set the commit
    index. *)
Lemma put_before_commit n rq :
  role n = LEADER → peers n = ∅ → is_open n → commit n = last_index (log n) →
  last_index (log n) + 1 < long_max →
  let e := log_entry (term n) (pq_key rq) (pq_value rq) in
  ∃ p, solo 10 (Running (serve (Put rq))) n = (Running p, upd (set_log (log n ++ [e])) n)
    ∧ ∀ m : ANode, closed m → solo 5 (Running p) m
        = (Finished (Return (PutAnswer {| pr_success := true; pr_old_value := "" |})), m).
Proof.
  intros Hr Hp Ho Hc Hroom e. cbn [serve]. unfold split_service_put, split_proposeEntry.
  cbn [prog_bind]. erewrite solo_act by apply gets_run. rewrite bool_decide_eq_false_2 by (by intros []).
  cbn [prog_bind]. erewrite solo_act by apply run_currentTerm.
  erewrite solo_act by (apply run_append; [done|lia]). set (n1 := upd _ n).
  assert (Hl : last_index (log n1) = last_index (log n) + 1) by (simpl; by rewrite last_index_snoc).
  erewrite solo_act by (by apply run_lastIndex). unfold split_replicateEntry. cbn [prog_bind].
  erewrite solo_act by apply gets_run. rewrite no_peers_values by done. cbn [prog_for prog_bind].
  unfold split_updateCommitIndex. cbn [prog_bind]. erewrite solo_act by (by apply run_lastIndex).
  erewrite solo_act by (by apply run_getCommit). cbv zeta.
  change (commit n1) with (commit n). rewrite Hl, Hc. pose proof (last_index_nonneg (log n)). long_arith.
  replace (Z.to_nat _) with 1%nat by lia. cbn [split_commitLoop]. rewrite Z.leb_refl. cbn [prog_bind].
  erewrite solo_act by (by apply run_entry).
  assert (Hat : log_at (last_index (log n) + 1) (log n1) = Some e) by apply log_at_snoc.
  rewrite Hat. cbn [nonnull].
  erewrite (solo_act _ _ _ n1 n1 true) by (do 2 mstep; by rewrite Z.eqb_refl). cbn [prog_bind].
  erewrite (solo_act _ _ _ n1 n1 true).
  2: { rewrite gets_run, no_peers_majority; [done..|]. rewrite replicationCount_size. lia. }
  cbn [prog_bind]. eexists. split; [reflexivity|]. intros m Hm.
  erewrite solo_act by (by apply closed_return). cbn [split_applyCommittedEntries prog_bind].
  do 2 (erewrite solo_act by (by apply closed_return)).
  change (split_applyLoop (Z.to_nat (0 - 0)) 0 0) with (Done 0 : prog jexn ANode Z).
  cbn [prog_bind]. erewrite solo_act by (by apply closed_return).
  long_arith. rewrite (proj2 (Z.leb_gt _ _)) by lia. reflexivity.
Qed.

(** C30: a leader without peers, its log committed, is told to stop in the middle
    of a put.  Under this schedule the put is answered [true] and the stop ends;
    the entry is in the log, but it is not committed.  When the process runs
    again, then as long as no put is requested every get, however it is
    interleaved, is answered from the map as it was before the put. *)
Theorem stop_forgets_put n rq :
  role n = LEADER → peers n = ∅ → is_open n → commit n = last_index (log n) →
  last_index (log n) + 1 < long_max →
  ∃ schedule, let '(ts, n1) := run_threads schedule (server_threads 0 [Put rq] true) n in
    drop 1 ts = [Finished (Return (PutAnswer {| pr_success := true; pr_old_value := "" |}));
                 Finished (Return Stopped)]
    ∧ storage n1 = set_open false
        (set_log (log n ++ [log_entry (term n) (pq_key rq) (pq_value rq)]) (storage n))
    ∧ ∀ id rounds gets schedule2,
        let '(ts, n2) := run_threads schedule2 (server_threads rounds (Get <$> gets) false)
          (newRaftNode id [] (set_open true (storage n1))) in
        storage n2 = set_open true (storage n1)
        ∧ ∀ i g, gets !! i = Some g → ∃ t, ts !! Datatypes.S i = Some t
            ∧ ∀ a, t = Finished (Return a) → found_in (storage n) g a.
Proof.
  intros Hr Hp Ho Hc Hroom. destruct (put_before_commit n rq Hr Hp Ho Hc Hroom) as (p & Hput & Hrest).
  set (n0 := upd _ n) in Hput. set (n1 := upd (set_open false) n0).
  exists (replicate 10 1%nat ++ (replicate 2 2%nat ++ replicate 5 1%nat)).
  rewrite !run_threads_app, (run_solo 10 1 _ (Running (serve (Put rq)))), Hput by done. cbn [fst snd].
  rewrite (run_solo 2 2 _ (Running stop_hook)) by done. unfold stop_hook.
  erewrite solo_act by (by apply run_put). fold n1. cbn [fst snd solo thread_step].
  rewrite (run_solo 5 1 _ (Running p)), Hrest by done. cbn [fst snd]. split_and!; [done..|].
  intros id rounds gets schedule2.
  exact (gets_only (set_open true (storage n1)) eq_refl
    (newRaftNode id [] (set_open true (storage n1))) rounds gets schedule2 eq_refl).
Qed.
End stopped_put.

(** A leader with an empty database. *)
#[local] Existing Instance zero_draws.

Definition fresh_leader : ANode := set_state (mkRaftState LEADER 1 None) lone_node.
Definition put_a : PutRequest := {| pq_key := "a"; pq_value := "1" |}.

Lemma stop_forgets_put_witness :
  ∃ schedule, let '(ts, n1) := run_threads schedule (server_threads 0 [Put put_a] true) fresh_leader in
    drop 1 ts = [Finished (Return (PutAnswer {| pr_success := true; pr_old_value := "" |}));
                 Finished (Return Stopped)]
    ∧ log n1 = [log_entry 1 "a" "1"] ∧ commit n1 = 0
    ∧ ∀ schedule2, let '(ts, n2) := run_threads schedule2 (server_threads 3 [Get {| gq_key := "a" |}] false)
          (newRaftNode "node1" [] (set_open true (storage n1))) in
        ∀ a, ts !! 1%nat = Some (Finished (Return a)) →
          a = GetAnswer {| gr_value := ""; gr_found := false |}.
Proof.
  destruct (stop_forgets_put fresh_leader put_a eq_refl eq_refl eq_refl eq_refl) as (schedule & H).
  - vm_compute. reflexivity.
  - exists schedule. destruct (run_threads _ _ _) as [ts n1]. destruct H as (Hts & Hn & Hruns).
    split_and!; [exact Hts|by rewrite Hn|by rewrite Hn|]. intros schedule2.
    specialize (Hruns "node1" 3%nat [{| gq_key := "a" |}] schedule2).
    destruct (run_threads _ _ _) as [ts2 n2]. destruct Hruns as [_ Hgets]. intros a Ha.
    destruct (Hgets 0%nat _ eq_refl) as (t & Ht & Hq). rewrite Ht in Ha. injection Ha as ->.
    exact (Hq a eq_refl).
Defined.
