(* ===== verification/ServiceSpec.v ===== *)
(** * What the server promises its clients

    Over any storage, a leader answers a sequence of requests as a map does: a
    [put] that is answered with success is seen by every later [get]; what is left
    after [stop]; what the constructor makes of a configuration; that no server
    starts on an engine that refuses the schema. *)

From S2P Require Import Prelude.
From S2P Require Import Java.
From S2P Require Import Messages.
From S2P Require Import RaftState.
From S2P Require Import Storage.
From S2P Require Import SQLiteStorage.
From S2P Require Import MemoryEngine.
From S2P Require Import StorageReplies.
From S2P Require Import StorageScript.
From S2P Require Import RaftNode.
From S2P Require Import RaftRefinement.
From S2P Require Import NodeRun.
From S2P Require Import RaftReplication.
From S2P Require Import RaftCommit.
From S2P Require Import KVStoreService.
From S2P Require Import LoneThreads.
From Stdlib Require Import Ascii.
From stdpp Require Import base gmap strings list.
From Stdlib Require Import Lia.
#[local] Open Scope Z_scope.

(** The answer of [get] for what the map holds. *)
Definition get_reply (value : option string) : GetResponse :=
  {| gr_value := default "" value; gr_found := bool_decide (is_Some value) |}.

(** ** Gets and puts *)

Section service.
Context {S : Type} `{HS : !Storage S} (R : S → AbsStorage → Prop) `{HR : !StorageRefines S R}.
Context `{HO : !HashOrder} `{HD : !Draws}.

Lemma refines_service_get rq : refines (node_rel R) eq (service_get (S:=S) rq) (service_get rq).
Proof.
  unfold service_get. eapply refines_bind; [apply refines_sto; apply ref_get|].
  intros a ? <-. by apply refines_ret.
Qed.

Lemma service_get_run (m : ANode) k :
  NodeRun.is_open m → service_get {| gq_key := k |} m = (m, Return (get_reply (kv m !! k))).
Proof.
  intros Ho. unfold service_get. erewrite bind_return; [done|].
  apply run_get. by apply (if_open_run _ Ho).
Qed.

Lemma get_of_rel (n : RaftNode S) (m : ANode) k :
  node_rel R n m → NodeRun.is_open m →
  ∃ n', service_get {| gq_key := k |} n = (n', Return (get_reply (kv m !! k))) ∧ node_rel R n' m.
Proof.
  intros Hrel Ho.
  exact (refines_return _ _ _ n m m _ (refines_service_get _) Hrel (service_get_run m k Ho)).
Qed.

(** *** One request after the other *)

Definition answer_request (rq : Request) : M jexn (RaftNode S) Answer :=
  match rq with
  | Get rq => GetAnswer <$> service_get rq
  | Put rq => PutAnswer <$> service_put rq
  end.

Fixpoint answer_requests (rqs : list Request) : M jexn (RaftNode S) (list Answer) :=
  match rqs with
  | [] => mret []
  | rq :: rqs' => a ← answer_request rq; l ← answer_requests rqs'; mret (a :: l)
  end.
End service.

(** The specification: what is visible, and what the log says.  A put makes both
    the same. *)
Fixpoint map_answers (visible logged : gmap string string) (rqs : list Request) : list Answer :=
  match rqs with
  | [] => []
  | Get rq :: rqs' => GetAnswer (get_reply (visible !! gq_key rq)) :: map_answers visible logged rqs'
  | Put rq :: rqs' =>
      let m := <[pq_key rq := pq_value rq]> logged in
      PutAnswer {| pr_success := true; pr_old_value := "" |} :: map_answers m m rqs'
  end.

Definition puts_key (k : string) (rq : Request) : Prop :=
  match rq with Put rq => pq_key rq = k | Get _ => False end.

Lemma map_answers_app l1 l2 : ∀ visible logged, ∃ visible' logged',
  map_answers visible logged (l1 ++ l2)
  = map_answers visible logged l1 ++ map_answers visible' logged' l2.
Proof.
  induction l1 as [|[rq|rq] l1 IH]; intros visible logged; simpl; [by eauto|..].
  - destruct (IH visible logged) as (m1 & m2 & E). exists m1, m2. by rewrite E.
  - destruct (IH (<[pq_key rq := pq_value rq]> logged) (<[pq_key rq := pq_value rq]> logged))
      as (m1 & m2 & E). exists m1, m2. by rewrite E.
Qed.

Lemma length_map_answers l : ∀ m1 m2, length (map_answers m1 m2 l) = length l.
Proof. induction l as [|[rq|rq] l IH]; intros m1 m2; simpl; [done|..]; by rewrite IH. Qed.

(** After a put of [k], up to the next one, a get of [k] shows its value. *)
Lemma map_answers_keep k v l : ∀ m,
  m !! k = Some v → Forall (λ rq, ¬ puts_key k rq) l →
  ∀ i, l !! i = Some (Get {| gq_key := k |}) →
  map_answers m m l !! i = Some (GetAnswer (get_reply (Some v))).
Proof.
  induction l as [|[rq|rq] l IH]; intros m Hm Hl i Hi; [done|..];
    apply Forall_cons in Hl as [Hk Hl]; destruct i as [|i]; simplify_eq/=.
  - by rewrite Hm.
  - by apply IH.
  - apply IH; [|done|done]. by rewrite lookup_insert_ne.
Qed.

Section requests.
Context {S : Type} `{HS : !Storage S} (R : S → AbsStorage → Prop) `{HR : !StorageRefines S R}.
Context `{HO : !HashOrder} `{HD : !Draws}.

Lemma refines_service_put rq : refines (node_rel R) eq (service_put (S:=S) rq) (service_put rq).
Proof.
  unfold service_put. eapply refines_bind; [apply refines_proposeEntry; apply HR|].
  intros a ? <-. by apply refines_ret.
Qed.

Lemma refines_answer_request rq :
  refines (node_rel R) eq (answer_request (S:=S) rq) (answer_request rq).
Proof.
  destruct rq as [rq|rq]; (eapply refines_bind;
    [first [by apply refines_service_get|by apply refines_service_put]|intros a ? <-; by apply refines_ret]).
Qed.

Lemma refines_answer_requests rqs :
  refines (node_rel R) eq (answer_requests (S:=S) rqs) (answer_requests rqs).
Proof.
  induction rqs as [|rq rqs IH]; cbn [answer_requests]; [by apply refines_ret|].
  eapply refines_bind; [apply refines_answer_request|].
  intros a ? <-. eapply refines_bind; [exact IH|]. intros l ? <-. by apply refines_ret.
Qed.

(** A leader, between two requests. *)
Record leads (m : ANode) : Prop := {
  ld_ok : leader_ok m;
  ld_role : role m = LEADER;
  ld_peers : peers_keyed m;
}.

Lemma leads_put m k v :
  leads m → 2 * (last_index (log m) + 1) < long_max →
  ∃ m', service_put {| pq_key := k; pq_value := v |} m
        = (m', Return {| pr_success := true; pr_old_value := "" |})
    ∧ leads m' ∧ log m' = log m ++ [log_entry (term m) k v] ∧ kv m' = replay (log m') ∅.
Proof.
  intros [H1 H2 H3] H4. destruct (proposeEntry_run m k v H1 H2 H3 H4) as (m' & Hrun & Hp).
  exists m'. split; [unfold service_put; by rewrite (bind_return _ _ _ _ _ Hrun)|].
  split; [|by destruct Hp]. split; [by destruct Hp|by rewrite (pp_state _ _ _ _ Hp)|].
  intros id info. rewrite (pp_peers _ _ _ _ Hp). apply H3.
Qed.

Lemma leads_answers rqs : ∀ m,
  leads m → 2 * (last_index (log m) + Z.of_nat (length rqs)) < long_max →
  ∃ m', answer_requests rqs m = (m', Return (map_answers (kv m) (replay (log m) ∅) rqs)).
Proof.
  induction rqs as [|rq rqs IH]; intros m Hm Hroom; [by exists m|].
  cbn [length] in Hroom. destruct rq as [[k]|[k v]]; cbn [answer_requests answer_request map_answers].
  - destruct (IH m Hm ltac:(lia)) as (m' & Hrun). exists m'.
    assert (Ho : NodeRun.is_open m) by by destruct (lo_inv _ (ld_ok _ Hm)).
    unfold fmap, M_fmap, mbind, M_bind. rewrite (service_get_run m k Ho). cbn. by rewrite Hrun.
  - destruct (leads_put m k v Hm ltac:(lia)) as (m1 & Hput & Hm1 & Hl & Hkv).
    destruct (IH m1 Hm1) as (m' & Hrun).
    { rewrite Hl, last_index_snoc. lia. }
    exists m'. unfold fmap, M_fmap, mbind, M_bind. rewrite Hput. cbn. rewrite Hrun.
    rewrite Hkv, Hl, replay_app. done.
Qed.

(** C2: over any storage that refines the abstract one, a leader answers every
    sequence of gets and puts as a map: every put succeeds, and from a put of a
    key on, whatever other requests come in between, every get of the key shows
    its value until the next put of it. *)
Theorem put_then_get (n : RaftNode S) (m : ANode) rqs :
  node_rel R n m → leader_ok m → role m = LEADER → peers_keyed m →
  2 * (last_index (log m) + Z.of_nat (length rqs)) < long_max →
  ∃ n' answers, answer_requests rqs n = (n', Return answers)
    ∧ answers = map_answers (kv m) (replay (log m) ∅) rqs
    ∧ (∀ i rq, rqs !! i = Some (Put rq) →
         answers !! i = Some (PutAnswer {| pr_success := true; pr_old_value := "" |}))
    ∧ ∀ before k v between after,
        rqs = before ++ Put {| pq_key := k; pq_value := v |} :: between
                     ++ Get {| gq_key := k |} :: after →
        Forall (λ rq, ¬ puts_key k rq) between →
        answers !! (length before + Datatypes.S (length between))%nat
        = Some (GetAnswer (get_reply (Some v))).
Proof.
  intros Hrel H1 H2 H3 H4. destruct (leads_answers rqs m) as (m' & Hrun); [by split|done|].
  destruct (refines_return (node_rel R) _ _ n m m' _ (refines_answer_requests rqs) Hrel Hrun)
    as (n' & Hrun' & _).
  exists n', (map_answers (kv m) (replay (log m) ∅) rqs). split_and!; [done|done|..].
  - generalize (kv m), (replay (log m) ∅). clear.
    induction rqs as [|[rq|rq] rqs IH]; intros m1 m2 [|i] rq' Hi; simplify_eq/=; eauto.
  - intros before k v between after -> Hb.
    destruct (map_answers_app before (Put {| pq_key := k; pq_value := v |} :: between
      ++ Get {| gq_key := k |} :: after) (kv m) (replay (log m) ∅)) as (m1 & m2 & ->).
    rewrite lookup_app_r by (rewrite length_map_answers; lia). rewrite length_map_answers.
    replace (_ - _)%nat with (Datatypes.S (length between)) by lia. cbn [map_answers lookup list_lookup].
    set (m3 := <[k := v]> m2).
    destruct (map_answers_app (between ++ [Get {| gq_key := k |}]) after m3 m3) as (m4 & m5 & E).
    rewrite <-app_assoc in E. cbn [app] in E. simpl. fold m3. rewrite E.
    apply lookup_app_l_Some, (map_answers_keep k v); [by apply lookup_insert_eq| |].
    + apply Forall_app. split; [done|]. constructor; [by intros []|constructor].
    + by apply list_lookup_middle.
Qed.
End requests.

(** ** The server after [stop] *)

(** What JDBC documents about the end of a connection: when [close] has returned
    the connection is closed, and a statement on a closed connection is an
    [SQLException]. *)
Class ClosedConnection {DB : Type} (db : JDBC DB) : Type := {
  connection_closed : DB → Prop;
  close_closes s s' : disconnect db s = (s', Return ()) → connection_closed s';
  closed_fails q args s :
    connection_closed s → ∃ msg, execute db q args s = (s, Throw (SQLException msg));
}.

Section server.
Context {DB : Type} (db : JDBC DB) `{HC : !ClosedConnection db}.
Context `{HO : !HashOrder} `{HD : !Draws}.
#[local] Instance node_storage : Storage DB := SQLite_Storage db.
Implicit Types n : RaftNode DB.

Lemma closed_get_run n rq :
  connection_closed (storage n) → service_get rq n = (n, Return (get_reply None)).
Proof.
  intros Hc. unfold service_get. erewrite bind_return; [done|]. unfold sto, zoom, storage_get. simpl.
  unfold sqlite_get. rewrite (query_fails db _ _ _ _ _ (storage n)) by by apply closed_fails.
  by destruct n.
Qed.

Lemma closed_put_run n rq :
  currentRole (state n) = LEADER → connection_closed (storage n) →
  service_put rq n = (n, Throw (RuntimeException "Failed to append log entry")).
Proof.
  intros Hr Hc. unfold service_put. apply bind_throw. unfold proposeEntry. mstep.
  rewrite bool_decide_eq_false_2 by (by intros []). mstep. apply bind_throw.
  unfold sto, zoom, appendLogEntry. simpl. unfold sqlite_appendLogEntry.
  rewrite (update_fails db _ _ _ _ _ (storage n)) by by apply closed_fails. by destruct n.
Qed.

Lemma refused_put_run n rq :
  currentRole (state n) ≠ LEADER →
  service_put rq n = (n, Return {| pr_success := false; pr_old_value := "" |}).
Proof.
  intros Hr. unfold service_put.
  by rewrite (bind_return _ _ _ _ _ (proposeEntry_not_leader n (pq_key rq) (pq_value rq) Hr)).
Qed.

Lemma closed_tick_run n :
  currentRole (state n) ≠ LEADER → connection_closed (storage n) →
  (leaderElectionTask n).2 = Throw (RuntimeException "Failed to get log index").
Proof.
  intros Hr Hc. unfold leaderElectionTask. mstep. rewrite bool_decide_eq_true_2 by done.
  unfold startElection. do 2 mstep. set (n1 := set_votedFor _ _).
  assert (Hi : sto getLastLogIndex n1 = (n1, Throw (RuntimeException "Failed to get log index"))).
  { unfold sto, zoom. change (getLastLogIndex (storage n1)) with (sqlite_getLastLogIndex db (storage n)).
    by rewrite (lastIndex_fails db _ (storage n)) by by apply closed_fails. }
  by rewrite (bind_throw _ _ _ _ _ Hi).
Qed.

(** C31: [stop] closes the storage under a node that keeps running: nothing of
    the node changes but its storage, and its periodic tasks go on.  Every key is
    then answered as not found; a put fails with an exception on a leader and is
    answered [false] by another node, whose next election throws, which ends its
    periodic task. *)
Theorem stopped_server (srv : KVStoreServer DB) s' :
  disconnect db (storage (srv_node srv)) = (s', Return ()) →
  let n := set_storage s' (srv_node srv) in
  server_stop db srv = (mkServer (srv_port srv) n false (srv_tasks srv), Return ())
  ∧ (∀ rq, service_get rq n = (n, Return (get_reply None)))
  ∧ (currentRole (state n) = LEADER → ∀ rq,
       service_put rq n = (n, Throw (RuntimeException "Failed to append log entry")))
  ∧ (currentRole (state n) ≠ LEADER →
       (∀ rq, service_put rq n = (n, Return {| pr_success := false; pr_old_value := "" |}))
       ∧ (leaderElectionTask n).2 = Throw (RuntimeException "Failed to get log index")).
Proof.
  intros Hd n. assert (Hc : connection_closed (storage n)) by by eapply close_closes.
  split_and!.
  - unfold server_stop. rewrite (bind_return _ _ _ _ _ (modify_run _ _)).
    unfold zoom, sto, zoom, storage_close. simpl. unfold sqlite_close, catch_sql, sql. by rewrite Hd.
  - intros rq. by apply closed_get_run.
  - intros Hr rq. by apply closed_put_run.
  - intros Hr. split; [intros rq; by apply refused_put_run|by apply closed_tick_run].
Qed.
End server.

(** ** Construction *)

Lemma peer_map_lookup ids id :
  peer_map ids !! id = if decide (id ∈ ids) then Some (mkNodeInfo id "localhost" 50051) else None.
Proof.
  unfold peer_map.
  assert (H : ∀ m : gmap string NodeInfo,
    foldl (λ m id, <[id := mkNodeInfo id "localhost" 50051]> m) m ids !! id
    = if decide (id ∈ ids) then Some (mkNodeInfo id "localhost" 50051) else m !! id); [|apply H].
  induction ids as [|x ids IH]; intros m; cbn [foldl]; [by rewrite decide_False by set_solver|].
  rewrite IH. destruct (decide (id ∈ ids)); [by rewrite decide_True by set_solver|].
  rewrite lookup_insert. repeat case_decide; subst; set_solver.
Qed.

Lemma channels_lookup ids id ch :
  initializeGrpcChannels (peer_map ids) ids !! id = Some ch →
  ch = mkChannel "localhost" 50051 false.
Proof.
  unfold initializeGrpcChannels.
  assert (Hall : ∀ l (m : gmap string Channel),
    (∀ id ch, m !! id = Some ch → ch = mkChannel "localhost" 50051 false) →
    foldl (λ m id, match peer_map ids !! id with
                   | Some info => <[id := mkChannel (ni_host info) (ni_port info) false]> m
                   | None => m
                   end) m l !! id = Some ch → ch = mkChannel "localhost" 50051 false).
  { induction l as [|x l IH]; intros m Hm; simpl; [apply Hm|]. apply IH.
    intros i c. rewrite peer_map_lookup. case_decide; [|apply Hm]. simpl.
    rewrite lookup_insert. case_decide; [congruence|apply Hm]. }
  apply Hall. intros i c. by rewrite lookup_empty.
Qed.

Lemma java_split_two host p :
  has_char ":"%char host = false → has_char ":"%char p = false →
  java_split ":"%char (String.app host (String ":" p)) !! 1%nat
  = if String.eqb p "" then None else Some p.
Proof.
  intros Hh Hp. unfold java_split. rewrite split_on_app by done. rewrite split_on_no_sep by done.
  simpl. destruct (String.eqb p ""); [|done]. by destruct (String.eqb host "").
Qed.

Section construction.
Context {DB : Type} (db : JDBC DB).

Lemma server_port_of host p :
  has_char ":"%char host = false → has_char ":"%char p = false →
  server_port (Some (String.app host (String ":" p)))
  = if String.eqb p "" then inl ArrayIndexOutOfBoundsException
    else match parseInt p with Some z => inr z | None => inl NumberFormatException end.
Proof.
  intros Hh Hp. unfold server_port. rewrite java_split_two by done. by destruct (String.eqb p "").
Qed.

(** The server that the constructor makes of a port and an open storage. *)
Definition built (z : Z) (id : string) (peers : list string) (s : DB) : KVStoreServer DB :=
  mkServer z (newRaftNode id peers s) false [].

(** C29: the port of the server is what follows the colon of its id.  An id
    without a port, or with one that is no [int], ends the constructor with the
    exception of that step before the storage is touched; an exception of the
    storage passes; a port that is no TCP port ends it after the storage is open
    and stays open.  A node that is built starts as a follower of term 0, and its
    channels all lead to localhost:50051, whatever the peers. *)
Theorem server_of_config host p peers path s :
  has_char ":"%char host = false → has_char ":"%char p = false →
  let id := String.app host (String ":" p) in
  let new id := newKVStoreServer db (mkServerConfig id peers path) s in
  new None = (s, Throw NullPointerException)
  ∧ new (Some host) = (s, Throw ArrayIndexOutOfBoundsException)
  ∧ (parseInt p = None → new (Some id)
       = (s, Throw (if String.eqb p "" then ArrayIndexOutOfBoundsException else NumberFormatException)))
  ∧ (∀ z, parseInt p = Some z →
       (∀ s' e, open_storage db path s = (s', Throw e) → new (Some id) = (s', Throw e))
       ∧ ∀ s', open_storage db path s = (s', Return ()) →
           (¬ 0 ≤ z ≤ 65535 → new (Some id) = (s', Throw IllegalArgumentException))
           ∧ (0 ≤ z ≤ 65535 → new (Some id) = (s', Return (built z id peers s'))))
  ∧ ∀ z s', let n := srv_node (built z id peers s') in
      state n = newRaftState ∧ votedFor n = None
      ∧ (∀ i, is_Some (RaftNode.peers n !! i) ↔ i ∈ peers)
      ∧ ∀ i ch, grpcChannels n !! i = Some ch → ch = mkChannel "localhost" 50051 false.
Proof.
  intros Hh Hp id new. pose proof (server_port_of host p Hh Hp) as Hport. fold id in Hport.
  subst new. cbv beta. split_and!.
  - done.
  - unfold newKVStoreServer, server_port. cbn [cfg_nodeId]. by rewrite java_split_no_sep.
  - intros Hpi. unfold newKVStoreServer. cbn [cfg_nodeId]. rewrite Hport, Hpi.
    by destruct (String.eqb p "").
  - intros z Hz. unfold newKVStoreServer. cbn [cfg_nodeId cfg_storagePath cfg_peers]. rewrite Hport.
    destruct (String.eqb p "") eqn:Hpe; [by apply String.eqb_eq in Hpe as ->|]. rewrite Hz. split.
    + intros s' e Hrun. by rewrite (bind_throw _ _ _ _ _ Hrun).
    + intros s' Hrun. rewrite (bind_return _ _ _ _ _ Hrun). unfold forPort. mstep. cbv zeta.
      split; intros Hr.
      * destruct (Z.leb_spec 0 z), (Z.leb_spec z 65535); try done. lia.
      * by rewrite (proj2 (Z.leb_le 0 z)), (proj2 (Z.leb_le z 65535)) by lia.
  - intros z s'. split_and!; [done..| |].
    + intros i. cbn -[peer_map]. rewrite peer_map_lookup. case_decide; split; try done.
    + intros i ch. apply channels_lookup.
Qed.

(** *** On an engine that refuses the schema *)

(** SQL's grammar: [index] is a keyword, and no name for a column. *)
Definition refuses_index : Prop :=
  ∀ s, ∃ s' msg, execute db CREATE_LOGS [] s = (s', Throw (SQLException msg)).

Lemma refused_storage url s x : refuses_index → (SQLiteStorage db url s).2 ≠ Return x.
Proof.
  intros Href. unfold SQLiteStorage, initializeDatabase, catch_sql, createConnection, mbind, M_bind, sql.
  destruct (connect db url s) as [s1 [[]|e|]]; try done. simpl.
  destruct (execute db CREATE_KV [] s1) as [s2 [g|e|]]; try done.
  destruct (Href s2) as (s3 & msg & ->). done.
Qed.

Lemma refused_server config s srv : refuses_index → (newKVStoreServer db config s).2 ≠ Return srv.
Proof.
  intros Href. unfold newKVStoreServer. destruct (server_port _) as [e|z]; [done|].
  unfold mbind at 1, M_bind at 1. unfold open_storage. destruct (cfg_storagePath config) as [url|]; [|done].
  pose proof (refused_storage url s () Href) as Hs.
  destruct (SQLiteStorage db url s) as [s' [[]|e|]]; done.
Qed.

(** C36: on an engine that refuses [index] as the name of a column no server ever
    starts: whatever the arguments, the configuration and the file, [main] never
    gets to a server; with a configuration that is right in all else it ends with
    the exception of [initializeDatabase], and the table of keys and values is
    all that has been created. *)
Theorem index_keyword_blocks_start files can_bind args s :
  refuses_index →
  (∀ srv, (server_main db files can_bind args s).2 ≠ Return (Some srv))
  ∧ ∀ path props id peers port url s1 s2 g,
      args = [path] → files path = Some props →
      props !! "node.id" = Some id → props !! "peers" = Some peers →
      props !! "storage.path" = Some url → server_port (Some id) = inr port →
      connect db url s = (s1, Return ()) → execute db CREATE_KV [] s1 = (s2, Return g) →
      ∃ s3 msg, execute db CREATE_LOGS [] s2 = (s3, Throw (SQLException msg))
        ∧ server_main db files can_bind args s
          = (s3, Throw (RuntimeException "Failed to initialize database tables")).
Proof.
  intros Href. split.
  - intros srv. destruct args as [|path [|]]; try done. unfold server_main.
    destruct (newServerConfig (files path)) as [e|config]; [done|].
    unfold mbind, M_bind. pose proof (refused_server config s) as Hs.
    destruct (newKVStoreServer db config s) as [s' [srv'|e|]]; [by destruct (Hs srv' Href)|done..].
  - intros path props id peers port url s1 s2 g -> Hfile Hid Hpeers Hurl Hport Hconn Hkv.
    destruct (Href s2) as (s3 & msg & Hlogs). exists s3, msg. split; [done|].
    assert (Hopen : SQLiteStorage db url s
      = (s3, Throw (RuntimeException "Failed to initialize database tables"))).
    { unfold SQLiteStorage, initializeDatabase, catch_sql, createConnection, mbind, M_bind, sql.
      rewrite Hconn. simpl. by rewrite Hkv, Hlogs. }
    unfold server_main, newServerConfig. rewrite Hfile, Hpeers. apply bind_throw.
    unfold newKVStoreServer. cbn [cfg_nodeId cfg_storagePath]. rewrite Hid, Hport, Hurl.
    by apply bind_throw.
Qed.
End construction.

(** ** A server on the in-memory engine *)

#[local] Existing Instance zero_draws.

Lemma put_then_get_witness :
  ∃ n' answers, answer_requests
      [Get {| gq_key := "c" |}; Put {| pq_key := "d"; pq_value := "4" |}; Get {| gq_key := "c" |};
       Put {| pq_key := "e"; pq_value := "5" |}; Get {| gq_key := "d" |}] leader = (n', Return answers)
    ∧ answers !! 4%nat = Some (GetAnswer (get_reply (Some "4"))).
Proof.
  destruct (put_then_get eq leader leader
    [Get {| gq_key := "c" |}; Put {| pq_key := "d"; pq_value := "4" |}; Get {| gq_key := "c" |};
     Put {| pq_key := "e"; pq_value := "5" |}; Get {| gq_key := "d" |}])
    as (n' & answers & H1 & _ & _ & H2).
  - split; reflexivity.
  - exact leader_leader_ok.
  - reflexivity.
  - exact leader_peers_keyed.
  - vm_compute. reflexivity.
  - exists n', answers. split; [exact H1|].
    apply (H2 [Get {| gq_key := "c" |}] "d" "4"
      [Get {| gq_key := "c" |}; Put {| pq_key := "e"; pq_value := "5" |}] [] eq_refl).
    constructor; [by intros []|]. constructor; [by intros [=]|constructor].
Defined.

Lemma server_of_config_witness :
  (∃ s srv, newKVStoreServer mem_jdbc (mkServerConfig (Some "127.0.0.1:50052")
       ["127.0.0.1:50053"; "127.0.0.1:50054"] (Some "db")) mem_empty = (s, Return srv)
     ∧ srv_port srv = 50052)
  ∧ (newKVStoreServer mem_jdbc (mkServerConfig (Some "host:70000") [] (Some "db")) mem_empty).2
    = Throw IllegalArgumentException.
Proof.
  destruct (server_of_config mem_jdbc "127.0.0.1" "50052" ["127.0.0.1:50053"; "127.0.0.1:50054"]
    (Some "db") mem_empty) as (_ & _ & _ & H & _); [reflexivity..|].
  destruct (server_of_config mem_jdbc "host" "70000" [] (Some "db") mem_empty)
    as (_ & _ & _ & H' & _); [reflexivity..|].
  destruct (H 50052 eq_refl) as [_ H1]. destruct (H' 70000 eq_refl) as [_ H2].
  set (s := (open_storage mem_jdbc (Some "db") mem_empty).1).
  destruct (H1 s ltac:(vm_compute; reflexivity)) as [_ H3].
  destruct (H2 s ltac:(vm_compute; reflexivity)) as [H4 _]. split.
  - eexists _, _. split; [exact (H3 ltac:(lia))|reflexivity].
  - apply (f_equal snd (H4 ltac:(lia))).
Defined.

Lemma index_keyword_blocks_start_witness :
  (server_main keyword_jdbc (λ _, Some {["node.id" := "h:1"; "peers" := ","; "storage.path" := "db"]})
     (λ _, true) ["config.txt"] mem_empty).2
  = Throw (RuntimeException "Failed to initialize database tables").
Proof.
  destruct (index_keyword_blocks_start keyword_jdbc
    (λ _, Some {["node.id" := "h:1"; "peers" := ","; "storage.path" := "db"]}) (λ _, true)
    ["config.txt"] mem_empty) as [_ H].
  - intros s. eexists _, _. reflexivity.
  - destruct (H "config.txt" {["node.id" := "h:1"; "peers" := ","; "storage.path" := "db"]}
      "h:1" "," 1 "db" (mkMem no_tables true)
      (execute mem_jdbc CREATE_KV [] (mkMem no_tables true)).1 (Updated [])
      eq_refl eq_refl eq_refl eq_refl eq_refl eq_refl eq_refl eq_refl) as (s3 & msg & _ & E).
    by rewrite E.
Defined.

#[local] Instance mem_closed : ClosedConnection mem_jdbc.
Proof.
  refine {| connection_closed := λ s, mem_open s = false |}.
  - intros [t o] s' [= <-]. reflexivity.
  - intros q args [t o] Ho. simpl in Ho. subst o. eexists. reflexivity.
Defined.

Lemma stopped_server_witness :
  ∃ srv srv', server_stop mem_jdbc srv = (srv', Return ())
    ∧ service_get (HS := SQLite_Storage mem_jdbc) {| gq_key := "a" |} (srv_node srv')
      = (srv_node srv', Return (get_reply None)).
Proof.
  set (srv := mkServer 50052 (newRaftNode "127.0.0.1:50052" ["127.0.0.1:50053"]
    (SQLiteStorage mem_jdbc "db" mem_empty).1) true node_start).
  destruct (stopped_server mem_jdbc srv
    (mkMem (mem_tables (SQLiteStorage mem_jdbc "db" mem_empty).1) false)) as (H1 & H2 & _).
  - vm_compute. reflexivity.
  - eexists srv, _. split; [exact H1|]. exact (H2 _).
Defined.
