(* ===== verification/JavaTests.v ===== *)
(** * The unit tests of the server

    [server/src/test/java/com/kvstore/]: the assertions of the four test
    classes, evaluated on the model.  A Mockito mock is an instance of the
    interface it stands for that records its calls: a method answers what
    [when ... thenReturn] says, and otherwise 0, null or an empty list. *)

From S2P Require Import Prelude.
From S2P Require Import Java.
From S2P Require Import Messages.
From S2P Require Import RaftState.
From S2P Require Import Storage.
From S2P Require Import SQLiteStorage.
From S2P Require Import RaftNode.
From S2P Require Import KVStoreService.
From stdpp Require Import base gmap strings list.
#[local] Open Scope Z_scope.

(** ** mock(SQLiteStorage.class) *)

(** The calls that write, and the stubs of the calls that read. *)
Inductive MockCall : Type :=
| AppendLogEntry (e : LogEntry)
| SetCommitIndex (i : Z)
| SetLastApplied (i : Z)
| DeleteLogEntriesFrom (i : Z)
| UpdateKeyValue (k v : string)
| CloseStorage.

Record Stubs : Type := mkStubs {
  on_append : Z;
  on_getLogEntry : Z → option LogEntry;
  on_lastLogIndex : Z;
  on_lastLogTerm : Z;
  on_commitIndex : Z;
  on_get : string → option string;
}.

(** The mock, with its calls in the order they were made. *)
Record MockStorage : Type := mkMock { mk_stubs : Stubs; mk_calls : list MockCall }.

Definition mock_call {A} (c : MockCall) (answer : Stubs → A) : M jexn MockStorage A :=
  modify (λ m, mkMock (mk_stubs m) (mk_calls m ++ [c]));; gets (λ m, answer (mk_stubs m)).
Definition mock_read {A} (answer : Stubs → A) : M jexn MockStorage A :=
  gets (λ m, answer (mk_stubs m)).

#[local] Instance Mock_Storage : Storage MockStorage := {
  appendLogEntry e := mock_call (AppendLogEntry e) on_append;
  getLogEntries _ _ := mock_read (λ _, []);
  getLogEntry i := mock_read (λ s, on_getLogEntry s i);
  getLastLogIndex := mock_read on_lastLogIndex;
  getLastLogTerm := mock_read on_lastLogTerm;
  getCommitIndex := mock_read on_commitIndex;
  setCommitIndex i := mock_call (SetCommitIndex i) (λ _, ());
  getLastApplied := mock_read (λ _, 0);
  setLastApplied i := mock_call (SetLastApplied i) (λ _, ());
  deleteLogEntriesFrom i := mock_call (DeleteLogEntriesFrom i) (λ _, ());
  updateKeyValue k v := mock_call (UpdateKeyValue k v) (λ _, ());
  storage_get k := mock_read (λ s, on_get s k);
  storage_close := mock_call CloseStorage (λ _, ());
}.

(** The log entries passed to [appendLogEntry]. *)
Definition appended (m : MockStorage) : list LogEntry :=
  omap (λ c, match c with AppendLogEntry e => Some e | _ => None end) (mk_calls m).

Definition no_stubs : Stubs := mkStubs 0 (λ _, None) 0 0 0 (λ _, None).
Definition mockStorage (s : Stubs) : MockStorage := mkMock s [].

(** ** RaftStateTest *)

Example state_testInitialState :
  currentRole newRaftState = FOLLOWER ∧ currentTerm newRaftState = 0.
Proof. done. Qed.
Example state_testBecomeCandidate :
  currentRole (becomeCandidate newRaftState) = CANDIDATE
  ∧ currentTerm (becomeCandidate newRaftState) = 1.
Proof. done. Qed.
Example state_testBecomeLeader : currentRole (becomeLeader newRaftState) = LEADER.
Proof. done. Qed.
Example state_testBecomeFollower :
  currentRole (becomeFollower 5 newRaftState) = FOLLOWER
  ∧ currentTerm (becomeFollower 5 newRaftState) = 5.
Proof. done. Qed.

(** ** RaftNodeTest *)

Section node_tests.
Context `{HD : !Draws}.

Definition test_node (s : Stubs) : RaftNode MockStorage :=
  newRaftNode "node1" ["node2"; "node3"; "node4"] (mockStorage s).

Example node_testInitialState :
  let n := test_node no_stubs in
  currentRole (state n) = FOLLOWER
  ∧ (getCurrentTerm n).2 = Return 0 ∧ (getVotedFor n).2 = Return None.
Proof. done. Qed.

Example node_testStartElection :
  let n := (startElection (test_node no_stubs)).1 in
  currentRole (state n) = CANDIDATE
  ∧ (getCurrentTerm n).2 = Return 1 ∧ (getVotedFor n).2 = Return (Some "node1").
Proof. vm_compute. done. Qed.

(** [testAsyncStartElection] reads the node while the tasks of the election may
    be running on the pool, in any order: nobody listens on the channels, so the
    calls of the bodies fail. *)
Definition no_server (_ : Channel) (_ : RequestVoteRequest) : option RequestVoteResponse := None.
Definition run_body (n : RaftNode MockStorage) (t : VoteTask) : RaftNode MockStorage :=
  (requestVoteBody no_server t n).1.

Lemma run_body_same n t : state (run_body n t) = state n ∧ votedFor (run_body n t) = votedFor n.
Proof.
  unfold run_body, requestVoteBody, lockRead. mstep.
  unfold try_finally, requestVote_locked, try_catch.
  destruct n as [id ps st rs sch wp chs ni mi [w r] vf et d]. mstep. cbn.
  by destruct (chs !! ni_id (vt_peer t)).
Qed.

Lemma node_testAsyncStartElection (running : list VoteTask) :
  let n := foldl run_body (startElection (test_node no_stubs)).1 running in
  (currentRole (state n) = CANDIDATE ∨ currentRole (state n) = LEADER)
  ∧ (getCurrentTerm n).2 = Return 1 ∧ (getVotedFor n).2 = Return (Some "node1").
Proof.
  cbv zeta. set (n0 := (startElection (test_node no_stubs)).1).
  assert (H0 : state n0 = mkRaftState CANDIDATE 1 None ∧ votedFor n0 = Some "node1")
    by (vm_compute; done).
  clearbody n0. unfold getCurrentTerm, getVotedFor. rewrite !gets_run. cbn [snd].
  revert n0 H0. induction running as [|t ts IH]; intros n0 [Hs Hv]; cbn [foldl].
  - rewrite Hs, Hv. auto.
  - apply IH. destruct (run_body_same n0 t) as [-> ->]. done.
Qed.

(** The mock's log stays empty, so a commit is never due: what is shown is
    that a call reaches [appendLogEntry] once. *)
Example node_testProposeEntry :
  let n := on_state becomeLeader (test_node (mkStubs 1 (λ _, None) 0 0 0 (λ _, None))) in
  let r := proposeEntry "testKey" "testValue" n in
  r.2 = Return true
  ∧ appended (storage r.1) = [log_entry 0 "testKey" "testValue"].
Proof. vm_compute. done. Qed.

Example node_testAppendEntries :
  let r := appendEntries "leader" 1 0 0 [log_entry 1 "testKey" "testValue"] 0
             (test_node no_stubs) in
  r.2 = Return true
  ∧ appended (storage r.1) = [log_entry 1 "testKey" "testValue"].
Proof. vm_compute. done. Qed.

(** ** KVStoreServiceImplTest *)

(** The service reads the storage of its node; [testPut] has a mock of the
    node that accepts every proposal, here it is a node that leads. *)
Example service_testGet :
  let stubs := mkStubs 0 (λ _, None) 0 0 0
                 (λ k, if bool_decide (k = "testKey") then Some "testValue" else None) in
  (service_get {| gq_key := "testKey" |} (test_node stubs)).2
  = Return {| gr_value := "testValue"; gr_found := true |}.
Proof. vm_compute. done. Qed.

Example service_testPut :
  let n := on_state becomeLeader (test_node no_stubs) in
  (service_put {| pq_key := "testKey"; pq_value := "testValue" |} n).2
  = Return {| pr_success := true; pr_old_value := "" |}.
Proof. vm_compute. done. Qed.
End node_tests.

(** ** SQLiteStorageTest *)

(** The mock of the connection and of its statements: it records every
    statement with its parameters, and a query has a row with [value]. *)
Definition mockConnection : JDBC (list (string * list sqlval)) := {|
  connect _ := mret ();
  execute q args :=
    modify (λ calls, calls ++ [(q, args)]);;
    mret (if bool_decide (q = SELECT_KV) then Rows [[("value", SText "testValue")]]
          else Updated []);
  disconnect := mret ();
  long_of_text _ := 0;
  text_of_long _ := "";
|}.

(** After the four statements of the constructor, [setString(1, "testKey")]
    is called twice, [setString(2, "testValue")], [executeUpdate] and
    [executeQuery] once. *)
Example sqlite_testPutAndGet :
  let r := (SQLiteStorage mockConnection "jdbc:sqlite::memory:";;
            sqlite_put mockConnection "testKey" "testValue";;
            sqlite_get mockConnection "testKey") [] in
  r.2 = Return (Some "testValue")
  ∧ drop 4 r.1 = [(REPLACE_KV, [SText "testKey"; SText "testValue"]);
                  (SELECT_KV, [SText "testKey"])].
Proof. vm_compute. done. Qed.
