(* ===== verification/DurableMap.v ===== *)
(** * A map that survives crashes

    What a server of one node promises a client that sends its requests one
    after the other, to a process that may stop at any point of a [put] and
    start again: a map of settled writes, the writes of interrupted puts that
    are logged and not settled, and what is visible of both. *)

From S2P Require Import Prelude.
From S2P Require Import Messages.
From S2P Require Import Storage.
From stdpp Require Import base gmap strings list.
From Stdlib Require Import Lia.

(** ** The events of a client and the operator, and the answers *)

Inductive event : Type :=
| EGet (k : string)
| EPut (k v : string)
(** The process stops after so many accesses of a [put], and starts again. *)
| ECrash (accesses : nat) (k v : string).

Inductive reply : Type :=
| RGet (value : option string)
| RPut
| RRestarted.

(** ** The specification *)

Abbreviation write := (string * string)%type.
Definition write_all (ws : list write) (m : gmap string string) : gmap string string :=
  foldl (λ m w, <[w.1 := w.2]> m) m ws.

Record Durable : Type := mkDurable {
  settled : gmap string string;
  pending : list write;
  visible : gmap string string;
}.

(** A key shows its settled value or one of its pending ones. *)
Definition shows (sure : gmap string string) (ws : list write) (m : gmap string string) : Prop :=
  ∀ k, m !! k = sure !! k ∨ ∃ v, (k, v) ∈ ws ∧ m !! k = Some v.

(** A put settles everything.  A crash of a put loses it or keeps it pending,
    settles the pending writes up to some point, and shows what it likes of the
    others. *)
Inductive durable_step : Durable → event → reply → Durable → Prop :=
| durable_get d k : durable_step d (EGet k) (RGet (visible d !! k)) d
| durable_put d k v m :
    m = write_all (pending d ++ [(k, v)]) (settled d) →
    durable_step d (EPut k v) RPut (mkDurable m [] m)
| durable_crash d i k v new ws rest m :
    new = [] ∨ new = [(k, v)] → pending d ++ new = ws ++ rest →
    shows (write_all ws (settled d)) rest m →
    durable_step d (ECrash i k v) RRestarted (mkDurable (write_all ws (settled d)) rest m).

Inductive durable_steps : Durable → list event → list reply → Durable → Prop :=
| durable_nil d : durable_steps d [] [] d
| durable_cons d d' d'' e es r rs :
    durable_step d e r d' → durable_steps d' es rs d'' → durable_steps d (e :: es) (r :: rs) d''.

Definition new_durable : Durable := mkDurable ∅ [] ∅.

(** ** What it means for a client *)

Lemma write_all_app ws ws' m : write_all (ws ++ ws') m = write_all ws' (write_all ws m).
Proof. apply foldl_app. Qed.

Lemma write_all_other ws k m : k ∉ ws.*1 → write_all ws m !! k = m !! k.
Proof.
  revert m. induction ws as [|[k' v] ws IH]; intros m; [done|]. csimpl. intros Hk.
  apply not_elem_of_cons in Hk as [Hne Hk]. rewrite IH by done. by rewrite lookup_insert_ne.
Qed.

Lemma write_all_last ws k v m : write_all (ws ++ [(k, v)]) m !! k = Some v.
Proof. rewrite write_all_app. simpl. apply lookup_insert_eq. Qed.

Lemma shows_other sure ws m k : shows sure ws m → k ∉ ws.*1 → m !! k = sure !! k.
Proof.
  intros Hs Hk. destruct (Hs k) as [|(v & Hv & _)]; [done|]. destruct Hk.
  apply list_elem_of_fmap. by exists (k, v).
Qed.

Lemma shows_nil sure m : shows sure [] m → m = sure.
Proof. intros Hs. apply map_eq. intros k. apply (shows_other _ _ _ _ Hs). by intros ?%elem_of_nil. Qed.

(** The next pending write is made visible, and then counts as settled. *)
Lemma shows_write sure k v ws m :
  shows sure ((k, v) :: ws) m → shows (<[k := v]> sure) ws (<[k := v]> m).
Proof.
  intros Hs k'. destruct (decide (k' = k)) as [->|Hne]; [left; by rewrite !lookup_insert_eq|].
  rewrite !lookup_insert_ne by done. destruct (Hs k') as [?|(v' & Hv & ?)]; [by left|]. right.
  exists v'. apply elem_of_cons in Hv as [?|?]; [congruence|done].
Qed.

Lemma shows_pending sure k v ws m :
  (k, v) ∈ ws → shows sure ws m → shows sure ws (<[k := v]> m).
Proof.
  intros Hkv Hs k'. destruct (decide (k' = k)) as [->|Hne].
  - right. exists v. by rewrite lookup_insert_eq.
  - rewrite lookup_insert_ne by done. apply Hs.
Qed.

Lemma shows_more sure ws ws' m : shows sure ws m → shows sure (ws ++ ws') m.
Proof.
  intros Hs k. destruct (Hs k) as [|(v & ? & ?)]; [by left|]. right. exists v.
  split; [|done]. apply elem_of_app. by left.
Qed.

Definition event_key (e : event) : option string :=
  match e with EGet _ => None | EPut k _ | ECrash _ k _ => Some k end.

(** The key [k] has the value [v], whatever is visible of pending writes. *)
Record holds (k v : string) (d : Durable) : Prop := {
  h_settled : settled d !! k = Some v;
  h_pending : k ∉ (pending d).*1;
  h_visible : visible d !! k = Some v;
}.

Lemma holds_step k v d e r d' :
  holds k v d → event_key e ≠ Some k → durable_step d e r d' → holds k v d'.
Proof.
  intros [H1 H2 H3] He Hs. destruct Hs as [d k'|d k' v' m ->|d i k' v' new ws rest m Hnew Hws Hm];
    simpl in *.
  - by split.
  - assert (k ∉ (pending d ++ [(k', v')]).*1).
    { rewrite fmap_app, elem_of_app. intros [?|Hk%list_elem_of_singleton]; [done|simpl in Hk; congruence]. }
    split; simpl; [|by intros ?%elem_of_nil|]; by rewrite write_all_other.
  - assert (Hk : k ∉ (ws ++ rest).*1).
    { rewrite <-Hws, fmap_app, elem_of_app. intros [?|Hk]; [done|].
      destruct Hnew as [-> | ->]; [by apply elem_of_nil in Hk|].
      apply list_elem_of_singleton in Hk. simpl in Hk. congruence. }
    rewrite fmap_app, not_elem_of_app in Hk. destruct Hk as [Hk1 Hk2].
    split; simpl; [by rewrite write_all_other|done|].
    rewrite (shows_other _ _ _ _ Hm) by done. by rewrite write_all_other.
Qed.

Lemma holds_steps k v d es rs d' :
  holds k v d → Forall (λ e, event_key e ≠ Some k) es → durable_steps d es rs d' → holds k v d'.
Proof.
  intros Hd Hes Hs. induction Hs as [|d d1 d2 e es r rs He _ IH]; [done|].
  apply Forall_cons in Hes as [? ?]. apply IH; [|done]. by eapply holds_step.
Qed.

Lemma durable_steps_app d es1 es2 rs d' :
  durable_steps d (es1 ++ es2) rs d' → ∃ rs1 rs2 d1,
    rs = rs1 ++ rs2 ∧ durable_steps d es1 rs1 d1 ∧ durable_steps d1 es2 rs2 d'
    ∧ length rs1 = length es1.
Proof.
  revert d rs. induction es1 as [|e es1 IH]; intros d rs H; simpl in H.
  - exists [], rs, d. split_and!; [done|constructor|done|done].
  - inversion H as [|? d0 ? ? ? r rs' Hs Hss]; subst.
    destruct (IH _ _ Hss) as (rs1 & rs2 & d1 & -> & ? & ? & ?).
    exists (r :: rs1), rs2, d1. split_and!; [done| |done|simpl; lia]. by econstructor.
Qed.

(** A put that was answered is what every later get of the key answers, until
    the next put of that key, interrupted or not. *)
Lemma durable_put_survives d es1 k v es2 rs d' :
  Forall (λ e, event_key e ≠ Some k) es2 →
  durable_steps d (es1 ++ EPut k v :: es2 ++ [EGet k]) rs d' →
  last rs = Some (RGet (Some v)).
Proof.
  intros Hes H. apply durable_steps_app in H as (rs1 & rs2 & d1 & -> & _ & H & _).
  inversion H as [|? d2 ? ? ? r rs' Hput H']; subst. inversion Hput; subst.
  apply durable_steps_app in H' as (rs3 & rs4 & d3 & -> & H3 & H4 & _).
  inversion H4 as [|? d4 ? ? ? r4 rs5 Hget H5]; subst. inversion Hget; subst.
  inversion H5; subst.
  eapply holds_steps in H3 as [_ _ Hv]; [| |exact Hes].
  - by rewrite app_comm_cons, app_assoc, last_snoc, Hv.
  - split; simpl; [apply write_all_last|by intros ?%elem_of_nil|apply write_all_last].
Qed.
