(* ===== verification/DurableServer.v ===== *)
(** * A server without peers is a map that survives crashes

    The node and the service of a server whose configuration names no peers, over
    any storage that implements the abstract one and outlives its process
    ([Reopens] of Storage.v): it is started, leads after its first tick, serves
    gets and puts, may be stopped at any access of a put to the storage, and is
    started again on what it left.  Its answers are those of the specification of
    DurableMap.v.  A method of the storage is one access: it happens or does not.

    These theorems are about the code above its storage.  [SQLiteStorage.java] is
    such a storage over an engine with the laws of SQLiteStorage.v
    ([SQLite_Reopens] of StorageScript.v), which SQLite is not. *)

From S2P Require Import Prelude.
From S2P Require Import Java.
From S2P Require Import Messages.
From S2P Require Import RaftState.
From S2P Require Import Storage.
From S2P Require Import RaftNode.
From S2P Require Import RaftRefinement.
From S2P Require Import RaftLog.
From S2P Require Import NodeRun.
From S2P Require Import RaftReplication.
From S2P Require Import RaftCommit.
From S2P Require Import RaftElection.
From S2P Require Import RaftLone.
From S2P Require Import Concurrency.
From S2P Require Import NodeSteps.
From S2P Require Import StepsRefinement.
From S2P Require Import KVStoreService.
From S2P Require Import ServiceSpec.
From S2P Require Import DurableMap.
From stdpp Require Import base gmap strings list.
From Stdlib Require Import Lia.
#[local] Open Scope Z_scope.

(** ** The log and the map as settled, pending and visible writes *)

Definition writes (l : list LogEntry) : list write := (λ e, (le_key e, le_value e)) <$> l.

Lemma replay_writes l m : replay l m = write_all (writes l) m.
Proof. revert m. induction l as [|e l IH]; intros m; [done|]. apply IH. Qed.

Definition settled_to (i : Z) (l : list LogEntry) : gmap string string :=
  replay (take (Z.to_nat i) l) ∅.
Definition pending_from (i : Z) (l : list LogEntry) : list write := writes (drop (Z.to_nat i) l).

(** With the first [i] entries applied and some of the others in part. *)
Definition applied_to (i : Z) (l : list LogEntry) (m : gmap string string) : Prop :=
  shows (settled_to i l) (pending_from i l) m.

Definition durable_of (a : AbsStorage) : Durable :=
  mkDurable (settled_to (a_applied a) (a_log a)) (pending_from (a_applied a) (a_log a)) (a_kv a).

Record recoverable (a : AbsStorage) : Prop := {
  rc_range : 0 ≤ a_applied a ≤ a_commit a;
  rc_commit : a_commit a ≤ last_index (a_log a);
  rc_shows : applied_to (a_applied a) (a_log a) (a_kv a);
}.

Section logs.
Implicit Types (l : list LogEntry) (m : gmap string string).

Lemma applied_to_next i l e m :
  0 ≤ i → log_at (i + 1) l = Some e → applied_to i l m →
  applied_to (i + 1) l (<[le_key e := le_value e]> m).
Proof.
  intros Hi [_ He]%log_at_Some. replace (i + 1 - 1) with i in He by lia.
  unfold applied_to, settled_to, pending_from.
  replace (Z.to_nat (i + 1)) with (S (Z.to_nat i)) by lia.
  rewrite (take_S_r _ _ e He), replay_app, (drop_S _ _ _ He). apply shows_write.
Qed.

Lemma applied_to_ahead i j l e m :
  0 ≤ i ≤ j → log_at (j + 1) l = Some e → applied_to i l m →
  applied_to i l (<[le_key e := le_value e]> m).
Proof.
  intros Hi [_ He]%log_at_Some. apply shows_pending.
  unfold pending_from, writes. apply list_elem_of_fmap. exists e. split; [done|].
  apply (list_elem_of_lookup_2 _ (Z.to_nat j - Z.to_nat i)%nat). rewrite lookup_drop.
  rewrite <-He. f_equal. lia.
Qed.

Lemma applied_to_snoc i l e m :
  i ≤ last_index l → applied_to i l m → applied_to i (l ++ [e]) m.
Proof.
  unfold applied_to, settled_to, pending_from, last_index, writes. intros Hi Hs.
  rewrite take_app_le, drop_app_le, fmap_app by lia. by apply shows_more.
Qed.

Lemma applied_to_last l m : applied_to (last_index l) l m → m = replay l ∅.
Proof.
  unfold applied_to, settled_to, pending_from, last_index. rewrite Nat2Z.id, take_ge, drop_ge by lia.
  apply shows_nil.
Qed.

(** Between two points of the log. *)
Lemma pending_split i j l :
  0 ≤ i ≤ j → j ≤ last_index l → ∃ ws,
    pending_from i l = ws ++ pending_from j l ∧ settled_to j l = write_all ws (settled_to i l).
Proof.
  intros Hi Hj. unfold last_index in Hj.
  exists (writes (take (Z.to_nat j - Z.to_nat i) (drop (Z.to_nat i) l))).
  unfold pending_from, settled_to, writes.
  rewrite <-fmap_app. split.
  - f_equal. rewrite <-(take_drop (Z.to_nat j - Z.to_nat i) (drop (Z.to_nat i) l)) at 1.
    f_equal. rewrite drop_drop. f_equal. lia.
  - fold (writes (take (Z.to_nat j - Z.to_nat i) (drop (Z.to_nat i) l))).
    rewrite <-replay_writes, <-replay_app. f_equal.
    rewrite take_take_drop. f_equal. lia.
Qed.
End logs.

(** ** A put, access by access *)

Section put.
Context `{HO : !HashOrder} `{HD : !Draws}.
Implicit Types n : ANode.

(** The leader, the entry of the put, and how much was applied before. *)
Context (st : RaftState) (l0 : list LogEntry) (e : LogEntry) (done0 : Z).

Record during (l : list LogEntry) (a c : Z) n : Prop := {
  du_state : state n = st;
  du_peers : peers n = ∅;
  du_open : is_open n;
  du_log : log n = l;
  du_applied : applied n = a;
  du_commit : commit n = c;
  du_range : 0 ≤ done0 ≤ a ∧ a ≤ c ≤ last_index l;
  du_shows : applied_to a l (kv n);
}.

Definition put_inv n : Prop := ∃ l a c, (l = l0 ∨ l = l0 ++ [e]) ∧ during l a c n.

Abbreviation always := (always put_inv).
Abbreviation l1 := (l0 ++ [e]).
Abbreviation last := (last_index l1).

Lemma during_inv a c n : during l1 a c n → put_inv n.
Proof. exists l1, a, c. auto. Qed.

Context (Hlead : currentRole st = LEADER) (He : le_term e = currentTerm st).
Context (Hstored : stored e = e) (Hroom : last_index l0 + 1 < long_max).

Ltac read := eapply (always_read put_inv); [by eapply during_inv| |].

Lemma put_applyLoop fuel : ∀ i a c n,
  during l1 a c n → a ≤ i ≤ c → c - i ≤ Z.of_nat fuel → applied_to i l1 (kv n) →
  always (λ j n', j = c ∧ during l1 a c n' ∧ applied_to c l1 (kv n'))
    (split_applyLoop fuel i c) n.
Proof.
  induction fuel as [|fuel IH]; intros i a c n Hn Hi Hf Hs; cbn [split_applyLoop].
  { rewrite (proj2 (Z.ltb_ge _ _)) by lia. assert (i = c) as -> by lia. by split_and!. }
  destruct (Z.ltb_spec i c); [|assert (i = c) as -> by lia; by split_and!].
  pose proof (du_range _ _ _ _ Hn). rewrite last_index_snoc in *. long_arith.
  destruct (log_at_in_range (i + 1) l1) as [x Hx]; [rewrite last_index_snoc; lia|].
  read; [rewrite run_entry by apply Hn; by rewrite (du_log _ _ _ _ Hn), Hx|].
  set (n1 := upd (λ a, set_kv (<[le_key x := le_value x]> (a_kv a)) a) n).
  assert (Hn1 : during l1 a c n1).
  { destruct Hn. split; try done. apply (applied_to_ahead _ i); [lia|done..]. }
  eapply (always_write put_inv _ _ _ _ n1); [|by eapply during_inv|].
  - unfold applyToStateMachine. cbn [nonnull]. mstep. apply run_update, Hn.
  - apply IH; [done|lia..|]. by apply applied_to_next; [lia|..].
Qed.

Lemma put_applyCommitted a c n :
  during l1 a c n → always (λ _, during l1 c c) split_applyCommittedEntries n.
Proof.
  intros Hn. pose proof (du_range _ _ _ _ Hn). unfold split_applyCommittedEntries.
  read; [apply run_getApplied, Hn|]. read; [apply run_getCommit, Hn|].
  rewrite (du_applied _ _ _ _ Hn), (du_commit _ _ _ _ Hn).
  eapply always_bind; [apply put_applyLoop; [exact Hn|lia..|apply Hn]|].
  intros j n' (-> & Hn' & Hs).
  assert (Hn1 : during l1 c c (upd (set_applied c) n')).
  { destruct Hn'. split; try done. lia. }
  eapply (always_write put_inv); [apply run_setApplied, Hn'|by eapply during_inv|done].
Qed.

Lemma put_commitLoop fuel : ∀ i a c n,
  during l1 a c n → c < i → last - i < Z.of_nat fuel → i ≤ last ∨ a = last ∧ c = last →
  always (λ _, during l1 last last) (split_commitLoop fuel i last) n.
Proof.
  induction fuel as [|fuel IH]; intros i a c n Hn Hi Hf Hl; cbn [split_commitLoop].
  { rewrite (proj2 (Z.leb_gt _ _)) by lia. simpl. destruct Hl as [?|[-> ->]]; [lia|done]. }
  destruct (Z.leb_spec i last) as [Hle|]; [|simpl; destruct Hl as [?|[-> ->]]; [lia|done]].
  pose proof (du_range _ _ _ _ Hn). rewrite last_index_snoc in *. long_arith.
  destruct (log_at_in_range i l1) as [x Hx]; [rewrite last_index_snoc; lia|].
  read; [rewrite run_entry by apply Hn; by rewrite (du_log _ _ _ _ Hn), Hx|].
  read; [cbn [nonnull]; do 2 mstep; reflexivity|].
  assert (Hnext : ∀ a' c' n', during l1 a' c' n' → c' ≤ i →
    i + 1 ≤ last_index l0 + 1 ∨ a' = last_index l0 + 1 ∧ c' = last_index l0 + 1 →
    always (λ _, during l1 (last_index l0 + 1) (last_index l0 + 1))
      (split_commitLoop fuel (i + 1) (last_index l0 + 1)) n').
  { intros a' c' n' Hn' Hc Hl'. apply (IH _ a' c'); [done|lia..]. }
  rewrite (du_state _ _ _ _ Hn). destruct (Z.eqb_spec (le_term x) (currentTerm st)) as [|Hne].
  2: { apply (Hnext a c); [done|lia|]. left. destruct (decide (i = last_index l0 + 1)) as [->|]; [|lia].
       rewrite log_at_snoc in Hx. congruence. }
  read; [by rewrite gets_run|].
  rewrite no_peers_majority; [|apply Hn|rewrite replicationCount_size; lia].
  assert (Hn1 : during l1 a i (upd (set_commit i) n)).
  { destruct Hn. split; try done. rewrite last_index_snoc. lia. }
  eapply (always_write put_inv); [apply run_setCommit, Hn|by eapply during_inv|].
  eapply always_bind; [by eapply put_applyCommitted|].
  intros b n' Hn'. apply (Hnext i i); [done|lia|].
  destruct (decide (i = last_index l0 + 1)); [right; lia|left; lia].
Qed.

Lemma put_updateCommitIndex a c n :
  during l1 a c n → c < last → always (λ _, during l1 last last) split_updateCommitIndex n.
Proof.
  intros Hn Hc. pose proof (du_range _ _ _ _ Hn). pose proof (last_index_nonneg l0).
  unfold split_updateCommitIndex.
  read; [apply run_lastIndex, Hn|]. read; [apply run_getCommit, Hn|]. cbv zeta.
  rewrite (du_log _ _ _ _ Hn), (du_commit _ _ _ _ Hn). rewrite last_index_snoc in *. long_arith.
  rewrite <-(last_index_snoc l0 e). apply (put_commitLoop _ _ a c); rewrite ?last_index_snoc; [done|lia..].
Qed.

(** Whatever access it stops at, what it leaves is recoverable; if it does not
    stop, everything is committed and applied. *)
Lemma put_always k v a c n :
  during l0 a c n → e = log_entry (currentTerm st) k v →
  always (λ b n', b = true ∧ during l1 last last n') (split_proposeEntry k v) n.
Proof.
  intros Hn Ee. pose proof (du_range _ _ _ _ Hn) as Hr.
  assert (Hi : put_inv n) by (exists l0, a, c; auto).
  unfold split_proposeEntry.
  eapply (always_read put_inv); [done|apply gets_run|].
  rewrite (du_state _ _ _ _ Hn), Hlead, bool_decide_eq_false_2 by (by intros []).
  eapply (always_read put_inv); [done|apply run_currentTerm|].
  rewrite (du_state _ _ _ _ Hn), <-Ee.
  set (n1 := upd (λ a, set_log (a_log a ++ [stored e]) a) n).
  assert (Hn1 : during l1 a c n1).
  { destruct Hn. split; try done; simpl; [by rewrite Hstored; f_equal|rewrite last_index_snoc; lia|].
    apply applied_to_snoc; [lia|done]. }
  eapply (always_write put_inv _ _ _ _ n1);
    [apply run_append; [apply Hn|rewrite (du_log _ _ _ _ Hn); lia]|by eapply during_inv|].
  read; [apply run_lastIndex, Hn1|]. unfold split_replicateEntry.
  read; [rewrite gets_run, no_peers_values by apply Hn1; done|]. cbn [prog_for prog_bind].
  eapply always_bind; [apply (put_updateCommitIndex a c); [done|rewrite last_index_snoc; lia]|].
  done.
Qed.
End put.

(** ** The process *)

Section process.
Context {S : Type} `{HS : !Storage S} (R : S → AbsStorage → Prop) `{HR : !StorageRefines S R}.
Context (reopen : M jexn S ()) `{HP : !Reopens S R reopen}.
Context `{HO : !HashOrder} `{HD : !Draws}.

(** The first tick of [leaderElectionTask], and the end of the election it
    starts, each of whose slots holds a future. *)
Definition first_tick : M jexn (RaftNode S) () :=
  tasks ← leaderElectionTask;
  electionDone ((λ t, JFuture (ni_id (vt_peer t))) <$> tasks).

(** A start, to the point where the node may lead: the storage, the node of the
    configuration, and its first election. *)
Definition boot (id : string) (s : S) : option (RaftNode S) :=
  match reopen s with
  | (s', Return _) =>
      match first_tick (newRaftNode id [] s') with (n, Return _) => Some n | _ => None end
  | _ => None
  end.

(** [None] where the code throws or refuses. *)
Definition handle (id : string) (ev : event) (n : RaftNode S) :
    option (reply * RaftNode S) :=
  match ev with
  | EGet k =>
      match service_get {| gq_key := k |} n with
      | (n', Return r) => Some (RGet (if gr_found r then Some (gr_value r) else None), n')
      | _ => None
      end
  | EPut k v =>
      match service_put {| pq_key := k; pq_value := v |} n with
      | (n', Return r) => if pr_success r then Some (RPut, n') else None
      | _ => None
      end
  | ECrash i k v =>
      n' ← boot id (storage (stopped i (split_proposeEntry k v) n));
      Some (RRestarted, n')
  end.

Fixpoint handle_all (id : string) (evs : list event) (n : RaftNode S) :
    option (list reply * RaftNode S) :=
  match evs with
  | [] => Some ([], n)
  | ev :: evs' =>
      '(r, n1) ← handle id ev n; '(rs, n2) ← handle_all id evs' n1; Some (r :: rs, n2)
  end.

Context (id : string).

(** A node between two events, and the abstract one it refines. *)
Record serving (n : RaftNode S) (m : ANode) : Prop := {
  sv_rel : node_rel R n m;
  sv_role : role m = LEADER;
  sv_peers : peers m = ∅;
  sv_open : NodeRun.is_open m;
  sv_recoverable : recoverable (storage m);
}.

Lemma lone_tick (m : ANode) :
  NodeRun.is_open m → peers m = ∅ → role m ≠ LEADER → ∃ m1 m2,
    leaderElectionTask m = (m1, Return []) ∧ electionDone [] m1 = (m2, Return ())
    ∧ role m2 = LEADER ∧ storage m2 = storage m ∧ peers m2 = ∅.
Proof.
  intros Ho Hp Hr. set (m1 := set_votedFor (Some (nodeId m)) (on_state becomeCandidate m)).
  assert (H1 : leaderElectionTask m = (m1, Return [])).
  { unfold leaderElectionTask. mstep. rewrite bool_decide_eq_true_2 by done.
    unfold startElection. do 5 mstep. rewrite no_peers_values by done. by rewrite andb_false_r. }
  assert (Hp1 : peers m1 = ∅) by done. exists m1. eexists. split; [exact H1|].
  split; [|split; [|split]].
  - unfold electionDone. cbn [countVotes]. mstep. mstep. rewrite no_peers_majority by (done || lia).
    unfold node_becomeLeader. do 2 mstep. rewrite modify_run. reflexivity.
  - done.
  - done.
  - done.
Qed.

Lemma boot_run s a :
  R s a → recoverable a →
  ∃ n m, boot id s = Some n ∧ serving n m ∧ storage m = set_open true a.
Proof.
  intros Hsa Hrec. destruct (reopens s a Hsa) as (s' & Hrun & Hrel).
  set (n0 := newRaftNode id [] s' : RaftNode S).
  set (m0 := newRaftNode id [] (set_open true a) : ANode).
  assert (Hrel0 : node_rel R n0 m0) by by split.
  destruct (lone_tick m0) as (m1 & m2 & H1 & H2 & Hl & Hs & Hp); [done..|].
  destruct (refines_return _ _ _ n0 m0 m1 _ (refines_leaderElectionTask R) Hrel0 H1)
    as (n1 & E1 & Hrel1).
  destruct (refines_return _ _ _ n1 m1 m2 _ (refines_electionDone R []) Hrel1 H2)
    as (n2 & E2 & Hrel2).
  exists n2, m2. split_and!; [| |by rewrite Hs].
  - unfold boot. rewrite Hrun. fold n0.
    unfold first_tick. rewrite (bind_return _ _ _ _ _ E1). cbn [fmap list_fmap]. by rewrite E2.
  - destruct Hrec. split; try done; unfold NodeRun.is_open; by rewrite Hs.
Qed.

(** A put from such a node, stopped or not. *)
Lemma serving_put k v m :
  role m = LEADER → peers m = ∅ → NodeRun.is_open m → recoverable (storage m) →
  last_index (log m) + 1 < long_max →
  always (put_inv (state m) (log m) (log_entry (term m) k v) (applied m))
    (λ b m', b = true ∧ during (state m) (applied m) (log m ++ [log_entry (term m) k v])
       (last_index (log m ++ [log_entry (term m) k v]))
       (last_index (log m ++ [log_entry (term m) k v])) m')
    (split_proposeEntry k v) m
  ∧ put_inv (state m) (log m) (log_entry (term m) k v) (applied m) m.
Proof.
  intros Hl Hp Ho [Hr Hc Hs] Hroom.
  assert (Hd : during (state m) (applied m) (log m) (applied m) (commit m) m) by (split; done || lia).
  split; [by apply (put_always (state m) (log m) (log_entry (term m) k v) (applied m)
    Hl eq_refl eq_refl Hroom k v (applied m) (commit m))|].
  exists (log m), (applied m), (commit m). split; [by left|done].
Qed.

Lemma during_recoverable st done0 l a c m :
  during st done0 l a c m → recoverable (storage m).
Proof. intros [_ _ _ <- <- <- Hr Hs]. split; [lia|lia|done]. Qed.

(** The put as a step of the specification. *)
Lemma put_is_step k v m m' :
  recoverable (storage m) →
  let l := log m ++ [log_entry (term m) k v] in
  during (state m) (applied m) l (last_index l) (last_index l) m' →
  durable_step (durable_of (storage m)) (EPut k v) RPut (durable_of (storage m')).
Proof.
  intros [Hr Hc Hs] l Hd. assert (Hlog := du_log _ _ _ _ _ _ Hd).
  assert (Hap := du_applied _ _ _ _ _ _ Hd). assert (Hkv := du_shows _ _ _ _ _ _ Hd).
  apply applied_to_last in Hkv. unfold durable_of at 2. rewrite Hap, Hlog, Hkv.
  assert (Hset : settled_to (last_index l) l = replay l ∅).
  { unfold settled_to, last_index. by rewrite Nat2Z.id, take_ge. }
  rewrite Hset. unfold pending_from, last_index. rewrite Nat2Z.id, drop_ge by done.
  apply durable_put. simpl. unfold settled_to, pending_from.
  change ([(k, v)]) with (writes [log_entry (term m) k v]).
  unfold writes. rewrite <-fmap_app. fold (writes (drop (Z.to_nat (applied m)) (log m) ++ [log_entry (term m) k v])).
  rewrite <-replay_writes, <-replay_app, app_assoc, take_drop. done.
Qed.

(** A stopped put, likewise. *)
Lemma crash_is_step i k v m m' :
  recoverable (storage m) →
  put_inv (state m) (log m) (log_entry (term m) k v) (applied m) m' →
  durable_step (durable_of (storage m)) (ECrash i k v) RRestarted (durable_of (storage m')).
Proof.
  intros [Hr Hc Hs] (l & a & c & Hl & Hd). assert (Hlog := du_log _ _ _ _ _ _ Hd).
  assert (Hap := du_applied _ _ _ _ _ _ Hd). assert (Hkv := du_shows _ _ _ _ _ _ Hd).
  assert (Hrg := du_range _ _ _ _ _ _ Hd).
  destruct (pending_split (applied m) a l) as (ws & Hws & Hset); [lia|lia|].
  assert (Hold : settled_to (applied m) l = settled_to (applied m) (log m)
    ∧ ∃ new, (new = [] ∨ new = [(k, v)])
        ∧ pending_from (applied m) (log m) ++ new = pending_from (applied m) l).
  { unfold settled_to, pending_from, last_index in *. destruct Hl as [-> | ->].
    - split; [done|]. exists []. split; [by left|]. by rewrite app_nil_r.
    - rewrite take_app_le, drop_app_le by lia. split; [done|]. exists [(k, v)].
      split; [by right|]. unfold writes. by rewrite fmap_app. }
  destruct Hold as (Hsame & new & Hnew & Hpend).
  unfold durable_of at 2. rewrite Hap, Hlog, Hset, Hsame.
  apply (durable_crash (durable_of (storage m)) i k v new ws); [done|by rewrite <-Hws|].
  simpl. unfold applied_to in Hkv. by rewrite Hset, Hsame in Hkv.
Qed.

Lemma handle_run ev n m :
  serving n m → last_index (log m) + 1 < long_max →
  ∃ r n' m', handle id ev n = Some (r, n') ∧ serving n' m'
    ∧ durable_step (durable_of (storage m)) ev r (durable_of (storage m'))
    ∧ last_index (log m') ≤ last_index (log m) + 1.
Proof.
  intros [Hrel Hl Hp Ho Hrec] Hroom. destruct ev as [k|k v|i k v].
  - destruct (get_of_rel R n m k Hrel Ho) as (n' & Hg & Hrel').
    exists (RGet (kv m !! k)), n', m. split; [|split; [by split|split; [apply durable_get|lia]]].
    unfold handle. rewrite Hg. unfold get_reply. simpl. by destruct (kv m !! k).
  - destruct (serving_put k v m Hl Hp Ho Hrec Hroom) as [Hput _].
    destruct (always_denote _ _ _ _ Hput) as (m' & b & Hrun & -> & Hd).
    rewrite denote_proposeEntry in Hrun.
    destruct (refines_return (node_rel R) _ _ n m m' true
      (refines_proposeEntry R k v) Hrel Hrun) as (n' & Hrun' & Hrel').
    exists RPut, n', m'. split_and!.
    + unfold handle, service_put. by rewrite (bind_return _ _ _ _ _ Hrun').
    + split; [done|by rewrite (du_state _ _ _ _ _ _ Hd)|apply Hd..|by eapply during_recoverable].
    + by apply put_is_step.
    + rewrite (du_log _ _ _ _ _ _ Hd), last_index_snoc. lia.
  - destruct (serving_put k v m Hl Hp Ho Hrec Hroom) as [Hput Hinit].
    pose proof (always_stopped _ _ i _ _ Hinit Hput) as Hinv.
    pose proof (prog_refines_stopped _ _ _ i _ _ n m
      (split_refines_proposeEntry R k v) Hrel Hput) as [Hst _].
    set (m1 := stopped i (split_proposeEntry k v) m) in *.
    assert (Hrec1 : recoverable (storage m1)).
    { destruct Hinv as (l & a & c & _ & Hd). by eapply during_recoverable. }
    destruct (boot_run _ _ Hst Hrec1) as (n' & m' & Hboot & Hsv & Hs').
    exists RRestarted, n', m'. split_and!; [|done| |].
    + unfold handle. by rewrite Hboot.
    + rewrite Hs'. change (durable_of (set_open true (storage m1))) with (durable_of (storage m1)).
      by apply crash_is_step.
    + rewrite Hs'. change (last_index (log m1) ≤ last_index (log m) + 1).
      destruct Hinv as (l & a & c & Hl' & Hd). rewrite (du_log _ _ _ _ _ _ Hd).
      destruct Hl' as [-> | ->]; rewrite ?last_index_snoc; lia.
Qed.

Lemma handle_all_run evs : ∀ n m,
  serving n m → last_index (log m) + Z.of_nat (length evs) < long_max →
  ∃ rs n' d, handle_all id evs n = Some (rs, n')
    ∧ durable_steps (durable_of (storage m)) evs rs d.
Proof.
  induction evs as [|ev evs IH]; intros n m Hm Hroom; simpl in *.
  { exists [], n, (durable_of (storage m)). split; [done|constructor]. }
  destruct (handle_run ev n m Hm) as (r & n1 & m1 & E1 & Hm1 & Hs1 & Hl1); [lia|].
  destruct (IH n1 m1 Hm1) as (rs & n2 & d & E2 & Hs2); [lia|].
  exists (r :: rs), n2, d. split; [by rewrite E1; simpl; rewrite E2|by econstructor].
Qed.

Lemma served s a evs :
  R s a → recoverable a →
  last_index (a_log a) + Z.of_nat (length evs) < long_max →
  ∃ n0 n rs d, boot id s = Some n0 ∧ handle_all id evs n0 = Some (rs, n)
    ∧ durable_steps (durable_of a) evs rs d.
Proof.
  intros Hsa Hrec Hroom. destruct (boot_run s a Hsa Hrec) as (n0 & m0 & Hboot & Hm & Hs).
  destruct (handle_all_run evs n0 m0 Hm) as (rs & n & d & E & Hd); [by rewrite Hs|].
  rewrite Hs in Hd. by exists n0, n, rs, d.
Qed.

(** ** Theorems *)

(** C3: over any storage that implements the abstract one and outlives its
    process, started on an empty storage or on one that any earlier run left, a
    node without peers and its service answer every sequence of gets, puts and
    crashes, a crash stopping a put at any of its accesses to the storage, as the
    durable map of the specification does: nothing throws, every put succeeds,
    every get shows what is visible. *)
Theorem durable_server s a evs :
  R s a → recoverable a →
  last_index (a_log a) + Z.of_nat (length evs) < long_max →
  ∃ n0 n rs d, boot id s = Some n0 ∧ handle_all id evs n0 = Some (rs, n)
    ∧ durable_steps (durable_of a) evs rs d.
Proof. apply served. Qed.

(** C4: over such a storage a put that was answered survives: whatever follows,
    crashes in the middle of puts of other keys included, a get of its key answers
    its value, until the next put of that key begins. *)
Theorem acknowledged_put_survives s a evs1 k v evs2 :
  R s a → recoverable a →
  Forall (λ ev, event_key ev ≠ Some k) evs2 →
  last_index (a_log a) + Z.of_nat (length evs1 + length evs2) + 2 < long_max →
  ∃ n0 n rs, boot id s = Some n0
    ∧ handle_all id (evs1 ++ EPut k v :: evs2 ++ [EGet k]) n0 = Some (rs, n)
    ∧ list.last rs = Some (RGet (Some v)).
Proof.
  intros Hsa Hrec Hk Hroom.
  destruct (served s a (evs1 ++ EPut k v :: evs2 ++ [EGet k]))
    as (n0 & n & rs & d & Hboot & Hrun & Hd).
  - done.
  - done.
  - rewrite length_app. simpl. rewrite length_app. simpl. lia.
  - exists n0, n, rs. split_and!; [done..|]. by eapply durable_put_survives.
Qed.
End process.

(** ** Over the abstract storage *)

#[local] Existing Instance zero_draws.

Definition fresh_abs : AbsStorage := mkAbs [] 0 0 ∅ false.

Lemma fresh_recoverable : recoverable fresh_abs.
Proof.
  split; [vm_compute; split; discriminate|vm_compute; discriminate|]. intros k. left. reflexivity.
Qed.

(** A put of "a" stops after its entry is logged (and not applied), the next
    put of "b" brings it to light; later the process stops between requests. *)
Definition some_events : list event :=
  [EPut "a" "1"; ECrash 3 "a" "2"; EGet "a"; EPut "b" "3"; EGet "a"; ECrash 0 "" ""; EGet "b"].

Definition run_events (evs : list event) : option (list reply) :=
  n0 ← boot abs_reopen "h:1" fresh_abs; fst <$> handle_all abs_reopen "h:1" evs n0.

Example some_replies :
  run_events some_events
  = Some [RPut; RRestarted; RGet (Some "1"); RPut; RGet (Some "2"); RRestarted; RGet (Some "3")].
Proof. vm_compute. reflexivity. Qed.

(** The configuration: a list of peers is empty when the property is a comma;
    when it is empty there is one peer, whose id is empty, and the node never
    leads. *)
Example no_peers_property :
  newServerConfig (Some {["peers" := ","]}) = inr (mkServerConfig None [] None)
  ∧ newServerConfig (Some {["peers" := ""]}) = inr (mkServerConfig None [""] None).
Proof. vm_compute. done. Qed.

Lemma durable_server_witness :
  ∃ rs d, run_events some_events = Some rs ∧ durable_steps new_durable some_events rs d.
Proof.
  destruct (durable_server eq abs_reopen "h:1" fresh_abs fresh_abs some_events)
    as (n0 & n & rs & d & Hboot & Hrun & Hd).
  - reflexivity.
  - exact fresh_recoverable.
  - vm_compute. reflexivity.
  - exists rs, d. split; [|exact Hd]. unfold run_events. rewrite Hboot. cbn [mbind option_bind].
    rewrite Hrun. reflexivity.
Defined.

(** The process stops in a put of "b" after its entry is committed and before
    it is applied. *)
Lemma acknowledged_put_survives_witness :
  list.last <$> run_events [EPut "a" "1"; ECrash 12 "b" "2"; EPut "c" "3"; EGet "a"]
  = Some (Some (RGet (Some "1"))).
Proof.
  destruct (acknowledged_put_survives eq abs_reopen "h:1" fresh_abs fresh_abs [] "a" "1"
    [ECrash 12 "b" "2"; EPut "c" "3"]) as (n0 & n & rs & Hboot & Hrun & Hd).
  - reflexivity.
  - exact fresh_recoverable.
  - repeat constructor; discriminate.
  - vm_compute. reflexivity.
  - unfold run_events. rewrite Hboot. cbn [mbind option_bind].
    cbn [app] in Hrun. rewrite Hrun. cbn. f_equal. exact Hd.
Defined.
