(* ===== verification/ConcurrentServer.v ===== *)
(** * A server without peers, its threads and its storage

    The node and the service of a server without peers, from its start, over any
    storage that implements the abstract one and outlives its process ([Reopens]
    of Storage.v): the election task and the requests run on threads of their own,
    interleaved at their accesses; the process is told to stop, which closes the
    storage under the requests that gRPC still serves, or it is killed at any
    moment, and is started again on the storage it left.  What the requests were
    answered is compared with the log at the end of all the runs. *)

From S2P Require Import Prelude.
From S2P Require Import Java.
From S2P Require Import Messages.
From S2P Require Import RaftState.
From S2P Require Import Storage.
From S2P Require Import RaftNode.
From S2P Require Import RaftRefinement.
From S2P Require Import RaftLog.
From S2P Require Import NodeRun.
From S2P Require Import RaftReplication.
From S2P Require Import RaftElection.
From S2P Require Import Concurrency.
From S2P Require Import NodeSteps.
From S2P Require Import ElectionSteps.
From S2P Require Import StepsRefinement.
From S2P Require Import KVStoreService.
From S2P Require Import LoneThreads.
From stdpp Require Import base gmap strings list.
From Stdlib Require Import Lia.
#[local] Open Scope Z_scope.

(** ** The threads over any storage *)

Section refinement.
Context {S : Type} `{HS : !Storage S} (R : S → AbsStorage → Prop) `{HR : !StorageRefines S R}.
Context `{HO : !HashOrder} `{HD : !Draws}.
Abbreviation NR := (node_rel R).

Lemma refines_lone_tick : prog_refines NR (lone_tick (S:=S)) lone_tick.
Proof.
  unfold lone_tick. apply pr_act; [node_refines|]. intros r.
  destruct (bool_decide _); [|constructor].
  apply prog_refines_bind; [by apply split_refines_startElection|]. intros _.
  by apply split_refines_electionDone.
Qed.

Lemma refines_ticks rounds : prog_refines NR (ticks (S:=S) rounds) (ticks rounds).
Proof.
  apply prog_refines_bind; [|constructor]. apply prog_refines_for. intros _.
  apply refines_lone_tick.
Qed.

Lemma refines_serve rq : prog_refines NR (serve (S:=S) rq) (serve rq).
Proof.
  destruct rq as [rq|rq]; (apply prog_refines_bind; [|constructor]).
  - apply pr_act; [apply refines_sto, ref_get|constructor].
  - apply prog_refines_bind; [by apply split_refines_proposeEntry|constructor].
Qed.

Lemma refines_stop_hook : prog_refines NR (stop_hook (S:=S)) stop_hook.
Proof. apply pr_act; [apply refines_sto, ref_close|constructor]. Qed.

Lemma refines_server_threads rounds requests stops :
  Forall2 (thread_refines NR) (server_threads (S:=S) rounds requests stops)
    (server_threads rounds requests stops).
Proof.
  constructor; [constructor; apply refines_ticks|]. apply Forall2_app.
  - induction requests as [|rq l IH]; constructor; [|apply IH]. constructor. apply refines_serve.
  - destruct stops; constructor; [|done]. constructor. apply refines_stop_hook.
Qed.
End refinement.

(** ** One run after the other *)

(** A run of the process: the rounds of the election task and the requests there
    are, whether the process is told to stop, and how far which thread gets before
    it ends or is killed. *)
Record ServerRun : Type := mkRun {
  sr_rounds : nat;
  sr_requests : list Request;
  sr_stops : bool;
  sr_schedule : list nat;
}.

Definition continued (r : ServerRun) (more : list nat) : ServerRun :=
  mkRun (sr_rounds r) (sr_requests r) (sr_stops r) (sr_schedule r ++ more).

Definition threads_of (r : ServerRun) : nat :=
  (Datatypes.S (length (sr_requests r)) + if sr_stops r then 1 else 0)%nat.

Definition requests_of (rs : list ServerRun) : list Request := mjoin (sr_requests <$> rs).

(** What was answered is in the log: a put by an entry of its own, a value that
    was found as the value of some entry. *)
Definition answered_by (l : list LogEntry) (rq : Request) (a : Answer) : Prop :=
  match rq, a with
  | Get rq, GetAnswer r =>
      gr_found r = true → ∃ e, e ∈ l ∧ le_key e = gq_key rq ∧ le_value e = gr_value r
  | Put rq, PutAnswer r =>
      pr_success r = true → log_entry 1 (pq_key rq) (pq_value rq) ∈ l
  | _, _ => False
  end.

Section process.
Context {S : Type} `{HS : !Storage S} (R : S → AbsStorage → Prop) `{HR : !StorageRefines S R}.
Context (reopen : M jexn S ()) `{HP : !Reopens S R reopen}.
Context `{HO : !HashOrder} `{HD : !Draws}.
Abbreviation Threads := (list (thread (E:=jexn) (S:=RaftNode S) Answer)).

(** [None] where the start throws. *)
Definition serve_run (id : string) (r : ServerRun) (s : S) : option (Threads * S) :=
  match reopen s with
  | (s', Return _) =>
      let '(ts, n) := run_threads (sr_schedule r)
        (server_threads (sr_rounds r) (sr_requests r) (sr_stops r)) (newRaftNode id [] s') in
      Some (ts, storage n)
  | _ => None
  end.

(** The threads and the storage of each run, and the last storage. *)
Fixpoint serve_runs (id : string) (rs : list ServerRun) (s : S) :
    option (list (Threads * S) * S) :=
  match rs with
  | [] => Some ([], s)
  | r :: rs' =>
      '(ts, s1) ← serve_run id r s; '(tss, s2) ← serve_runs id rs' s1;
      Some ((ts, s1) :: tss, s2)
  end.

(** The storage is closed. *)
Definition is_closed (s : S) : Prop := ∃ a, R s a ∧ a_open a = false.

(** How a thread of a run has ended: an exception is the stop's doing. *)
Definition run_ended (r : ServerRun) (s : S) (Q : Answer → Prop) (o : outcome jexn Answer) : Prop :=
  match o with
  | Return a => Q a
  | Throw _ => sr_stops r = true ∧ is_closed s
  | Undefined => False
  end.

Definition run_answered (l : list LogEntry) (r : ServerRun) (run : Threads * S) : Prop :=
  let '(ts, s) := run in
  (∀ o, ts !! 0%nat = Some (Finished o) → run_ended r s (λ a, a = Ticked) o)
  ∧ ∀ i rq, sr_requests r !! i = Some rq → ∃ t, ts !! Datatypes.S i = Some t
      ∧ ∀ o, t = Finished o → run_ended r s (answered_by l rq) o.

Context (id : string).

(** What a run does to the contents of the storage. *)
Record run_kept (r : ServerRun) (run : Threads * S) (a a' : AbsStorage) : Prop := {
  rk_sound : sound a';
  rk_log : ∃ new, a_log a' = a_log a ++ new
    ∧ Forall (λ e, ∃ rq, Put rq ∈ sr_requests r
        ∧ e = log_entry 1 (pq_key rq) (pq_value rq)) new
    ∧ (length new ≤ length (sr_requests r))%nat;
  rk_keys : dom (a_kv a) ⊆ dom (a_kv a');
  rk_answers : run_answered (a_log a') r run;
}.

(** The node that a start makes. *)
Definition fresh_node (a : AbsStorage) : ANode := newRaftNode id [] (set_open true a).

Lemma served_defined (n : ANode) rounds requests stops ts n' :
  requests_served n rounds requests stops ts n' → ∀ i, ts !! i ≠ Some (Finished Undefined).
Proof.
  intros Hs i Hi. destruct (rs_ends _ _ _ _ _ _ Hs i _ Hi) as (k & o & Hend & _ & Ho).
  rewrite (run_threads_finished _ i Undefined ts n' Hi) in Hend. congruence.
Qed.

Lemma serve_run_ok r s a :
  R s a → sound a →
  last_index (a_log a) + Z.of_nat (length (sr_requests r)) < long_max →
  ∃ ts m' ts' s', run_threads (sr_schedule r)
        (server_threads (sr_rounds r) (sr_requests r) (sr_stops r)) (fresh_node a) = (ts, m')
    ∧ requests_served (fresh_node a) (sr_rounds r) (sr_requests r) (sr_stops r) ts m'
    ∧ serve_run id r s = Some (ts', s')
    ∧ Forall2 (thread_refines (node_rel R)) ts' ts ∧ R s' (storage m').
Proof.
  intros Hf [Ha Hc Hk] Hroom. destruct (reopens s a Hf) as (s0 & Hopen & Hsto).
  set (n0 := newRaftNode id [] s0 : RaftNode S).
  assert (Hrel : node_rel R n0 (fresh_node a)) by by split.
  pose proof (requests_run (fresh_node a) (sr_rounds r) (sr_requests r) (sr_stops r) (sr_schedule r))
    as Hrun.
  destruct (run_threads _ _ (fresh_node a)) as [ts m'] eqn:E.
  specialize (Hrun ltac:(by split) eq_refl eq_refl Hroom).
  destruct (run_threads_refines (node_rel R) (sr_schedule r) _ _ n0
    (fresh_node a) (refines_server_threads R (sr_rounds r) (sr_requests r) (sr_stops r))
    Hrel) as [Hts Hn]; [rewrite E; by eapply served_defined|].
  rewrite E in Hts, Hn. unfold serve_run. rewrite Hopen. fold n0.
  destruct (run_threads _ _ n0) as [ts' n']. exists ts, m', ts', (storage n').
  split_and!; [done..|apply Hn].
Qed.

Lemma finished_refines (ts : Threads) (us : list (thread (E:=jexn) (S:=ANode) Answer)) i o :
  Forall2 (thread_refines (node_rel R)) ts us →
  (ts !! i = Some (Finished o) ↔ us !! i = Some (Finished o)).
Proof.
  intros H. split; intros Hi.
  - destruct (Forall2_lookup_l _ _ _ _ _ H Hi) as (u & -> & Ht). by inversion Ht.
  - destruct (Forall2_lookup_r _ _ _ _ _ H Hi) as (u & -> & Ht). by inversion Ht.
Qed.

Lemma ended_run r s' m' (Q Q' : Answer → Prop) o :
  R s' (storage m') → (sr_stops r = false → NodeRun.is_open m') →
  (∀ a, Q a → Q' a) → ended Q m' o → run_ended r s' Q' o.
Proof.
  intros Hrel Hopen HQ. destruct o as [a|e|]; simpl; [auto| |done].
  unfold closed. intros Hc. split; [|by eexists]. destruct (sr_stops r); [done|].
  specialize (Hopen eq_refl). unfold NodeRun.is_open in Hopen. congruence.
Qed.

Lemma run_kept_ok r ts ts' a m' s' :
  requests_served (fresh_node a) (sr_rounds r) (sr_requests r) (sr_stops r) ts m' →
  Forall2 (thread_refines (node_rel R)) ts' ts → R s' (storage m') →
  run_kept r (ts', s') a (storage m').
Proof.
  intros [_ Hopen Ht Hans _ Hlog Hsd Hkeys _] Hts Hrel.
  assert (Hterm : led_term (fresh_node a) = 1) by reflexivity.
  split; [done| |done|split].
  - destruct Hlog as (new & Hl & Hall & Hlen). exists new. split_and!; [done| |done].
    eapply Forall_impl; [exact Hall|]. intros e (rq & Hrq & ->). exists rq. by rewrite Hterm.
  - intros o Ho. apply (finished_refines _ _ _ _ Hts), Ht in Ho.
    eapply ended_run; [exact Hrel|exact Hopen| |exact Ho]. by intros ? [-> _].
  - intros i rq Hi. destruct (Hans i rq Hi) as (t & Ht' & Ha).
    destruct (Forall2_lookup_r _ _ _ _ _ Hts Ht') as (t' & Hi' & _). exists t'. split; [done|].
    intros o ->. apply (finished_refines _ _ _ _ Hts) in Hi'. rewrite Ht' in Hi'. injection Hi' as ->.
    eapply ended_run; [exact Hrel|exact Hopen| |by apply Ha]. intros x Hx.
    destruct rq, x; simpl in *; try done; [apply Hx|]. rewrite <-Hterm. by intros [_ ?]%Hx.
Qed.

Lemma answered_by_mono l l' rq a : l `prefix_of` l' → answered_by l rq a → answered_by l' rq a.
Proof.
  intros Hl. destruct rq, a; simpl; try done; intros H Hr.
  - destruct (H Hr) as (e & He & ?). exists e. split; [|done]. by eapply elem_of_prefix.
  - eapply elem_of_prefix; [by apply H|done].
Qed.

Lemma run_answered_mono l l' r run : l `prefix_of` l' → run_answered l r run → run_answered l' r run.
Proof.
  destruct run as [ts s]. intros Hl [H0 H]. split; [done|]. intros i rq Hi.
  destruct (H i rq Hi) as (t & Ht & Ha). exists t. split; [done|]. intros o Ho. specialize (Ha o Ho).
  destruct o; simpl in *; [by eapply answered_by_mono|done..].
Qed.

(** The next run: each of its threads ends if it is given the time. *)
Definition threads_end (r : ServerRun) (s : S) : Prop :=
  ∀ i, (i < threads_of r)%nat → ∃ k ts s' o,
    serve_run id (continued r (replicate k i)) s = Some (ts, s')
    ∧ ts !! i = Some (Finished o) ∧ o ≠ Undefined ∧ (sr_stops r = false → ∃ x, o = Return x).

Lemma serve_run_ends r s a :
  R s a → sound a →
  last_index (a_log a) + Z.of_nat (length (sr_requests r)) < long_max → threads_end r s.
Proof.
  intros Hf Hsd Hroom i Hi.
  destruct (serve_run_ok r s a Hf Hsd Hroom) as (ts & m' & _ & _ & E & Hs & _).
  assert (Hth : is_Some (ts !! i)).
  { apply lookup_lt_is_Some. by rewrite (rs_length _ _ _ _ _ _ Hs). }
  destruct Hth as [t Ht]. destruct (rs_ends _ _ _ _ _ _ Hs i t Ht) as (k & o & Hend & Hret & Hdef).
  destruct (serve_run_ok (continued r (replicate k i)) s a Hf Hsd Hroom)
    as (us & m2 & us' & s2 & E2 & _ & Hrun & Hus & _).
  exists k, us', s2, o. split; [exact Hrun|]. split; [|by split]. apply (finished_refines _ _ _ _ Hus).
  cbn [sr_schedule sr_rounds sr_requests sr_stops continued] in E2.
  rewrite run_threads_app, E in E2. simpl in E2. by rewrite E2 in Hend.
Qed.

Definition entry_of (rs : list ServerRun) (e : LogEntry) : Prop :=
  ∃ rq, Put rq ∈ requests_of rs ∧ e = log_entry 1 (pq_key rq) (pq_value rq).

Lemma serve_runs_ok rs : ∀ s a,
  R s a → sound a →
  last_index (a_log a) + Z.of_nat (length (requests_of rs)) < long_max →
  ∃ tss s' a', serve_runs id rs s = Some (tss, s') ∧ R s' a' ∧ sound a'
    ∧ (∃ new, a_log a' = a_log a ++ new ∧ Forall (entry_of rs) new
         ∧ (length new ≤ length (requests_of rs))%nat)
    ∧ dom (a_kv a) ⊆ dom (a_kv a') ∧ Forall2 (run_answered (a_log a')) rs tss.
Proof.
  induction rs as [|r rs IH]; intros s a Hf Hsd Hroom.
  { exists [], s, a. split_and!; try done. exists []. by rewrite app_nil_r. }
  unfold requests_of in *. csimpl in *. rewrite length_app in *.
  destruct (serve_run_ok r s a Hf Hsd ltac:(lia)) as (us & m & ts & s1 & _ & Hs & Hrun & Hts & Hrel).
  destruct (run_kept_ok r us ts a m s1 Hs Hts Hrel) as [Hsd1 (new1 & L1 & E1 & N1) K1 A1].
  destruct (IH s1 (storage m) Hrel Hsd1) as (tss & s2 & a2 & Hruns & Hf2 & Hsd2 & (new2 & L2 & E2 & N2) & K2 & A2).
  { rewrite L1, last_index_app. unfold last_index in *. lia. }
  exists ((ts, s1) :: tss), s2, a2. split_and!; try done.
  - simpl. rewrite Hrun. simpl. by rewrite Hruns.
  - exists (new1 ++ new2). rewrite L2, L1, app_assoc, length_app. split_and!; [done| |lia].
    apply Forall_app. split.
    + eapply Forall_impl; [exact E1|]. intros e (rq & Hrq & ->). exists rq. split; [|done].
      unfold requests_of. csimpl. apply elem_of_app. by left.
    + eapply Forall_impl; [exact E2|]. intros e (rq & Hrq & ->). exists rq. split; [|done].
      unfold requests_of. csimpl. apply elem_of_app. by right.
  - by etrans.
  - constructor; [|done]. eapply run_answered_mono; [|exact A1]. rewrite L2. by apply prefix_app_r.
Qed.

(** ** Theorem *)

(** C5: over any storage that implements the abstract one and outlives its
    process, a server without peers serves requests on threads of their own, next
    to its election task.  In each run it is told to stop while they go on, or is
    killed, at any moment, and it is started again on its storage, any number of
    times.  Under every schedule a thread throws only after the stop has closed
    the storage; the log only grows, by entries of puts that were requested; every
    put answered [true] in any run is in it at the end, every value a get found
    was written by an entry of it, and no key of the map is lost.  In one more run
    any thread comes to its end if it is given the time. *)
Theorem concurrent_server_durable s a rs :
  R s a → sound a →
  last_index (a_log a) + Z.of_nat (length (requests_of rs)) < long_max →
  ∃ tss s' a', serve_runs id rs s = Some (tss, s') ∧ R s' a' ∧ sound a'
    ∧ (∃ new, a_log a' = a_log a ++ new ∧ Forall (entry_of rs) new)
    ∧ dom (a_kv a) ⊆ dom (a_kv a') ∧ Forall2 (run_answered (a_log a')) rs tss
    ∧ ∀ r, last_index (a_log a) + Z.of_nat (length (requests_of (r :: rs))) < long_max →
        threads_end r s'.
Proof.
  intros Hf Hsd Hroom.
  destruct (serve_runs_ok rs s a Hf Hsd Hroom) as (tss & s' & a' & H1 & H2 & H3 & (new & H4 & H5 & H6) & H7 & H8).
  exists tss, s', a'. split_and!; try done; [by exists new|]. intros r Hr.
  apply (serve_run_ends r s' a'); [done..|]. unfold requests_of in *. csimpl in *.
  rewrite length_app in Hr. rewrite H4, last_index_app. unfold last_index in *. lia.
Qed.
End process.

(** ** Over the abstract storage *)

#[local] Existing Instance zero_draws.

Definition put_request (k v : string) : Request := Put {| pq_key := k; pq_value := v |}.
Definition get_request (k : string) : Request := Get {| gq_key := k |}.
Definition no_entries : AbsStorage := mkAbs [] 0 0 ∅ false.

(** In the first run a put comes before the first round of the election task and
    is refused, the next one is answered before the process is killed.  The
    second run finds its value in the map; it is stopped when a put is about to
    set the commit index, which is then not set: the put is answered [true], the
    next one gets no answer and the get finds nothing any more.  The third run
    does not find what was answered. *)
Definition some_runs : list ServerRun :=
  [mkRun 2 [put_request "a" "1"; put_request "b" "2"; get_request "b"] false
     (replicate 2 1%nat ++ replicate 20 0%nat ++ replicate 10 2%nat ++ replicate 2 3%nat
      ++ replicate 30 2%nat);
   mkRun 1 [get_request "b"; put_request "c" "3"; put_request "d" "4"; get_request "b"] true
     (replicate 2 1%nat ++ replicate 30 0%nat ++ replicate 10 2%nat ++ replicate 2 5%nat
      ++ replicate 20 2%nat ++ replicate 10 3%nat ++ replicate 2 4%nat);
   mkRun 1 [get_request "c"] false (replicate 30 0%nat ++ replicate 2 1%nat)].

Definition answers_of {S} (ts : list (thread (E:=jexn) (S:=S) Answer)) : list (option (outcome jexn Answer)) :=
  (λ t, match t with Finished o => Some o | _ => None end) <$> ts.

Definition answers_in {S T} (r : option (list (list (thread (E:=jexn) (S:=S) Answer) * T) * T)) :
    option (list (list (option (outcome jexn Answer)))) :=
  match r with Some (runs, _) => Some (map (answers_of ∘ fst) runs) | None => None end.

Example some_runs_answers :
  answers_in (serve_runs abs_reopen "h:1" some_runs no_entries)
  = Some [[Some (Return Ticked);
           Some (Return (PutAnswer {| pr_success := false; pr_old_value := "" |}));
           Some (Return (PutAnswer {| pr_success := true; pr_old_value := "" |}));
           Some (Return (GetAnswer {| gr_value := ""; gr_found := false |}))];
          [Some (Return Ticked);
           Some (Return (GetAnswer {| gr_value := "2"; gr_found := true |}));
           Some (Return (PutAnswer {| pr_success := true; pr_old_value := "" |}));
           Some (Throw (RuntimeException "Failed to append log entry"));
           Some (Return (GetAnswer {| gr_value := ""; gr_found := false |}));
           Some (Return Stopped)];
          [Some (Return Ticked);
           Some (Return (GetAnswer {| gr_value := ""; gr_found := false |}))]].
Proof. vm_compute. reflexivity. Qed.

Lemma concurrent_server_durable_witness :
  ∃ tss s' a', serve_runs abs_reopen "h:1" some_runs no_entries = Some (tss, s')
    ∧ log_entry 1 "c" "3" ∈ a_log a' ∧ Forall2 (run_answered eq (a_log a')) some_runs tss.
Proof.
  destruct (concurrent_server_durable eq abs_reopen "h:1" no_entries no_entries some_runs)
    as (tss & s' & a' & Hrun & _ & _ & _ & _ & Hall & _).
  - reflexivity.
  - split; [split; [discriminate|vm_compute; discriminate]..|]. intros k v Hk. discriminate Hk.
  - vm_compute. reflexivity.
  - exists tss, s', a'. split; [exact Hrun|]. split; [|exact Hall].
    pose proof some_runs_answers as E. rewrite Hrun in E. simpl in E. injection E as E.
    destruct tss as [|run1 [|[ts2 s2] tss]]; [discriminate E..|]. injection E as _ E _.
    inversion Hall as [|? ? ? ? _ Hall2]; subst. inversion Hall2 as [|? ? ? ? Hrun2 _]; subst.
    destruct Hrun2 as [_ Hans].
    destruct (Hans 1%nat (put_request "c" "3") eq_refl) as (t & Ht & Ha).
    destruct ts2 as [|t0 [|t1 [|t2 ts2]]]; try discriminate E. injection E as _ _ E _.
    injection Ht as <-. destruct t2 as [|o]; [discriminate E|]. injection E as E. subst o.
    exact (Ha _ eq_refl eq_refl).
Defined.
