(* ===== verification/CMemory.v ===== *)
(** * The memory of the C interface of the client

    The functions of [client/src/kvclient.cpp] take [char *] arguments: they
    read NUL-terminated strings and fill the caller's buffer.  A memory maps the
    bytes that may be accessed to their contents; touching any other byte is
    undefined behaviour. *)

From S2P Require Import Prelude.
From Stdlib Require Import Ascii.
From stdpp Require Import base gmap strings list.
From Stdlib Require Import Lia.
#[local] Open Scope Z_scope.

Abbreviation memory := (gmap Z ascii).

(** A [char *]; [None] is [NULL]. *)
Abbreviation char_ptr := (option Z).

Definition NUL : ascii := Ascii.zero.

Definition bytes (s : string) : list ascii := String.list_ascii_of_string s.
Definition of_bytes (l : list ascii) : string := String.string_of_list_ascii l.

Section access.
Context {E : Type}.

Definition load (p : Z) : M E memory ascii := λ m,
  match m !! p with Some c => (m, Return c) | None => (m, Undefined) end.

Definition store (p : Z) (c : ascii) : M E memory () := λ m,
  match m !! p with Some _ => (<[p := c]> m, Return ()) | None => (m, Undefined) end.

(** Reading up to the first NUL; [fuel] bounds the bytes looked at. *)
Fixpoint scan_string (fuel : nat) (p : Z) : M E memory string :=
  match fuel with
  | O => undefined
  | S fuel' =>
      c ← load p;
      if bool_decide (c = NUL) then mret EmptyString
      else s ← scan_string fuel' (p + 1); mret (String c s)
  end.

(** [std::string(p)].  A memory of [n] bytes holds no longer string. *)
Definition std_string (p : char_ptr) : M E memory string :=
  match p with
  | None => undefined
  | Some p => m ← getS; scan_string (S (size m)) p
  end.

(** [memcpy] of a range that the caller vouches for. *)
Fixpoint copy_bytes (p : Z) (l : list ascii) : M E memory () :=
  match l with
  | [] => mret ()
  | c :: l' => store p c;; copy_bytes (p + 1) l'
  end.

(** [s.copy(p, n); p[n] = '\0'] with [n] the length of [s], at most 2047. *)
Definition copy_out (s : string) (p : Z) : M E memory () :=
  let val_len := Z.of_nat (String.length s) in
  let num_bytes := if 2047 <? val_len then 2047 else val_len in
  copy_bytes p (take (Z.to_nat num_bytes) (bytes s));;
  store (p + num_bytes) NUL.
End access.

(** ** Strings in memory *)

Fixpoint bytes_at (m : memory) (p : Z) (l : list ascii) : Prop :=
  match l with
  | [] => True
  | c :: l' => m !! p = Some c ∧ bytes_at m (p + 1) l'
  end.

(** [s] is stored at [p], with its terminator. *)
Definition string_at (m : memory) (p : Z) (s : string) : Prop :=
  (NUL ∉ bytes s) ∧ bytes_at m p (bytes s ++ [NUL]).

(** [n] bytes from [p] may be written. *)
Definition writable (m : memory) (p n : Z) : Prop :=
  ∀ i, p ≤ i < p + n → is_Some (m !! i).

(** What a buffer of [n] bytes holds of [s] ... *)
Definition truncated (s : string) : list ascii := take 2047 (bytes s).
(** ... and how two memories may differ after filling it. *)
Definition same_outside (p n : Z) (m m' : memory) : Prop :=
  dom m' = dom m ∧ ∀ i, ¬ (p ≤ i < p + n) → m' !! i = m !! i.

#[export] Instance same_outside_preorder p n : PreOrder (same_outside p n).
Proof.
  split.
  - by intros m.
  - intros m1 m2 m3 [Hd1 H1] [Hd2 H2]. split; [congruence|]. intros i Hi. rewrite H2, H1; done.
Qed.

(** ** Lemmas *)

Lemma length_bytes s : length (bytes s) = String.length s.
Proof. induction s; simpl; congruence. Qed.

Lemma of_bytes_bytes s : of_bytes (bytes s) = s.
Proof. apply String.string_of_list_ascii_of_string. Qed.

Lemma bytes_at_app m p l1 l2 :
  bytes_at m p (l1 ++ l2) ↔ bytes_at m p l1 ∧ bytes_at m (p + Z.of_nat (length l1)) l2.
Proof.
  revert p. induction l1 as [|c l1 IH]; intros p; simpl.
  - rewrite Z.add_0_r. naive_solver.
  - rewrite IH. replace (p + 1 + Z.of_nat (length l1)) with (p + Z.of_nat (S (length l1))) by lia.
    naive_solver.
Qed.

Lemma bytes_at_lookup m p l :
  bytes_at m p l ↔ ∀ i c, l !! i = Some c → m !! (p + Z.of_nat i) = Some c.
Proof.
  revert p. induction l as [|x l IH]; intros p; simpl; [naive_solver|]. rewrite IH. split.
  - intros [Hx Hl] [|i] c Hc; simplify_eq/=; [by rewrite Z.add_0_r|].
    rewrite <-(Hl i c Hc). f_equal. lia.
  - intros H. split; [rewrite <-(H 0%nat x eq_refl); f_equal; lia|].
    intros i c Hc. rewrite <-(H (S i) c Hc). f_equal. lia.
Qed.

Lemma bytes_at_size m p l : bytes_at m p l → (length l ≤ size m)%nat.
Proof.
  revert m p. induction l as [|c l IH]; intros m p; simpl; [lia|].
  intros [Hc Hl]. rewrite <-(insert_delete_id m p c Hc).
  rewrite map_size_insert_None by apply lookup_delete_eq.
  apply le_n_S, (IH _ (p + 1)). apply bytes_at_lookup. intros i x Hx.
  rewrite lookup_delete_ne by lia. by apply (proj1 (bytes_at_lookup m (p + 1) l) Hl).
Qed.

(** Reading back what is stored. *)
Lemma scan_string_run {E} fuel m p s :
  string_at m p s → (String.length s < fuel)%nat →
  scan_string (E:=E) fuel p m = (m, Return s).
Proof.
  revert p s. induction fuel as [|fuel IH]; intros p s [Hn Hb] Hf; [lia|].
  destruct s as [|c s]; simpl in *; destruct Hb as [Hc Hb].
  - unfold load, mbind, M_bind. by rewrite Hc.
  - unfold load at 1, mbind, M_bind. rewrite Hc.
    rewrite bool_decide_eq_false_2 by set_solver.
    rewrite (IH (p + 1) s); [done| |lia]. split; [set_solver|done].
Qed.

Lemma std_string_run {E} m p s :
  string_at m p s → std_string (E:=E) (Some p) m = (m, Return s).
Proof.
  intros Hs. unfold std_string, mbind, M_bind, getS. apply scan_string_run; [done|].
  destruct Hs as [_ H%bytes_at_size]. rewrite length_app, length_bytes in H. simpl in H. lia.
Qed.

(** A scan changes nothing, and what it returns is in memory. *)
Lemma scan_string_inv {E} fuel m m' p s :
  scan_string (E:=E) fuel p m = (m', Return s) → m' = m ∧ string_at m p s.
Proof.
  revert p s. induction fuel as [|fuel IH]; intros p s; simpl; [done|].
  unfold load at 1, mbind, M_bind. destruct (m !! p) as [c|] eqn:Hc; [|done].
  case_bool_decide as Hn; [intros [= <- <-]; subst c|].
  { split; [done|]. split; [set_solver|]. by simpl. }
  destruct (scan_string fuel (p + 1) m) as [m1 [s'|e|]] eqn:Hs; [|done..].
  intros [= <- <-]. apply IH in Hs as [-> [Hn' Hb]].
  split; [done|]. split; [set_solver|]. by simpl.
Qed.

Lemma copy_bytes_run {E} m p l :
  writable m p (Z.of_nat (length l)) →
  ∃ m', copy_bytes (E:=E) p l m = (m', Return ())
    ∧ bytes_at m' p l ∧ same_outside p (Z.of_nat (length l)) m m'.
Proof.
  revert m p. induction l as [|c l IH]; intros m p Hw; simpl.
  - exists m. split; [done|]. split; [done|]. reflexivity.
  - unfold store at 1, mbind at 1, M_bind at 1.
    destruct (Hw p) as [x Hx]; [simpl; lia|]. rewrite Hx.
    destruct (IH (<[p := c]> m) (p + 1)) as (m' & Hr & Hb & Hd & Hs).
    { intros i Hi. rewrite lookup_insert_ne by lia. apply Hw. simpl. lia. }
    exists m'. split; [done|]. split; [split; [|done]|split].
    + rewrite Hs by lia. apply lookup_insert_eq.
    + rewrite Hd, dom_insert_L. apply elem_of_dom_2 in Hx. set_solver.
    + intros i Hi. rewrite Hs by lia. apply lookup_insert_ne. lia.
Qed.

(** The buffer after [copy_out]: the first 2047 bytes and a terminator. *)
Lemma copy_out_run {E} m p s :
  writable m p (Z.of_nat (length (truncated s)) + 1) →
  ∃ m', copy_out (E:=E) s p m = (m', Return ())
    ∧ bytes_at m' p (truncated s ++ [NUL])
    ∧ same_outside p (Z.of_nat (length (truncated s)) + 1) m m'.
Proof.
  intros Hw. unfold copy_out. cbv zeta. set (n := if _ <? _ then _ else _).
  assert (Hn : n = Z.of_nat (length (truncated s))
    ∧ take (Z.to_nat n) (bytes s) = truncated s).
  { unfold n, truncated. rewrite length_take, length_bytes.
    destruct (Z.ltb_spec 2047 (Z.of_nat (String.length s))); [split; [lia|done]|].
    split; [lia|]. rewrite !take_ge; rewrite ?length_bytes; [done|lia..]. }
  destruct Hn as [-> ->].
  destruct (copy_bytes_run (E:=E) m p (truncated s)) as (m1 & Hr & Hb & Hs).
  { intros i Hi. apply Hw. lia. }
  rewrite (bind_return _ _ _ _ _ Hr). unfold store.
  set (q := p + Z.of_nat (length (truncated s))).
  destruct (Hw q) as [x Hx]; [lia|].
  assert (Hq : m1 !! q = Some x) by (rewrite (proj2 Hs); [done|lia]). rewrite Hq.
  eexists. split; [done|]. split.
  - apply bytes_at_app. split; [|simpl; split; [apply lookup_insert_eq|done]].
    apply bytes_at_lookup. intros i c Hc. apply lookup_lt_Some in Hc as Hlt.
    rewrite lookup_insert_ne by lia. by apply (proj1 (bytes_at_lookup m1 p _) Hb).
  - split.
    + rewrite dom_insert_L, (proj1 Hs). apply elem_of_dom_2 in Hx. set_solver.
    + intros i Hi. rewrite lookup_insert_ne by lia. apply Hs. lia.
Qed.
