(* ===== verification/KvRpc.v ===== *)
(** * The interface between [kvclient.cpp] and the class [KvstoreRPCClient]

    Messages, exceptions and the operations of the RPC client that the C
    interface calls.  [RpcClient.v] implements the ones whose source is there
    ([kvclientimpl.cpp]); [IsLeader], [Shutdown] and [TerminateServer] are
    declared in a header that is not in the repository. *)

From S2P Require Import Prelude.
From stdpp Require Import base gmap strings list.
#[local] Open Scope Z_scope.

(** The message types the client fills and reads; [request_type] is an open
    protobuf enum, hence the last constructor. *)
Inductive RequestType : Type := GET_REQ | PUT_REQ | STOP_REQ | OTHER_REQ (n : Z).

Record KvstoreRequest : Type := mkRequest {
  rq_key : string; rq_value : string; rq_request_type : RequestType
}.
Record KvstoreResponse : Type := mkResponse {
  rs_found : bool; rs_value : string; rs_old_value : string; rs_request_type : RequestType
}.

(** [KvstoreResponse response;] *)
Definition empty_response : KvstoreResponse := mkResponse false "" "" GET_REQ.

(** C++ exceptions.  [ForeignException] is one that does not derive from
    [std::exception]. *)
Inductive cexn : Type :=
| RuntimeError (what : string)
| SystemError
| LeaderRedirectException (new_leader_address : string)
| StdException (what : string)
| ForeignException.

Class KvRpc (W C : Type) : Type := {
  new_client : string → M cexn W C;
  delete_client : C → M cexn W ();
  sendRequest : C → KvstoreRequest → KvstoreResponse → Z → M cexn W KvstoreResponse;
  IsLeader : C → M cexn W bool;
  Shutdown : C → M cexn W ();
  TerminateServer : C → string → Z → M cexn W Z;
  (** Whether [LeaderRedirectException] derives from [std::exception]. *)
  redirect_is_std : bool;
}.

(** [catch (const std::exception& e)] *)
Definition is_std_exception {W C} `{KvRpc W C} (e : cexn) : bool :=
  match e with
  | LeaderRedirectException _ => redirect_is_std
  | ForeignException => false
  | _ => true
  end.
