(* ===== verification/KvClient.v ===== *)
(** * The C interface of the client

    [client/src/kvclient.cpp]: the five [kv739_*] functions over the globals
    [kv_client], [server_list] and [current_leader], the memory of the caller
    and an RPC client given by its interface [KvRpc]; and the test program
    [client/test/test_kv739_die.cpp]. *)

From S2P Require Import Prelude.
From S2P Require Import CMemory.
From S2P Require Import KvRpc.
From stdpp Require Import base gmap strings list.
From Stdlib Require Import Lia.
#[local] Open Scope Z_scope.

Record Process (W C : Type) : Type := mkProcess {
  kv_client : option C;
  server_list : list string;
  current_leader : string;
  p_mem : memory;
  p_world : W;
}.
Arguments mkProcess {_ _}. Arguments kv_client {_ _}. Arguments server_list {_ _}.
Arguments current_leader {_ _}. Arguments p_mem {_ _}. Arguments p_world {_ _}.

Section functions.
Context {W C : Type} `{HR : !KvRpc W C}.
(** Declared at line 11, defined nowhere. *)
Context (read_server_list : string → M cexn W (list string)).
Abbreviation P := (M cexn (Process W C)).
Implicit Types p : Process W C.

Definition set_kv_client (c : option C) p : Process W C :=
  mkProcess c (server_list p) (current_leader p) (p_mem p) (p_world p).
Definition set_server_list (l : list string) p : Process W C :=
  mkProcess (kv_client p) l (current_leader p) (p_mem p) (p_world p).
Definition set_current_leader (s : string) p : Process W C :=
  mkProcess (kv_client p) (server_list p) s (p_mem p) (p_world p).
Definition set_mem (m : memory) p : Process W C :=
  mkProcess (kv_client p) (server_list p) (current_leader p) m (p_world p).
Definition set_world (w : W) p : Process W C :=
  mkProcess (kv_client p) (server_list p) (current_leader p) (p_mem p) w.

Definition on_world {A} (m : M cexn W A) : P A := zoom p_world set_world m.
Definition on_mem {A} (m : M cexn memory A) : P A := zoom p_mem set_mem m.

(** [kv_client->]: dereferencing a null [shared_ptr] is undefined. *)
Definition client : P C :=
  o ← gets kv_client;
  match o with Some c => mret c | None => undefined end.

(** An exception that leaves a [noexcept] function, as destructors and the
    assignment of a [shared_ptr] are, ends the process by [std::terminate]: no
    handler sees it.  [Undefined] is where nothing more is said of a run. *)
Definition noexcept {S A} (m : M cexn S A) : M cexn S A := λ s,
  match m s with
  | (s', Throw _) => (s', Undefined)
  | r => r
  end.

(** Assigning to the only [shared_ptr] of a client destroys the client it held,
    after the new one is in place. *)
Definition assign_client (c : option C) : P () :=
  old ← gets kv_client;
  modify (set_kv_client c);;
  match old with Some o => noexcept (on_world (delete_client o)) | None => mret () end.

(** A handler [catch (const std::exception& e) { return -1; }]. *)
Definition catch_std {A} (h : P A) (e : cexn) : P A :=
  if is_std_exception e then h else throw e.

(** The body of the loop of [kv739_init]: [true] when the function returns. *)
Definition try_server (server : string) : P bool :=
  try_catch
    (c ← on_world (new_client server);
     assign_client (Some c);;
     c ← client;
     leader ← on_world (IsLeader c);
     if leader : bool then modify (set_current_leader server);; mret true else mret false)
    (catch_std (mret false)).

Fixpoint init_loop (servers : list string) : P Z :=
  match servers with
  | [] => mret (-1)
  | server :: servers' =>
      done ← try_server server;
      if done : bool then mret 0 else init_loop servers'
  end.

Definition kv739_init (config_file : char_ptr) : P Z :=
  config ← on_mem (std_string config_file);
  servers ← on_world (read_server_list config);
  modify (set_server_list servers);;
  servers ← gets server_list;
  init_loop servers.

Definition kv739_shutdown : P Z :=
  try_catch
    (o ← gets kv_client;
     match o with
     | Some c => on_world (Shutdown c);; assign_client None
     | None => mret ()
     end;;
     mret 0)
    (catch_std (mret (-1))).

Definition kv739_die (server_name : char_ptr) (clean : Z) : P Z :=
  try_catch
    (modern_server_name ← on_mem (std_string server_name);
     c ← client;
     on_world (TerminateServer c modern_server_name clean))
    (catch_std (mret (-1))).

Definition kv739_get (key value : char_ptr) : P Z :=
  match key, value with
  | Some key, Some value =>
      modern_key ← on_mem (std_string (Some key));
      try_catch
        (c ← client;
         response ← on_world (sendRequest c (mkRequest modern_key "" GET_REQ) empty_response 0);
         if negb (rs_found response) then mret 1
         else on_mem (copy_out (rs_value response) value);; mret 0)
        (catch_std (mret (-1)))
  | _, _ => mret (-1)
  end.

(** The [try] block of [kv739_put]. *)
Definition put_attempt (key value : string) (old_value : Z) : P Z :=
  c ← client;
  response ← on_world (sendRequest c (mkRequest key value PUT_REQ) empty_response 0);
  if negb (rs_found response) then mret 1
  else on_mem (copy_out (rs_old_value response) old_value);; mret 0.

(** Its first handler, up to [retry_count--]; what it throws is not caught by
    the handler below it. *)
Definition redirect (new_leader_address : string) : P () :=
  modify (set_current_leader new_leader_address);;
  c ← on_world (new_client new_leader_address);
  assign_client (Some c).

Fixpoint put_loop (retry_count : nat) (key value : string) (old_value : Z) : P Z :=
  match retry_count with
  | O => mret (-1)
  | S retry_count' =>
      try_catch (put_attempt key value old_value)
        (λ e, match e with
              | LeaderRedirectException address =>
                  redirect address;; put_loop retry_count' key value old_value
              | _ => catch_std (mret (-1)) e
              end)
  end.

Definition kv739_put (key value old_value : char_ptr) : P Z :=
  match key, value, old_value with
  | Some key, Some value, Some old_value =>
      modern_key ← on_mem (std_string (Some key));
      modern_value ← on_mem (std_string (Some value));
      put_loop 3 modern_key modern_value old_value
  | _, _, _ => mret (-1)
  end.

(** [char a[] = "..."]: an array of the caller's frame, at [p]. *)
Fixpoint write_bytes (m : memory) (p : Z) (l : list Ascii.ascii) : memory :=
  match l with [] => m | c :: l' => write_bytes (<[p := c]> m) (p + 1) l' end.
Definition with_array (a : Z) (s : string) p : Process W C :=
  set_mem (write_bytes (p_mem p) a (bytes s ++ [NUL])) p.
Definition local_array (a : Z) (s : string) : P () := modify (with_array a s).

(** [main] of the test program; the results of [kv739_die] and
    [kv739_shutdown] only choose what is printed. *)
Definition main (config_file server_name : Z) : P Z :=
  local_array config_file "config.txt";;
  r ← kv739_init (Some config_file);
  if bool_decide (r ≠ 0) then mret (-1)
  else
    local_array server_name "127.0.0.1:50051";;
    kv739_die (Some server_name) 1;;
    kv739_shutdown;;
    mret 0.
End functions.
