(* ===== verification/KvClientSpec.v ===== *)
(** * What the C interface does

    The contract of each [kv739_*] function over any RPC client, the bytes they
    may touch, the retries of [kv739_put] and what [kv739_init] finds. *)

From S2P Require Import Prelude.
From S2P Require Import CMemory.
From S2P Require Import KvRpc.
From S2P Require Import KvClient.
From stdpp Require Import base gmap strings list.
From Stdlib Require Import Lia.
#[local] Open Scope Z_scope.

(** ** Frames of the memory operations *)

Section memory_frame.
Context {E : Type} (b n : Z).
Abbreviation F := (same_outside b n).

Lemma frame_store p c : b ≤ p < b + n → steps F (store (E:=E) p c).
Proof.
  intros Hp m. unfold store. destruct (m !! p) as [x|] eqn:Hx; simpl; [|reflexivity].
  split; [apply elem_of_dom_2 in Hx; rewrite dom_insert_L; set_solver|].
  intros i Hi. apply lookup_insert_ne. lia.
Qed.

Lemma frame_copy_bytes p l :
  b ≤ p → p + Z.of_nat (length l) ≤ b + n → steps F (copy_bytes (E:=E) p l).
Proof.
  revert p. induction l as [|c l IH]; intros p H1 H2; simpl in *; [intros m; simpl; reflexivity|].
  frame_step; [apply _|apply frame_store; lia|]. intros _. apply IH; lia.
Qed.

Lemma frame_copy_out s : 2048 ≤ n → steps F (copy_out (E:=E) s b).
Proof.
  intros Hn. unfold copy_out. cbv zeta. set (k := if _ <? _ then _ else _).
  assert (Hk : 0 ≤ k ≤ 2047).
  { unfold k. destruct (Z.ltb_spec 2047 (Z.of_nat (String.length s))); lia. }
  frame_step; [apply _| |intros _].
  - apply frame_copy_bytes; [lia|]. rewrite length_take. lia.
  - apply frame_store. lia.
Qed.

Lemma frame_scan fuel p : steps F (scan_string (E:=E) fuel p).
Proof.
  revert p. induction fuel as [|fuel IH]; intros p m; simpl; [reflexivity|].
  unfold load, mbind, M_bind. destruct (m !! p); simpl; [|reflexivity].
  case_bool_decide; simpl; [reflexivity|].
  specialize (IH (p + 1) m). by destruct (scan_string fuel (p + 1) m) as [m' []].
Qed.

Lemma frame_std_string p : steps F (std_string (E:=E) p).
Proof.
  destruct p as [p|]; [|intros m; simpl; reflexivity]. unfold std_string.
  intros m. apply frame_scan.
Qed.
End memory_frame.

Section spec.
Context {W C : Type} `{HR : !KvRpc W C}.
Implicit Types p : Process W C.

(** ** Running the pieces *)

Lemma set_mem_id p : set_mem (p_mem p) p = p.
Proof. by destruct p. Qed.

Lemma run_string p a s :
  string_at (p_mem p) a s → on_mem (std_string (Some a)) p = (p, Return s).
Proof.
  intros Hs. unfold on_mem. rewrite (zoom_run _ _ _ _ _ _ (std_string_run _ _ _ Hs)).
  by rewrite set_mem_id.
Qed.

Lemma run_client p c : kv_client p = Some c → client p = (p, Return c).
Proof. intros H. unfold client, mbind, M_bind, gets. by rewrite H. Qed.

Lemma run_world {A} (m : M cexn W A) p w o :
  m (p_world p) = (w, o) → on_world m p = (set_world w p, o).
Proof. intros H. unfold on_world. by rewrite (zoom_run _ _ _ _ _ _ H). Qed.

(** What a call of [kv739_get] or one attempt of [kv739_put] does with the
    outcome of its request: [out] is the answer's string, [b] the buffer. *)
Definition answered (out : KvstoreResponse → string) (b : Z) p (w : W)
    (o : outcome cexn KvstoreResponse) (r : Process W C * outcome cexn Z) : Prop :=
  match o with
  | Return a =>
      if rs_found a then
        writable (p_mem p) b (Z.of_nat (length (truncated (out a))) + 1) →
        ∃ m, r = (set_mem m (set_world w p), Return 0)
             ∧ bytes_at m b (truncated (out a) ++ [NUL])
             ∧ same_outside b (Z.of_nat (length (truncated (out a))) + 1) (p_mem p) m
      else r = (set_world w p, Return 1)
  | Throw e => r = (set_world w p, if is_std_exception e then Return (-1) else Throw e)
  | Undefined => r = (set_world w p, Undefined)
  end.

Lemma run_request p c rq out b w o h :
  kv_client p = Some c →
  sendRequest c rq empty_response 0 (p_world p) = (w, o) →
  (∀ e, o = Throw e → h e = catch_std (mret (-1)) e) →
  answered out b p w o
    (try_catch
      (c ← client;
       response ← on_world (sendRequest c rq empty_response 0);
       if negb (rs_found response) then mret 1
       else on_mem (copy_out (out response) b);; mret 0) h p).
Proof.
  intros Hc Hs Hh. unfold try_catch.
  rewrite (bind_return _ _ _ _ _ (run_client _ _ Hc)).
  pose proof (run_world _ _ _ _ Hs) as Hw. unfold answered.
  destruct o as [a|e|].
  - rewrite (bind_return _ _ _ _ _ Hw). destruct (rs_found a); simpl; [|done].
    intros Hb. destruct (copy_out_run (E:=cexn) (p_mem p) b (out a) Hb) as (m & Hr & Hat & Hsame).
    exists m. split; [|done].
    erewrite bind_return; [done|]. unfold on_mem. by erewrite zoom_run.
  - rewrite (bind_throw _ _ _ _ _ Hw), Hh by done. unfold catch_std.
    by destruct (is_std_exception e).
  - by rewrite (bind_undefined _ _ _ _ Hw).
Qed.

(** The chain of leaders [kv739_put] is sent through. *)
Inductive redirected (k v : string) : Process W C → list string → Process W C → Prop :=
| redirected_nil p : redirected k v p [] p
| redirected_cons p c a w p1 l p2 :
    kv_client p = Some c →
    sendRequest c (mkRequest k v PUT_REQ) empty_response 0 (p_world p)
      = (w, Throw (LeaderRedirectException a)) →
    redirect a (set_world w p) = (p1, Return ()) →
    redirected k v p1 l p2 →
    redirected k v p (a :: l) p2.

Lemma assign_client_inv c p p' o :
  assign_client c p = (p', o) →
  kv_client p' = c ∧ current_leader p' = current_leader p ∧ p_mem p' = p_mem p
  ∧ server_list p' = server_list p.
Proof.
  unfold assign_client, noexcept, mbind, M_bind, gets, modify, mret, M_ret, on_world, zoom.
  destruct (kv_client p); [destruct (delete_client _ _) as [w [[]|e|]]|]; by intros [= <- _].
Qed.

(** What the destructor throws ends the process, so the assignment throws nothing. *)
Lemma assign_client_outcome c p p' o :
  assign_client c p = (p', o) → o = Return () ∨ o = Undefined.
Proof.
  unfold assign_client, noexcept, mbind, M_bind, gets, modify, mret, M_ret, on_world, zoom.
  destruct (kv_client p); [destruct (delete_client _ _) as [w [[]|e|]]|]; intros [= _ <-]; auto.
Qed.

Lemma frame_noexcept {S A} (F : S → S → Prop) (m : M cexn S A) : steps F m → steps F (noexcept m).
Proof. intros Hm s. unfold noexcept. specialize (Hm s). by destruct (m s) as [s' [a|e|]]. Qed.

Lemma redirect_inv a p p' :
  redirect a p = (p', Return ()) →
  current_leader p' = a ∧ is_Some (kv_client p') ∧ p_mem p' = p_mem p.
Proof.
  unfold redirect. mstep. unfold mbind, M_bind, on_world at 1, zoom.
  destruct (new_client a _) as [w [c|e|]]; [|done..].
  intros (Hc & Hl & Hm & _)%assign_client_inv. rewrite Hc, Hl, Hm. eauto.
Qed.

Lemma redirected_mem k v p l p' :
  redirected k v p l p' → p_mem p' = p_mem p
    ∧ current_leader p' = default (current_leader p) (last l).
Proof.
  induction 1 as [|p c a w p1 l p2 Hc Hs (Hl & _ & Hm)%redirect_inv Hr [IH1 IH2]]; [done|].
  split; [by rewrite IH1, Hm|]. rewrite IH2, Hl, last_cons. by destruct (last l).
Qed.

Lemma put_loop_redirected n k v b p l p' :
  redirected k v p l p' →
  put_loop (length l + n) k v b p = put_loop n k v b p'.
Proof.
  induction 1 as [|p c a w p1 l p2 Hc Hs Hd Hr IH]; [done|]. simpl.
  unfold try_catch at 1, put_attempt at 1.
  rewrite (bind_return _ _ _ _ _ (run_client _ _ Hc)).
  rewrite (bind_throw _ _ _ _ _ (run_world _ _ _ _ Hs)). simpl.
  by rewrite (bind_return _ _ _ _ _ Hd).
Qed.

Lemma put_loop_answered n k v b p c w o :
  kv_client p = Some c →
  sendRequest c (mkRequest k v PUT_REQ) empty_response 0 (p_world p) = (w, o) →
  (∀ a, o ≠ Throw (LeaderRedirectException a)) →
  answered rs_old_value b p w o (put_loop (S n) k v b p).
Proof.
  intros Hc Hs Ho. simpl. apply run_request with (c := c); [done..|].
  intros e ->. destruct e; try done. by destruct (Ho new_leader_address).
Qed.

Lemma kv739_put_loop kp k vp v b p :
  string_at (p_mem p) kp k → string_at (p_mem p) vp v →
  kv739_put (Some kp) (Some vp) (Some b) p = put_loop 3 k v b p.
Proof.
  intros Hk Hv. unfold kv739_put.
  rewrite (bind_return _ _ _ _ _ (run_string _ _ _ Hk)).
  by rewrite (bind_return _ _ _ _ _ (run_string _ _ _ Hv)).
Qed.

(** ** Theorems *)

(** C10: [kv739_get] asks the client once for the key at [kp] and answers 0 with
    the value in the buffer, 1 when it is not found, -1 when the request fails
    with a standard exception; the buffer receives at most 2047 bytes and a
    terminator, every other byte keeps its value. *)
Theorem kv739_get_contract p c kp k vp w o :
  kv_client p = Some c → string_at (p_mem p) kp k →
  sendRequest c (mkRequest k "" GET_REQ) empty_response 0 (p_world p) = (w, o) →
  answered rs_value vp p w o (kv739_get (Some kp) (Some vp) p).
Proof.
  intros Hc Hk Hs. unfold kv739_get. rewrite (bind_return _ _ _ _ _ (run_string _ _ _ Hk)).
  by apply run_request with (c := c).
Qed.

(** A value of at most 2047 characters, none of them NUL, is read back from
    the buffer as it was sent. *)
Lemma kv739_get_read_back p c kp k vp w r :
  kv_client p = Some c → string_at (p_mem p) kp k →
  sendRequest c (mkRequest k "" GET_REQ) empty_response 0 (p_world p) = (w, Return r) →
  rs_found r = true → NUL ∉ bytes (rs_value r) → (String.length (rs_value r) ≤ 2047)%nat →
  writable (p_mem p) vp (Z.of_nat (String.length (rs_value r)) + 1) →
  ∃ p', kv739_get (Some kp) (Some vp) p = (p', Return 0)
    ∧ on_mem (std_string (Some vp)) p' = (p', Return (rs_value r)).
Proof.
  intros Hc Hk Hs Hf Hn Hlen Hw.
  pose proof (run_request p c (mkRequest k "" GET_REQ) rs_value vp w (Return r)
    (catch_std (mret (-1))) Hc Hs (λ _ _, eq_refl)) as H.
  unfold kv739_get. rewrite (bind_return _ _ _ _ _ (run_string _ _ _ Hk)).
  unfold answered in H. rewrite Hf in H.
  assert (Ht : truncated (rs_value r) = bytes (rs_value r)).
  { unfold truncated. rewrite take_ge; [done|]. by rewrite length_bytes. }
  rewrite Ht, length_bytes in H. destruct (H Hw) as (m & Hr & Hb & _).
  eexists. split; [exact Hr|]. apply run_string. by split.
Qed.

(** C19: [kv739_put] follows up to two redirections to the client that answers,
    and gives up with -1 after the third, holding the client of the last
    leader it was sent to. *)
Theorem kv739_put_redirects p p' l kp k vp v b :
  string_at (p_mem p) kp k → string_at (p_mem p) vp v →
  redirected k v p l p' →
  current_leader p' = default (current_leader p) (last l)
  ∧ (length l = 3%nat → kv739_put (Some kp) (Some vp) (Some b) p = (p', Return (-1)))
  ∧ ((length l < 3)%nat → ∀ c w o, kv_client p' = Some c →
       sendRequest c (mkRequest k v PUT_REQ) empty_response 0 (p_world p') = (w, o) →
       (∀ a, o ≠ Throw (LeaderRedirectException a)) →
       answered rs_old_value b p' w o (kv739_put (Some kp) (Some vp) (Some b) p)).
Proof.
  intros Hk Hv Hr. rewrite (kv739_put_loop kp k vp v b p Hk Hv).
  pose proof (redirected_mem _ _ _ _ _ Hr) as [_ Hl]. split_and!; [done| |].
  - intros Hlen. rewrite <-Hlen, <-(Nat.add_0_r (length l)).
    by rewrite (put_loop_redirected 0 _ _ _ _ _ _ Hr).
  - intros Hlen c w o Hc Hs Ho.
    replace 3%nat with (length l + S (2 - length l))%nat by lia.
    rewrite (put_loop_redirected _ _ _ _ _ _ _ Hr). by apply put_loop_answered with (c := c).
Qed.

(** An exception raised while the client of a new leader is set up leaves
    [kv739_put]: its handlers do not cover the body of a handler. *)
Lemma kv739_put_redirect_escapes p p' p1 c a w l kp k vp v b e :
  string_at (p_mem p) kp k → string_at (p_mem p) vp v →
  redirected k v p l p' → (length l < 3)%nat → kv_client p' = Some c →
  sendRequest c (mkRequest k v PUT_REQ) empty_response 0 (p_world p')
    = (w, Throw (LeaderRedirectException a)) →
  redirect a (set_world w p') = (p1, Throw e) →
  kv739_put (Some kp) (Some vp) (Some b) p = (p1, Throw e).
Proof.
  intros Hk Hv Hr Hlen Hc Hs Hd. rewrite (kv739_put_loop kp k vp v b p Hk Hv).
  replace 3%nat with (length l + S (2 - length l))%nat by lia.
  rewrite (put_loop_redirected _ _ _ _ _ _ _ Hr). simpl.
  unfold try_catch at 1, put_attempt at 1.
  rewrite (bind_return _ _ _ _ _ (run_client _ _ Hc)).
  rewrite (bind_throw _ _ _ _ _ (run_world _ _ _ _ Hs)). simpl.
  by rewrite (bind_throw _ _ _ _ _ Hd).
Qed.

(** *** Frames *)

Definition mem_frame (b : Z) (p p' : Process W C) : Prop := same_outside b 2048 (p_mem p) (p_mem p').

#[local] Instance mem_frame_preorder b : PreOrder (mem_frame b).
Proof. split; [intros p; unfold mem_frame; reflexivity|]. intros p1 p2 p3 ??. unfold mem_frame in *. by etrans. Qed.

Lemma frame_world {A} b (m : M cexn W A) : steps (mem_frame b) (on_world m).
Proof. apply steps_zoom. intros p w. unfold mem_frame. simpl. reflexivity. Qed.
Lemma frame_mem {A} b (m : M cexn memory A) :
  steps (same_outside b 2048) m → steps (mem_frame b) (on_mem m).
Proof.
  intros Hm p. unfold on_mem, zoom. specialize (Hm (p_mem p)).
  by destruct (m (p_mem p)) as [m' o].
Qed.
Lemma frame_string b a : steps (mem_frame b) (on_mem (std_string a)).
Proof. apply frame_mem, frame_std_string. Qed.
Lemma frame_out b s : steps (mem_frame b) (on_mem (copy_out s b)).
Proof. by apply frame_mem, frame_copy_out. Qed.
Lemma frame_client b : steps (mem_frame b) (client (W:=W)).
Proof. intros p. unfold client, mbind, M_bind, gets. by destruct (kv_client p); simpl. Qed.
Lemma frame_undefined {A} b : steps (mem_frame b) (undefined : M cexn (Process W C) A).
Proof. intros p. simpl. reflexivity. Qed.
Lemma frame_redirect b a : steps (mem_frame b) (redirect a).
Proof.
  unfold redirect, assign_client. repeat frame_step; try apply frame_noexcept; try apply frame_world;
    apply steps_modify; intros p; unfold mem_frame; simpl; reflexivity.
Qed.
#[local] Hint Resolve frame_world frame_string frame_out frame_client frame_redirect : frame.

Lemma frame_put_loop b n k v : steps (mem_frame b) (put_loop n k v b).
Proof.
  induction n as [|n IH]; simpl; unfold put_attempt, catch_std; repeat frame_step; apply IH.
Qed.

(** C21: whatever happens during the call, undefined behaviour included,
    [kv739_get] and [kv739_put] write to none but the 2048 bytes of the
    caller's buffer. *)
Theorem buffer_frame kp vp b p :
  same_outside b 2048 (p_mem p) (p_mem (kv739_get kp (Some b) p).1)
  ∧ same_outside b 2048 (p_mem p) (p_mem (kv739_put kp vp (Some b) p).1).
Proof.
  split.
  - change (mem_frame b p (kv739_get kp (Some b) p).1). revert p. fold (steps (mem_frame b) (kv739_get kp (Some b))).
    destruct kp as [kp|]; unfold kv739_get, catch_std; repeat frame_step.
  - change (mem_frame b p (kv739_put kp vp (Some b) p).1). revert p. fold (steps (mem_frame b) (kv739_put kp vp (Some b))).
    destruct kp as [kp|], vp as [vp|]; unfold kv739_put; repeat frame_step. apply frame_put_loop.
Qed.

(** *** The number of requests *)

Section attempts.
Context (sent : W → nat).
Context (Hs : ∀ c rq rs i w, (sent (sendRequest c rq rs i w).1 ≤ S (sent w))%nat).
Context (Hn : ∀ s w, (sent (new_client s w).1 ≤ sent w)%nat).
Context (Hd : ∀ c w, (sent (delete_client c w).1 ≤ sent w)%nat).

(** At most [k] requests. *)
Definition within (k : nat) (p p' : Process W C) : Prop :=
  (sent (p_world p') ≤ sent (p_world p) + k)%nat.

Lemma within_bind {A B} i j (m : M cexn (Process W C) A) (f : A → M cexn (Process W C) B) :
  steps (within i) m → (∀ a, steps (within j) (f a)) → steps (within (i + j)) (m ≫= f).
Proof.
  intros H1 H2 p. unfold mbind, M_bind. specialize (H1 p).
  destruct (m p) as [p' [a|e|]]; unfold within in *; simpl in *; [|lia..].
  specialize (H2 a p'). simpl in *. lia.
Qed.

Lemma within_same {A} (m : M cexn (Process W C) A) :
  (∀ p, p_world (m p).1 = p_world p) → steps (within 0) m.
Proof. intros H p. unfold within. rewrite H. lia. Qed.

Lemma within_mem {A} (m : M cexn memory A) : steps (within 0) (on_mem m).
Proof. apply within_same. intros p. unfold on_mem, zoom. by destruct (m (p_mem p)). Qed.

Lemma within_redirect a : steps (within 0) (redirect a).
Proof.
  intros p. unfold within, redirect, assign_client, noexcept, mbind, M_bind, gets, modify, on_world, zoom.
  simpl. specialize (Hn a (p_world p)).
  destruct (new_client a (p_world p)) as [w [c|e|]]; simpl in *; [|lia..].
  destruct (kv_client p) as [c'|]; simpl; [|lia]. specialize (Hd c' w).
  destruct (delete_client c' w) as [w' [[]|e|]]; simpl in *; lia.
Qed.

Lemma within_attempt k v b : steps (within 1) (put_attempt k v b).
Proof.
  apply (within_bind 0 1).
  { apply within_same. intros p. unfold client, mbind, M_bind, gets. by destruct (kv_client p). }
  intros c. apply (within_bind 1 0).
  { intros p. unfold within, on_world, zoom.
    specialize (Hs c (mkRequest k v PUT_REQ) empty_response 0 (p_world p)).
    destruct (sendRequest _ _ _ _ _); simpl in *. lia. }
  intros r. destruct (negb _); [by apply within_same|].
  apply (within_bind 0 0); [apply within_mem|]. intros _. by apply within_same.
Qed.

Lemma within_loop n k v b : steps (within n) (put_loop n k v b).
Proof.
  induction n as [|n IH]; intros p; simpl; [unfold within; simpl; lia|].
  unfold try_catch. pose proof (within_attempt k v b p) as H.
  destruct (put_attempt k v b p) as [p' [x|e|]]; unfold within in *; simpl in *; [lia| |lia].
  assert (Hc : ∀ e, p_world (catch_std (mret (-1) : M cexn (Process W C) Z) e p').1 = p_world p').
  { intros e'. unfold catch_std. by destruct (is_std_exception e'). }
  destruct e; try (rewrite Hc; lia).
  pose proof (within_bind 0 n _ _ (within_redirect new_leader_address) (λ _, IH) p') as H2.
  unfold within in H2. simpl in H2. lia.
Qed.

(** C27: a call of [kv739_put] sends at most three requests: for any count that
    one request raises by at most one and that nothing else raises. *)
Theorem kv739_put_attempts kp vp b p :
  (sent (p_world (kv739_put kp vp b p).1) ≤ sent (p_world p) + 3)%nat.
Proof.
  destruct kp as [kp|], vp as [vp|], b as [b|]; unfold kv739_put; try (simpl; lia).
  apply (within_bind 0 3); [apply within_mem|]. intros k.
  apply (within_bind 0 3); [apply within_mem|]. intros v. exact (within_loop 3 k v b).
Qed.
End attempts.

(** *** The other functions *)



(** *** Initialisation *)

Context (read_server_list : string → M cexn W (list string)).

(** The ways a server fails to be the leader. *)
Inductive not_leading (s : string) : Prop :=
| no_client w e : (new_client s w).2 = Throw e → not_leading s
| no_answer w c w' e : (new_client s w).2 = Return c → (IsLeader c w').2 = Throw e → not_leading s
| not_leader w c w' : (new_client s w).2 = Return c → (IsLeader c w').2 = Return false → not_leading s.

Lemma catch_false_inv e p p' b :
  catch_std (mret false : M cexn (Process W C) bool) e p = (p', Return b) → b = false ∧ p' = p.
Proof. unfold catch_std. destruct (is_std_exception e); [|done]. by intros [= <- <-]. Qed.

Lemma try_server_inv s p p' b :
  try_server s p = (p', Return b) →
  server_list p' = server_list p ∧
  if b then current_leader p' = s
            ∧ ∃ c w, kv_client p' = Some c ∧ IsLeader c w = (p_world p', Return true)
  else current_leader p' = current_leader p ∧ not_leading s.
Proof.
  unfold try_server, try_catch. unfold mbind at 1, M_bind at 1, on_world at 1, zoom.
  destruct (new_client s (p_world p)) as [w [c|e|]] eqn:Hn; [| |done].
  2: { intros [-> ->]%catch_false_inv. split_and!; [done..|]. apply (no_client s (p_world p) e). by rewrite Hn. }
  assert (Hnc : (new_client s (p_world p)).2 = Return c) by by rewrite Hn.
  destruct (assign_client (Some c) (set_world w p)) as [p1 o1] eqn:Ha.
  destruct (assign_client_inv _ _ _ _ Ha) as (Hc & Hl & _ & Hsl).
  destruct o1 as [[]|e|].
  - rewrite (bind_return _ _ _ _ _ Ha), (bind_return _ _ _ _ _ (run_client _ _ Hc)).
    unfold mbind, M_bind, on_world, zoom.
    destruct (IsLeader c (p_world p1)) as [w1 [[]|e|]] eqn:Hi; simpl.
    + intros [= <- <-]. split; [done|]. split; [done|]. by exists c, (p_world p1).
    + intros [= <- <-]. split; [done|]. split; [done|].
      apply (not_leader s (p_world p) c (p_world p1)); [done|by rewrite Hi].
    + intros [-> ->]%catch_false_inv. split; [done|]. split; [done|].
      apply (no_answer s (p_world p) c (p_world p1) e); [done|by rewrite Hi].
    + done.
  - by destruct (assign_client_outcome _ _ _ _ Ha).
  - rewrite (bind_undefined _ _ _ _ Ha). done.
Qed.

Lemma init_loop_inv servers p p' r :
  init_loop servers p = (p', Return r) →
  server_list p' = server_list p ∧
  ((r = 0 ∧ ∃ pre s post, servers = pre ++ s :: post ∧ Forall not_leading pre
      ∧ current_leader p' = s
      ∧ ∃ c w, kv_client p' = Some c ∧ IsLeader c w = (p_world p', Return true))
   ∨ (r = -1 ∧ current_leader p' = current_leader p ∧ Forall not_leading servers)).
Proof.
  revert p. induction servers as [|s servers IH]; intros p; simpl.
  - intros [= <- <-]. split; [done|]. by right.
  - unfold mbind, M_bind. destruct (try_server s p) as [p1 [[]|e|]] eqn:Ht; [| |done..];
      apply try_server_inv in Ht as [Hsl Ht].
    + intros [= <- <-]. split; [done|]. left. split; [done|]. destruct Ht as [Hl Hc].
      by exists [], s, servers.
    + destruct Ht as [Hl Hs]. intros [Hsl2 [[-> (pre & s' & post & -> & Hpre & H)]|(-> & Hl2 & Hall)]]%IH.
      * split; [congruence|]. left. split; [done|]. exists (s :: pre), s', post.
        split; [done|]. split; [by constructor|done].
      * split; [congruence|]. right. split; [done|]. split; [congruence|by constructor].
Qed.

(** C22: [kv739_init] answers 0 exactly with the first server of the
    configuration that says it is the leader, whose client it keeps, and -1
    when every server failed to; the list of servers is kept either way. *)
Theorem kv739_init_spec p p' r cf config w servers :
  string_at (p_mem p) cf config →
  read_server_list config (p_world p) = (w, Return servers) →
  kv739_init read_server_list (Some cf) p = (p', Return r) →
  server_list p' = servers ∧
  ((r = 0 ∧ ∃ pre s post, servers = pre ++ s :: post ∧ Forall not_leading pre
      ∧ current_leader p' = s
      ∧ ∃ c w, kv_client p' = Some c ∧ IsLeader c w = (p_world p', Return true))
   ∨ (r = -1 ∧ current_leader p' = current_leader p ∧ Forall not_leading servers)).
Proof.
  intros Hcf Hrd. unfold kv739_init. rewrite (bind_return _ _ _ _ _ (run_string _ _ _ Hcf)).
  rewrite (bind_return _ _ _ _ _ (run_world _ _ _ _ Hrd)). do 2 mstep. simpl.
  by intros [? ?]%init_loop_inv.
Qed.

(** The test program exits with -1 when the initialisation fails, and with 0
    otherwise, whatever [kv739_die] and [kv739_shutdown] answered. *)
Lemma main_result p cf sn p1 r0 :
  kv739_init read_server_list (Some cf) (with_array cf "config.txt" p) = (p1, Return r0) →
  (r0 ≠ 0 → main read_server_list cf sn p = (p1, Return (-1)))
  ∧ (r0 = 0 → ∀ p2 p3 x y,
       kv739_die (Some sn) 1 (with_array sn "127.0.0.1:50051" p1) = (p2, Return x) →
       kv739_shutdown p2 = (p3, Return y) →
       main read_server_list cf sn p = (p3, Return 0)).
Proof.
  intros Hi. unfold main, local_array. mstep. rewrite (bind_return _ _ _ _ _ Hi). split.
  - intros Hr. by rewrite bool_decide_eq_true_2.
  - intros -> p2 p3 x y Hd Hs. rewrite bool_decide_eq_false_2 by (by intros []). mstep.
    rewrite (bind_return _ _ _ _ _ Hd). by rewrite (bind_return _ _ _ _ _ Hs).
Qed.
End spec.
