(* ===== verification/RpcClient.v ===== *)
(** * The class [KvstoreRPCClient]

    [client/src/kvclientimpl.cpp]: the constructor, the destructor, the
    synchronous and the asynchronous request, and the loop of the completion
    threads, over an explicit heap of C++ objects.  gRPC and [std::thread] are
    the class [Grpc]; the methods that no source file defines ([IsLeader],
    [Shutdown], [TerminateServer]) are parameters of the instance. *)

From S2P Require Import Prelude.
From S2P Require Import KvRpc.
From Stdlib Require Import Ascii.
From stdpp Require Import base gmap strings list pretty.
From Stdlib Require Import Lia.
#[local] Open Scope Z_scope.

(** What gRPC, the clock and the thread library do, over their own state [X]:
    the clock in milliseconds, a blocking call of a stub with an absolute
    deadline (is the status ok, and the reply), whether a thread can be
    started, and the events (tag, is its status ok) a completion queue still
    delivers before [Next] answers [false]. *)
Class Grpc (X : Type) : Type := {
  system_clock_now : X → Z;
  contactRemote : string → Z → KvstoreRequest → KvstoreResponse → X → X * (bool * KvstoreResponse);
  start_thread : X → X * bool;
  cq_events : nat → X → list (nat * bool);
}.

(** A [KvstoreRPCClientStub] with its completion queue. *)
Record Stub : Type := mkStub { st_url : string; st_cq_down : bool }.
(** A [std::thread] running [AsyncCompleteRpc(client, node_id)]. *)
Record Thread : Type := mkThread { th_client : nat; th_node : nat }.
(** An [AsyncClientCall]; [None] is the default deadline, which is infinite. *)
Record Call : Type := mkCall {
  ca_stub : nat; ca_request : KvstoreRequest; ca_reply : nat; ca_deadline : option Z
}.
(** The object: two arrays of pointers, [None] where nothing was written. *)
Record Client : Type := mkClient {
  _servers : list (option nat); _threads : list (option nat)
}.

Record Heap (X : Type) : Type := mkHeap {
  g_num_servers : Z;
  h_clients : gmap nat Client;
  h_stubs : gmap nat Stub;
  h_threads : gmap nat Thread;
  h_calls : gmap nat Call;
  h_responses : gmap nat KvstoreResponse;
  h_context_deadline : option Z;
  h_next : nat;
  h_ext : X;
}.
Arguments mkHeap {_}. Arguments g_num_servers {_}. Arguments h_clients {_}. Arguments h_stubs {_}.
Arguments h_threads {_}. Arguments h_calls {_}. Arguments h_responses {_}.
Arguments h_context_deadline {_}. Arguments h_next {_}. Arguments h_ext {_}.

Section setters.
Context {X : Type}.
Implicit Types h : Heap X.

Definition set_num_servers z h : Heap X :=
  mkHeap z (h_clients h) (h_stubs h) (h_threads h) (h_calls h) (h_responses h)
    (h_context_deadline h) (h_next h) (h_ext h).
Definition set_clients c h : Heap X :=
  mkHeap (g_num_servers h) c (h_stubs h) (h_threads h) (h_calls h) (h_responses h)
    (h_context_deadline h) (h_next h) (h_ext h).
Definition set_stubs s h : Heap X :=
  mkHeap (g_num_servers h) (h_clients h) s (h_threads h) (h_calls h) (h_responses h)
    (h_context_deadline h) (h_next h) (h_ext h).
Definition set_threads t h : Heap X :=
  mkHeap (g_num_servers h) (h_clients h) (h_stubs h) t (h_calls h) (h_responses h)
    (h_context_deadline h) (h_next h) (h_ext h).
Definition set_calls c h : Heap X :=
  mkHeap (g_num_servers h) (h_clients h) (h_stubs h) (h_threads h) c (h_responses h)
    (h_context_deadline h) (h_next h) (h_ext h).
Definition set_context_deadline d h : Heap X :=
  mkHeap (g_num_servers h) (h_clients h) (h_stubs h) (h_threads h) (h_calls h) (h_responses h)
    d (h_next h) (h_ext h).
Definition set_next n h : Heap X :=
  mkHeap (g_num_servers h) (h_clients h) (h_stubs h) (h_threads h) (h_calls h) (h_responses h)
    (h_context_deadline h) n (h_ext h).
Definition set_ext x h : Heap X :=
  mkHeap (g_num_servers h) (h_clients h) (h_stubs h) (h_threads h) (h_calls h) (h_responses h)
    (h_context_deadline h) (h_next h) x.
End setters.

(** [while (getline(ss, token, ';')) push_back(token)]: the text after the last
    separator counts only if there is some. *)
Fixpoint drop_last_empty (l : list string) : list string :=
  match l with
  | [] => []
  | [p] => if String.eqb p "" then [] else [p]
  | p :: l' => p :: drop_last_empty l'
  end.
Definition getline_all (hosts : string) : list string :=
  drop_last_empty (split_on ";"%char hosts).

Definition port : Z := 50051.
Definition server_url (host : string) : string := String.app host (String.app ":" (pretty port)).

(** The count is printed with [%u] and bounds a [uint32_t]. *)
Definition uint32 (z : Z) : Z := z `mod` 2 ^ 32.

Section methods.
Context {X : Type} `{HG : !Grpc X}.
Abbreviation H := (M cexn (Heap X)).

Definition new_id : H nat :=
  n ← gets h_next; modify (set_next (S n));; mret n.

(** Dereferencing: an object that is not live is undefined behaviour. *)
Definition live {A} (get : Heap X → gmap nat A) (id : nat) : H A :=
  h ← getS; match get h !! id with Some a => mret a | None => undefined end.

(** [a[i]] as a pointer to dereference: within the array, and written. *)
Definition element (a : list (option nat)) (i : nat) : H nat :=
  match a !! i with Some (Some id) => mret id | _ => undefined end.

Definition write_element (a : list (option nat)) (i id : nat) : H (list (option nat)) :=
  if bool_decide (i < length a)%nat then mret (<[i := Some id]> a) else undefined.

(** One round of the constructor's loop. *)
Definition add_node (self node_id : nat) (host : string) : H () :=
  stub ← new_id;
  modify (λ h, set_stubs (<[stub := mkStub (server_url host) false]> (h_stubs h)) h);;
  c ← live h_clients self;
  servers ← write_element (_servers c) node_id stub;
  modify (λ h, set_clients (<[self := mkClient servers (_threads c)]> (h_clients h)) h);;
  x ← gets (λ h, start_thread (h_ext h));
  modify (set_ext x.1);;
  (if x.2 : bool then mret () else throw SystemError);;
  thread ← new_id;
  modify (λ h, set_threads (<[thread := mkThread self node_id]> (h_threads h)) h);;
  c ← live h_clients self;
  threads ← write_element (_threads c) node_id thread;
  modify (λ h, set_clients (<[self := mkClient (_servers c) threads]> (h_clients h)) h).

Fixpoint add_nodes (self node_id : nat) (host_addrs : list string) : H () :=
  match host_addrs with
  | [] => mret ()
  | host :: host_addrs' => add_node self node_id host;; add_nodes self (S node_id) host_addrs'
  end.

Definition KvstoreRPCClient (hosts : string) : H nat :=
  let host_addrs := getline_all hosts in
  modify (set_num_servers (uint32 (Z.of_nat (length host_addrs))));;
  n ← gets g_num_servers;
  self ← new_id;
  modify (λ h, set_clients (<[self := mkClient (replicate (Z.to_nat n) None)
                                         (replicate (Z.to_nat n) None)]> (h_clients h)) h);;
  add_nodes self 0 host_addrs;;
  mret self.

(** [_servers[node_id]], with the stub it points to. *)
Definition server (self node_id : nat) : H nat :=
  c ← live h_clients self;
  id ← element (_servers c) node_id;
  live h_stubs id;;
  mret id.

(** The switch over the type of the response: what is printed. *)
Definition sendRequestDone (response : nat) : H string :=
  r ← live h_responses response;
  mret (match rs_request_type r with
        | GET_REQ => "[RPC] GET request completed successfully."
        | PUT_REQ => "[RPC] PUT request completed successfully."
        | STOP_REQ => "[RPC] STOP request completed successfully."
        | OTHER_REQ _ => "Unexpected request type: "
        end).

(** The loop of a completion thread on the events [Next] delivers, up to the
    one that makes it answer [false].  A failed call is not deleted. *)
Fixpoint AsyncCompleteRpc (s node_id : nat) (events : list (nat * bool)) : H () :=
  server s node_id;;
  match events with
  | [] => mret ()
  | (tag, ok) :: events' =>
      call ← live h_calls tag;
      if negb ok then AsyncCompleteRpc s node_id events'
      else
        sendRequestDone (ca_reply call);;
        modify (λ h, set_calls (delete tag (h_calls h)) h);;
        AsyncCompleteRpc s node_id events'
  end.

Definition sendRequest (self : nat) (request : KvstoreRequest) (response : KvstoreResponse)
    (node_id : Z) : H KvstoreResponse :=
  now ← gets (λ h, system_clock_now (h_ext h));
  let deadline := now + 500 in
  id ← server self (Z.to_nat node_id);
  stub ← live h_stubs id;
  res ← gets (λ h, contactRemote (st_url stub) deadline request response (h_ext h));
  modify (set_ext res.1);;
  if negb res.2.1 then throw (RuntimeError "Failed to send request to server.")
  else mret res.2.2.

(** The deadline is set on [context], which is not the context of the call. *)
Definition sendRequestAsync (self : nat) (request : KvstoreRequest) (response : nat)
    (node_id : Z) : H nat :=
  call ← new_id;
  now ← gets (λ h, system_clock_now (h_ext h));
  modify (set_context_deadline (Some (now + 500)));;
  stub ← server self (Z.to_nat node_id);
  modify (λ h, set_calls (<[call := mkCall stub request response None]> (h_calls h)) h);;
  mret call.

(** Round [i] of the destructor's loop: [join] waits for the thread to leave
    its loop, which it does once the queue is shut down and drained. *)
Definition destroy_node (self i : nat) : H () :=
  stub ← server self i;
  modify (λ h, set_stubs (alter (λ s, mkStub (st_url s) true) stub (h_stubs h)) h);;
  c ← live h_clients self;
  thread ← element (_threads c) i;
  t ← live h_threads thread;
  events ← gets (λ h, cq_events stub (h_ext h));
  AsyncCompleteRpc (th_client t) (th_node t) events;;
  modify (λ h, set_threads (delete thread (h_threads h)) h);;
  modify (λ h, set_stubs (delete stub (h_stubs h)) h).

Fixpoint destroy_nodes (self i count : nat) : H () :=
  match count with
  | O => mret ()
  | S count' => destroy_node self i;; destroy_nodes self (S i) count'
  end.

(** The bound of the loop is the global, not the size of the arrays. *)
Definition destructor (self : nat) : H () :=
  n ← gets g_num_servers;
  destroy_nodes self 0 (Z.to_nat n);;
  modify (λ h, set_clients (delete self (h_clients h)) h).
End methods.

(** The interface that [kvclient.cpp] uses. *)
Definition RpcClient_KvRpc {X} `{!Grpc X}
    (IsLeader : nat → M cexn (Heap X) bool) (Shutdown : nat → M cexn (Heap X) ())
    (TerminateServer : nat → string → Z → M cexn (Heap X) Z) (redirect_is_std : bool) :
    KvRpc (Heap X) nat := {|
  KvRpc.new_client := KvstoreRPCClient;
  KvRpc.delete_client := destructor;
  KvRpc.sendRequest := sendRequest;
  KvRpc.IsLeader := IsLeader;
  KvRpc.Shutdown := Shutdown;
  KvRpc.TerminateServer := TerminateServer;
  KvRpc.redirect_is_std := redirect_is_std;
|}.
