(* ===== verification/RpcClientSpec.v ===== *)
(** * What [KvstoreRPCClient] does with its objects

    Which stubs and threads a client owns, what its destructor frees and when
    it is undefined, which asynchronous calls are never freed, and what a
    request may raise. *)

From S2P Require Import Prelude.
From S2P Require Import CMemory.
From S2P Require Import KvRpc.
From S2P Require Import KvClient.
From S2P Require Import KvClientSpec.
From S2P Require Import RpcClient.
From Stdlib Require Import Ascii.
From stdpp Require Import base gmap strings list pretty.
From Stdlib Require Import Lia.
#[local] Open Scope Z_scope.

(** ** Server lists *)

Lemma drop_last_empty_snoc l p :
  p ≠ EmptyString → drop_last_empty (l ++ [p]) = l ++ [p].
Proof.
  intros Hp. induction l as [|q l IH]; simpl.
  - by rewrite (proj2 (String.eqb_neq p EmptyString)).
  - destruct (l ++ [p]) eqn:E; [by destruct l|]. by rewrite IH.
Qed.

Lemma drop_last_empty_elem l p : p ∈ drop_last_empty l → p ∈ l.
Proof.
  induction l as [|q [|q' l] IH]; simpl; [done| |].
  - destruct (String.eqb q ""); [set_solver|done].
  - intros [->|H]%elem_of_cons; [left|]. right. by apply IH.
Qed.

(** The constructor reads a list of hosts back from its [;]-separated text,
    and no host it reads contains the separator. *)
Lemma getline_all_join hosts :
  (Forall (λ p, has_char ";"%char p = false) hosts ∧ last hosts ≠ Some EmptyString →
     getline_all (join_with ";"%char hosts) = hosts)
  ∧ (∀ s p, p ∈ getline_all s → has_char ";"%char p = false).
Proof.
  split.
  - intros [Hf Hl]. destruct hosts as [|p ps]; [done|].
    unfold getline_all. rewrite split_join by done.
    destruct (p :: ps) as [|q l _] using rev_ind; [done|].
    rewrite last_snoc in Hl. apply drop_last_empty_snoc. congruence.
  - intros s p Hp%drop_last_empty_elem. by eapply split_on_pieces.
Qed.

Section spec.
Context {X : Type} `{HG : !Grpc X}.
Implicit Types h : Heap X.

(** ** Running the pieces *)

Lemma run_live {A} (get : Heap X → gmap nat A) id a h :
  get h !! id = Some a → live get id h = (h, Return a).
Proof. intros Ha. unfold live, mbind, M_bind, getS. by rewrite Ha. Qed.

Lemma run_element a i id h : a !! i = Some (Some id) → element a i h = (h, Return id).
Proof. intros Ha. unfold element. by rewrite Ha. Qed.

Lemma run_write_element a i id h :
  (i < length a)%nat → write_element a i id h = (h, Return (<[i := Some id]> a)).
Proof. intros Hi. unfold write_element. by rewrite bool_decide_eq_true_2. Qed.

Lemma run_server self i c id s h :
  h_clients h !! self = Some c → _servers c !! i = Some (Some id) → h_stubs h !! id = Some s →
  server self i h = (h, Return id).
Proof.
  intros Hc Hi Hs. unfold server. rewrite (bind_return _ _ _ _ _ (run_live h_clients _ _ _ Hc)).
  rewrite (bind_return _ _ _ _ _ (run_element _ _ _ _ Hi)).
  by rewrite (bind_return _ _ _ _ _ (run_live h_stubs _ _ _ Hs)).
Qed.

Lemma server_out_of_bounds self i c h :
  h_clients h !! self = Some c → (length (_servers c) ≤ i)%nat → server self i h = (h, Undefined).
Proof.
  intros Hc Hi. unfold server. rewrite (bind_return _ _ _ _ _ (run_live h_clients _ _ _ Hc)).
  unfold mbind, M_bind, element. by rewrite (proj2 (lookup_ge_None _ _)).
Qed.

Lemma run_new_id h : new_id h = (set_next (S (h_next h)) h, Return (h_next h)).
Proof. done. Qed.
#[local] Hint Resolve run_new_id : mrun.

Lemma live_same {A} (get : Heap X → gmap nat A) id h : (live get id h).1 = h.
Proof. unfold live, mbind, M_bind, getS. by destruct (get h !! id). Qed.

Lemma server_same self i h h' o : server self i h = (h', o) → h' = h.
Proof.
  intros Hs. cut ((server self i h).1 = h); [by rewrite Hs|]. clear Hs. unfold server.
  unfold mbind at 1, M_bind at 1.
  pose proof (live_same h_clients self h) as H1.
  destruct (live h_clients self h) as [h1 [c|e|]]; simpl in *; subst; [|done..].
  unfold element. destruct (_servers c !! i) as [[id|]|]; [|done..].
  unfold mbind at 1, M_bind at 1. simpl. unfold mbind, M_bind.
  pose proof (live_same h_stubs id h) as H2.
  by destruct (live h_stubs id h) as [h2 [st|e|]]; simpl in *; subst.
Qed.

(** ** Ownership *)

Definition owns h (self : nat) (stubs threads : list nat) : Prop :=
  h_clients h !! self = Some (mkClient (Some <$> stubs) (Some <$> threads))
  ∧ length threads = length stubs ∧ NoDup stubs ∧ NoDup threads
  ∧ (∀ i id, stubs !! i = Some id → is_Some (h_stubs h !! id))
  ∧ (∀ i id, threads !! i = Some id → h_threads h !! id = Some (mkThread self i)).

(** Objects are numbered in the order of their creation. *)
Record heap_wf h : Prop := {
  wf_clients id : is_Some (h_clients h !! id) → (id < h_next h)%nat;
  wf_stubs id : is_Some (h_stubs h !! id) → (id < h_next h)%nat;
  wf_threads id : is_Some (h_threads h !! id) → (id < h_next h)%nat;
}.

(** *** Construction *)

(** The state of the constructor after the hosts of [seen], for arrays of
    [n] elements. *)
Record building h0 (self n : nat) (seen : list string) (stubs threads : list nat) h : Prop := {
  bd_wf : heap_wf h;
  bd_self : (self < h_next h)%nat;
  bd_num : g_num_servers h = g_num_servers h0;
  bd_calls : h_calls h = h_calls h0;
  bd_clients : h_clients h = <[self := mkClient ((Some <$> stubs) ++ replicate (n - length seen) None)
                                         ((Some <$> threads) ++ replicate (n - length seen) None)]>
                               (h_clients h0);
  bd_urls : Forall2 (λ id host, h_stubs h !! id = Some (mkStub (server_url host) false)) stubs seen;
  bd_threads_len : length threads = length seen;
  bd_threads i id : threads !! i = Some id → h_threads h !! id = Some (mkThread self i);
  bd_nodup : NoDup stubs ∧ NoDup threads;
  bd_new_stubs id : h_stubs h0 !! id = if decide (id ∈ stubs) then None else h_stubs h !! id;
  bd_new_threads id : h_threads h0 !! id = if decide (id ∈ threads) then None else h_threads h !! id;
}.

Lemma replicate_next (n k : nat) (l : list (option nat)) x :
  length l = k → (k < n)%nat →
  <[k := Some x]> (l ++ replicate (n - k) None) = (l ++ [Some x]) ++ replicate (n - S k) None.
Proof.
  intros Hl Hk. replace (n - k)%nat with (S (n - S k)) by lia. simpl.
  rewrite <-(Nat.add_0_r k), <-Hl, insert_app_r, <-app_assoc. simpl. by rewrite Hl, Nat.add_0_r.
Qed.

Lemma fresh_absent {A} (m : gmap nat A) (n : nat) :
  (∀ id, is_Some (m !! id) → (id < n)%nat) → m !! n = None.
Proof. intros Hm. destruct (m !! n) eqn:E; [|done]. specialize (Hm n). rewrite E in Hm. specialize (Hm ltac:(eauto)). lia. Qed.

(** A fresh object is one more of the new ones. *)
Lemma new_snoc {A} (m0 m : gmap nat A) ids id a :
  (∀ i, m0 !! i = if decide (i ∈ ids) then None else m !! i) → m !! id = None →
  ∀ i, m0 !! i = if decide (i ∈ ids ++ [id]) then None else <[id := a]> m !! i.
Proof.
  intros H Hid i. rewrite H. destruct (decide (i = id)) as [->|Hne].
  - rewrite Hid. by repeat case_decide; set_solver.
  - rewrite lookup_insert_ne by done. repeat case_decide; set_solver.
Qed.

Lemma add_node_run h0 self n seen stubs threads h host :
  building h0 self n seen stubs threads h → (length seen < n)%nat →
  (start_thread (h_ext h)).2 = true →
  ∃ h' stub thread, add_node self (length seen) host h = (h', Return ())
    ∧ building h0 self n (seen ++ [host]) (stubs ++ [stub]) (threads ++ [thread]) h'.
Proof.
  intros [Hwf Hself Hnum Hcalls Hcl Hurls Htl Hth [Hnd1 Hnd2] Ho1 Ho2] Hn Hst.
  pose proof (Forall2_length _ _ _ Hurls) as Hsl.
  pose proof (fresh_absent _ _ (wf_stubs _ Hwf)) as Hfs.
  assert (Hft : h_threads h !! S (h_next h) = None).
  { apply fresh_absent. intros id Hid%(wf_threads _ Hwf). lia. }
  eexists _, (h_next h), (S (h_next h)). split.
  { unfold add_node. do 2 mstep.
    erewrite bind_return; [|apply run_live; simpl; rewrite Hcl; apply lookup_insert_eq]. cbn beta.
    erewrite bind_return; [|apply run_write_element; simpl;
      rewrite length_app, length_fmap, length_replicate; lia]. cbn beta.
    do 3 mstep. simpl. rewrite Hst. do 3 mstep.
    erewrite bind_return; [|apply run_live; simpl; apply lookup_insert_eq]. cbn beta.
    erewrite bind_return; [|apply run_write_element; simpl;
      rewrite length_app, length_fmap, length_replicate; lia]. cbn beta.
    rewrite modify_run. reflexivity. }
  simpl. rewrite Hcl, !insert_insert_eq. simpl.
  rewrite !replicate_next by (rewrite ?length_fmap; lia).
  split; simpl; try done.
  - split; simpl; intros id Hid.
    + apply lookup_insert_is_Some in Hid as [<-|[Hne Hid]]; [lia|].
      assert (id < h_next h)%nat; [|lia]. apply (wf_clients _ Hwf). by rewrite Hcl, lookup_insert_ne.
    + apply lookup_insert_is_Some in Hid as [<-|[_ Hid%(wf_stubs _ Hwf)]]; lia.
    + apply lookup_insert_is_Some in Hid as [<-|[_ Hid%(wf_threads _ Hwf)]]; lia.
  - lia.
  - by rewrite !fmap_app, length_app, Nat.add_1_r.
  - apply Forall2_app; [|constructor; [apply lookup_insert_eq|constructor]].
    eapply Forall2_impl; [exact Hurls|]. intros id u Hid. simpl in Hid.
    rewrite lookup_insert_ne; [done|congruence].
  - rewrite !length_app. simpl. lia.
  - intros i id [Hi|[Hi Hid]]%lookup_app_Some.
    + apply Hth in Hi as Hid. rewrite lookup_insert_ne; [done|congruence].
    + apply list_lookup_singleton_Some in Hid as [Hi' <-].
      rewrite lookup_insert_eq. do 2 f_equal. lia.
  - split; apply NoDup_app; (split; [done|]); (split; [|apply NoDup_singleton]);
      intros id Hin ->%list_elem_of_singleton; apply list_elem_of_lookup in Hin as [i Hi].
    + eapply Forall2_lookup_l in Hurls as (u & _ & Hu); [|exact Hi]. congruence.
    + apply Hth in Hi. congruence.
  - by apply new_snoc.
  - by apply new_snoc.
Qed.

Lemma add_nodes_run h0 self n hosts :
  (∀ x, (start_thread x).2 = true) →
  ∀ seen stubs threads h,
    building h0 self n seen stubs threads h → (length seen + length hosts ≤ n)%nat →
    ∃ h' stubs' threads', add_nodes self (length seen) hosts h = (h', Return ())
      ∧ building h0 self n (seen ++ hosts) stubs' threads' h'.
Proof.
  intros Hst. induction hosts as [|host hosts IH]; intros seen stubs threads h Hb Hn; simpl in *.
  - exists h, stubs, threads. by rewrite app_nil_r.
  - destruct (add_node_run h0 self n seen stubs threads h host Hb) as (h1 & s & t & Hr & Hb1);
      [lia|done|].
    destruct (IH (seen ++ [host]) _ _ h1 Hb1) as (h2 & ss & ts & Hr2 & Hb2).
    { rewrite length_app. simpl. lia. }
    exists h2, ss, ts. rewrite (bind_return _ _ _ _ _ Hr). rewrite <-app_assoc in Hb2.
    split; [|done]. rewrite length_app, Nat.add_1_r in Hr2. done.
Qed.

(** When every thread starts, the constructor returns a client with one
    stub per host of the list, addressed at port 50051, each with a thread of
    its own, sets the global count to the number of hosts and leaves every
    other object alone. *)
Lemma constructor_spec hosts h :
  heap_wf h → (∀ x, (start_thread x).2 = true) →
  Z.of_nat (length (getline_all hosts)) < 2 ^ 32 →
  ∃ h' self stubs threads, KvstoreRPCClient hosts h = (h', Return self)
    ∧ owns h' self stubs threads ∧ heap_wf h'
    ∧ Forall2 (λ id host, h_stubs h' !! id = Some (mkStub (server_url host) false))
        stubs (getline_all hosts)
    ∧ g_num_servers h' = Z.of_nat (length stubs)
    ∧ h_clients h' = <[self := mkClient (Some <$> stubs) (Some <$> threads)]> (h_clients h)
    ∧ h_clients h !! self = None
    ∧ (∀ id, h_stubs h !! id = if decide (id ∈ stubs) then None else h_stubs h' !! id)
    ∧ (∀ id, h_threads h !! id = if decide (id ∈ threads) then None else h_threads h' !! id)
    ∧ h_calls h' = h_calls h.
Proof.
  intros Hwf Hst Hlen. unfold KvstoreRPCClient. cbv zeta. do 4 mstep.
  set (l := getline_all hosts) in *. unfold uint32. rewrite Z.mod_small by lia.
  simpl. rewrite Nat2Z.id. set (n := length l). set (self := h_next h).
  match goal with |- context [(add_nodes _ _ _ ≫= _) ?h] => set (h1 := h) end.
  destruct (add_nodes_run (set_num_servers (Z.of_nat n) h) self n l Hst [] [] [] h1)
    as (h' & stubs & threads & Hr & [Hwf' _ Hnum Hc Hcl Hu Htl Hth [Hn1 Hn2] Hs1 Hs2]).
  { split; simpl; try done; [|lia|by rewrite Nat.sub_0_r|split; constructor].
    split; simpl; intros id Hid.
    - apply lookup_insert_is_Some in Hid as [<-|[_ Hid%(wf_clients _ Hwf)]]; lia.
    - apply (wf_stubs _ Hwf) in Hid. lia.
    - apply (wf_threads _ Hwf) in Hid. lia. }
  { simpl. lia. }
  simpl in *. rewrite Nat.sub_diag, !app_nil_r in Hcl. pose proof (Forall2_length _ _ _ Hu) as Hsl.
  exists h', self, stubs, threads. rewrite (bind_return _ _ _ _ _ Hr). split; [done|].
  split_and!; try done; [|by rewrite Hnum, Hsl|].
  - split; [rewrite Hcl; apply lookup_insert_eq|]. split_and!; [congruence|done..| |done].
    intros i id Hi. eapply Forall2_lookup_l in Hu as (u & _ & ->); [|exact Hi]. eauto.
  - apply fresh_absent. apply (wf_clients _ Hwf).
Qed.

(** ** The completion thread *)

(** The calls left after [events]. *)
Definition done_calls (events : list (nat * bool)) (m : gmap nat Call) : gmap nat Call :=
  foldl (λ (m : gmap nat Call) (ev : nat * bool), if ev.2 then delete ev.1 m else m) m events.

Lemma done_calls_lookup events m t :
  done_calls events m !! t = if decide ((t, true) ∈ events) then None else m !! t.
Proof.
  revert m. induction events as [|[u ok] events IH]; intros m; simpl; [done|].
  rewrite IH. destruct ok; simpl.
  - rewrite lookup_delete. repeat case_decide; simplify_eq; set_solver.
  - repeat case_decide; set_solver.
Qed.

Lemma done_calls_app l1 l2 m : done_calls (l1 ++ l2) m = done_calls l2 (done_calls l1 m).
Proof. apply foldl_app. Qed.

(** Events of calls that are under way, each completed once, whose responses
    are still there. *)
Definition deliverable (h : Heap X) (events : list (nat * bool)) : Prop :=
  NoDup events.*1 ∧ ∀ t ok, (t, ok) ∈ events →
    ∃ call, h_calls h !! t = Some call ∧ is_Some (h_responses h !! ca_reply call).

Lemma deliverable_done h l1 l2 :
  deliverable h (l1 ++ l2) → deliverable (set_calls (done_calls l1 (h_calls h)) h) l2.
Proof.
  intros [Hnd Hl]. rewrite fmap_app in Hnd. apply NoDup_app in Hnd as (_ & Hd & Hnd).
  split; [done|]. intros t ok Hin. simpl. rewrite done_calls_lookup.
  destruct (decide ((t, true) ∈ l1)) as [Ht|_].
  - destruct (Hd t); apply list_elem_of_fmap; by eexists (t, _).
  - apply (Hl t ok). set_solver.
Qed.

Lemma AsyncCompleteRpc_run self i events h c id st :
  h_clients h !! self = Some c → _servers c !! i = Some (Some id) → h_stubs h !! id = Some st →
  deliverable h events →
  AsyncCompleteRpc self i events h = (set_calls (done_calls events (h_calls h)) h, Return ()).
Proof.
  revert h. induction events as [|[t ok] events IH]; intros h Hc Hi Hid Hd; simpl.
  - rewrite (bind_return _ _ _ _ _ (run_server _ _ _ _ _ _ Hc Hi Hid)). by destruct h.
  - rewrite (bind_return _ _ _ _ _ (run_server _ _ _ _ _ _ Hc Hi Hid)).
    destruct (proj2 Hd t ok) as (call & Hcall & [r Hr]); [left|].
    rewrite (bind_return _ _ _ _ _ (run_live h_calls _ _ _ Hcall)).
    pose proof (deliverable_done h [(t, ok)] events Hd) as Hd'. destruct ok; simpl in *.
    + unfold sendRequestDone. rewrite bind_assoc.
      rewrite (bind_return _ _ _ _ _ (run_live h_responses _ _ _ Hr)). do 2 mstep.
      by rewrite IH.
    + rewrite IH; [done..|]. by destruct h.
Qed.

(** The completion thread frees exactly the calls whose status is ok: a
    failed call stays allocated for ever. *)
Lemma failed_calls_leak self i events h c id st :
  h_clients h !! self = Some c → _servers c !! i = Some (Some id) → h_stubs h !! id = Some st →
  deliverable h events →
  ∃ h', AsyncCompleteRpc self i events h = (h', Return ())
    ∧ (∀ t, (t, true) ∈ events → h_calls h' !! t = None)
    ∧ (∀ t, (t, true) ∉ events → h_calls h' !! t = h_calls h !! t)
    ∧ (∀ t, (t, false) ∈ events → is_Some (h_calls h' !! t)).
Proof.
  intros Hc Hi Hid Hd. eexists. split; [by eapply AsyncCompleteRpc_run|]. simpl.
  split_and!; intros t Ht; rewrite done_calls_lookup; case_decide as Hin; try done.
  - destruct Hd as [Hnd _]. exfalso.
    apply list_elem_of_lookup in Ht as [j Hj]. apply list_elem_of_lookup in Hin as [k Hk].
    assert (j = k) as ->; [|congruence].
    eapply NoDup_lookup; [exact Hnd|..]; rewrite list_lookup_fmap; [by rewrite Hj|by rewrite Hk].
  - destruct (proj2 Hd t false Ht) as (call & -> & _). eauto.
Qed.

(** An asynchronous call is made without a deadline: the one of 500 ms goes
    to another context. *)
Lemma sendRequestAsync_no_deadline self rq response node_id h h' t :
  sendRequestAsync self rq response node_id h = (h', Return t) →
  ∃ stub, h_calls h' = <[t := mkCall stub rq response None]> (h_calls h)
    ∧ h_context_deadline h' = Some (system_clock_now (h_ext h) + 500).
Proof.
  unfold sendRequestAsync. do 3 mstep. simpl.
  set (h1 := set_context_deadline _ _).
  destruct (server self (Z.to_nat node_id) h1) as [h2 [id|e|]] eqn:Hs.
  - rewrite (bind_return _ _ _ _ _ Hs). do 1 mstep.
    apply server_same in Hs as ->.
    intros [= <- <-]. by exists id.
  - by rewrite (bind_throw _ _ _ _ _ Hs).
  - by rewrite (bind_undefined _ _ _ _ Hs).
Qed.

(** ** Requests *)

(** A synchronous request waits at most 500 ms, and the only thing it can
    raise is the [runtime_error] of a status that is not ok: never the
    redirection that [kv739_put] handles. *)
Lemma sendRequest_spec self rq rs node_id h c id st :
  h_clients h !! self = Some c → _servers c !! Z.to_nat node_id = Some (Some id) →
  h_stubs h !! id = Some st →
  sendRequest self rq rs node_id h
  = let '(x, (ok, r)) :=
      contactRemote (st_url st) (system_clock_now (h_ext h) + 500) rq rs (h_ext h) in
    (set_ext x h, if ok then Return r
                  else Throw (RuntimeError "Failed to send request to server.")).
Proof.
  intros Hc Hi Hid. unfold sendRequest. mstep. cbv zeta.
  rewrite (bind_return _ _ _ _ _ (run_server _ _ _ _ _ _ Hc Hi Hid)).
  rewrite (bind_return _ _ _ _ _ (run_live h_stubs _ _ _ Hid)). do 2 mstep.
  by destruct (contactRemote _ _ _ _ _) as [x [[] r]].
Qed.

Lemma sendRequest_raises self rq rs node_id h e :
  (sendRequest self rq rs node_id h).2 = Throw e →
  e = RuntimeError "Failed to send request to server.".
Proof.
  unfold sendRequest, server, live, element, mbind, M_bind, gets, getS, modify, mret, M_ret,
    undefined, throw. simpl.
  destruct (h_clients h !! self) as [c|]; [|done].
  destruct (_servers c !! Z.to_nat node_id) as [[id|]|]; [|done..].
  destruct (h_stubs h !! id) as [st|] eqn:Hst; simpl; [|done]. rewrite Hst.
  by destruct (contactRemote _ _ _ _ _) as [x [[] r]]; simpl; [|intros [= <-]].
Qed.

(** ** Destruction *)

(** The events the queues of [stubs] still deliver. *)
Definition drained (h : Heap X) (stubs : list nat) : list (nat * bool) :=
  concat ((λ s, cq_events s (h_ext h)) <$> stubs).

(** [h'] is [h] without the given stubs and threads, and without the calls
    that completed while they went. *)
Record freed (stubs threads : list nat) (h h' : Heap X) : Prop := {
  fr_clients : h_clients h' = h_clients h;
  fr_responses : h_responses h' = h_responses h;
  fr_ext : h_ext h' = h_ext h;
  fr_num : g_num_servers h' = g_num_servers h;
  fr_stubs id : h_stubs h' !! id = if decide (id ∈ stubs) then None else h_stubs h !! id;
  fr_threads id : h_threads h' !! id = if decide (id ∈ threads) then None else h_threads h !! id;
  fr_calls : h_calls h' = done_calls (drained h stubs) (h_calls h);
}.

Lemma freed_nil h : freed [] [] h h.
Proof. split; try done; intros id; by rewrite decide_False by set_solver. Qed.

Lemma freed_app s1 t1 s2 t2 h h1 h2 :
  freed s1 t1 h h1 → freed s2 t2 h1 h2 → freed (s1 ++ s2) (t1 ++ t2) h h2.
Proof.
  intros [] []. split; try congruence.
  - intros id. rewrite fr_stubs1, fr_stubs0. repeat case_decide; set_solver.
  - intros id. rewrite fr_threads1, fr_threads0. repeat case_decide; set_solver.
  - rewrite fr_calls1, fr_calls0. unfold drained. rewrite fr_ext0, fmap_app, concat_app.
    symmetry. apply done_calls_app.
Qed.

(** A client whose nodes before [k] are gone. *)
Record remaining h (self k : nat) (c : Client) (stubs threads : list nat) : Prop := {
  rm_client : h_clients h !! self = Some c;
  rm_len : length threads = length stubs;
  rm_nodup : NoDup stubs ∧ NoDup threads;
  rm_servers i id : stubs !! i = Some id → _servers c !! (k + i)%nat = Some (Some id);
  rm_threads i id : threads !! i = Some id → _threads c !! (k + i)%nat = Some (Some id);
  rm_stubs i id : stubs !! i = Some id → is_Some (h_stubs h !! id);
  rm_running i id : threads !! i = Some id → h_threads h !! id = Some (mkThread self (k + i));
}.

Lemma destroy_node_run h self k c s t stubs threads :
  remaining h self k c (s :: stubs) (t :: threads) → deliverable h (cq_events s (h_ext h)) →
  ∃ h', destroy_node self k h = (h', Return ()) ∧ freed [s] [t] h h'.
Proof.
  intros [Hc _ _ Hsv Hth Hst Hrun] Hd.
  specialize (Hsv 0%nat s eq_refl). specialize (Hth 0%nat t eq_refl).
  specialize (Hrun 0%nat t eq_refl). destruct (Hst 0%nat s eq_refl) as [st Hs].
  rewrite Nat.add_0_r in *. unfold destroy_node.
  rewrite (bind_return _ _ _ _ _ (run_server _ _ _ _ _ _ Hc Hsv Hs)). do 1 mstep.
  set (h1 := set_stubs _ h).
  assert (Hc1 : h_clients h1 !! self = Some c) by done.
  rewrite (bind_return _ _ _ _ _ (run_live h_clients _ _ _ Hc1)).
  rewrite (bind_return _ _ _ _ _ (run_element _ _ _ _ Hth)).
  assert (Ht1 : h_threads h1 !! t = Some (mkThread self k)) by done.
  rewrite (bind_return _ _ _ _ _ (run_live h_threads _ _ _ Ht1)). do 1 mstep. simpl.
  assert (Hs1 : h_stubs h1 !! s = Some (mkStub (st_url st) true)).
  { simpl. by rewrite lookup_alter_eq, Hs. }
  rewrite (bind_return _ _ _ _ _
    (AsyncCompleteRpc_run self k (cq_events s (h_ext h)) h1 c s _ Hc1 Hsv Hs1 Hd)).
  do 1 mstep. rewrite modify_run. eexists. split; [done|]. split; try done; simpl.
  - intros id. rewrite lookup_delete, lookup_alter. repeat case_decide; set_solver.
  - intros id. rewrite lookup_delete. repeat case_decide; set_solver.
  - unfold drained. simpl. by rewrite app_nil_r.
Qed.

Lemma remaining_next h h1 self k c s t stubs threads :
  remaining h self k c (s :: stubs) (t :: threads) → freed [s] [t] h h1 →
  remaining h1 self (S k) c stubs threads.
Proof.
  intros [Hc Hlen [Hn1 Hn2] Hsv Hth Hst Hrun] Hf.
  apply NoDup_cons in Hn1 as [Hs1 Hn1]. apply NoDup_cons in Hn2 as [Ht1 Hn2]. split.
  - by rewrite (fr_clients _ _ _ _ Hf).
  - simpl in Hlen. lia.
  - done.
  - intros i id Hi. rewrite <-(Hsv (S i) id Hi). f_equal. lia.
  - intros i id Hi. rewrite <-(Hth (S i) id Hi). f_equal. lia.
  - intros i id Hi. rewrite (fr_stubs _ _ _ _ Hf), decide_False; [by apply (Hst (S i))|].
    apply list_elem_of_lookup_2 in Hi. set_solver.
  - intros i id Hi. rewrite (fr_threads _ _ _ _ Hf), decide_False.
    + rewrite (Hrun (S i) id Hi). do 2 f_equal. lia.
    + apply list_elem_of_lookup_2 in Hi. set_solver.
Qed.

Lemma deliverable_freed s t h h1 l :
  freed [s] [t] h h1 → deliverable h (cq_events s (h_ext h) ++ l) → deliverable h1 l.
Proof.
  intros Hf [Hnd Hl]%deliverable_done. split; [done|]. intros u ok Hin.
  rewrite (fr_calls _ _ _ _ Hf), (fr_responses _ _ _ _ Hf). unfold drained. simpl.
  rewrite app_nil_r. apply (Hl u ok Hin).
Qed.

Lemma destroy_nodes_run count : ∀ h self k c stubs threads,
  remaining h self k c stubs threads → deliverable h (drained h (take count stubs)) →
  (count ≤ length stubs)%nat →
  ∃ h', destroy_nodes self k count h = (h', Return ())
    ∧ freed (take count stubs) (take count threads) h h'.
Proof.
  induction count as [|count IH]; intros h self k c stubs threads Hr Hd Hle; simpl.
  { exists h. split; [done|]. apply freed_nil. }
  destruct stubs as [|s stubs]; [simpl in Hle; lia|].
  destruct threads as [|t threads]; [by pose proof (rm_len _ _ _ _ _ _ Hr)|].
  unfold drained in Hd. simpl in Hd.
  assert (Hd1 : deliverable h (cq_events s (h_ext h))).
  { destruct Hd as [Hnd Hl]. rewrite fmap_app in Hnd. apply NoDup_app in Hnd as (Hnd & _).
    split; [done|]. intros u ok Hin. apply (Hl u ok). set_solver. }
  destruct (destroy_node_run _ _ _ _ _ _ _ _ Hr Hd1) as (h1 & H1 & Hf1).
  rewrite (bind_return _ _ _ _ _ H1).
  destruct (IH h1 self (S k) c stubs threads) as (h2 & H2 & Hf2).
  - by eapply remaining_next.
  - pose proof (deliverable_freed _ _ _ _ _ Hf1 Hd) as Hd2. unfold drained.
    by rewrite (fr_ext _ _ _ _ Hf1).
  - simpl in Hle. lia.
  - exists h2. split; [done|]. apply (freed_app [s] [t] _ _ _ _ _ Hf1 Hf2).
Qed.

Lemma destroy_nodes_add self k a b h :
  destroy_nodes self k (a + b) h = (destroy_nodes self k a;; destroy_nodes self (k + a) b) h.
Proof.
  revert k h. induction a as [|a IH]; intros k h; simpl; [by rewrite Nat.add_0_r|].
  rewrite bind_assoc. unfold mbind at 1 2, M_bind at 1 2.
  destruct (destroy_node self k h) as [h1 []]; [|done..].
  rewrite IH. by rewrite Nat.add_succ_comm.
Qed.

Lemma owns_remaining h self stubs threads :
  owns h self stubs threads →
  remaining h self 0 (mkClient (Some <$> stubs) (Some <$> threads)) stubs threads.
Proof.
  intros (Hc & Hl & H1 & H2 & H3 & H4). split; try done; simpl.
  - intros i id Hi. by rewrite list_lookup_fmap, Hi.
  - intros i id Hi. by rewrite list_lookup_fmap, Hi.
Qed.

(** With the global count it was created with, the destructor of a client
    frees its stubs, its threads, its arrays and the calls that complete
    meanwhile, and nothing else. *)
Lemma destructor_frees self stubs threads h :
  owns h self stubs threads → g_num_servers h = Z.of_nat (length stubs) →
  deliverable h (drained h stubs) →
  ∃ h', destructor self h = (h', Return ())
    ∧ h_clients h' = delete self (h_clients h)
    ∧ (∀ id, h_stubs h' !! id = if decide (id ∈ stubs) then None else h_stubs h !! id)
    ∧ (∀ id, h_threads h' !! id = if decide (id ∈ threads) then None else h_threads h !! id)
    ∧ h_calls h' = done_calls (drained h stubs) (h_calls h).
Proof.
  intros Ho Hn Hd. unfold destructor. do 1 mstep. rewrite Hn, Nat2Z.id.
  destruct (destroy_nodes_run (length stubs) h self 0 _ _ _ (owns_remaining _ _ _ _ Ho))
    as (h1 & H1 & [Hc _ _ _ Hs Ht Hca]); [by rewrite firstn_all|done|].
  rewrite (bind_return _ _ _ _ _ H1), modify_run. eexists. split; [done|]. simpl.
  destruct Ho as (_ & Hl & _). rewrite firstn_all in *.
  rewrite take_ge in Ht by lia. split_and!; try done. by rewrite Hc.
Qed.

(** C28: the count is a global that the next constructor overwrites.  If it has
    grown, the destructor runs past the end of its arrays, which is undefined
    behaviour; if it has shrunk, the last stubs and threads stay, and the next
    round of such a thread uses the client that is gone. *)
Theorem destructor_count_mismatch self stubs threads h :
  owns h self stubs threads → deliverable h (drained h stubs) →
  (Z.of_nat (length stubs) < g_num_servers h → (destructor self h).2 = Undefined)
  ∧ (0 ≤ g_num_servers h < Z.of_nat (length stubs) →
     ∃ h', destructor self h = (h', Return ())
       ∧ ∀ i s t, g_num_servers h ≤ Z.of_nat i → stubs !! i = Some s → threads !! i = Some t →
           is_Some (h_stubs h' !! s) ∧ h_threads h' !! t = Some (mkThread self i)
           ∧ ∀ events, (AsyncCompleteRpc self i events h').2 = Undefined).
Proof.
  intros Ho Hd. pose proof (owns_remaining _ _ _ _ Ho) as Hr.
  destruct Ho as (Hcl & Hl & Hn1 & Hn2 & Hst & Hth). split.
  - intros Hg. unfold destructor. do 1 mstep.
    replace (Z.to_nat (g_num_servers h))
      with (length stubs + S (Z.to_nat (g_num_servers h) - length stubs - 1))%nat by lia.
    destruct (destroy_nodes_run (length stubs) h self 0 _ _ _ Hr) as (h1 & H1 & Hf);
      [by rewrite firstn_all|done|].
    erewrite bind_undefined; [done|]. rewrite destroy_nodes_add, (bind_return _ _ _ _ _ H1). simpl.
    apply bind_undefined. unfold destroy_node. apply bind_undefined.
    eapply server_out_of_bounds; [by rewrite (fr_clients _ _ _ _ Hf)|].
    simpl. by rewrite length_fmap.
  - intros Hg. unfold destructor. do 1 mstep. set (n := Z.to_nat (g_num_servers h)).
    destruct (destroy_nodes_run n h self 0 _ _ _ Hr) as (h1 & H1 & Hf); [|lia|].
    { destruct Hd as [Hnd Hin]. rewrite <-(take_drop n stubs) in Hnd, Hin. unfold drained in *.
      rewrite fmap_app, concat_app in Hnd, Hin. rewrite fmap_app in Hnd.
      apply NoDup_app in Hnd as (Hnd & _). split; [done|]. intros t ok H. apply (Hin t ok). set_solver. }
    rewrite (bind_return _ _ _ _ _ H1), modify_run. eexists. split; [done|].
    intros i s t Hi Hs Ht.
    assert (Hnot : ∀ (l : list nat) x, NoDup l → l !! i = Some x → x ∉ take n l).
    { intros l x Hnd Hx [j Hj]%list_elem_of_lookup. apply lookup_take_Some in Hj as [Hj Hlt].
      pose proof (NoDup_lookup _ _ _ _ Hnd Hx Hj). lia. }
    simpl. split_and!.
    + rewrite (fr_stubs _ _ _ _ Hf), decide_False by eauto. by eapply Hst.
    + rewrite (fr_threads _ _ _ _ Hf), decide_False by eauto. by apply Hth.
    + intros events. destruct events; simpl; erewrite bind_undefined; try done;
        unfold server; apply bind_undefined; unfold live, mbind, M_bind, getS; simpl;
        by rewrite lookup_delete_eq.
Qed.
End spec.

(** ** The retry loop over this client *)

Lemma store_throws {E} p c m e : (store (E:=E) p c m).2 ≠ Throw e.
Proof. unfold store. by destruct (m !! p). Qed.

Lemma copy_out_throws {E} s b m e : (copy_out (E:=E) s b m).2 ≠ Throw e.
Proof.
  assert (Hc : ∀ l p m, (copy_bytes (E:=E) p l m).2 ≠ Throw e).
  { induction l as [|c l IH]; intros p m'; simpl; [done|]. unfold mbind, M_bind.
    pose proof (store_throws (E:=E) p c m' e) as Hs.
    destruct (store p c m') as [m1 [[]|e'|]]; simpl in *; [apply IH|congruence|done]. }
  unfold copy_out. cbv zeta. unfold mbind, M_bind. set (l := take _ _).
  specialize (Hc l b m). destruct (copy_bytes b l m) as [m1 [[]|e'|]]; simpl in *;
    [apply store_throws|congruence|done].
Qed.

Section retries.
Context {X : Type} `{HG : !Grpc X}.
Context (IsLeader : nat → M cexn (Heap X) bool) (Shutdown : nat → M cexn (Heap X) ())
  (TerminateServer : nat → string → Z → M cexn (Heap X) Z) (redirect_std : bool).

#[local] Instance rpc_client : KvRpc (Heap X) nat :=
  RpcClient_KvRpc IsLeader Shutdown TerminateServer redirect_std.

(** [kv739_put] with one attempt and no retry. *)
Definition put_once (key value old_value : char_ptr) : M cexn (Process (Heap X) nat) Z :=
  match key, value, old_value with
  | Some key, Some value, Some old_value =>
      modern_key ← on_mem (std_string (Some key));
      modern_value ← on_mem (std_string (Some value));
      try_catch (put_attempt modern_key modern_value old_value) (catch_std (mret (-1)))
  | _, _, _ => mret (-1)
  end.

Lemma put_attempt_raises k v b p e :
  (put_attempt k v b p).2 = Throw e → e = RuntimeError "Failed to send request to server.".
Proof.
  unfold put_attempt, client, mbind, M_bind, gets. simpl.
  destruct (kv_client p) as [c|]; simpl; [|done]. unfold on_world at 1, zoom.
  pose proof (sendRequest_raises c (mkRequest k v PUT_REQ) empty_response 0 (p_world p)) as Hr.
  destruct (RpcClient.sendRequest c _ _ _ _) as [h [r|e'|]]; simpl in *; [|intros [= <-]; auto|done].
  destruct (rs_found r); simpl; [|done]. unfold on_mem, zoom.
  set (p1 := p_mem _). pose proof (copy_out_throws (E:=cexn) (rs_old_value r) b p1) as Hc.
  destruct (copy_out (rs_old_value r) b p1) as [m [[]|e'|]]; simpl in *; [done| |done].
  by destruct (Hc e').
Qed.

(** C26: over this RPC client, which never raises [LeaderRedirectException], the
    retry loop of [kv739_put] is dead code: a call makes one attempt, at the
    leader found by [kv739_init]. *)
Theorem kv739_put_never_retries kp vp b p : kv739_put kp vp b p = put_once kp vp b p.
Proof.
  unfold kv739_put, put_once. destruct kp as [kp|], vp as [vp|], b as [b|]; try done.
  unfold mbind, M_bind. destruct (on_mem (std_string (Some kp)) p) as [p1 [k|e|]]; [|done..].
  destruct (on_mem (std_string (Some vp)) p1) as [p2 [v|e|]]; [|done..].
  simpl. unfold try_catch. pose proof (put_attempt_raises k v b p2) as Hr.
  destruct (put_attempt k v b p2) as [p3 [r|e|]]; simpl in *; [done| |done].
  by rewrite (Hr e eq_refl).
Qed.
End retries.
