(* ===== verification/ClientExamples.v ===== *)
(** * The client on concrete servers

    Two small environments that meet the hypotheses of the client's theorems:
    an RPC client whose servers redirect ([hop_rpc]), and a network with one
    key-value map behind the class [KvstoreRPCClient] ([ToyNet]). *)

From S2P Require Import Prelude.
From S2P Require Import CMemory.
From S2P Require Import KvRpc.
From S2P Require Import KvClient.
From S2P Require Import KvClientSpec.
From S2P Require Import RpcClient.
From S2P Require Import RpcClientSpec.
From Stdlib Require Import Ascii.
From stdpp Require Import base gmap strings list pretty.
From Stdlib Require Import Lia.
#[local] Open Scope Z_scope.

(** ** Servers that redirect *)

(** A client is the address it was made for; the world counts the requests. *)
Definition hop_rpc : KvRpc nat string := {|
  KvRpc.new_client s := if String.eqb s "bad" then throw (RuntimeError "unreachable") else mret s;
  KvRpc.delete_client _ := mret ();
  KvRpc.sendRequest c rq _ _ :=
    modify S;;
    if String.eqb c "s1" then throw (LeaderRedirectException "s2")
    else if String.eqb c "s2" then throw (LeaderRedirectException "s3")
    else if String.eqb c "s4" then throw (LeaderRedirectException "bad")
    else mret (mkResponse true "hello" "old" (rq_request_type rq));
  KvRpc.IsLeader c := mret (bool_decide (c = "s3"));
  KvRpc.Shutdown _ := mret ();
  KvRpc.TerminateServer _ _ _ := mret 0;
  KvRpc.redirect_is_std := true;
|}.
#[local] Existing Instance hop_rpc.

(** A key at 0, a value at 10, a buffer of eight bytes at 20. *)
Definition caller_memory : memory :=
  write_bytes (write_bytes (write_bytes ∅ 0 (bytes "k" ++ [NUL])) 10 (bytes "v" ++ [NUL]))
    20 (replicate 8 NUL).
Definition hop_process (c : string) : Process nat string :=
  mkProcess (Some c) ["bad"; "s1"; "s3"; "s2"] c caller_memory 0%nat.

Lemma key_at : string_at caller_memory 0 "k".
Proof. split; [apply (bool_decide_eq_true_1 _); vm_compute; done|vm_compute; done]. Qed.
Lemma value_at : string_at caller_memory 10 "v".
Proof. split; [apply (bool_decide_eq_true_1 _); vm_compute; done|vm_compute; done]. Qed.

Lemma buffer_writable n : n ≤ 8 → writable caller_memory 20 n.
Proof.
  intros Hn i Hi.
  assert (Hin : i ∈ seqZ 20 8) by (apply elem_of_seqZ; lia).
  assert (Hall : Forall (λ i, is_Some (caller_memory !! i)) (seqZ 20 8)).
  { apply (bool_decide_eq_true_1 _). vm_compute. done. }
  by eapply Forall_forall in Hall.
Qed.

Lemma hop_chain :
  redirected "k" "v" (hop_process "s1") ["s2"; "s3"]
    (mkProcess (Some "s3") (server_list (hop_process "s1")) "s3" caller_memory 2%nat).
Proof.
  eapply redirected_cons; [reflexivity..|]. eapply redirected_cons; [reflexivity..|].
  apply redirected_nil.
Qed.

Lemma kv739_get_contract_witness :
  ∃ m, kv739_get (Some 0) (Some 20) (hop_process "s3")
       = (set_mem m (set_world 1%nat (hop_process "s3")), Return 0)
     ∧ bytes_at m 20 (bytes "hello" ++ [NUL]).
Proof.
  pose proof (kv739_get_contract (hop_process "s3") "s3" 0 "k" 20 1%nat
    (Return (mkResponse true "hello" "old" GET_REQ)) eq_refl key_at eq_refl) as H.
  destruct H as (m & H1 & H2 & _).
  - apply buffer_writable. vm_compute. done.
  - exists m. split; [exact H1|exact H2].
Defined.

Lemma kv739_get_read_back_witness :
  ∃ p, kv739_get (Some 0) (Some 20) (hop_process "s3") = (p, Return 0)
     ∧ on_mem (std_string (Some 20)) p = (p, Return "hello").
Proof.
  apply (kv739_get_read_back (hop_process "s3") "s3" 0 "k" 20 1%nat
    (mkResponse true "hello" "old" GET_REQ)).
  - reflexivity.
  - exact key_at.
  - reflexivity.
  - reflexivity.
  - apply (bool_decide_eq_true_1 _). vm_compute. done.
  - simpl. lia.
  - apply buffer_writable. vm_compute. done.
Defined.

Lemma kv739_put_redirects_witness :
  ∃ m, kv739_put (Some 0) (Some 10) (Some 20) (hop_process "s1")
       = (mkProcess (Some "s3") (server_list (hop_process "s1")) "s3" m 3%nat, Return 0)
     ∧ bytes_at m 20 (bytes "old" ++ [NUL]).
Proof.
  destruct (kv739_put_redirects (hop_process "s1") _ _ 0 "k" 10 "v" 20 key_at value_at hop_chain)
    as (_ & _ & H).
  destruct (H ltac:(simpl; lia) "s3" 3%nat (Return (mkResponse true "hello" "old" PUT_REQ))
    eq_refl eq_refl ltac:(done)) as (m & H1 & H2 & _).
  - apply buffer_writable. vm_compute. done.
  - exists m. split; [exact H1|exact H2].
Defined.

Lemma kv739_put_redirect_escapes_witness :
  ∃ p, kv739_put (Some 0) (Some 10) (Some 20) (hop_process "s4")
       = (p, Throw (RuntimeError "unreachable")).
Proof.
  eexists. eapply (kv739_put_redirect_escapes (hop_process "s4") (hop_process "s4") _ "s4" "bad"
    1%nat [] 0 "k" 10 "v" 20 (RuntimeError "unreachable")).
  - exact key_at.
  - exact value_at.
  - apply redirected_nil.
  - simpl. lia.
  - reflexivity.
  - reflexivity.
  - reflexivity.
Defined.

Lemma kv739_put_attempts_witness :
  (p_world (kv739_put (Some 0%Z) (Some 10%Z) (Some 20%Z) (hop_process "s1")).1 ≤ 0 + 3)%nat.
Proof.
  apply (kv739_put_attempts (λ w, w)).
  - intros c rq rs i w. simpl. unfold mbind, M_bind, modify. simpl.
    repeat case_match; simplify_eq/=; lia.
  - intros s w. simpl. by case_match.
  - intros c w. simpl. done.
Defined.



Definition fixed_list (l : list string) (config : string) : M cexn nat (list string) := mret l.

Lemma kv739_init_spec_witness :
  ∃ p pre s post, kv739_init (fixed_list ["bad"; "s1"; "s3"; "s2"]) (Some 0) (hop_process "s1")
      = (p, Return 0)
    ∧ ["bad"; "s1"; "s3"; "s2"] = pre ++ s :: post ∧ current_leader p = s.
Proof.
  destruct (kv739_init (fixed_list ["bad"; "s1"; "s3"; "s2"]) (Some 0) (hop_process "s1"))
    as [p o] eqn:E.
  assert (Ho : o = Return 0) by (vm_compute in E; congruence). subst o.
  destruct (kv739_init_spec (HR := hop_rpc) (fixed_list ["bad"; "s1"; "s3"; "s2"]) (hop_process "s1") p 0 0 "k" 0%nat
    ["bad"; "s1"; "s3"; "s2"] key_at eq_refl E)
    as (_ & [(_ & pre & s & post & H1 & _ & H2 & _)|(H & _)]).
  - exists p, pre, s, post. split; [reflexivity|]. split; [exact H1|exact H2].
  - discriminate H.
Defined.

Lemma main_result_witness :
  ∃ p, main (fixed_list ["s1"; "s2"]) 100 200 (hop_process "s1") = (p, Return (-1)).
Proof.
  destruct (kv739_init (fixed_list ["s1"; "s2"]) (Some 100)
    (with_array 100 "config.txt" (hop_process "s1"))) as [p o] eqn:E.
  assert (Ho : o = Return (-1)) by (vm_compute in E; congruence). subst o.
  exists p. apply (proj1 (main_result (HR := hop_rpc) (fixed_list ["s1"; "s2"]) (hop_process "s1") 100 200 p (-1) E)).
  lia.
Defined.

(** ** A network with one key-value map *)

(** The host [down] does not answer; stub 1 still has two calls to deliver. *)
#[local] Instance ToyNet : Grpc (gmap string string) := {|
  system_clock_now _ := 1000;
  contactRemote url deadline rq rs x :=
    if String.eqb url "down:50051" then (x, (false, rs))
    else match rq_request_type rq with
         | GET_REQ =>
             (x, (true, mkResponse (bool_decide (is_Some (x !! rq_key rq)))
                          (default "" (x !! rq_key rq)) "" GET_REQ))
         | PUT_REQ =>
             (<[rq_key rq := rq_value rq]> x,
              (true, mkResponse (bool_decide (is_Some (x !! rq_key rq))) ""
                       (default "" (x !! rq_key rq)) PUT_REQ))
         | t => (x, (true, mkResponse false "" "" t))
         end;
  start_thread x := (x, true);
  cq_events stub x := if bool_decide (stub = 1%nat) then [(100%nat, true); (101%nat, false)] else [];
|}.

Abbreviation ToyHeap := (Heap (gmap string string)).
Definition empty_heap : ToyHeap := mkHeap 0 ∅ ∅ ∅ ∅ ∅ None 0 {["k" := "v"]}.

(** Two servers, and two asynchronous calls to the first one under way. *)
Definition two_servers : ToyHeap :=
  let h := (KvstoreRPCClient "a;b" empty_heap).1 in
  mkHeap (g_num_servers h) (h_clients h) (h_stubs h) (h_threads h)
    {[ 100%nat := mkCall 1 (mkRequest "k" "" GET_REQ) 200 None;
       101%nat := mkCall 1 (mkRequest "x" "" GET_REQ) 201 None ]}
    {[ 200%nat := empty_response; 201%nat := empty_response ]} None (h_next h) (h_ext h).

Lemma empty_heap_wf : heap_wf empty_heap.
Proof. split; simpl; intros id [x Hx]; by rewrite lookup_empty in Hx. Qed.

Lemma two_servers_lookups :
  h_clients two_servers !! 0%nat = Some (mkClient [Some 1; Some 3]%nat [Some 2; Some 4]%nat)
  ∧ h_stubs two_servers !! 1%nat = Some (mkStub "a:50051" false)
  ∧ h_stubs two_servers !! 3%nat = Some (mkStub "b:50051" false)
  ∧ h_threads two_servers !! 2%nat = Some (mkThread 0 0)
  ∧ h_threads two_servers !! 4%nat = Some (mkThread 0 1).
Proof. split_and!; vm_compute; reflexivity. Qed.

Lemma two_servers_owned : owns two_servers 0 [1; 3]%nat [2; 4]%nat.
Proof.
  destruct two_servers_lookups as (H0 & H1 & H3 & H2 & H4).
  split; [exact H0|]. split; [done|]. split_and!.
  - apply (bool_decide_eq_true_1 _). vm_compute. done.
  - apply (bool_decide_eq_true_1 _). vm_compute. done.
  - intros [|[|i]] id Hi; [injection Hi as <-; eauto..|done].
  - intros [|[|i]] id Hi; [injection Hi as <-; assumption..|done].
Qed.

Lemma two_servers_deliverable : deliverable two_servers [(100%nat, true); (101%nat, false)].
Proof.
  split; [apply (bool_decide_eq_true_1 _); vm_compute; done|].
  intros t ok [[= -> ->]|[[= -> ->]|[]%elem_of_nil]%elem_of_cons]%elem_of_cons;
    (eexists; split; [vm_compute; reflexivity|]); eexists; vm_compute; reflexivity.
Qed.

Lemma two_servers_drained : drained two_servers [1; 3]%nat = [(100%nat, true); (101%nat, false)].
Proof. vm_compute. reflexivity. Qed.

(** The global count is no part of what a client owns. *)
Lemma owns_renumbered {X} (h : Heap X) self stubs threads n :
  owns h self stubs threads → owns (set_num_servers n h) self stubs threads.
Proof. done. Qed.
Lemma deliverable_renumbered (h : ToyHeap) stubs events n :
  drained h stubs = events → deliverable h events →
  deliverable (set_num_servers n h) (drained (set_num_servers n h) stubs).
Proof. by intros <-. Qed.

Lemma getline_all_join_witness :
  getline_all "10.0.0.1;10.0.0.2" = ["10.0.0.1"; "10.0.0.2"] ∧ has_char ";"%char "10.0.0.2" = false.
Proof.
  split.
  - apply (proj1 (getline_all_join ["10.0.0.1"; "10.0.0.2"])). split; [|done].
    apply (bool_decide_eq_true_1 _). vm_compute. done.
  - apply (proj2 (getline_all_join []) "10.0.0.1;10.0.0.2").
    apply (bool_decide_eq_true_1 _). vm_compute. done.
Defined.

Lemma constructor_spec_witness :
  ∃ h self stubs threads, KvstoreRPCClient "a;b" empty_heap = (h, Return self)
    ∧ owns h self stubs threads
    ∧ Forall2 (λ id host, h_stubs h !! id = Some (mkStub (server_url host) false)) stubs ["a"; "b"].
Proof.
  destruct (constructor_spec "a;b" empty_heap empty_heap_wf) as (h & self & s & t & H1 & H2 & _ & H3 & _).
  - intros x. reflexivity.
  - vm_compute. reflexivity.
  - exists h, self, s, t. split; [exact H1|]. split; [exact H2|exact H3].
Defined.

Lemma failed_calls_leak_witness :
  ∃ h, AsyncCompleteRpc 0 0 [(100%nat, true); (101%nat, false)] two_servers = (h, Return ())
    ∧ h_calls h !! 100%nat = None ∧ is_Some (h_calls h !! 101%nat).
Proof.
  destruct (failed_calls_leak 0 0 [(100%nat, true); (101%nat, false)] two_servers
    (mkClient [Some 1; Some 3]%nat [Some 2; Some 4]%nat) 1 (mkStub "a:50051" false))
    as (h & H1 & H2 & _ & H3).
  - vm_compute. reflexivity.
  - reflexivity.
  - vm_compute. reflexivity.
  - exact two_servers_deliverable.
  - exists h. split; [exact H1|]. split; [apply H2; left|apply H3; right; left].
Defined.

Lemma sendRequestAsync_no_deadline_witness :
  ∃ h t stub, sendRequestAsync 0 (mkRequest "k" "" GET_REQ) 200 1 two_servers = (h, Return t)
    ∧ h_calls h !! t = Some (mkCall stub (mkRequest "k" "" GET_REQ) 200 None).
Proof.
  destruct (sendRequestAsync 0 (mkRequest "k" "" GET_REQ) 200 1 two_servers) as [h o] eqn:E.
  assert (Ho : o = Return 5%nat) by (vm_compute in E; congruence). subst o.
  destruct (sendRequestAsync_no_deadline 0 (mkRequest "k" "" GET_REQ) 200 1 two_servers h 5 E)
    as (stub & H & _).
  exists h, 5%nat, stub. split; [reflexivity|]. rewrite H. apply lookup_insert_eq.
Defined.

Lemma sendRequest_spec_witness :
  (sendRequest 0 (mkRequest "k" "" GET_REQ) empty_response 1 two_servers).2
  = Return (mkResponse true "v" "" GET_REQ).
Proof.
  rewrite (sendRequest_spec 0 (mkRequest "k" "" GET_REQ) empty_response 1 two_servers
    (mkClient [Some 1; Some 3]%nat [Some 2; Some 4]%nat) 3 (mkStub "b:50051" false)).
  - vm_compute. reflexivity.
  - vm_compute. reflexivity.
  - reflexivity.
  - vm_compute. reflexivity.
Defined.

Lemma destructor_frees_witness :
  ∃ h, destructor 0 two_servers = (h, Return ())
    ∧ h_clients h = delete 0%nat (h_clients two_servers) ∧ h_stubs h !! 1%nat = None.
Proof.
  destruct (destructor_frees 0 [1; 3]%nat [2; 4]%nat two_servers two_servers_owned)
    as (h & H1 & H2 & H3 & _).
  - vm_compute. reflexivity.
  - rewrite two_servers_drained. exact two_servers_deliverable.
  - exists h. split; [exact H1|]. split; [exact H2|]. rewrite H3. by rewrite decide_True by left.
Defined.

Lemma destructor_count_mismatch_witness :
  (destructor 0 (set_num_servers 3 two_servers)).2 = Undefined
  ∧ ∃ h, destructor 0 (set_num_servers 1 two_servers) = (h, Return ())
         ∧ (AsyncCompleteRpc 0 1 [] h).2 = Undefined.
Proof.
  split.
  - apply (proj1 (destructor_count_mismatch 0 [1; 3]%nat [2; 4]%nat (set_num_servers 3 two_servers)
      (owns_renumbered _ _ _ _ 3 two_servers_owned)
      (deliverable_renumbered _ _ _ 3 two_servers_drained two_servers_deliverable))). simpl. lia.
  - destruct (proj2 (destructor_count_mismatch 0 [1; 3]%nat [2; 4]%nat (set_num_servers 1 two_servers)
      (owns_renumbered _ _ _ _ 1 two_servers_owned)
      (deliverable_renumbered _ _ _ 1 two_servers_drained two_servers_deliverable))) as (h & H1 & H2).
    + simpl. lia.
    + exists h. split; [exact H1|].
      exact (proj2 (proj2 (H2 1%nat 3%nat 4%nat ltac:(simpl; lia) eq_refl eq_refl)) []).
Defined.

(** Replacing a client of two servers by one of three: the destructor of the
    first runs past its arrays. *)
Example replacing_client_undefined :
  let rpc := RpcClient_KvRpc (λ _, mret true) (λ _, mret ()) (λ _ _ _, mret 0) true in
  (assign_client (HR := rpc) (Some 9%nat)
    (mkProcess (Some 0%nat) [] "a;b" ∅ (KvstoreRPCClient "c;d;e" two_servers).1)).2 = Undefined.
Proof. vm_compute. reflexivity. Qed.
