(* ===== verification/RpcAsync.v ===== *)
(** * Asynchronous requests and the threads that complete them

    [client/src/kvclientimpl.cpp], lines 38-107: callers start calls with
    [sendRequestAsync] while the completion threads of the same client take the
    finished ones from their queues, one at a time and in any order.  What is on
    the heap at every moment, and what the callers must not do.  RpcDestroy.v has
    the destructor among these threads. *)

From S2P Require Import Prelude.
From S2P Require Import KvRpc.
From S2P Require Import RpcClient.
From S2P Require Import RpcClientSpec.
From S2P Require Import ClientExamples.
From stdpp Require Import base gmap strings list sets.
From Stdlib Require Import Lia.

Section async.
Context {X : Type} `{HG : !Grpc X}.
Implicit Types h : Heap X.

(** The calls that gRPC has not handed back, and those it handed back with a
    status that is not ok. *)
Record Async : Type := mkAsync { heap : Heap X; flying : gset nat; failed : gset nat }.

(** The caller's response goes out of scope. *)
Definition release (response : nat) h : Heap X :=
  mkHeap (g_num_servers h) (h_clients h) (h_stubs h) (h_threads h) (h_calls h)
    (delete response (h_responses h)) (h_context_deadline h) (h_next h) (h_ext h).

Definition uses h (response t : nat) : Prop :=
  ∃ call, h_calls h !! t = Some call ∧ ca_reply call = response.

(** The queue of a call is the one of its stub. *)
Definition queued_at h (self i t : nat) : Prop :=
  ∃ c call, h_clients h !! self = Some c ∧ h_calls h !! t = Some call
    ∧ _servers c !! i = Some (Some (ca_stub call)).

(** A round of the loop of a completion thread is [AsyncCompleteRpc] on one
    event. *)
Inductive async_step (self : nat) : Async → Async → Prop :=
| async_send a rq response node h t :
    is_Some (h_responses (heap a) !! response) →
    sendRequestAsync self rq response node (heap a) = (h, Return t) →
    async_step self a (mkAsync h ({[t]} ∪ flying a) (failed a))
| async_ok a i t h :
    t ∈ flying a → queued_at (heap a) self i t →
    AsyncCompleteRpc self i [(t, true)] (heap a) = (h, Return ()) →
    async_step self a (mkAsync h (flying a ∖ {[t]}) (failed a))
| async_fail a i t h :
    t ∈ flying a → queued_at (heap a) self i t →
    AsyncCompleteRpc self i [(t, false)] (heap a) = (h, Return ()) →
    async_step self a (mkAsync h (flying a ∖ {[t]}) ({[t]} ∪ failed a))
| async_release a response :
    (∀ t, t ∈ flying a → ¬ uses (heap a) response t) →
    async_step self a (mkAsync (release response (heap a)) (flying a) (failed a)).

(** ** What a request does *)

Lemma server_inv self i h h' id :
  server self i h = (h', Return id) →
  h' = h ∧ (∃ c, h_clients h !! self = Some c ∧ _servers c !! i = Some (Some id))
  ∧ is_Some (h_stubs h !! id).
Proof.
  intros Hs. pose proof (server_same _ _ _ _ _ Hs) as ->. split; [done|]. revert Hs.
  unfold server, live, element, mbind, M_bind, getS, mret, M_ret.
  destruct (h_clients h !! self) as [c|]; [|done]. cbn.
  destruct (_servers c !! i) as [[id'|]|] eqn:Hi; [|done..].
  destruct (h_stubs h !! id') as [st|] eqn:Hst; [|done].
  intros [= <-]. split; [by exists c|by exists st].
Qed.

Lemma sendRequestAsync_inv self rq response node h h' t :
  sendRequestAsync self rq response node h = (h', Return t) →
  t = h_next h ∧ ∃ c id,
    h_clients h !! self = Some c ∧ _servers c !! Z.to_nat node = Some (Some id)
    ∧ is_Some (h_stubs h !! id)
    ∧ h' = set_calls (<[t := mkCall id rq response None]> (h_calls h))
             (set_context_deadline (Some (system_clock_now (h_ext h) + 500)%Z)
                (set_next (S (h_next h)) h)).
Proof.
  unfold sendRequestAsync. rewrite (bind_return _ _ _ _ _ (run_new_id h)). do 2 mstep. set (h1 := set_context_deadline _ _).
  destruct (server self (Z.to_nat node) h1) as [h2 [id|e|]] eqn:Hs.
  - rewrite (bind_return _ _ _ _ _ Hs). do 1 mstep.
    apply server_inv in Hs as (-> & (c & Hc & Hi) & Hst). intros [= <- <-].
    split; [done|]. by exists c, id.
  - by rewrite (bind_throw _ _ _ _ _ Hs).
  - by rewrite (bind_undefined _ _ _ _ Hs).
Qed.

(** ** The invariant *)

Record async_inv (self : nat) (a : Async) : Prop := {
  ai_dom : dom (h_calls (heap a)) = flying a ∪ failed a;
  ai_disjoint : flying a ## failed a;
  ai_fresh t : t ∈ dom (h_calls (heap a)) → (t < h_next (heap a))%nat;
  ai_flying t : t ∈ flying a → ∃ call i c,
    h_calls (heap a) !! t = Some call
    ∧ h_clients (heap a) !! self = Some c ∧ _servers c !! i = Some (Some (ca_stub call))
    ∧ is_Some (h_stubs (heap a) !! ca_stub call)
    ∧ is_Some (h_responses (heap a) !! ca_reply call) ∧ ca_deadline call = None;
}.

(** The thread of the call's queue completes it. *)
Lemma complete_one self i t ok a :
  async_inv self a → t ∈ flying a → queued_at (heap a) self i t →
  AsyncCompleteRpc self i [(t, ok)] (heap a)
  = (set_calls (if ok then delete t (h_calls (heap a)) else h_calls (heap a)) (heap a), Return ()).
Proof.
  intros Ha Ht (c & call & Hc & Hcall & Hi).
  destruct (ai_flying _ _ Ha t Ht) as (call' & _ & _ & E & _ & _ & [st Hst] & Hr & _).
  rewrite Hcall in E. injection E as <-.
  rewrite (AsyncCompleteRpc_run self i _ _ c (ca_stub call) st) by
    (done || (split; [apply NoDup_singleton|];
      intros t' ok' [= -> ->]%list_elem_of_singleton; by exists call)).
  by destruct ok.
Qed.

(** The heap after a completion, in both cases. *)
Lemma complete_inv self a t (m : gmap nat Call) bad :
  async_inv self a → t ∈ flying a →
  m = delete t (h_calls (heap a)) ∧ bad = failed a
    ∨ m = h_calls (heap a) ∧ bad = {[t]} ∪ failed a →
  async_inv self (mkAsync (set_calls m (heap a)) (flying a ∖ {[t]}) bad).
Proof.
  intros [Hdom Hdis Hfr Hfl] Ht Hm. split; simpl.
  - destruct Hm as [[-> ->]|[-> ->]].
    + rewrite dom_delete_L, Hdom. set_solver.
    + rewrite Hdom. apply set_eq. intros u. destruct (decide (u = t)); set_solver.
  - destruct Hm as [[-> ->]|[-> ->]]; set_solver.
  - destruct Hm as [[-> _]|[-> _]]; [|done]. intros u. rewrite dom_delete_L. set_solver.
  - intros u [Hu Hne%not_elem_of_singleton]%elem_of_difference.
    destruct (Hfl u Hu) as (call & i & c & Hcall & Hrest). exists call, i, c. split; [|done].
    destruct Hm as [[-> _]|[-> _]]; [by rewrite lookup_delete_ne|done].
Qed.

Lemma async_step_inv self a a' : async_step self a a' → async_inv self a → async_inv self a'.
Proof.
  intros Hs Ha. destruct Hs as [a rq response node h t Hr Hrun|a i t h Ht Hq Hrun|
    a i t h Ht Hq Hrun|a response Hu].
  - destruct Ha as [Hdom Hdis Hfr Hfl].
    apply sendRequestAsync_inv in Hrun as (-> & c & id & Hc & Hi & Hst & ->).
    set (t := h_next (heap a)).
    assert (Hnew : t ∉ flying a ∪ failed a) by (rewrite <-Hdom; intros ?%Hfr; subst t; lia).
    split; simpl.
    + rewrite dom_insert_L, Hdom. set_solver.
    + set_solver.
    + intros u. rewrite dom_insert_L. intros [->%elem_of_singleton|Hu%Hfr]%elem_of_union; subst t; lia.
    + intros u Hu. destruct (decide (u = t)) as [->|Hne].
      * exists (mkCall id rq response None), (Z.to_nat node), c. by rewrite lookup_insert_eq.
      * rewrite lookup_insert_ne by done. apply Hfl. set_solver.
  - rewrite (complete_one self i t true) in Hrun by done. injection Hrun as <-.
    apply complete_inv; auto.
  - rewrite (complete_one self i t false) in Hrun by done. injection Hrun as <-.
    apply complete_inv; auto.
  - destruct Ha as [Hdom Hdis Hfr Hfl]. split; simpl; try done.
    intros t Ht. destruct (Hfl t Ht) as (call & i & c & H1 & H2 & H3 & H4 & H5 & H6).
    exists call, i, c. split_and!; try done. rewrite lookup_delete_ne; [done|].
    intros ->. apply (Hu t Ht). by exists call.
Qed.

(** What requests and completions leave alone. *)
Definition same_objects (h h' : Heap X) : Prop :=
  g_num_servers h' = g_num_servers h ∧ h_clients h' = h_clients h ∧ h_stubs h' = h_stubs h
  ∧ h_threads h' = h_threads h.

#[local] Instance same_objects_preorder : PreOrder same_objects.
Proof.
  split; [done|]. intros h1 h2 h3 (?&?&?&?) (?&?&?&?). unfold same_objects.
  split_and!; congruence.
Qed.

Lemma async_step_objects self a a' :
  async_step self a a' → async_inv self a → same_objects (heap a) (heap a').
Proof.
  intros Hs Ha. destruct Hs as [a rq response node h t Hr Hrun|a i t h Ht Hq Hrun|
    a i t h Ht Hq Hrun|a response Hu]; [| | |done].
  - apply sendRequestAsync_inv in Hrun as (_ & c & id & _ & _ & _ & ->). done.
  - rewrite (complete_one self i t true) in Hrun by done. by injection Hrun as <-.
  - rewrite (complete_one self i t false) in Hrun by done. by injection Hrun as <-.
Qed.

Lemma async_steps_inv self a0 a :
  rtc (async_step self) a0 a → async_inv self a0 →
  async_inv self a ∧ same_objects (heap a0) (heap a).
Proof.
  induction 1 as [a0|a0 a1 a2 Hs _ IH]; intros Ha; [by split|].
  destruct (IH (async_step_inv _ _ _ Hs Ha)) as [H2 Hsame]. split; [done|].
  etrans; [by eapply async_step_objects|done].
Qed.

Lemma no_calls_inv self h : h_calls h = ∅ → async_inv self (mkAsync h ∅ ∅).
Proof. intros Hno. split; simpl; rewrite ?Hno, ?dom_empty_L; set_solver. Qed.

(** C20: on a client without calls, whatever is requested and completed in any
    order, and as long as a response outlives its call: the completion of a
    call under way is never undefined, whatever its status, and frees the call
    exactly if the status is ok; the calls on the heap are those under way, all
    without a deadline, and those that failed. *)
Theorem async_calls_accounted self h a :
  h_calls h = ∅ → rtc (async_step self) (mkAsync h ∅ ∅) a →
  dom (h_calls (heap a)) = flying a ∪ failed a ∧ flying a ## failed a
  ∧ ∀ t, t ∈ flying a → ∃ call i,
      h_calls (heap a) !! t = Some call ∧ ca_deadline call = None
      ∧ queued_at (heap a) self i t
      ∧ ∀ ok, ∃ h', AsyncCompleteRpc self i [(t, ok)] (heap a) = (h', Return ())
          ∧ h_calls h' = if ok then delete t (h_calls (heap a)) else h_calls (heap a).
Proof.
  intros Hno Hr. destruct (async_steps_inv self _ a Hr (no_calls_inv self h Hno)) as [Ha _].
  split_and!; [apply Ha..|]. intros t Ht.
  destruct (ai_flying _ _ Ha t Ht) as (call & i & c & H1 & H2 & H3 & _ & _ & H6).
  assert (Hq : queued_at (heap a) self i t) by by exists c, call.
  exists call, i. split_and!; [done..|]. intros ok. eexists. split; [by apply complete_one|].
  by destruct ok.
Qed.

(** The queues still deliver every call under way, each of them once. *)
Definition delivers_all (a : Async) (stubs : list nat) : Prop :=
  NoDup (drained (heap a) stubs).*1
  ∧ ∀ t, t ∈ (drained (heap a) stubs).*1 ↔ t ∈ flying a.

(** Without what it made, the heap is the old one. *)
Lemma without_new {A} (m0 m m' : gmap nat A) (ids : list nat) :
  (∀ id, m0 !! id = if decide (id ∈ ids) then None else m !! id) →
  (∀ id, m' !! id = if decide (id ∈ ids) then None else m !! id) → m' = m0.
Proof. intros H H'. apply map_eq. intros id. by rewrite H, H'. Qed.

Lemma fst_once (l : list (nat * bool)) t b1 b2 :
  NoDup l.*1 → (t, b1) ∈ l → (t, b2) ∈ l → b1 = b2.
Proof.
  intros Hnd [i Hi]%list_elem_of_lookup [j Hj]%list_elem_of_lookup.
  assert (i = j) as ->; [|congruence].
  apply (NoDup_lookup _ _ _ t Hnd); rewrite list_lookup_fmap; [by rewrite Hi|by rewrite Hj].
Qed.

(** The whole life of a client: it is built, requests are sent and completed
    in any order by any of its threads, and it is destroyed while calls may be
    under way, which the queues then deliver.  The destructor is defined and
    gives back every object of the client: the heap has the clients, stubs and
    threads it had before; the calls left are exactly those that failed, before
    or during the destruction. *)
Lemma client_lifetime hosts h0 :
  heap_wf h0 → h_calls h0 = ∅ → (∀ x, (start_thread x).2 = true) →
  (Z.of_nat (length (getline_all hosts)) < 2 ^ 32)%Z →
  ∃ h self stubs threads, KvstoreRPCClient hosts h0 = (h, Return self)
    ∧ h_clients h !! self = Some (mkClient (Some <$> stubs) (Some <$> threads))
    ∧ Forall2 (λ id host, h_stubs h !! id = Some (mkStub (server_url host) false))
        stubs (getline_all hosts)
    ∧ ∀ a, rtc (async_step self) (mkAsync h ∅ ∅) a → delivers_all a stubs →
        ∃ h', destructor self (heap a) = (h', Return ())
          ∧ h_clients h' = h_clients h0 ∧ h_stubs h' = h_stubs h0 ∧ h_threads h' = h_threads h0
          ∧ ∀ t, is_Some (h_calls h' !! t)
              ↔ t ∈ failed a ∨ (t, false) ∈ drained (heap a) stubs.
Proof.
  intros Hwf Hno Hst Hlen.
  destruct (constructor_spec hosts h0 Hwf Hst Hlen) as (h & self & stubs & threads & Hrun & Hown &
    _ & Hurls & Hnum & Hcl & Hfresh & Hs0 & Ht0 & Hcalls).
  exists h, self, stubs, threads. split_and!; [done|apply Hown|done|]. intros a Hr [Hnd Hall].
  destruct (async_steps_inv self _ a Hr) as [Ha (En & Ec & Es & Et)].
  { apply no_calls_inv. by rewrite Hcalls. }
  cbn [heap] in *.
  destruct (destructor_frees self stubs threads (heap a)) as (h' & Hd & Hc' & Hs' & Ht' & Hca').
  - unfold owns in *. by rewrite Ec, Es, Et.
  - by rewrite En.
  - split; [done|]. intros t ok Ht. destruct (ai_flying _ _ Ha t) as (call & i & c & H1 & _ & _ & _ & H5 & _).
    { apply Hall. apply list_elem_of_fmap. by exists (t, ok). }
    by exists call.
  - rewrite Es in Hs'. rewrite Et in Ht'. exists h'. split_and!;
      [done| |exact (without_new _ _ _ _ Hs0 Hs')|exact (without_new _ _ _ _ Ht0 Ht')|].
    + rewrite Hc', Ec, Hcl. by apply delete_insert_id.
    + intros t. rewrite Hca', done_calls_lookup.
      assert (Hdom : is_Some (h_calls (heap a) !! t) ↔ t ∈ flying a ∪ failed a).
      { rewrite <-(ai_dom _ _ Ha). symmetry. apply elem_of_dom. }
      specialize (Hall t). pose proof (ai_disjoint _ _ Ha) as Hdis.
      destruct (decide ((t, true) ∈ _)) as [Htrue|Hntrue].
      * assert (Hf : t ∈ flying a) by (apply Hall, list_elem_of_fmap; by exists (t, true)).
        split; [by intros []|]. intros [?|Hfalse]; [set_solver|].
        pose proof (fst_once _ _ _ _ Hnd Htrue Hfalse). done.
      * rewrite Hdom, elem_of_union. split; [|intros [?|Hfalse]; [by right|]].
        -- intros [Hf|?]; [|by left]. right. apply Hall, list_elem_of_fmap in Hf as ([u [|]] & -> & ?);
             done.
        -- left. apply Hall, list_elem_of_fmap. by exists (t, false).
Qed.
End async.

(** ** Two calls on a client of two servers *)

#[local] Existing Instance ToyNet.

Definition get_rq : KvstoreRequest := mkRequest "k" "" GET_REQ.
Definition h0 : Heap (gmap string string) := Eval vm_compute in
  set_calls ∅ two_servers.
Definition h1 : Heap (gmap string string) := Eval vm_compute in
  (sendRequestAsync 0 get_rq 200 0 h0).1.
Definition h2 : Heap (gmap string string) := Eval vm_compute in
  (sendRequestAsync 0 get_rq 201 1 h1).1.
(** The second one fails, then the first one is done. *)
Definition h3 : Heap (gmap string string) := Eval vm_compute in
  (AsyncCompleteRpc 0 1 [(6, false)] h2).1.
Definition h4 : Heap (gmap string string) := Eval vm_compute in
  (AsyncCompleteRpc 0 0 [(5, true)] h3).1.

Lemma two_calls_run :
  sendRequestAsync 0 get_rq 200 0 h0 = (h1, Return 5) ∧ sendRequestAsync 0 get_rq 201 1 h1 = (h2, Return 6)
  ∧ AsyncCompleteRpc 0 1 [(6, false)] h2 = (h3, Return ())
  ∧ AsyncCompleteRpc 0 0 [(5, true)] h3 = (h4, Return ()).
Proof. split_and!; vm_compute; reflexivity. Qed.

Lemma two_calls_reachable :
  rtc (async_step 0) (mkAsync h0 ∅ ∅) (mkAsync h3 (({[6]} ∪ ({[5]} ∪ ∅)) ∖ {[6]}) ({[6]} ∪ ∅)).
Proof.
  destruct two_calls_run as (R1 & R2 & R3 & _).
  eapply rtc_l; [eapply (async_send 0 (mkAsync h0 ∅ ∅) get_rq 200 0 h1 5); [|exact R1]|].
  { eexists. vm_compute. reflexivity. }
  eapply rtc_l; [eapply (async_send 0 (mkAsync h1 _ _) get_rq 201 1 h2 6); [|exact R2]|].
  { eexists. vm_compute. reflexivity. }
  eapply rtc_l; [|apply rtc_refl].
  apply (async_fail 0 (mkAsync h2 _ _) 1 6 h3); [set_solver| |exact R3].
  eexists _, _. split_and!; vm_compute; reflexivity.
Qed.

(** The call that failed stays for ever; the other one can be completed. *)
Lemma async_calls_accounted_witness :
  dom (h_calls h3) = {[5; 6]}
  ∧ ∃ i h', AsyncCompleteRpc 0 i [(5, true)] h3 = (h', Return ()) ∧ dom (h_calls h') = {[6]}.
Proof.
  destruct (async_calls_accounted 0 h0 _ eq_refl two_calls_reachable) as (H1 & _ & H2).
  cbn [heap flying failed] in H1, H2. split; [rewrite H1; vm_compute; reflexivity|].
  destruct (H2 5 ltac:(set_solver)) as (call & i & _ & _ & _ & H3).
  destruct (H3 true) as (h' & Hrun & Hc). exists i, h'. split; [exact Hrun|].
  rewrite Hc. vm_compute. reflexivity.
Defined.

(** Nothing tells the caller when its response is no longer needed: if it goes
    out of scope before the call is done, the completion is undefined. *)
Example response_dropped :
  (AsyncCompleteRpc 0 0 [(5, true)] (release 200 h2)).2 = Undefined
  ∧ (AsyncCompleteRpc 0 0 [(5, false)] (release 200 h2)).2 = Return ().
Proof. split; vm_compute; reflexivity. Qed.

(** ** The life of a client *)

(** When it is destroyed the first queue has a call that is done, the second
    one a call that failed. *)
Definition LifeNet : Grpc () := {|
  system_clock_now _ := 1000%Z;
  contactRemote _ _ _ rs x := (x, (true, rs));
  start_thread x := (x, true);
  cq_events stub _ :=
    if bool_decide (stub = 1) then [(7, true)] else if bool_decide (stub = 3) then [(6, false)] else [];
|}.
#[local] Existing Instance LifeNet.

Definition life0 : Heap () :=
  mkHeap 0 ∅ ∅ ∅ ∅ {[200 := empty_response; 201 := empty_response; 202 := empty_response]} None 0 ().
Definition life1 : Heap () := Eval vm_compute in (KvstoreRPCClient "a;b" life0).1.
Definition life2 : Heap () := Eval vm_compute in (sendRequestAsync 0 get_rq 200 0 life1).1.
Definition life3 : Heap () := Eval vm_compute in (sendRequestAsync 0 get_rq 201 1 life2).1.
Definition life4 : Heap () := Eval vm_compute in (sendRequestAsync 0 get_rq 202 0 life3).1.
Definition life5 : Heap () := Eval vm_compute in (AsyncCompleteRpc 0 0 [(5, true)] life4).1.

Definition life_end : Async := mkAsync life5 (({[7]} ∪ ({[6]} ∪ ({[5]} ∪ ∅))) ∖ {[5]}) ∅.

Lemma life_reachable : rtc (async_step 0) (mkAsync life1 ∅ ∅) life_end.
Proof.
  assert (Hr : ∀ (h : Heap ()) r, h_responses h = h_responses life0 → r = 200 ∨ r = 201 ∨ r = 202 →
    is_Some (h_responses h !! r)).
  { intros h r -> [->|[->| ->]]; eexists; vm_compute; reflexivity. }
  eapply rtc_l; [apply (async_send 0 (mkAsync life1 ∅ ∅) get_rq 200 0 life2 5);
    [apply Hr; [vm_compute; reflexivity|auto]|vm_compute; reflexivity]|].
  eapply rtc_l; [apply (async_send 0 (mkAsync life2 _ _) get_rq 201 1 life3 6);
    [apply Hr; [vm_compute; reflexivity|auto]|vm_compute; reflexivity]|].
  eapply rtc_l; [apply (async_send 0 (mkAsync life3 _ _) get_rq 202 0 life4 7);
    [apply Hr; [vm_compute; reflexivity|auto]|vm_compute; reflexivity]|].
  apply rtc_once, (async_ok 0 (mkAsync life4 _ _) 0 5 life5).
  - set_solver.
  - eexists _, _. split_and!; vm_compute; reflexivity.
  - vm_compute. reflexivity.
Qed.

Lemma life0_wf : heap_wf life0.
Proof. split; simpl; intros id [x Hx]; by rewrite lookup_empty in Hx. Qed.

(** Only the call that failed is left. *)
Lemma client_lifetime_witness :
  ∃ h', destructor 0 life5 = (h', Return ())
    ∧ h_clients h' = ∅ ∧ h_stubs h' = ∅ ∧ h_threads h' = ∅
    ∧ is_Some (h_calls h' !! 6) ∧ ¬ is_Some (h_calls h' !! 7).
Proof.
  destruct (client_lifetime "a;b" life0 life0_wf eq_refl) as (h & self & stubs & threads & Hrun & Harr & _ & H).
  - intros x. reflexivity.
  - vm_compute. reflexivity.
  - assert (Hh : KvstoreRPCClient "a;b" life0 = (life1, Return 0)) by (vm_compute; reflexivity).
    rewrite Hh in Hrun. injection Hrun as <- <-.
    assert (stubs = [1; 3]) as ->.
    { change (Some (mkClient (Some <$> [1; 3]) (Some <$> [2; 4]))
        = Some (mkClient (Some <$> stubs) (Some <$> threads))) in Harr.
      injection Harr as Hs _.
      destruct stubs as [|s1 [|s2 [|]]]; try discriminate Hs. by injection Hs as <- <-. }
    destruct (H life_end life_reachable) as (h' & H1 & H2 & H3 & H4 & H5).
    + split; [apply (bool_decide_eq_true_1 _); vm_compute; reflexivity|].
      intros t. change (drained (heap life_end) [1; 3]) with [(7, true); (6, false)].
      unfold life_end. simpl. clear. set_solver.
    + exists h'. split_and!; [exact H1|exact H2|exact H3|exact H4| |].
      * apply H5. right. right. left.
      * intros [Hin|Hin]%H5; revert Hin; [clear; set_solver|].
        change (drained (heap life_end) [1; 3]) with [(7, true); (6, false)]. clear. set_solver.
Defined.
