(* ===== verification/RpcDestroy.v ===== *)
(** * The destructor of a client and its completion threads

    [client/src/kvclientimpl.cpp], lines 38-60 and 109-121: the destructor shuts
    one queue down after the other and waits for its thread, while the threads of
    the other queues, and of this one, still complete calls.  RpcClient.v runs the
    rest of a thread inside [join]; here every statement of the destructor is a
    step, and every round of a thread.

    Nothing makes a call complete: it has no deadline, so a server that stays
    silent keeps it under way for ever.  The steps that depend on the answers of
    servers, or on the owners of the responses, are therefore told apart from
    those of the client itself. *)

From S2P Require Import Prelude.
From S2P Require Import KvRpc.
From S2P Require Import RpcClient.
From S2P Require Import RpcClientSpec.
From S2P Require Import RpcAsync.
From stdpp Require Import base gmap strings list sets.
From Stdlib Require Import Lia.

(** ** The statements of the destructor *)

(** Where it is: at the test of the loop, at [Shutdown], at [join], at the two
    deletions of round [i], at the end, or it has returned. *)
Inductive Stage : Type :=
| AtTest (i : nat)
| AtShutdown (i : nat)
| AtJoin (i : nat)
| AtThread (i : nat)
| AtServer (i : nat)
| AtEnd
| Over.

#[export] Instance Stage_eq_dec : EqDecision Stage.
Proof. solve_decision. Defined.

Section destroy.
Context {X : Type} `{HG : !Grpc X}.
Implicit Types (h : Heap X) (a : @Async X).
Abbreviation H := (M cexn (Heap X)).

(** [_threads[i]], with the thread it points to. *)
Definition thread_at (self i : nat) : H nat :=
  c ← live h_clients self;
  thread ← element (_threads c) i;
  live h_threads thread;;
  mret thread.

Definition destructor_part (self : nat) (at_ : Stage) : H Stage :=
  match at_ with
  | AtTest i =>
      n ← gets g_num_servers;
      mret (if bool_decide (Z.of_nat i < n)%Z then AtShutdown i else AtEnd)
  | AtShutdown i =>
      stub ← server self i;
      modify (λ h, set_stubs (alter (λ s, mkStub (st_url s) true) stub (h_stubs h)) h);;
      mret (AtJoin i)
  | AtJoin i => thread_at self i;; mret (AtThread i)
  | AtThread i =>
      thread ← thread_at self i;
      modify (λ h, set_threads (delete thread (h_threads h)) h);;
      mret (AtServer i)
  | AtServer i =>
      stub ← server self i;
      modify (λ h, set_stubs (delete stub (h_stubs h)) h);;
      mret (AtTest (S i))
  | AtEnd => modify (λ h, set_clients (delete self (h_clients h)) h);; mret Over
  | Over => mret Over
  end.

(** ** Steps *)

(** The calls, the threads that have left their loop, and the destructor. *)
Record Closing : Type := mkClosing { calls : @Async X; left_loop : gset nat; at_stage : Stage }.

Definition queue_down h (self i : nat) : Prop :=
  ∃ c id st, h_clients h !! self = Some c ∧ _servers c !! i = Some (Some id)
    ∧ h_stubs h !! id = Some st ∧ st_cq_down st = true.

(** Who moves: the client's own threads, which nothing keeps from moving, or the
    world outside: an answer to a call arrives, or the owner of a response lets
    go of it. *)
Inductive Mover : Type := Client | Outside.

(** [join] waits; [Next] answers [false] when the queue is shut down and has
    delivered everything. *)
Inductive close_move (self : nat) : Mover → Closing → Closing → Prop :=
| close_part a left at_ h at' :
    at_ ≠ Over → (∀ i, at_ = AtJoin i → i ∈ left) →
    destructor_part self at_ (heap a) = (h, Return at') →
    close_move self Client (mkClosing a left at_)
      (mkClosing (mkAsync h (flying a) (failed a)) left at')
| close_ok a left at_ i t h :
    i ∉ left → t ∈ flying a → queued_at (heap a) self i t →
    AsyncCompleteRpc self i [(t, true)] (heap a) = (h, Return ()) →
    close_move self Outside (mkClosing a left at_)
      (mkClosing (mkAsync h (flying a ∖ {[t]}) (failed a)) left at_)
| close_fail a left at_ i t h :
    i ∉ left → t ∈ flying a → queued_at (heap a) self i t →
    AsyncCompleteRpc self i [(t, false)] (heap a) = (h, Return ()) →
    close_move self Outside (mkClosing a left at_)
      (mkClosing (mkAsync h (flying a ∖ {[t]}) ({[t]} ∪ failed a)) left at_)
| close_leave a left at_ i h :
    i ∉ left → queue_down (heap a) self i → (∀ t, t ∈ flying a → ¬ queued_at (heap a) self i t) →
    AsyncCompleteRpc self i [] (heap a) = (h, Return ()) →
    close_move self Client (mkClosing a left at_)
      (mkClosing (mkAsync h (flying a) (failed a)) ({[i]} ∪ left) at_)
| close_release a left at_ response :
    is_Some (h_responses (heap a) !! response) →
    (∀ t, t ∈ flying a → ¬ uses (heap a) response t) →
    close_move self Outside (mkClosing a left at_)
      (mkClosing (mkAsync (release response (heap a)) (flying a) (failed a)) left at_).

Definition close_step (self : nat) (s s' : Closing) : Prop := ∃ by_, close_move self by_ s s'.

(** The destructor is in [join], and its thread waits for a call. *)
Definition waits_for_call (self : nat) (s : Closing) : Prop :=
  ∃ i t, at_stage s = AtJoin i ∧ t ∈ flying (calls s) ∧ queued_at (heap (calls s)) self i t.

(** ** The invariant *)

(** What the destructor has done, of the [n] rounds. *)
Definition downs (n : nat) (at_ : Stage) : nat :=
  match at_ with
  | AtTest i | AtShutdown i => i
  | AtJoin i | AtThread i | AtServer i => S i
  | AtEnd | Over => n
  end.
Definition deleted_threads (n : nat) (at_ : Stage) : nat :=
  match at_ with
  | AtTest i | AtShutdown i | AtJoin i | AtThread i => i
  | AtServer i => S i
  | AtEnd | Over => n
  end.
Definition deleted_stubs (n : nat) (at_ : Stage) : nat :=
  match at_ with
  | AtTest i | AtShutdown i | AtJoin i | AtThread i | AtServer i => i
  | AtEnd | Over => n
  end.
(** The threads it has waited for. *)
Definition joined (n : nat) (at_ : Stage) : nat :=
  match at_ with
  | AtTest i | AtShutdown i | AtJoin i => i
  | AtThread i | AtServer i => S i
  | AtEnd | Over => n
  end.
Definition stage_ok (n : nat) (at_ : Stage) : Prop :=
  match at_ with
  | AtTest i => i ≤ n
  | AtShutdown i | AtJoin i | AtThread i | AtServer i => i < n
  | AtEnd | Over => True
  end.
(** How many statements are left. *)
Definition weight (n : nat) (at_ : Stage) : nat :=
  match at_ with
  | AtTest i => 5 * (n - i) + 2
  | AtShutdown i => 5 * (n - i) + 1
  | AtJoin i => 5 * (n - i)
  | AtThread i => 5 * (n - i) - 1
  | AtServer i => 5 * (n - i) - 2
  | AtEnd => 1
  | Over => 0
  end.

(** The objects of the client on [h]: those before the index are gone. *)
Record nodes_left (stubs threads : list nat) (self : nat) h (at_ : Stage) : Prop := {
  nl_stub_gone i id : stubs !! i = Some id → i < deleted_stubs (length stubs) at_ →
    h_stubs h !! id = None;
  nl_stub i id : stubs !! i = Some id → deleted_stubs (length stubs) at_ ≤ i →
    ∃ st, h_stubs h !! id = Some st ∧ (i < downs (length stubs) at_ → st_cq_down st = true);
  nl_thread_gone i id : threads !! i = Some id → i < deleted_threads (length stubs) at_ →
    h_threads h !! id = None;
  nl_thread i id : threads !! i = Some id → deleted_threads (length stubs) at_ ≤ i →
    h_threads h !! id = Some (mkThread self i);
}.

Section invariant.
Context (self : nat) (stubs threads : list nat) (h0 : Heap X).
Abbreviation n := (length stubs).
Abbreviation client := (mkClient (Some <$> stubs) (Some <$> threads)).
Context (Hlen : length threads = n) (Hstubs : NoDup stubs) (Hthreads : NoDup threads).
Context (Hnum : g_num_servers h0 = Z.of_nat n) (Hclient : h_clients h0 !! self = Some client).

Record closing_inv (s : Closing) : Prop := {
  ci_async : async_inv self (calls s);
  ci_stage : stage_ok n (at_stage s);
  ci_num : g_num_servers (heap (calls s)) = Z.of_nat n;
  ci_clients : h_clients (heap (calls s))
    = if decide (at_stage s = Over) then delete self (h_clients h0) else h_clients h0;
  ci_nodes : nodes_left stubs threads self (heap (calls s)) (at_stage s);
  ci_other_stubs id : id ∉ stubs → h_stubs (heap (calls s)) !! id = h_stubs h0 !! id;
  ci_other_threads id : id ∉ threads → h_threads (heap (calls s)) !! id = h_threads h0 !! id;
  ci_left i : i ∈ left_loop s → i < n;
  ci_joined i : i < joined n (at_stage s) → i ∈ left_loop s;
  ci_drained i t : i ∈ left_loop s → t ∈ flying (calls s) → ¬ queued_at (heap (calls s)) self i t;
}.

Lemma client_here s : closing_inv s → at_stage s ≠ Over →
  h_clients (heap (calls s)) !! self = Some client.
Proof. intros Hs Ho. by rewrite (ci_clients s Hs), decide_False. Qed.

Lemma stub_id i : i < n → ∃ id, stubs !! i = Some id ∧ _servers client !! i = Some (Some id).
Proof.
  intros [id Hi]%lookup_lt_is_Some. exists id. split; [done|]. simpl. by rewrite list_lookup_fmap, Hi.
Qed.

Lemma thread_id i : i < n → ∃ id, threads !! i = Some id ∧ _threads client !! i = Some (Some id).
Proof.
  rewrite <-Hlen. intros [id Hi]%lookup_lt_is_Some. exists id. split; [done|]. simpl.
  by rewrite list_lookup_fmap, Hi.
Qed.

Lemma run_thread_at h i id :
  h_clients h !! self = Some client → threads !! i = Some id →
  h_threads h !! id = Some (mkThread self i) → thread_at self i h = (h, Return id).
Proof.
  intros Hc Hi Ht. unfold thread_at. rewrite (bind_return _ _ _ _ _ (run_live h_clients _ _ _ Hc)).
  assert (Hth : _threads client !! i = Some (Some id)) by (simpl; by rewrite list_lookup_fmap, Hi).
  rewrite (bind_return _ _ _ _ _ (run_element _ _ _ _ Hth)).
  by rewrite (bind_return _ _ _ _ _ (run_live h_threads _ _ _ Ht)).
Qed.

(** A call under way is at the stub of a thread that is still in its loop. *)
Lemma flying_at s t : closing_inv s → t ∈ flying (calls s) →
  at_stage s ≠ Over ∧ ∃ i, i < n ∧ (i ∉ left_loop s) ∧ queued_at (heap (calls s)) self i t.
Proof.
  intros Hs Ht. destruct (ai_flying _ _ (ci_async s Hs) t Ht) as (call & i & c & Hcall & Hc & Hi & _).
  assert (Ho : at_stage s ≠ Over).
  { intros Ho. rewrite (ci_clients s Hs), decide_True, lookup_delete_eq in Hc by done. done. }
  rewrite (client_here s Hs Ho) in Hc. injection Hc as <-. split; [done|]. exists i.
  assert (Hq : queued_at (heap (calls s)) self i t).
  { exists client, call. split; [by apply client_here|done]. }
  split_and!; [|intros Hl; by apply (ci_drained s Hs i t)|done].
  apply lookup_lt_Some in Hi. simpl in Hi. by rewrite length_fmap in Hi.
Qed.

(** *** The destructor *)

(** A statement that changes nothing on the heap. *)
Lemma move_stage a left at_ at' :
  closing_inv (mkClosing a left at_) → at_ ≠ Over → at' ≠ Over → stage_ok n at' →
  downs n at' = downs n at_ → deleted_threads n at' = deleted_threads n at_ →
  deleted_stubs n at' = deleted_stubs n at_ → (∀ i, i < joined n at' → i ∈ left) →
  closing_inv (mkClosing a left at').
Proof.
  intros [] Hat Hat' Hok Hd Ht Hs Hj. split; simpl in *; try done.
  - by rewrite !decide_False in * by done.
  - destruct ci_nodes0 as [H1 H2 H3 H4]. split; rewrite ?Hd, ?Ht, ?Hs; done.
Qed.

Lemma async_stubs a m :
  async_inv self a →
  (∀ t call, t ∈ flying a → h_calls (heap a) !! t = Some call → is_Some (m !! ca_stub call)) →
  async_inv self (mkAsync (set_stubs m (heap a)) (flying a) (failed a)).
Proof.
  intros [H1 H2 H3 H4] Hm. split; simpl; try done. intros t Ht.
  destruct (H4 t Ht) as (call & i & c & E1 & E2 & E3 & _ & E5 & E6). exists call, i, c.
  split_and!; try done. by eapply Hm.
Qed.

Lemma stub_inj i j id : stubs !! i = Some id → stubs !! j = Some id → i = j.
Proof. intros Hi Hj. by apply (NoDup_lookup stubs i j id). Qed.

Lemma thread_inj i j id : threads !! i = Some id → threads !! j = Some id → i = j.
Proof. intros Hi Hj. by apply (NoDup_lookup threads i j id). Qed.

Definition part_goes_on a left at_ : Prop :=
  ∃ h at', destructor_part self at_ (heap a) = (h, Return at')
    ∧ closing_inv (mkClosing (mkAsync h (flying a) (failed a)) left at')
    ∧ weight n at' < weight n at_ ∧ h_responses h = h_responses (heap a).

Lemma test_goes_on a left i : closing_inv (mkClosing a left (AtTest i)) → part_goes_on a left (AtTest i).
Proof.
  intros Hs. pose proof (ci_stage _ Hs) as Hi. simpl in Hi. unfold part_goes_on, destructor_part.
  mstep. pose proof (ci_num _ Hs) as Hn. simpl in Hn. rewrite Hn. eexists _, _. split; [done|].
  destruct a as [h fl fa]. simpl. case_bool_decide; (split; [|split; [simpl; lia|done]]).
  - apply (move_stage _ _ (AtTest i)); try done; [simpl; lia|]. exact (ci_joined _ Hs).
  - assert (i = n) as -> by lia.
    apply (move_stage _ _ (AtTest n)); try done. exact (ci_joined _ Hs).
Qed.

Lemma join_goes_on a left i :
  closing_inv (mkClosing a left (AtJoin i)) → i ∈ left → part_goes_on a left (AtJoin i).
Proof.
  intros Hs Hl. pose proof (ci_stage _ Hs) as Hi. simpl in Hi. unfold part_goes_on, destructor_part.
  destruct (thread_id i Hi) as (id & Hid & _).
  rewrite (bind_return _ _ _ _ _ (run_thread_at _ i id (client_here _ Hs ltac:(done)) Hid
    (nl_thread _ _ _ _ _ (ci_nodes _ Hs) i id Hid (le_n _)))).
  eexists _, _. split; [done|]. destruct a as [h fl fa]. simpl.
  split; [|split; [lia|done]]. apply (move_stage _ _ (AtJoin i)); try done.
  intros j Hj. simpl in Hj. destruct (decide (j = i)) as [->|]; [done|].
  apply (ci_joined _ Hs). simpl. lia.
Qed.

Lemma shutdown_goes_on a left i :
  closing_inv (mkClosing a left (AtShutdown i)) → part_goes_on a left (AtShutdown i).
Proof.
  intros Hs. pose proof (ci_stage _ Hs) as Hi. simpl in Hi. unfold part_goes_on, destructor_part.
  destruct (stub_id i Hi) as (id & Hid & Hsv).
  destruct (nl_stub _ _ _ _ _ (ci_nodes _ Hs) i id Hid (le_n _)) as (st & Hst & _).
  rewrite (bind_return _ _ _ _ _ (run_server _ _ _ _ _ _ (client_here _ Hs ltac:(done)) Hsv Hst)).
  mstep. eexists _, _. split; [done|]. split; [|split; [simpl; lia|done]].
  destruct Hs as [H1 H2 H3 H4 [N1 N2 N3 N4] H5 H6 H7 H8 H9]. split; simpl in *; try done.
  - apply async_stubs; [done|]. intros t call Ht Hcall. rewrite lookup_alter_is_Some.
    destruct (ai_flying _ _ H1 t Ht) as (call' & ? & ? & E1 & _ & _ & E4 & _). simplify_eq. done.
  - split; simpl; try done.
    + intros j id' Hj Hlt. rewrite lookup_alter_ne; [by apply (N1 j)|].
      intros ->. pose proof (stub_inj _ _ _ Hid Hj). lia.
    + intros j id' Hj Hle. destruct (decide (j = i)) as [->|Hne].
      * simplify_eq. rewrite lookup_alter_eq, Hst. simpl. by eexists.
      * rewrite lookup_alter_ne by (intros ->; by destruct Hne; apply (stub_inj _ _ id')).
        destruct (N2 j id' Hj Hle) as (st' & Hst' & _). exists st'. split; [done|]. lia.
  - intros id' Hid'. rewrite lookup_alter_ne; [by apply H5|]. intros ->. by apply list_elem_of_lookup_2 in Hid.
Qed.

Lemma thread_goes_on a left i :
  closing_inv (mkClosing a left (AtThread i)) → part_goes_on a left (AtThread i).
Proof.
  intros Hs. pose proof (ci_stage _ Hs) as Hi. simpl in Hi. unfold part_goes_on, destructor_part.
  destruct (thread_id i Hi) as (id & Hid & _).
  rewrite (bind_return _ _ _ _ _ (run_thread_at _ i id (client_here _ Hs ltac:(done)) Hid
    (nl_thread _ _ _ _ _ (ci_nodes _ Hs) i id Hid (le_n _)))).
  mstep. eexists _, _. split; [done|]. split; [|split; [simpl; lia|done]].
  destruct Hs as [H1 H2 H3 H4 [N1 N2 N3 N4] H5 H6 H7 H8 H9]. split; simpl in *; try done.
  - by destruct H1.
  - split; simpl; try done.
    + intros j id' Hj Hlt. destruct (decide (id = id')) as [->|]; [apply lookup_delete_eq|].
      rewrite lookup_delete_ne by done. apply (N3 j); [done|].
      destruct (decide (j = i)); [congruence|lia].
    + intros j id' Hj Hle. rewrite lookup_delete_ne; [apply N4; [done|lia]|].
      intros ->. pose proof (thread_inj _ _ _ Hid Hj). lia.
  - intros id' Hid'. rewrite lookup_delete_ne; [by apply H6|].
    intros ->. by apply list_elem_of_lookup_2 in Hid.
Qed.

Lemma server_goes_on a left i :
  closing_inv (mkClosing a left (AtServer i)) → part_goes_on a left (AtServer i).
Proof.
  intros Hs. pose proof (ci_stage _ Hs) as Hi. simpl in Hi. unfold part_goes_on, destructor_part.
  destruct (stub_id i Hi) as (id & Hid & Hsv).
  destruct (nl_stub _ _ _ _ _ (ci_nodes _ Hs) i id Hid (le_n _)) as (st & Hst & _).
  rewrite (bind_return _ _ _ _ _ (run_server _ _ _ _ _ _ (client_here _ Hs ltac:(done)) Hsv Hst)).
  mstep. eexists _, _. split; [done|]. split; [|split; [simpl; lia|done]].
  pose proof (client_here _ Hs ltac:(done)) as Hc.
  destruct Hs as [H1 H2 H3 H4 [N1 N2 N3 N4] H5 H6 H7 H8 H9]. split; simpl in *; try done; try lia.
  - apply async_stubs; [done|]. intros t call Ht Hcall.
    destruct (ai_flying _ _ H1 t Ht) as (call' & ? & ? & E1 & _ & _ & E4 & _). simplify_eq.
    rewrite lookup_delete_ne; [done|]. intros ->. apply (H9 i t); [apply H8; lia|done|].
    by exists client, call.
  - split; simpl; try done.
    + intros j id' Hj Hlt. destruct (decide (id = id')) as [->|]; [apply lookup_delete_eq|].
      rewrite lookup_delete_ne by done. apply (N1 j); [done|].
      destruct (decide (j = i)); [congruence|lia].
    + intros j id' Hj Hle. rewrite lookup_delete_ne.
      * destruct (N2 j id' Hj ltac:(lia)) as (st' & Hst' & Hdown). exists st'. split; [done|].
        intros. apply Hdown. lia.
      * intros ->. pose proof (stub_inj _ _ _ Hid Hj). lia.
  - intros id' Hid'. rewrite lookup_delete_ne; [by apply H5|].
    intros ->. by apply list_elem_of_lookup_2 in Hid.
Qed.

(** When every thread has left its loop, no call is under way. *)
Lemma all_left_none_flying s : closing_inv s → (∀ i, i < n → i ∈ left_loop s) → flying (calls s) = ∅.
Proof.
  intros Hs Hall. apply set_eq. intros t. split; [|set_solver]. intros Ht.
  destruct (flying_at s t Hs Ht) as (_ & i & Hi & Hl & _). by destruct Hl; apply Hall.
Qed.

Lemma end_goes_on a left : closing_inv (mkClosing a left AtEnd) → part_goes_on a left AtEnd.
Proof.
  intros Hs. pose proof (all_left_none_flying _ Hs (ci_joined _ Hs)) as Hnone. simpl in Hnone.
  unfold part_goes_on, destructor_part. mstep. eexists _, _. split; [done|].
  split; [|split; [simpl; lia|done]].
  destruct Hs as [[A1 A2 A3 A4] H2 H3 H4 [N1 N2 N3 N4] H5 H6 H7 H8 H9].
  split; simpl in *; try done.
  - split; simpl; try done. rewrite Hnone. set_solver.
  - by rewrite H4.
  - rewrite Hnone. set_solver.
Qed.

Lemma part_step a left at_ :
  closing_inv (mkClosing a left at_) → at_ ≠ Over → (∀ i, at_ = AtJoin i → i ∈ left) →
  part_goes_on a left at_.
Proof.
  intros Hs Hat Hj. destruct at_ as [i|i|i|i|i| |]; [..|done].
  - by apply test_goes_on.
  - by apply shutdown_goes_on.
  - apply join_goes_on; [done|by apply Hj].
  - by apply thread_goes_on.
  - by apply server_goes_on.
  - by apply end_goes_on.
Qed.

(** *** The calls *)

Lemma calls_move a a' left at_ :
  closing_inv (mkClosing a left at_) → async_inv self a' → same_objects (heap a) (heap a') →
  (∀ i t, t ∈ flying a' → queued_at (heap a') self i t →
     t ∈ flying a ∧ queued_at (heap a) self i t) →
  closing_inv (mkClosing a' left at_).
Proof.
  intros [H1 H2 H3 H4 [N1 N2 N3 N4] H5 H6 H7 H8 H9] Ha (En & Ec & Es & Et) Hq.
  split; simpl in *; rewrite ?En, ?Ec, ?Es, ?Et; try done.
  - split; rewrite ?Es, ?Et; done.
  - intros i t Hl Ht Hat. destruct (Hq i t Ht Hat) as [Ht' Hat']. by apply (H9 i t).
Qed.

(** Fewer calls, at the same stubs. *)
Lemma queued_mono h m i t :
  (∀ call, m !! t = Some call → h_calls h !! t = Some call) →
  queued_at (set_calls m h) self i t → queued_at h self i t.
Proof. intros Hm (c & call & Hc & Hcall & Hi). exists c, call. split_and!; auto. Qed.

Lemma complete_keeps a left at_ i t ok h :
  closing_inv (mkClosing a left at_) → t ∈ flying a → queued_at (heap a) self i t →
  AsyncCompleteRpc self i [(t, ok)] (heap a) = (h, Return ()) →
  closing_inv (mkClosing (mkAsync h (flying a ∖ {[t]}) (if ok then failed a else {[t]} ∪ failed a))
    left at_) ∧ h_responses h = h_responses (heap a).
Proof.
  intros Hs Ht Hq Hrun. rewrite (complete_one self i t ok a (ci_async _ Hs) Ht Hq) in Hrun.
  injection Hrun as <-. split; [|done]. apply (calls_move a); [done| |done|].
  - apply complete_inv; [apply Hs|done|]. destruct ok; auto.
  - cbn [flying]. intros j u [Hu Hne%not_elem_of_singleton]%elem_of_difference. split; [done|].
    eapply queued_mono; [|done]. intros call. destruct ok; [|done]. by rewrite lookup_delete_ne.
Qed.

(** ** Every step makes progress *)

Definition remaining_steps (s : Closing) : nat :=
  size (flying (calls s)) + (n - size (left_loop s)) + weight n (at_stage s)
  + size (h_responses (heap (calls s))).

Lemma size_flying_done (F : gset nat) t : t ∈ F → size (F ∖ {[t]}) < size F.
Proof.
  intros Ht. pose proof (size_union_alt {[t]} F) as Hs.
  rewrite size_singleton, (subseteq_union_1_L {[t]} F) in Hs by set_solver. lia.
Qed.

Lemma size_left_loop s i : closing_inv s → i < n → i ∉ left_loop s →
  n - size ({[i]} ∪ left_loop s) < n - size (left_loop s).
Proof.
  intros Hs Hi Hl. rewrite size_union, size_singleton by set_solver.
  assert (size ({[i]} ∪ left_loop s) ≤ size (set_seq (C:=gset nat) 0 n)) as Hsz.
  { apply subseteq_size. intros j [->%elem_of_singleton|Hj]%elem_of_union; apply elem_of_set_seq;
      [lia|]. pose proof (ci_left s Hs j Hj). lia. }
  rewrite size_union, size_singleton, size_set_seq in Hsz by set_solver. lia.
Qed.

Lemma close_step_inv s s' :
  close_step self s s' → closing_inv s → closing_inv s' ∧ remaining_steps s' < remaining_steps s.
Proof.
  intros Hstep Hs. unfold remaining_steps.
  destruct Hstep as [by_ Hstep].
  destruct Hstep as [a left at_ h at' Hat Hj Hrun|a left at_ i t h Hl Ht Hq Hrun|
    a left at_ i t h Hl Ht Hq Hrun|a left at_ i h Hl Hdown Hnone Hrun|a left at_ r Hr Hu]; cbn [calls left_loop at_stage heap flying].
  - destruct (part_step a left at_ Hs Hat Hj) as (h' & at2 & Hrun' & Hs' & Hw & Hresp).
    rewrite Hrun in Hrun'. injection Hrun' as <- <-. split; [done|]. rewrite Hresp. lia.
  - destruct (complete_keeps a left at_ i t true h Hs Ht Hq Hrun) as [Hs' ->]. split; [done|].
    pose proof (size_flying_done _ t Ht). lia.
  - destruct (complete_keeps a left at_ i t false h Hs Ht Hq Hrun) as [Hs' ->]. split; [done|].
    pose proof (size_flying_done _ t Ht). lia.
  - destruct Hdown as (c & id & st & Hc & Hi & Hst & _). cbn [AsyncCompleteRpc] in Hrun.
    rewrite (bind_return _ _ _ _ _ (run_server _ _ _ _ _ _ Hc Hi Hst)) in Hrun. injection Hrun as <-.
    assert (Hin : i < n).
    { pose proof (ci_clients _ Hs) as E. simpl in E. rewrite E in Hc. case_decide.
      { by rewrite lookup_delete_eq in Hc. }
      rewrite Hclient in Hc. injection Hc as <-. apply lookup_lt_Some in Hi. simpl in Hi.
      by rewrite length_fmap in Hi. }
    split; [|pose proof (size_left_loop _ i Hs Hin Hl); simpl in *; lia].
    destruct a as [h fl fa]. destruct Hs as [H1 H2 H3 H4 H5 H6 H7 H8 H9 H10]. split; simpl in *; try done.
    + intros j [->%elem_of_singleton|Hj]%elem_of_union; auto.
    + intros j Hj. apply elem_of_union. right. auto.
    + intros j t [->%elem_of_singleton|Hj]%elem_of_union; auto.
  - assert (Hstep : async_step self a (mkAsync (release r (heap a)) (flying a) (failed a)))
      by by constructor.
    split.
    + pose proof (ci_async _ Hs) as Ha. apply (calls_move a);
        [done|exact (async_step_inv _ _ _ Hstep Ha)|exact (async_step_objects _ _ _ Hstep Ha)|].
      intros i t Ht (c & call & Hq). split; [done|]. by exists c, call.
    + destruct Hr as [x Hr]. simpl. rewrite map_size_delete_Some by by exists x.
      assert (size (h_responses (heap a)) ≠ 0); [|lia]. intros E%map_size_empty_iff.
      rewrite E in Hr. by rewrite lookup_empty in Hr.
Qed.

(** What can run returns: no object is used after its end. *)
Record close_defined (s : Closing) : Prop := {
  cd_part : (∀ i, at_stage s = AtJoin i → i ∈ left_loop s) →
    ∃ h at', destructor_part self (at_stage s) (heap (calls s)) = (h, Return at');
  cd_complete i t ok : t ∈ flying (calls s) → queued_at (heap (calls s)) self i t →
    ∃ h, AsyncCompleteRpc self i [(t, ok)] (heap (calls s)) = (h, Return ());
  cd_next i : i < n → i ∉ left_loop s → ∃ h, AsyncCompleteRpc self i [] (heap (calls s)) = (h, Return ());
}.

Lemma live_next s i : closing_inv s → i < n → i ∉ left_loop s →
  ∃ id st, stubs !! i = Some id ∧ at_stage s ≠ Over
    ∧ h_stubs (heap (calls s)) !! id = Some st ∧ (i < downs n (at_stage s) → st_cq_down st = true)
    ∧ AsyncCompleteRpc self i [] (heap (calls s)) = (heap (calls s), Return ()).
Proof.
  intros Hs Hi Hl. destruct (stub_id i Hi) as (id & Hid & Hsv).
  assert (Hj : joined n (at_stage s) ≤ i).
  { destruct (Nat.le_gt_cases (joined n (at_stage s)) i) as [|Hj]; [done|].
    by destruct Hl; apply (ci_joined s Hs). }
  assert (Ho : at_stage s ≠ Over) by (intros Ho; rewrite Ho in Hj; simpl in Hj; lia).
  assert (Hd : deleted_stubs n (at_stage s) ≤ i) by (destruct (at_stage s); simpl in *; lia).
  destruct (nl_stub _ _ _ _ _ (ci_nodes s Hs) i id Hid Hd) as (st & Hst & Hdown).
  exists id, st. split_and!; [done..|]. cbn [AsyncCompleteRpc].
  by rewrite (bind_return _ _ _ _ _ (run_server _ _ _ _ _ _ (client_here s Hs Ho) Hsv Hst)).
Qed.

Lemma closing_defined s : closing_inv s → close_defined s.
Proof.
  destruct s as [a left at_]. intros Hs. split; simpl.
  - intros Hj. destruct (decide (at_ = Over)) as [->|Ho]; [by eexists _, _|].
    destruct (part_step a left at_ Hs Ho Hj) as (h & at' & Hrun & _). by exists h, at'.
  - intros i t ok Ht Hq. eexists. by apply (complete_one self i t ok a (ci_async _ Hs)).
  - intros i Hi Hl. destruct (live_next _ i Hs Hi Hl) as (id & st & _ & _ & _ & _ & Hrun).
    eexists. exact Hrun.
Qed.

(** The thread that [join] waits for can leave its loop, or has a call under way. *)
Lemma joined_moves a left0 i : closing_inv (mkClosing a left0 (AtJoin i)) → i ∉ left0 →
  (∃ s', close_move self Client (mkClosing a left0 (AtJoin i)) s')
  ∨ waits_for_call self (mkClosing a left0 (AtJoin i)).
Proof.
  intros Hs Hl. pose proof (ci_stage _ Hs) as Hi. simpl in Hi.
  destruct (live_next _ i Hs Hi Hl) as (id & st & Hid & _ & Hst & Hdown & Hrun). simpl in *.
  pose proof (client_here _ Hs ltac:(done)) as Hc. simpl in Hc.
  destruct (set_choose_or_empty (filter (λ t, ca_stub <$> h_calls (heap a) !! t = Some id) (flying a)))
    as [[t Ht]|Hnone].
  - apply elem_of_filter in Ht as [Hstub Ht].
    destruct (h_calls (heap a) !! t) as [call|] eqn:Hcall; [|done]. injection Hstub as Hstub.
    right. exists i, t. split_and!; [done..|]. exists client, call. split_and!; [done..|]. simpl.
    by rewrite list_lookup_fmap, Hid, Hstub.
  - left. eexists. apply (close_leave self a left0 _ i (heap a)); [done| | |exact Hrun].
    + exists client, id, st. split_and!; [done| |done|apply Hdown; lia].
      simpl. by rewrite list_lookup_fmap, Hid.
    + intros t Ht (c & call & Hc' & Hcall & Hq). apply (not_elem_of_empty (C:=gset nat) t).
      apply (Hnone t), elem_of_filter. split; [|done]. rewrite Hcall. simpl. simplify_eq. simpl in Hq.
      rewrite list_lookup_fmap, Hid in Hq. simpl in Hq. congruence.
Qed.

Lemma closing_progress s : closing_inv s → at_stage s ≠ Over →
  (∃ s', close_move self Client s s') ∨ waits_for_call self s.
Proof.
  destruct s as [a left0 at_]. intros Hs Ho. simpl in Ho.
  assert ((∃ i, at_ = AtJoin i ∧ i ∉ left0) ∨ ∀ i, at_ = AtJoin i → i ∈ left0) as [(i & -> & Hl)|Hj].
  { destruct at_ as [i|i|i|i|i| |]; try by right.
    destruct (decide (i ∈ left0)); [right; by intros ? [= <-]|left; by exists i]. }
  - by apply joined_moves.
  - destruct (part_step a left0 at_ Hs Ho Hj) as (h & at' & Hrun & _).
    left. eexists. by eapply close_part.
Qed.

(** While a call is under way at a node, its thread has not been joined. *)
Lemma call_holds_join s i t : closing_inv s → t ∈ flying (calls s) →
  queued_at (heap (calls s)) self i t → at_stage s ≠ Over ∧ joined n (at_stage s) ≤ i.
Proof.
  intros Hs Ht Hq. destruct (flying_at s t Hs Ht) as (Ho & _). split; [done|].
  destruct (Nat.le_gt_cases (joined n (at_stage s)) i) as [|Hj]; [done|].
  apply (ci_joined s Hs) in Hj. by destruct (ci_drained s Hs i t Hj Ht).
Qed.

Lemma closing_steps_inv s s' : closing_inv s → rtc (close_step self) s s' → closing_inv s'.
Proof. intros Hs Hr. induction Hr as [|s s1 s2 H1 _ IH]; [done|]. by apply IH, (close_step_inv s). Qed.

Lemma closing_bound k : ∀ s s', closing_inv s → nsteps (close_step self) k s s' → k ≤ remaining_steps s.
Proof.
  induction k as [|k IH]; intros s s' Hs Hk; [lia|]. inversion Hk as [|? ? s1 ? H1 Hk']; subst.
  destruct (close_step_inv s s1 H1 Hs) as [Hs1 Hm]. specialize (IH s1 s' Hs1 Hk'). lia.
Qed.

Lemma client_keeps_calls s s' :
  close_move self Client s s' → flying (calls s') = flying (calls s).
Proof. intros Hm. by inversion Hm. Qed.

(** When no call is under way the client alone gets to the end. *)
Lemma closing_ends s : closing_inv s → flying (calls s) = ∅ →
  ∃ s', rtc (close_move self Client) s s' ∧ at_stage s' = Over.
Proof.
  induction s as [s IH] using (induction_ltof1 _ remaining_steps). intros Hs Hnone.
  destruct (decide (at_stage s = Over)) as [|Ho]; [by exists s|].
  destruct (closing_progress s Hs Ho) as [[s1 H1]|(i & t & _ & Ht & _)]; [|set_solver].
  destruct (close_step_inv s s1 (ex_intro _ _ H1) Hs) as [Hs1 Hlt].
  destruct (IH s1 Hlt Hs1) as (s2 & H2 & Ho2); [by rewrite (client_keeps_calls _ _ H1)|].
  exists s2. split; [by eapply rtc_l|done].
Qed.

(** What is left at the end. *)
Lemma closing_over s : closing_inv s → at_stage s = Over →
  flying (calls s) = ∅ ∧ h_clients (heap (calls s)) = delete self (h_clients h0)
  ∧ (∀ id, h_stubs (heap (calls s)) !! id = if decide (id ∈ stubs) then None else h_stubs h0 !! id)
  ∧ (∀ id, h_threads (heap (calls s)) !! id = if decide (id ∈ threads) then None else h_threads h0 !! id)
  ∧ dom (h_calls (heap (calls s))) = failed (calls s).
Proof.
  intros Hs Ho. assert (Hnone : flying (calls s) = ∅).
  { apply set_eq. intros t. split; [|set_solver]. by intros [? _]%(flying_at s t Hs). }
  destruct (ci_nodes s Hs) as [N1 _ N3 _]. rewrite Ho in *. simpl in *. split_and!; [done|..].
  - by rewrite (ci_clients s Hs), decide_True.
  - intros id. case_decide as Hin; [|by apply (ci_other_stubs s Hs)].
    apply list_elem_of_lookup in Hin as [i Hi]. apply (N1 i); [done|by eapply lookup_lt_Some].
  - intros id. case_decide as Hin; [|by apply (ci_other_threads s Hs)].
    apply list_elem_of_lookup in Hin as [i Hi]. apply (N3 i); [done|].
    rewrite <-Hlen. by eapply lookup_lt_Some.
  - rewrite (ai_dom _ _ (ci_async s Hs)), Hnone. set_solver.
Qed.
End invariant.

(** *** The statements are the destructor's

    A round of RpcClient.v is its statements, the thread's loop run inside
    [join]. *)
Lemma destroy_node_parts h self k c s t stubs threads :
  remaining h self k c (s :: stubs) (t :: threads) → deliverable h (cq_events s (h_ext h)) →
  destroy_node self k h
  = (destructor_part self (AtShutdown k);;
     AsyncCompleteRpc self k (cq_events s (h_ext h));;
     destructor_part self (AtThread k);;
     destructor_part self (AtServer k);; mret ()) h.
Proof.
  intros [Hc _ _ Hsv Hth Hst Hrun] Hd.
  specialize (Hsv 0 s eq_refl). specialize (Hth 0 t eq_refl).
  specialize (Hrun 0 t eq_refl). destruct (Hst 0 s eq_refl) as [st Hs].
  rewrite Nat.add_0_r in *. unfold destroy_node, destructor_part, thread_at.
  rewrite (bind_return _ _ _ _ _ (run_server _ _ _ _ _ _ Hc Hsv Hs)). mstep.
  rewrite !bind_assoc, (bind_return _ _ _ _ _ (run_server _ _ _ _ _ _ Hc Hsv Hs)). do 2 mstep.
  set (h1 := set_stubs _ h).
  assert (Hs1 : h_stubs h1 !! s = Some (mkStub (st_url st) true)) by (simpl; by rewrite lookup_alter_eq, Hs).
  assert (Hrun1 : AsyncCompleteRpc self k (cq_events s (h_ext h)) h1
    = (set_calls (done_calls (cq_events s (h_ext h)) (h_calls h1)) h1, Return ()))
    by by apply (AsyncCompleteRpc_run self k _ h1 c s (mkStub (st_url st) true)).
  rewrite (bind_return _ _ h1 _ _ (run_live h_clients self c h1 Hc)).
  rewrite (bind_return _ _ _ _ _ (run_element _ _ _ _ Hth)).
  rewrite (bind_return _ _ h1 _ _ (run_live h_threads t _ h1 Hrun)). mstep. cbn [th_client th_node].
  change (h_ext h1) with (h_ext h). rewrite (bind_return _ _ _ _ _ Hrun1).
  rewrite (bind_return _ _ _ _ _ (ret_run (AtJoin k) h1)), (bind_return _ _ _ _ _ Hrun1). set (h2 := set_calls _ h1).
  assert (Ht : thread_at self k h2 = (h2, Return t)).
  { unfold thread_at. rewrite (bind_return _ _ h2 _ _ (run_live h_clients self c h2 Hc)).
    rewrite (bind_return _ _ _ _ _ (run_element _ _ _ _ Hth)).
    by rewrite (bind_return _ _ h2 _ _ (run_live h_threads t _ h2 Hrun)). }
  fold (thread_at self k). rewrite !bind_assoc, (bind_return _ _ _ _ _ Ht).
  do 2 mstep. set (h3 := set_threads _ h2).
  by rewrite !bind_assoc, (bind_return _ _ _ _ _ (run_server self k c s _ h3 Hc Hsv Hs1)).
Qed.

(** A client that has been used, about to be destroyed. *)
Lemma closing_starts self stubs threads h a :
  owns h self stubs threads → g_num_servers h = Z.of_nat (length stubs) →
  async_inv self a → same_objects h (heap a) →
  closing_inv self stubs threads (heap a) (mkClosing a ∅ (AtTest 0)).
Proof.
  intros (Hc & Hl & _ & _ & Hs & Ht) Hn Ha (En & Ec & Es & Et). split; simpl; try done; try lia; try set_solver.
  split; simpl; [lia| |lia|].
  - intros i id Hi _. destruct (Hs i id Hi) as [st Hst]. exists st. rewrite Es. split; [done|lia].
  - intros i id Hi _. rewrite Et. by apply Ht.
Qed.

(** ** Theorem *)

(** C9: the whole life of a client: it is built, requests are sent and completed
    in any order, and it is destroyed while calls are under way, its threads, those
    it waits for and the others, still complete them, and the owners let go of
    responses that no call under way uses.  Whatever the order, no statement of the
    destructor and no round of a thread uses an object after its end.  As long as
    a call is under way the destructor does not get past the [join] of its node,
    and as nothing bounds the time of a call it may wait there for ever; that is
    all that can stop it: elsewhere the client can move, and once no call is under
    way it comes to the end by itself, after a bounded number of steps.  Then the
    clients, stubs and threads are those that were there before the client, and
    the calls left are exactly those that failed. *)
Theorem client_life_ends hosts h0 :
  heap_wf h0 → h_calls h0 = ∅ → (∀ x, (start_thread x).2 = true) →
  (Z.of_nat (length (getline_all hosts)) < 2 ^ 32)%Z →
  ∃ h self stubs, KvstoreRPCClient hosts h0 = (h, Return self)
    ∧ Forall2 (λ id host, h_stubs h !! id = Some (mkStub (server_url host) false))
        stubs (getline_all hosts)
    ∧ ∀ a, rtc (async_step self) (mkAsync h ∅ ∅) a →
        (∃ bound, ∀ k s, nsteps (close_step self) k (mkClosing a ∅ (AtTest 0)) s → k ≤ bound)
        ∧ ∀ s, rtc (close_step self) (mkClosing a ∅ (AtTest 0)) s →
            close_defined self stubs s
            ∧ (∀ i t, t ∈ flying (calls s) → queued_at (heap (calls s)) self i t →
                 at_stage s ≠ Over ∧ joined (length stubs) (at_stage s) ≤ i)
            ∧ (at_stage s ≠ Over →
                 (∃ s', close_move self Client s s') ∨ waits_for_call self s)
            ∧ (flying (calls s) = ∅ →
                 ∃ s', rtc (close_move self Client) s s' ∧ at_stage s' = Over)
            ∧ (at_stage s = Over →
                 flying (calls s) = ∅ ∧ h_clients (heap (calls s)) = h_clients h0
                 ∧ h_stubs (heap (calls s)) = h_stubs h0 ∧ h_threads (heap (calls s)) = h_threads h0
                 ∧ dom (h_calls (heap (calls s))) = failed (calls s)).
Proof.
  intros Hwf Hno Hst Hlen.
  destruct (constructor_spec hosts h0 Hwf Hst Hlen) as (h & self & stubs & threads & Hrun & Hown &
    _ & Hurls & Hnum & Hcl & Hfresh & Hs0 & Ht0 & Hcalls).
  exists h, self, stubs. split_and!; [done..|]. intros a Hr.
  destruct (async_steps_inv self _ a Hr) as [Ha Hsame]; [apply no_calls_inv; by rewrite Hcalls|].
  pose proof (closing_starts self stubs threads h a Hown Hnum Ha Hsame) as Hstart.
  pose proof Hown as (Hc & Hl & Hnd & Hnd' & _). destruct Hsame as (En & Ec & Es & Et). cbn [heap] in *.
  assert (Hc' : h_clients (heap a) !! self = Some (mkClient (Some <$> stubs) (Some <$> threads)))
    by by rewrite Ec.
  assert (Hn' : g_num_servers (heap a) = Z.of_nat (length stubs)) by by rewrite En.
  split.
  - exists (remaining_steps stubs (mkClosing a ∅ (AtTest 0))). intros k s.
    by apply (closing_bound self stubs threads (heap a)).
  - intros s Hrs.
    assert (Hs : closing_inv self stubs threads (heap a) s)
      by by eapply (closing_steps_inv self stubs threads (heap a)).
    split_and!; [by eapply closing_defined|intros i t; by eapply call_holds_join|
      by eapply closing_progress|by eapply closing_ends|].
    intros Ho.
    destruct (closing_over self stubs threads (heap a) Hl Hnd Hnd' Hn' Hc' s Hs Ho) as (H1 & H2 & H3 & H4 & H5).
    rewrite Es in H3. rewrite Et in H4.
    split_and!; [done| |exact (without_new _ _ _ _ Hs0 H3)|exact (without_new _ _ _ _ Ht0 H4)|done].
    rewrite H2, Ec, Hcl. by apply delete_insert_id.
Qed.
End destroy.

(** ** The client of RpcAsync.v, destroyed *)

#[local] Existing Instance LifeNet.

(** Two calls are under way, at the two nodes.  The one is answered; the other
    fails and is left. *)
Definition life6 : Heap () := (AsyncCompleteRpc 0 0 [(7, true)] (heap life_end)).1.
Definition life7 : Heap () := (AsyncCompleteRpc 0 1 [(6, false)] life6).1.
Definition answered_all : Closing :=
  mkClosing (mkAsync life7 ((flying life_end ∖ {[7]}) ∖ {[6]}) ({[6]} ∪ failed life_end)) ∅ (AtTest 0).

Lemma all_answered : rtc (close_step 0) (mkClosing life_end ∅ (AtTest 0)) answered_all.
Proof.
  eapply rtc_l; [eexists; apply (close_ok 0 life_end ∅ (AtTest 0) 0 7 life6)|].
  - set_solver.
  - apply (bool_decide_eq_true_1 _); vm_compute; reflexivity.
  - eexists _, _. split_and!; vm_compute; reflexivity.
  - vm_compute. reflexivity.
  - apply rtc_once. eexists. eapply (close_fail 0 (mkAsync life6 _ _) ∅ (AtTest 0) 1 6 life7).
    + set_solver.
    + apply (bool_decide_eq_true_1 _); vm_compute; reflexivity.
    + eexists _, _. split_and!; vm_compute; reflexivity.
    + vm_compute. reflexivity.
Qed.

Lemma client_life_ends_witness :
  joined 2 (AtTest 0) ≤ 1
  ∧ ∃ s, rtc (close_move 0 Client) answered_all s ∧ at_stage s = Over
    ∧ h_clients (heap (calls s)) = ∅ ∧ h_stubs (heap (calls s)) = ∅
    ∧ h_threads (heap (calls s)) = ∅ ∧ dom (h_calls (heap (calls s))) = failed (calls s).
Proof.
  destruct (client_life_ends "a;b" life0 life0_wf eq_refl) as (h & self & stubs & Hrun & Hst & H).
  - intros x. reflexivity.
  - vm_compute. reflexivity.
  - assert (Hh : KvstoreRPCClient "a;b" life0 = (life1, Return 0)) by (vm_compute; reflexivity).
    rewrite Hh in Hrun. injection Hrun as <- <-. destruct (H life_end life_reachable) as [_ Hall].
    apply Forall2_length in Hst. change (length (getline_all "a;b")) with 2 in Hst. split.
    + destruct (Hall _ (rtc_refl _ _)) as (_ & Hj & _). rewrite Hst in Hj. eapply (Hj 1 6).
      * apply (bool_decide_eq_true_1 _); vm_compute; reflexivity.
      * eexists _, _. split_and!; vm_compute; reflexivity.
    + destruct (Hall _ all_answered) as (_ & _ & _ & Hend & _).
      destruct Hend as (s & Hs & Ho).
      { apply (bool_decide_eq_true_1 _); vm_compute; reflexivity. }
      destruct (Hall s) as (_ & _ & _ & _ & Hover).
      { etrans; [exact all_answered|]. eapply (rtc_subrel (close_move 0 Client)); [|exact Hs].
        intros s1 s2 Hm. by exists Client. }
      destruct (Hover Ho) as (_ & H1 & H2 & H3 & H4). exists s. split_and!; done.
Defined.
