(* ===== verification/KvSession.v ===== *)
(** * A program that uses the client is a program that uses a map

    The C interface of [kvclient.cpp] and the class of [kvclientimpl.cpp] put
    together, with a caller that writes its keys and values into arrays of its
    own and reads the answers from a buffer: if the servers behave as a map, so
    do [kv739_put] and [kv739_get].  The class [MapService] is what an RPC client
    owes the C interface for this, [RemoteMap] what the network owes the RPC
    client. *)

From S2P Require Import Prelude.
From S2P Require Import CMemory.
From S2P Require Import KvRpc.
From S2P Require Import KvClient.
From S2P Require Import KvClientSpec.
From S2P Require Import RpcClient.
From S2P Require Import RpcClientSpec.
From S2P Require Import ClientExamples.
From Stdlib Require Import Ascii.
From stdpp Require Import base gmap strings list pretty.
From Stdlib Require Import Lia.
#[local] Open Scope Z_scope.

(** ** The specification *)

(** The answer to a request on the map [m]: found or not, and what was there. *)
Definition map_answer (out : KvstoreResponse → string) (m : gmap string string) (k : string)
    (r : KvstoreResponse) : Prop :=
  rs_found r = bool_decide (is_Some (m !! k)) ∧ ∀ v, m !! k = Some v → out r = v.

Class MapService (W C : Type) `{HR : !KvRpc W C} : Type := {
  serves : W → C → gmap string string → Prop;
  serves_get w c m k : serves w c m → ∃ w' r,
    KvRpc.sendRequest c (mkRequest k "" GET_REQ) empty_response 0 w = (w', Return r)
    ∧ serves w' c m ∧ map_answer rs_value m k r;
  serves_put w c m k v : serves w c m → ∃ w' r,
    KvRpc.sendRequest c (mkRequest k v PUT_REQ) empty_response 0 w = (w', Return r)
    ∧ serves w' c (<[k := v]> m) ∧ map_answer rs_old_value m k r;
}.

Inductive kv_op : Type := KPut (key value : string) | KGet (key : string).

(** The code that is returned, and the string in the buffer if it is 0. *)
Abbreviation kv_result := (Z * option string)%type.

Definition map_result (o : option string) : kv_result :=
  match o with Some v => (0, Some v) | None => (1, None) end.

Definition op_key (op : kv_op) : string := match op with KPut k _ | KGet k => k end.
Definition map_op (op : kv_op) (m : gmap string string) : gmap string string :=
  match op with KPut k v => <[k := v]> m | KGet _ => m end.

Fixpoint map_session (ops : list kv_op) (m : gmap string string) :
    list kv_result * gmap string string :=
  match ops with
  | [] => ([], m)
  | op :: ops' =>
      let '(rs, m') := map_session ops' (map_op op m) in (map_result (m !! op_key op) :: rs, m')
  end.

(** Strings of C of at most [n] characters. *)
Definition c_string (n : nat) (s : string) : Prop := (NUL ∉ bytes s) ∧ (String.length s ≤ n)%nat.
Definition op_ok (op : kv_op) : Prop :=
  match op with
  | KPut k v => c_string 128 k ∧ c_string 2047 v
  | KGet k => c_string 128 k
  end.

#[export] Instance c_string_dec n s : Decision (c_string n s).
Proof. unfold c_string. apply _. Defined.
#[export] Instance op_ok_dec op : Decision (op_ok op).
Proof. destruct op; simpl; apply _. Defined.

(** ** The caller's arrays *)

Section arrays.
Implicit Types m : memory.

Lemma write_bytes_other l : ∀ m p i,
  ¬ (p ≤ i < p + Z.of_nat (length l)) → write_bytes m p l !! i = m !! i.
Proof.
  induction l as [|c l IH]; intros m p i Hi; simpl in *; [done|].
  rewrite IH by lia. apply lookup_insert_ne. lia.
Qed.

Lemma write_bytes_at l : ∀ m p, bytes_at (write_bytes m p l) p l.
Proof.
  induction l as [|c l IH]; intros m p; simpl; [done|]. split; [|apply IH].
  rewrite write_bytes_other by lia. apply lookup_insert_eq.
Qed.

Lemma write_string_at m p s : NUL ∉ bytes s → string_at (write_bytes m p (bytes s ++ [NUL])) p s.
Proof. intros Hs. split; [done|apply write_bytes_at]. Qed.

Lemma length_array s : Z.of_nat (length (bytes s ++ [NUL])) = Z.of_nat (String.length s) + 1.
Proof. rewrite length_app, length_bytes. simpl. lia. Qed.

Lemma write_string_other m p s i :
  ¬ (p ≤ i ≤ p + Z.of_nat (String.length s)) → write_bytes m p (bytes s ++ [NUL]) !! i = m !! i.
Proof. intros Hi. apply write_bytes_other. rewrite length_array. lia. Qed.

Lemma bytes_at_same m m' p l :
  (∀ i, p ≤ i < p + Z.of_nat (length l) → m' !! i = m !! i) → bytes_at m p l → bytes_at m' p l.
Proof.
  rewrite !bytes_at_lookup. intros Hs H i c Hi. rewrite Hs; [by apply H|].
  apply lookup_lt_Some in Hi. lia.
Qed.

Lemma writable_same m m' p n :
  (∀ i, p ≤ i < p + n → m' !! i = m !! i) → writable m p n → writable m' p n.
Proof. intros Hs H i Hi. rewrite Hs by done. by apply H. Qed.

Lemma writable_frame b n k m m' : writable m b n → same_outside b k m m' → writable m' b n.
Proof.
  intros H [Hd _] i Hi. apply elem_of_dom. rewrite Hd. by apply elem_of_dom, H.
Qed.

Lemma truncated_whole n s : c_string n s → (n ≤ 2047)%nat → truncated s = bytes s.
Proof. intros [_ Hl] Hn. unfold truncated. apply take_ge. rewrite length_bytes. lia. Qed.
End arrays.

(** ** A session over any such client *)

Section session.
Context {W C : Type} `{HR : !KvRpc W C, HM : !MapService W C}.
Implicit Types p : Process W C.

(** Where the caller keeps the key, the value and the buffer. *)
Context (ka va b : Z) (Hkv : ka + 129 ≤ va) (Hvb : va + 2048 ≤ b).

(** What is read from the buffer after a call. *)
Definition read_answer (r : Z) : M cexn (Process W C) kv_result :=
  if r =? 0 then s ← on_mem (std_string (Some b)); mret (r, Some s) else mret (r, None).

Definition do_op (op : kv_op) : M cexn (Process W C) kv_result :=
  match op with
  | KPut k v =>
      local_array ka k;; local_array va v;;
      r ← kv739_put (Some ka) (Some va) (Some b); read_answer r
  | KGet k => local_array ka k;; r ← kv739_get (Some ka) (Some b); read_answer r
  end.

Fixpoint session (ops : list kv_op) : M cexn (Process W C) (list kv_result) :=
  match ops with
  | [] => mret []
  | op :: ops' => r ← do_op op; rs ← session ops'; mret (r :: rs)
  end.

Record connected (m : gmap string string) (c : C) p : Prop := {
  cn_client : kv_client p = Some c;
  cn_serves : serves (p_world p) c m;
  cn_values : map_Forall (λ _ v, c_string 2047 v) m;
  cn_buffer : writable (p_mem p) b 2048;
}.

(** The answer of a request reaches the caller. *)
Lemma answered_map out m k w p a r :
  map_answer out m k a → map_Forall (λ _ v, c_string 2047 v) m →
  writable (p_mem p) b 2048 → answered out b p w (Return a) r →
  ∃ mem z, r = (set_mem mem (set_world w p), Return z)
    ∧ read_answer z (set_mem mem (set_world w p))
      = (set_mem mem (set_world w p), Return (map_result (m !! k)))
    ∧ writable mem b 2048.
Proof.
  intros [Hf Ho] Hv Hb Hr. unfold answered in Hr. rewrite Hf in Hr.
  destruct (m !! k) as [v|] eqn:Hk.
  - rewrite bool_decide_eq_true_2 in Hr by eauto. specialize (Hv k v Hk). specialize (Ho v eq_refl).
    rewrite Ho, (truncated_whole 2047 v Hv) in Hr by done. destruct Hv as [Hn Hlen].
    rewrite length_bytes in Hr. destruct Hr as (mem & -> & Hat & Hsame).
    { intros i Hi. apply Hb. lia. }
    exists mem, 0. split; [done|]. split; [|by eapply writable_frame].
    unfold read_answer. simpl. erewrite bind_return; [reflexivity|]. apply run_string. by split.
  - rewrite bool_decide_eq_false_2 in Hr by (by intros []). rewrite Hr.
    exists (p_mem p), 1. by destruct p.
Qed.

Lemma run_array a s p :
  local_array a s p = (set_mem (write_bytes (p_mem p) a (bytes s ++ [NUL])) p, Return ()).
Proof. done. Qed.

Lemma do_op_run op m c p :
  connected m c p → op_ok op →
  ∃ p', do_op op p = (p', Return (map_result (m !! op_key op))) ∧ connected (map_op op m) c p'.
Proof.
  intros [Hc Hs Hv Hb] Hop. destruct op as [k v|k]; simpl in *.
  - destruct Hop as [[Hk Hkl] Hval]. assert (Hval' := Hval). destruct Hval' as [Hvn Hvl].
    destruct (serves_put _ _ _ k v Hs) as (w & r & Hrun & Hs' & Hr).
    rewrite (bind_return _ _ _ _ _ (run_array ka k p)).
    set (p1 := set_mem _ p). rewrite (bind_return _ _ _ _ _ (run_array va v p1)).
    set (p2 := set_mem _ p1).
    assert (Hb2 : writable (p_mem p2) b 2048).
    { eapply writable_same; [|exact Hb]. intros i Hi. simpl.
      by rewrite !write_string_other by lia. }
    assert (Hk2 : string_at (p_mem p2) ka k).
    { split; [done|]. eapply bytes_at_same; [|apply (write_bytes_at _ (p_mem p))].
      intros i Hi. rewrite length_array in Hi. simpl. by rewrite write_string_other by lia. }
    assert (Hv2 : string_at (p_mem p2) va v) by by apply write_string_at.
    pose proof (put_loop_answered 2 k v b p2 c w (Return r) Hc Hrun ltac:(done)) as Ha.
    rewrite <-(kv739_put_loop ka k va v b p2 Hk2 Hv2) in Ha.
    destruct (answered_map _ _ _ _ _ _ _ Hr Hv Hb2 Ha) as (mem & z & E & Hread & Hmem).
    rewrite (bind_return _ _ _ _ _ E), Hread.
    eexists. split; [reflexivity|]. split; [done|done| |done]. by apply map_Forall_insert_2.
  - destruct Hop as [Hk Hkl]. destruct (serves_get _ _ _ k Hs) as (w & r & Hrun & Hs' & Hr).
    rewrite (bind_return _ _ _ _ _ (run_array ka k p)). set (p1 := set_mem _ p).
    assert (Hb1 : writable (p_mem p1) b 2048).
    { eapply writable_same; [|exact Hb]. intros i Hi. simpl. by rewrite write_string_other by lia. }
    assert (Hk1 : string_at (p_mem p1) ka k) by by apply write_string_at.
    pose proof (run_request p1 c (mkRequest k "" GET_REQ) rs_value b w (Return r)
      (catch_std (mret (-1))) Hc Hrun (λ _ _, eq_refl)) as Ha.
    destruct (answered_map _ _ _ _ _ _ _ Hr Hv Hb1 Ha) as (mem & z & E & Hread & Hmem).
    unfold kv739_get. rewrite bind_assoc, (bind_return _ _ _ _ _ (run_string _ _ _ Hk1)).
    rewrite (bind_return _ _ _ _ _ E), Hread. eexists. split; [reflexivity|]. by split.
Qed.

Lemma session_run ops : ∀ m c p,
  connected m c p → Forall op_ok ops →
  ∃ p', session ops p = (p', Return (map_session ops m).1)
    ∧ connected (map_session ops m).2 c p'.
Proof.
  induction ops as [|op ops IH]; intros m c p Hp Hops; simpl; [by exists p|].
  apply Forall_cons in Hops as [Hop Hops]. destruct (do_op_run op m c p Hp Hop) as (p1 & E1 & Hp1).
  destruct (IH _ c p1 Hp1 Hops) as (p2 & E2 & Hp2).
  exists p2. rewrite (bind_return _ _ _ _ _ E1), (bind_return _ _ _ _ _ E2).
  by destruct (map_session ops (map_op op m)).
Qed.
End session.

(** ** The class [KvstoreRPCClient] is such a client *)

(** A server that answers at the address [url] as a map. *)
Class RemoteMap (X : Type) `{HG : !Grpc X} : Type := {
  remote : string → X → gmap string string → Prop;
  remote_get url deadline x m k : remote url x m → ∃ x' r,
    contactRemote url deadline (mkRequest k "" GET_REQ) empty_response x = (x', (true, r))
    ∧ remote url x' m ∧ map_answer rs_value m k r;
  remote_put url deadline x m k v : remote url x m → ∃ x' r,
    contactRemote url deadline (mkRequest k v PUT_REQ) empty_response x = (x', (true, r))
    ∧ remote url x' (<[k := v]> m) ∧ map_answer rs_old_value m k r;
}.

Section rpc.
Context {X : Type} `{HG : !Grpc X, HX : !RemoteMap X}.
Context (IsLeader : nat → M cexn (Heap X) bool) (Shutdown : nat → M cexn (Heap X) ())
  (TerminateServer : nat → string → Z → M cexn (Heap X) Z) (redirect_std : bool).
#[local] Instance session_rpc : KvRpc (Heap X) nat :=
  RpcClient_KvRpc IsLeader Shutdown TerminateServer redirect_std.

(** A client whose first server is such a one; requests go to node 0. *)
Definition first_serves (h : Heap X) (self : nat) (m : gmap string string) : Prop :=
  ∃ c id st, h_clients h !! self = Some c ∧ _servers c !! 0%nat = Some (Some id)
    ∧ h_stubs h !! id = Some st ∧ remote (st_url st) (h_ext h) m.

#[export] Instance rpc_serves_map : MapService (Heap X) nat.
Proof.
  refine {| serves := first_serves |}.
  - intros h self m k (c & id & st & Hc & Hi & Hst & Hm).
    destruct (remote_get _ (system_clock_now (h_ext h) + 500) _ _ k Hm) as (x & r & E & Hm' & Hr).
    exists (set_ext x h), r. split; [|split; [by exists c, id, st|done]].
    simpl. rewrite (sendRequest_spec self _ _ 0 h c id st) by done. by rewrite E.
  - intros h self m k v (c & id & st & Hc & Hi & Hst & Hm).
    destruct (remote_put _ (system_clock_now (h_ext h) + 500) _ _ k v Hm) as (x & r & E & Hm' & Hr).
    exists (set_ext x h), r. split; [|split; [by exists c, id, st|done]].
    simpl. rewrite (sendRequest_spec self _ _ 0 h c id st) by done. by rewrite E.
Defined.

(** C8: a program that connects to a list of servers, the first of which behaves
    as a map, and then puts and gets through the C interface, reading the
    answers from its buffer, gets the codes and the strings that the map gives:
    0 and the value, or the value replaced; 1 where there was none. *)
Theorem kv739_session_is_map ka va b hosts url urls (p : Process (Heap X) nat) :
  ka + 129 ≤ va → va + 2048 ≤ b → writable (p_mem p) b 2048 →
  heap_wf (p_world p) → (∀ x, (start_thread x).2 = true) →
  getline_all hosts = url :: urls → Z.of_nat (length (url :: urls)) < 2 ^ 32 →
  ∃ h self, KvstoreRPCClient hosts (p_world p) = (h, Return self)
    ∧ ∀ ops m, remote (server_url url) (h_ext h) m → map_Forall (λ _ v, c_string 2047 v) m →
        Forall op_ok ops →
        ∃ p', session ka va b ops (set_world h (set_kv_client (Some self) p))
              = (p', Return (map_session ops m).1)
          ∧ serves (p_world p') self (map_session ops m).2.
Proof.
  intros Hkv Hvb Hb Hwf Hst Hhosts Hlen.
  destruct (constructor_spec hosts (p_world p) Hwf Hst) as
    (h & self & stubs & threads & Hrun & (Hc & _) & _ & Hurls & _); [by rewrite Hhosts|].
  exists h, self. split; [done|]. intros ops m Hm Hv Hops. rewrite Hhosts in Hurls.
  destruct stubs as [|id stubs]; [by apply Forall2_nil_cons_inv in Hurls|].
  apply Forall2_cons in Hurls as [Hid _].
  destruct (session_run ka va b Hkv Hvb ops m self (set_world h (set_kv_client (Some self) p)))
    as (p' & Hs & Hp'); [|done|].
  - split; simpl; [done| |done|done]. by exists (mkClient (Some <$> id :: stubs) (Some <$> threads)),
      id, (mkStub (server_url url) false).
  - exists p'. split; [done|apply Hp'].
Qed.
End rpc.

(** ** On a network with one map *)

#[local] Existing Instance ToyNet.

#[export] Instance toy_remote : RemoteMap (gmap string string).
Proof.
  refine {| remote url x m := x = m ∧ String.eqb url "down:50051" = false |}.
  - intros url d x m k [-> Hu]. eexists _, _. simpl. rewrite Hu. split; [reflexivity|].
    split; [done|]. split; [done|]. simpl. by intros v ->.
  - intros url d x m k v [-> Hu]. eexists _, _. simpl. rewrite Hu. split; [reflexivity|].
    split; [done|]. split; [done|]. simpl. by intros v' ->.
Defined.

(** A buffer of 2048 bytes at 4096; the key at 0, the value at 1024. *)
Definition session_memory : memory := write_bytes ∅ 4096 (replicate 2048 NUL).

Lemma session_buffer : writable session_memory 4096 2048.
Proof.
  intros i Hi. unfold session_memory.
  pose proof (proj1 (bytes_at_lookup _ _ _) (write_bytes_at (replicate 2048 NUL) ∅ 4096)
    (Z.to_nat (i - 4096)) NUL) as H.
  rewrite lookup_replicate_2 in H by lia. exists NUL. rewrite <-H by done. f_equal. lia.
Qed.

Definition some_ops : list kv_op := [KGet "k"; KPut "k" "w"; KPut "a" "1"; KGet "a"; KGet "k"].

Lemma some_ops_ok : Forall op_ok some_ops.
Proof. apply (bool_decide_eq_true_1 _). vm_compute. done. Qed.

Lemma kv739_session_is_map_witness :
  let rpc := RpcClient_KvRpc (λ _, mret true) (λ _, mret ()) (λ _ _ _, mret 0) true in
  ∃ h self p', KvstoreRPCClient "a;b" empty_heap = (h, Return self)
    ∧ session (HR := rpc) 0 1024 4096 some_ops
        (mkProcess (Some self) [] "" session_memory h)
      = (p', Return [(0, Some "v"); (0, Some "v"); (1, None); (0, Some "1"); (0, Some "w")]).
Proof.
  destruct (kv739_session_is_map (λ _, mret true) (λ _, mret ()) (λ _ _ _, mret 0) true
    0 1024 4096 "a;b" "a" ["b"] (mkProcess None [] "" session_memory empty_heap))
    as (h & self & Hrun & H).
  - lia.
  - lia.
  - exact session_buffer.
  - exact empty_heap_wf.
  - intros x. reflexivity.
  - vm_compute. reflexivity.
  - simpl. lia.
  - exists h, self. destruct (H some_ops {["k" := "v"]}) as (p' & E & _).
    + assert (h_ext h = {["k" := "v"]}) as ->; [|split; reflexivity].
      change h with ((h, Return self : outcome cexn nat).1). rewrite <-Hrun. vm_compute. reflexivity.
    + apply map_Forall_singleton. apply (bool_decide_eq_true_1 _). vm_compute. done.
    + exact some_ops_ok.
    + exists p'. split; [exact Hrun|exact E].
Defined.
