(* ===== verification/CompilerId.v ===== *)
(** * The compiler identification program of the client's build tree

    [client/build/CMakeFiles/3.24.1/CompilerIdCXX/CMakeCXXCompilerId.cpp], the
    one C++ program under [client/build]: a chain of preprocessor branches over
    the macros a compiler predefines, the encoding of version numbers as digit
    characters, and the strings it leaves in the object file.  A branch that
    uses an identifier which is not a macro does not compile, which is [None]. *)

From S2P Require Import Prelude.
From Stdlib Require Import Ascii.
From stdpp Require Import base gmap strings list pretty.
From Stdlib Require Import Lia.
#[local] Open Scope Z_scope.

(** ** Predefined macros *)

Inductive Macro : Type := MInt (z : Z) | MText (s : string).
Abbreviation Env := (gmap string Macro).

Section env.
Context (e : Env).

Definition defined (x : string) : bool := bool_decide (is_Some (e !! x)).
Definition any (xs : list string) : bool := existsb defined xs.

(** The value in an [#if]: 0 for an identifier that is not a macro. *)
Definition pp (x : string) : Z := match e !! x with Some (MInt z) => z | _ => 0 end.

(** The value in an expression of the program. *)
Definition mac (x : string) : option Z :=
  match e !! x with Some (MInt z) => Some z | _ => None end.
Definition text (x : string) : option string :=
  match e !! x with Some (MText s) => Some s | _ => None end.
End env.

(** ** Version numbers as digits *)

(** The characters of [DEC(n)] and [HEX(n)], as C [int]s. *)
Definition DEC (n : Z) : list Z :=
  [48 + Z.rem (Z.quot n 10000000) 10;
   48 + Z.rem (Z.quot n 1000000) 10;
   48 + Z.rem (Z.quot n 100000) 10;
   48 + Z.rem (Z.quot n 10000) 10;
   48 + Z.rem (Z.quot n 1000) 10;
   48 + Z.rem (Z.quot n 100) 10;
   48 + Z.rem (Z.quot n 10) 10;
   48 + Z.rem n 10].

Definition HEX (n : Z) : list Z :=
  [48 + Z.land (Z.shiftr n 28) 15;
   48 + Z.land (Z.shiftr n 24) 15;
   48 + Z.land (Z.shiftr n 20) 15;
   48 + Z.land (Z.shiftr n 16) 15;
   48 + Z.land (Z.shiftr n 12) 15;
   48 + Z.land (Z.shiftr n 8) 15;
   48 + Z.land (Z.shiftr n 4) 15;
   48 + Z.land n 15].

(** A version component: the digits, if its expression compiles. *)
Abbreviation Component := (option (list Z)).
Definition Dec (n : option Z) : Component := DEC <$> n.
Definition Hex (n : option Z) : Component := HEX <$> n.

Definition c_div (d : Z) (n : option Z) : option Z := (λ n, Z.quot n d) <$> n.
Definition c_rem (d : Z) (n : option Z) : option Z := (λ n, Z.rem n d) <$> n.
Definition shr (k : Z) (n : option Z) : option Z := (λ n, Z.shiftr n k) <$> n.
Definition mask (k : Z) (n : option Z) : option Z := (λ n, Z.land n k) <$> n.
Definition minus (d : Z) (n : option Z) : option Z := (λ n, n - d) <$> n.

(** The macros a branch defines; [None] is a macro it does not define. *)
Record Info : Type := mkInfo {
  COMPILER_ID : string;
  SIMULATE_ID : option string;
  COMPILER_VERSION : option (option string);
  COMPILER_VERSION_MAJOR : option Component;
  COMPILER_VERSION_MINOR : option Component;
  COMPILER_VERSION_PATCH : option Component;
  COMPILER_VERSION_TWEAK : option Component;
  COMPILER_VERSION_INTERNAL : option Component;
  COMPILER_VERSION_INTERNAL_STR : option (option string);
  SIMULATE_VERSION_MAJOR : option Component;
  SIMULATE_VERSION_MINOR : option Component;
  SIMULATE_VERSION_PATCH : option Component;
}.

(** A branch that only sets the id and version components. *)
Definition plain (id : string) (maj min patch tweak : option Component) : Info :=
  mkInfo id None None maj min patch tweak None None None None None.
Definition with_simulate (sid : option string) (maj min patch : option Component) (i : Info) : Info :=
  mkInfo (COMPILER_ID i) sid (COMPILER_VERSION i) (COMPILER_VERSION_MAJOR i)
    (COMPILER_VERSION_MINOR i) (COMPILER_VERSION_PATCH i) (COMPILER_VERSION_TWEAK i)
    (COMPILER_VERSION_INTERNAL i) (COMPILER_VERSION_INTERNAL_STR i) maj min patch.
Definition with_internal (c : option Component) (s : option (option string)) (i : Info) : Info :=
  mkInfo (COMPILER_ID i) (SIMULATE_ID i) (COMPILER_VERSION i) (COMPILER_VERSION_MAJOR i)
    (COMPILER_VERSION_MINOR i) (COMPILER_VERSION_PATCH i) (COMPILER_VERSION_TWEAK i)
    c s (SIMULATE_VERSION_MAJOR i) (SIMULATE_VERSION_MINOR i) (SIMULATE_VERSION_PATCH i).

(** [# if c] around one definition. *)
Definition when {A} (c : bool) (a : A) : option A := if c then Some a else None.

Section branches.
Context (e : Env).
Abbreviation D := (defined e).
Abbreviation m := (mac e).

(** _MSC_VER = VVRR *)
Definition msvc_major : option Component := when (D "_MSC_VER") (Dec (c_div 100 (m "_MSC_VER"))).
Definition msvc_minor : option Component := when (D "_MSC_VER") (Dec (c_rem 100 (m "_MSC_VER"))).

(** The simulated compiler of the two Intel branches: the GNU macros come
    later and win. *)
Definition intel_simulate (i : Info) : Info :=
  with_simulate
    (if D "__GNUC__" then Some "GNU" else when (D "_MSC_VER") "MSVC")
    (if D "__GNUC__" then Some (Dec (m "__GNUC__"))
     else if D "__GNUG__" then Some (Dec (m "__GNUG__")) else msvc_major)
    (if D "__GNUC_MINOR__" then Some (Dec (m "__GNUC_MINOR__")) else msvc_minor)
    (when (D "__GNUC_PATCHLEVEL__") (Dec (m "__GNUC_PATCHLEVEL__"))) i.

Definition intel : Info :=
  let v := pp e "__INTEL_COMPILER" in
  let old := (v <? 2021) || (v =? 202110) || (v =? 202111) in
  intel_simulate (plain "Intel"
    (Some (Dec (if old then c_div 100 (m "__INTEL_COMPILER") else m "__INTEL_COMPILER")))
    (Some (Dec (if old then c_rem 10 (c_div 10 (m "__INTEL_COMPILER")) else m "__INTEL_COMPILER_UPDATE")))
    (Some (Dec (if old then
                  if D "__INTEL_COMPILER_UPDATE" then m "__INTEL_COMPILER_UPDATE"
                  else c_rem 10 (m "__INTEL_COMPILER")
                else Some 0)))
    (when (D "__INTEL_COMPILER_BUILD_DATE") (Dec (m "__INTEL_COMPILER_BUILD_DATE")))).

Definition intel_llvm : Info :=
  let v := m "__INTEL_LLVM_COMPILER" in
  let old := pp e "__INTEL_LLVM_COMPILER" <? 1000000 in
  intel_simulate (plain "IntelLLVM"
    (Some (Dec (if old then c_div 100 v else c_div 10000 v)))
    (Some (Dec (if old then c_rem 10 (c_div 10 v) else c_rem 100 (c_div 100 v))))
    (Some (Dec (if old then c_rem 10 v else c_rem 100 v)))
    None).

(** __IBMCPP__ = VRP *)
Definition ibm (id : string) : Info :=
  plain id (Some (Dec (c_div 100 (m "__IBMCPP__")))) (Some (Dec (c_rem 10 (c_div 10 (m "__IBMCPP__")))))
    (Some (Dec (c_rem 10 (m "__IBMCPP__")))) None.

Definition four (id a b c d : string) : Info :=
  plain id (Some (Dec (m a))) (Some (Dec (m b))) (Some (Dec (m c))) (Some (Dec (m d))).

(** [STRINGIFY(x)] *)
Definition stringify (x : string) : string :=
  match e !! x with Some (MInt z) => pretty z | Some (MText s) => s | None => x end.

(** A chain of [#if]/[#elif] branches.  These are also the first ones of the C
    program. *)
Definition intel_to_watcom : list (bool * Info) :=
  [(D "__INTEL_COMPILER" || D "__ICC", intel);
   ((D "__clang__" && D "__INTEL_CLANG_COMPILER") || D "__INTEL_LLVM_COMPILER", intel_llvm);
   (D "__PATHCC__",
     plain "PathScale" (Some (Dec (m "__PATHCC__"))) (Some (Dec (m "__PATHCC_MINOR__")))
       (when (D "__PATHCC_PATCHLEVEL__") (Dec (m "__PATHCC_PATCHLEVEL__"))) None);
   (D "__BORLANDC__" && D "__CODEGEARC_VERSION__",
     plain "Embarcadero" (Some (Hex (mask 255 (shr 24 (m "__CODEGEARC_VERSION__")))))
       (Some (Hex (mask 255 (shr 16 (m "__CODEGEARC_VERSION__")))))
       (Some (Dec (mask 65535 (m "__CODEGEARC_VERSION__")))) None);
   (D "__BORLANDC__",
     plain "Borland" (Some (Hex (shr 8 (m "__BORLANDC__"))))
       (Some (Hex (mask 255 (m "__BORLANDC__")))) None None);
   (D "__WATCOMC__" && (pp e "__WATCOMC__" <? 1200),
     plain "Watcom" (Some (Dec (c_div 100 (m "__WATCOMC__"))))
       (Some (Dec (c_rem 10 (c_div 10 (m "__WATCOMC__")))))
       (when (0 <? Z.rem (pp e "__WATCOMC__") 10) (Dec (c_rem 10 (m "__WATCOMC__")))) None);
   (D "__WATCOMC__",
     plain "OpenWatcom" (Some (Dec (c_div 100 (minus 1100 (m "__WATCOMC__")))))
       (Some (Dec (c_rem 10 (c_div 10 (m "__WATCOMC__")))))
       (when (0 <? Z.rem (pp e "__WATCOMC__") 10) (Dec (c_rem 10 (m "__WATCOMC__")))) None)].

Definition branches1 : list (bool * Info) :=
  (D "__COMO__",
    plain "Comeau" (Some (Dec (c_div 100 (m "__COMO_VERSION__"))))
      (Some (Dec (c_rem 100 (m "__COMO_VERSION__")))) None None)
  :: intel_to_watcom.

(** The next ones are shared with the C program too. *)
Definition nvhpc_to_fujitsu : list (bool * Info) :=
  [(D "__NVCOMPILER",
     plain "NVHPC" (Some (Dec (m "__NVCOMPILER_MAJOR__"))) (Some (Dec (m "__NVCOMPILER_MINOR__")))
       (when (D "__NVCOMPILER_PATCHLEVEL__") (Dec (m "__NVCOMPILER_PATCHLEVEL__"))) None);
   (D "__PGI",
     plain "PGI" (Some (Dec (m "__PGIC__"))) (Some (Dec (m "__PGIC_MINOR__")))
       (when (D "__PGIC_PATCHLEVEL__") (Dec (m "__PGIC_PATCHLEVEL__"))) None);
   (D "_CRAYC",
     plain "Cray" (Some (Dec (m "_RELEASE_MAJOR"))) (Some (Dec (m "_RELEASE_MINOR"))) None None);
   (D "__TI_COMPILER_VERSION__",
     let v := m "__TI_COMPILER_VERSION__" in
     plain "TI" (Some (Dec (c_div 1000000 v))) (Some (Dec (c_rem 1000 (c_div 1000 v))))
       (Some (Dec (c_rem 1000 v))) None);
   (D "__CLANG_FUJITSU",
     with_internal None (Some (text e "__clang_version__"))
       (plain "FujitsuClang" (Some (Dec (m "__FCC_major__"))) (Some (Dec (m "__FCC_minor__")))
         (Some (Dec (m "__FCC_patchlevel__"))) None));
   (D "__FUJITSU",
     let whole := D "__FCC_version__" in
     let parts := negb whole && D "__FCC_major__" in
     mkInfo "Fujitsu" None (when whole (text e "__FCC_version__"))
       (when parts (Dec (m "__FCC_major__"))) (when parts (Dec (m "__FCC_minor__")))
       (when parts (Dec (m "__FCC_patchlevel__"))) None
       (if D "__fcc_version" then Some (Dec (m "__fcc_version"))
        else when (D "__FCC_VERSION") (Dec (m "__FCC_VERSION")))
       None None None None)].

Definition branches2 : list (bool * Info) :=
  [(D "__SUNPRO_CC",
     let new := 20736 <=? pp e "__SUNPRO_CC" in
     plain "SunPro" (Some (Hex (shr (if new then 12 else 8) (m "__SUNPRO_CC"))))
       (Some (Hex (mask (if new then 255 else 15) (shr 4 (m "__SUNPRO_CC")))))
       (Some (Hex (mask 15 (m "__SUNPRO_CC")))) None);
   (D "__HP_aCC",
     plain "HP" (Some (Dec (c_div 10000 (m "__HP_aCC")))) (Some (Dec (c_rem 100 (c_div 100 (m "__HP_aCC")))))
       (Some (Dec (c_rem 100 (m "__HP_aCC")))) None);
   (D "__DECCXX",
     plain "Compaq" (Some (Dec (c_div 10000000 (m "__DECCXX_VER"))))
       (Some (Dec (c_rem 100 (c_div 100000 (m "__DECCXX_VER")))))
       (Some (Dec (c_rem 10000 (m "__DECCXX_VER")))) None);
   (D "__IBMCPP__" && D "__COMPILER_VER__", ibm "zOS");
   (D "__open_xl__" && D "__clang__",
     four "IBMClang" "__open_xl_version__" "__open_xl_release__" "__open_xl_modification__"
       "__open_xl_ptf_fix_level__");
   (D "__ibmxl__" && D "__clang__",
     four "XLClang" "__ibmxl_version__" "__ibmxl_release__" "__ibmxl_modification__"
       "__ibmxl_ptf_fix_level__");
   (D "__IBMCPP__" && negb (D "__COMPILER_VER__") && (800 <=? pp e "__IBMCPP__"), ibm "XL");
   (D "__IBMCPP__" && negb (D "__COMPILER_VER__") && (pp e "__IBMCPP__" <? 800), ibm "VisualAge")]
  ++ nvhpc_to_fujitsu.

Definition ghs : bool * Info :=
  (D "__ghs__",
    let g := D "__GHS_VERSION_NUMBER" in let v := m "__GHS_VERSION_NUMBER" in
    plain "GHS" (when g (Dec (c_div 100 v))) (when g (Dec (c_rem 10 (c_div 10 v))))
      (when g (Dec (c_rem 10 v))) None).

Definition armcc_to_lcc : list (bool * Info) :=
  [(D "__ARMCC_VERSION" && negb (D "__clang__"),
     let v := m "__ARMCC_VERSION" in
     let new := 1000000 <=? pp e "__ARMCC_VERSION" in
     plain "ARMCC" (Some (Dec (if new then c_div 1000000 v else c_div 100000 v)))
       (Some (Dec (if new then c_rem 100 (c_div 10000 v) else c_rem 10 (c_div 10000 v))))
       (Some (Dec (c_rem 10000 v))) None);
   (D "__clang__" && D "__apple_build_version__",
     with_simulate (when (D "_MSC_VER") "MSVC") msvc_major msvc_minor None
       (four "AppleClang" "__clang_major__" "__clang_minor__" "__clang_patchlevel__"
         "__apple_build_version__"));
   (D "__clang__" && D "__ARMCOMPILER_VERSION",
     let v := m "__ARMCOMPILER_VERSION" in
     with_internal (Some (Dec v)) None
       (plain "ARMClang" (Some (Dec (c_div 1000000 v))) (Some (Dec (c_rem 100 (c_div 10000 v))))
         (Some (Dec (c_rem 10000 v))) None));
   (D "__clang__",
     with_simulate (when (D "_MSC_VER") "MSVC") msvc_major msvc_minor None
       (plain "Clang" (Some (Dec (m "__clang_major__"))) (Some (Dec (m "__clang_minor__")))
         (Some (Dec (m "__clang_patchlevel__"))) None));
   (D "__LCC__" && (D "__GNUC__" || D "__GNUG__" || D "__MCST__"),
     let gnu := D "__GNUC__" && D "__GNUC_MINOR__" in
     with_simulate (when gnu "GNU") (when gnu (Dec (m "__GNUC__")))
       (when gnu (Dec (m "__GNUC_MINOR__")))
       (when (gnu && D "__GNUC_PATCHLEVEL__") (Dec (m "__GNUC_PATCHLEVEL__")))
       (plain "LCC" (Some (Dec (Some 1))) (when (D "__LCC__") (Dec (minus 100 (m "__LCC__"))))
         (when (D "__LCC_MINOR__") (Dec (m "__LCC_MINOR__"))) None))].

Definition msvc_to_iar : list (bool * Info) :=
  [(D "_MSC_VER",
     plain "MSVC" msvc_major msvc_minor
       (when (D "_MSC_FULL_VER")
         (Dec (c_rem (if 1400 <=? pp e "_MSC_VER" then 100000 else 10000) (m "_MSC_FULL_VER"))))
       (when (D "_MSC_BUILD") (Dec (m "_MSC_BUILD"))));
   (D "_ADI_COMPILER",
     let g := D "__VERSIONNUM__" in let v := m "__VERSIONNUM__" in
     plain "ADSP" (when g (Dec (mask 255 (shr 24 v)))) (when g (Dec (mask 255 (shr 16 v))))
       (when g (Dec (mask 255 (shr 8 v)))) (when g (Dec (mask 255 v))));
   (D "__IAR_SYSTEMS_ICC__" || D "__IAR_SYSTEMS_ICC",
     let v := m "__VER__" in
     let arm := D "__VER__" && D "__ICCARM__" in
     let other := D "__VER__" && any e ["__ICCAVR__"; "__ICCRX__"; "__ICCRH850__"; "__ICCRL78__";
       "__ICC430__"; "__ICCRISCV__"; "__ICCV850__"; "__ICC8051__"; "__ICCSTM8__"] in
     with_internal (when (arm || other) (Dec (m "__IAR_SYSTEMS_ICC__"))) None
       (plain "IAR"
         (if arm then Some (Dec (c_div 1000000 v)) else when other (Dec (c_div 100 v)))
         (if arm then Some (Dec (c_rem 1000 (c_div 1000 v)))
          else when other (Dec ((λ n, n - Z.quot n 100 * 100) <$> v)))
         (if arm then Some (Dec (c_rem 1000 v)) else when other (Dec (m "__SUBVERSION__"))) None))].

Definition branches3 : list (bool * Info) :=
  [ghs; (D "__SCO_VERSION__", plain "SCO" None None None None)]
  ++ armcc_to_lcc
  ++ [(D "__GNUC__" || D "__GNUG__",
     plain "GNU" (Some (Dec (if D "__GNUC__" then m "__GNUC__" else m "__GNUG__")))
       (when (D "__GNUC_MINOR__") (Dec (m "__GNUC_MINOR__")))
       (when (D "__GNUC_PATCHLEVEL__") (Dec (m "__GNUC_PATCHLEVEL__"))) None)]
  ++ msvc_to_iar
  ++ [(D "__hpux" || D "__hpua", plain "HP" None None None None)].

Fixpoint first_branch {A} (l : list (bool * A)) (d : A) : A :=
  match l with
  | [] => d
  | (c, a) :: l' => if c then a else first_branch l' d
  end.

Definition compiler_info : Info :=
  first_branch (branches1 ++ branches2 ++ branches3) (plain "" None None None None).

Definition named (n : list string * string) : bool * string := (any e n.1, n.2).

Definition PLATFORM_ID : string :=
  first_branch ((named <$>
    [(["__linux"; "__linux__"; "linux"], "Linux"); (["__MSYS__"], "MSYS"); (["__CYGWIN__"], "Cygwin");
     (["__MINGW32__"], "MinGW"); (["__APPLE__"], "Darwin");
     (["_WIN32"; "__WIN32__"; "WIN32"], "Windows"); (["__FreeBSD__"; "__FreeBSD"], "FreeBSD");
     (["__NetBSD__"; "__NetBSD"], "NetBSD"); (["__OpenBSD__"; "__OPENBSD"], "OpenBSD");
     (["__sun"; "sun"], "SunOS"); (["_AIX"; "__AIX"; "__AIX__"; "__aix"; "__aix__"], "AIX");
     (["__hpux"; "__hpux__"], "HP-UX"); (["__HAIKU__"], "Haiku");
     (["__BeOS"; "__BEOS__"; "_BEOS"], "BeOS"); (["__QNX__"; "__QNXNTO__"], "QNX");
     (["__tru64"; "_tru64"; "__TRU64__"], "Tru64"); (["__riscos"; "__riscos__"], "RISCos");
     (["__sinix"; "__sinix__"; "__SINIX__"], "SINIX"); (["__UNIX_SV__"], "UNIX_SV");
     (["__bsdos__"], "BSDOS"); (["_MPRAS"; "MPRAS"], "MP-RAS"); (["__osf"; "__osf__"], "OSF1");
     (["_SCO_SV"; "SCO_SV"; "sco_sv"], "SCO_SV"); (["__ultrix"; "__ultrix__"; "_ULTRIX"], "ULTRIX");
     (["__XENIX__"; "_XENIX"; "XENIX"], "Xenix")])
   ++ [(D "__WATCOMC__",
         first_branch (named <$>
           [(["__LINUX__"], "Linux"); (["__DOS__"], "DOS"); (["__OS2__"], "OS2");
            (["__WINDOWS__"], "Windows3x"); (["__VXWORKS__"], "VxWorks")]) "");
       (D "__INTEGRITY", if D "INT_178B" then "Integrity178" else "Integrity");
       (D "_ADI_COMPILER", "ADSP")]) "".

Definition ARCHITECTURE_ID : string :=
  first_branch
    [(D "_WIN32" && D "_MSC_VER",
       first_branch (named <$>
         [(["_M_IA64"], "IA64"); (["_M_ARM64EC"], "ARM64EC"); (["_M_X64"; "_M_AMD64"], "x64");
          (["_M_IX86"], "X86"); (["_M_ARM64"], "ARM64");
          (["_M_ARM"], if pp e "_M_ARM" =? 4 then "ARMV4I" else if pp e "_M_ARM" =? 5 then "ARMV5I"
                       else String.app "ARMV" (stringify "_M_ARM"));
          (["_M_MIPS"], "MIPS"); (["_M_SH"], "SHx")]) "");
     (D "__WATCOMC__", first_branch (named <$> [(["_M_I86"], "I86"); (["_M_IX86"], "X86")]) "");
     (D "__IAR_SYSTEMS_ICC__" || D "__IAR_SYSTEMS_ICC",
       first_branch (named <$>
         [(["__ICCARM__"], "ARM"); (["__ICCRX__"], "RX"); (["__ICCRH850__"], "RH850");
          (["__ICCRL78__"], "RL78"); (["__ICCRISCV__"], "RISCV"); (["__ICCAVR__"], "AVR");
          (["__ICC430__"], "MSP430"); (["__ICCV850__"], "V850"); (["__ICC8051__"], "8051");
          (["__ICCSTM8__"], "STM8")]) "");
     (D "__ghs__",
       first_branch (named <$>
         [(["__PPC64__"], "PPC64"); (["__ppc__"], "PPC"); (["__ARM__"], "ARM");
          (["__x86_64__"], "x64"); (["__i386__"], "X86")]) "");
     (D "__TI_COMPILER_VERSION__",
       first_branch (named <$>
         [(["__TI_ARM__"], "ARM"); (["__MSP430__"], "MSP430"); (["__TMS320C28XX__"], "TMS320C28x");
          (["__TMS320C6X__"; "_TMS320C6X"], "TMS320C6x")]) "");
     (D "__ADSPSHARC__", "SHARC"); (D "__ADSPBLACKFIN__", "Blackfin")] "".

(** ** The strings of the object file *)

Definition chars (s : string) : list Z :=
  (λ a, Z.of_N (Ascii.N_of_ascii a)) <$> String.list_ascii_of_string s.

(** ["INFO" ":" "label[" body "]"], with its terminator. *)
Definition info (label : string) (body : list Z) : list Z :=
  chars "INFO:" ++ chars label ++ chars "[" ++ body ++ chars "]" ++ [0].

(** The nested [#ifdef]s of a version: a component counts only if the ones
    before it are defined. *)
Fixpoint version_body (components : list (option Component)) : option (list Z) :=
  match components with
  | Some c :: rest =>
      digits ← c;
      match rest with
      | Some _ :: _ => tail ← version_body rest; Some (digits ++ chars "." ++ tail)
      | _ => Some digits
      end
  | _ => Some []
  end.

(** The arrays: [None] is one that is not declared, [Some None] one that does
    not compile. *)
Definition info_version (i : Info) : option (option (list Z)) :=
  match COMPILER_VERSION i, COMPILER_VERSION_MAJOR i with
  | Some v, _ => Some (info "compiler_version" <$> (chars <$> v))
  | None, Some _ =>
      Some (info "compiler_version" <$>
        version_body [COMPILER_VERSION_MAJOR i; COMPILER_VERSION_MINOR i;
                      COMPILER_VERSION_PATCH i; COMPILER_VERSION_TWEAK i])
  | None, None => None
  end.

Definition info_version_internal (i : Info) : option (option (list Z)) :=
  match COMPILER_VERSION_INTERNAL i, COMPILER_VERSION_INTERNAL_STR i with
  | Some c, _ => Some (info "compiler_version_internal" <$> c)
  | None, Some s => Some (info "compiler_version_internal" <$> (chars <$> s))
  | None, None => None
  end.

Definition info_simulate_version (i : Info) : option (option (list Z)) :=
  (λ _, info "simulate_version" <$>
     version_body [SIMULATE_VERSION_MAJOR i; SIMULATE_VERSION_MINOR i; SIMULATE_VERSION_PATCH i])
  <$> SIMULATE_VERSION_MAJOR i.

Definition info_compiler (i : Info) : list Z := info "compiler" (chars (COMPILER_ID i)).
Definition info_simulate (i : Info) : option (list Z) :=
  (λ s, info "simulate" (chars s)) <$> SIMULATE_ID i.
Definition info_cray : list Z := info "compiler_wrapper" (chars "CrayPrgEnv").
Definition info_platform : list Z := info "platform" (chars PLATFORM_ID).
Definition info_arch : list Z := info "arch" (chars ARCHITECTURE_ID).

Definition CXX_STD : Z :=
  if D "__INTEL_COMPILER" && D "_MSVC_LANG" && (pp e "_MSVC_LANG" <? 201403) then
    if D "__INTEL_CXX11_MODE__" then
      if D "__cpp_aggregate_nsdmi" then 201402 else 201103
    else 199711
  else if D "_MSC_VER" && D "_MSVC_LANG" then pp e "_MSVC_LANG"
  else pp e "__cplusplus".

Definition standard_default (cxx_std : Z) : Z :=
  if 202002 <? cxx_std then 23
  else if 201703 <? cxx_std then 20
  else if 201703 <=? cxx_std then 17
  else if 201402 <=? cxx_std then 14
  else if 201103 <=? cxx_std then 11
  else 98.

Definition info_language_standard_default : list Z :=
  info "standard_default" (chars (pretty (standard_default CXX_STD))).

Definition info_language_extensions_default : list Z :=
  info "extensions_default" (chars
    (if any e ["__clang__"; "__GNUC__"; "__xlC__"; "__TI_COMPILER_VERSION__"]
        && negb (D "__STRICT_ANSI__") then "ON" else "OFF")).

(** ** [main] *)

(** The arrays [main] reads, if the program compiles, with those of each
    language in their places. *)
Definition main_arrays (ids defaults : list (list Z)) (i : Info) : option (list (list Z)) :=
  version ← match info_version i with Some a => Some <$> a | None => Some None end;
  internal ← match info_version_internal i with Some a => Some <$> a | None => Some None end;
  simulate ← match info_simulate_version i with Some a => Some <$> a | None => Some None end;
  Some (ids
    ++ (if COMPILER_VERSION_MAJOR i is Some _ then option_list version else [])
    ++ (if COMPILER_VERSION_INTERNAL i is Some _ then option_list internal else [])
    ++ option_list (info_simulate i)
    ++ option_list simulate
    ++ (if D "__CRAYXT_COMPUTE_LINUX_TARGET" then [info_cray] else [])
    ++ defaults).

Definition required_arrays (i : Info) : option (list (list Z)) :=
  main_arrays [info_compiler i; info_platform]
    [info_language_standard_default; info_language_extensions_default] i.

(** [require += a[argc]], undefined outside the array. *)
Fixpoint require (argc : nat) (arrays : list (list Z)) : option Z :=
  match arrays with
  | [] => Some 0
  | a :: arrays' => c ← a !! argc; r ← require argc arrays'; Some (c + r)
  end.

(** The [#error] of a C compiler. *)
Definition selected_for_cxx : bool := D "__cplusplus".

Definition id_main (argc : nat) : option Z :=
  if selected_for_cxx then arrays ← required_arrays compiler_info; require argc arrays
  else None.
End branches.

(** ** Theorems *)

(** Reading digit characters back, in base [b]. *)
Definition undigits (b : Z) (l : list Z) : Z := foldl (λ acc c, b * acc + (c - 48)) 0 l.

Lemma quot_step n d d' :
  0 <= n -> 0 < d -> d' = d * 10 -> Z.quot n d = 10 * Z.quot n d' + Z.rem (Z.quot n d) 10.
Proof.
  intros Hn Hd ->. rewrite !Z.quot_div_nonneg by lia.
  assert (0 <= n / d) by (apply Z.div_pos; lia).
  rewrite Z.rem_mod_nonneg by lia. rewrite <-Z.div_div by lia.
  apply Z.div_mod. lia.
Qed.

Lemma shift_step n k k' : 0 <= n -> 0 <= k -> k' = k + 4 ->
  Z.shiftr n k = 16 * Z.shiftr n k' + Z.land (Z.shiftr n k) 15.
Proof.
  intros Hn Hk ->. rewrite <-Z.shiftr_shiftr by lia.
  change 15 with (Z.ones 4). rewrite Z.land_ones by lia.
  rewrite (Z.shiftr_div_pow2 (Z.shiftr n k)) by lia. change (2 ^ 4) with 16.
  apply Z.div_mod. lia.
Qed.

(** Treats the values of an operation as unknowns. *)
Ltac abstract_terms op :=
  repeat match goal with
  | H : context [op ?a ?b] |- _ => let r := fresh "r" in set (r := op a b) in *; clearbody r
  end.

(** C39: version numbers below 10^8 are read back from the characters of [DEC],
    and 32-bit ones from those of [HEX]; [DEC] uses decimal digits only, while
    [HEX] goes on after 9 with the characters behind it in the code. *)
Theorem digits_roundtrip n :
  (0 <= n < 10 ^ 8 -> undigits 10 (DEC n) = n)
  ∧ (0 <= n < 2 ^ 32 -> undigits 16 (HEX n) = n)
  ∧ (0 <= n -> Forall (λ c, 48 <= c <= 57) (DEC n) ∧ Forall (λ c, 48 <= c <= 63) (HEX n)).
Proof.
  split_and!.
  - intros Hn. unfold undigits, DEC. cbn [foldl].
    pose proof (quot_step n 1 10 ltac:(lia) ltac:(lia) eq_refl). pose proof (quot_step n 10 100 ltac:(lia) ltac:(lia) eq_refl).
    pose proof (quot_step n 100 1000 ltac:(lia) ltac:(lia) eq_refl). pose proof (quot_step n 1000 10000 ltac:(lia) ltac:(lia) eq_refl).
    pose proof (quot_step n 10000 100000 ltac:(lia) ltac:(lia) eq_refl).
    pose proof (quot_step n 100000 1000000 ltac:(lia) ltac:(lia) eq_refl).
    pose proof (quot_step n 1000000 10000000 ltac:(lia) ltac:(lia) eq_refl).
    pose proof (quot_step n 10000000 100000000 ltac:(lia) ltac:(lia) eq_refl).
    assert (Hz : Z.quot n 100000000 = 0) by (apply Z.quot_small; lia).
    rewrite Z.quot_1_r in *. rewrite Hz in *. clear Hz Hn.
    abstract_terms Z.rem. abstract_terms Z.quot. lia.
  - intros Hn. unfold undigits, HEX. cbn [foldl].
    pose proof (shift_step n 0 4 ltac:(lia) ltac:(lia) eq_refl). pose proof (shift_step n 4 8 ltac:(lia) ltac:(lia) eq_refl).
    pose proof (shift_step n 8 12 ltac:(lia) ltac:(lia) eq_refl). pose proof (shift_step n 12 16 ltac:(lia) ltac:(lia) eq_refl).
    pose proof (shift_step n 16 20 ltac:(lia) ltac:(lia) eq_refl). pose proof (shift_step n 20 24 ltac:(lia) ltac:(lia) eq_refl).
    pose proof (shift_step n 24 28 ltac:(lia) ltac:(lia) eq_refl). pose proof (shift_step n 28 32 ltac:(lia) ltac:(lia) eq_refl).
    assert (Hz : Z.shiftr n 32 = 0).
    { rewrite Z.shiftr_div_pow2 by lia. apply Z.div_small. lia. }
    rewrite Z.shiftr_0_r in *. rewrite Hz in *. clear Hz Hn.
    abstract_terms Z.land. abstract_terms Z.shiftr. lia.
  - intros Hn. split.
    + assert (Hq : ∀ d, 0 < d -> 0 <= Z.rem (Z.quot n d) 10 < 10).
      { intros d Hd. apply Z.rem_bound_pos; [apply Z.quot_pos; lia|lia]. }
      pose proof (Hq 1 ltac:(lia)) as H1. rewrite Z.quot_1_r in H1.
      pose proof (Hq 10000000 ltac:(lia)). pose proof (Hq 1000000 ltac:(lia)).
      pose proof (Hq 100000 ltac:(lia)). pose proof (Hq 10000 ltac:(lia)).
      pose proof (Hq 1000 ltac:(lia)). pose proof (Hq 100 ltac:(lia)). pose proof (Hq 10 ltac:(lia)).
      unfold DEC. repeat (apply Forall_cons; split; [cbv beta; lia|]). constructor.
    + assert (Hq : ∀ z, 0 <= Z.land z 15 < 16).
      { intros z. change 15 with (Z.ones 4). rewrite Z.land_ones by lia. apply Z.mod_pos_bound. lia. }
      pose proof (Hq (Z.shiftr n 28)). pose proof (Hq (Z.shiftr n 24)).
      pose proof (Hq (Z.shiftr n 20)). pose proof (Hq (Z.shiftr n 16)).
      pose proof (Hq (Z.shiftr n 12)). pose proof (Hq (Z.shiftr n 8)).
      pose proof (Hq (Z.shiftr n 4)). pose proof (Hq n).
      unfold HEX. repeat (apply Forall_cons; split; [cbv beta; lia|]). constructor.
Qed.

(** *** The arguments of [main] *)

Lemma length_info label body : (String.length label + 7 ≤ length (info label body))%nat.
Proof.
  unfold info, chars. rewrite !length_app, !length_fmap.
  assert (Hl : ∀ s, length (String.list_ascii_of_string s) = String.length s).
  { induction s; simpl; congruence. }
  rewrite !Hl. simpl. lia.
Qed.

Lemma require_total argc l :
  Forall (λ a, (argc < length a)%nat) l → is_Some (require argc l).
Proof.
  induction 1 as [|a l Ha Hl [r IH]]; simpl; [eauto|].
  apply lookup_lt_is_Some in Ha as [c ->]. simpl. rewrite IH. simpl. eauto.
Qed.

Lemma info_long b label body : (b ≤ String.length label + 7)%nat → (b ≤ length (info label body))%nat.
Proof. intros H. pose proof (length_info label body). lia. Qed.

Lemma main_arrays_long e b ids defaults i l :
  (b ≤ 15)%nat → Forall (λ a, (b ≤ length a)%nat) ids → Forall (λ a, (b ≤ length a)%nat) defaults →
  main_arrays e ids defaults i = Some l → Forall (λ a, (b ≤ length a)%nat) l.
Proof.
  intros Hb Hids Hdef.
  assert (Ho : ∀ label (o : option (list Z)) v, (8 ≤ String.length label)%nat →
    info label <$> o = Some v → (b ≤ length v)%nat).
  { intros label [body|] v H; simpl; [intros [= <-]; apply info_long; lia|done]. }
  unfold main_arrays. intros H.
  assert (Hv : ∀ o, info_version i = Some (Some o) → (b ≤ length o)%nat).
  { unfold info_version. intros o Hx. repeat case_match; simplify_eq/=; (eapply Ho; [|eassumption]; simpl; lia). }
  assert (Hn : ∀ o, info_version_internal i = Some (Some o) → (b ≤ length o)%nat).
  { unfold info_version_internal. intros o Hx. repeat case_match; simplify_eq/=; (eapply Ho; [|eassumption]; simpl; lia). }
  assert (Hs : ∀ o, info_simulate_version i = Some (Some o) → (b ≤ length o)%nat).
  { unfold info_simulate_version. intros o Hx. destruct (SIMULATE_VERSION_MAJOR i) as [c|] eqn:E; simpl in Hx; [|done].
    injection Hx as Hx. eapply Ho; [|exact Hx]. simpl. lia. }
  apply bind_Some in H as (ver & Hver & H). apply bind_Some in H as (int & Hint & H).
  apply bind_Some in H as (sim & Hsim & H). injection H as <-.
  assert (Hlist : ∀ (x : option (option (list Z))) o,
    match x with Some a => Some <$> a | None => Some None end = Some o →
    (∀ o, x = Some (Some o) → (b ≤ length o)%nat) → Forall (λ a, (b ≤ length a)%nat) (option_list o)).
  { intros [[a|]|] o Hx Hall; simpl in Hx; simplify_eq; simpl; auto. }
  apply Forall_app. split; [done|]. repeat (apply Forall_app; split); [..|done].
  - destruct (COMPILER_VERSION_MAJOR i); [by eapply Hlist|constructor].
  - destruct (COMPILER_VERSION_INTERNAL i); [by eapply Hlist|constructor].
  - unfold info_simulate. destruct (SIMULATE_ID i); simpl; [|constructor].
    apply Forall_cons; split; [apply info_long; simpl; lia|constructor].
  - by eapply Hlist.
  - destruct (defined e _); [|constructor].
    apply Forall_cons; split; [apply info_long; simpl; lia|constructor].
Qed.

(** C40: whatever a C++ compiler predefines, if the program compiles then [main]
    reads inside its arrays for every argument count below 15, one being the usual
    one. *)
Theorem id_main_bounds e argc :
  defined e "__cplusplus" = true → is_Some (required_arrays e (compiler_info e)) →
  (argc < 15)%nat → is_Some (id_main e argc).
Proof.
  intros Hcpp [l Hl] Hargc. unfold id_main, selected_for_cxx. rewrite Hcpp, Hl. simpl. apply require_total.
  eapply Forall_impl; [eapply (main_arrays_long e 15); [done| | |exact Hl]|simpl; lia].
  all: repeat (apply Forall_cons; split; [apply info_long; simpl; lia|]); constructor.
Qed.

(** ** A compiler *)

Definition gcc_linux : Env :=
  {["__GNUC__" := MInt 11; "__GNUC_MINOR__" := MInt 4; "__GNUC_PATCHLEVEL__" := MInt 0;
    "__linux__" := MInt 1; "__cplusplus" := MInt 201703]}.

Example gcc_linux_strings :
  COMPILER_ID (compiler_info gcc_linux) = "GNU"
  ∧ info_platform gcc_linux = chars "INFO:platform[Linux]" ++ [0]
  ∧ info_version (compiler_info gcc_linux)
    = Some (Some (chars "INFO:compiler_version[00000011.00000004.00000000]" ++ [0]))
  ∧ info_language_standard_default gcc_linux = chars "INFO:standard_default[17]" ++ [0].
Proof. vm_compute. done. Qed.

Lemma id_main_bounds_witness : is_Some (id_main gcc_linux 1).
Proof.
  apply id_main_bounds.
  - reflexivity.
  - eexists. vm_compute. reflexivity.
  - lia.
Defined.

Lemma digits_roundtrip_witness : undigits 10 (DEC 20230131) = 20230131 ∧ undigits 16 (HEX 66051) = 66051.
Proof.
  split.
  - apply (proj1 (digits_roundtrip 20230131)). lia.
  - apply (proj1 (proj2 (digits_roundtrip 66051))). lia.
Defined.
