(* ===== verification/CompilerIdC.v ===== *)
(** * The C compiler identification program

    [client/build/CMakeFiles/3.24.1/CompilerIdC/CMakeCCompilerId.c], the program
    of CompilerId.v for C compilers: some vendors predefine another macro for
    each language, a few compilers know only C, the standard is told
    otherwise, and [main] also reads the architecture.  Where the two files have
    the same text (lines 24-144, 429-769 and 793-800 here) the definitions of
    CompilerId.v are used as they are, on the macros of the C compiler. *)

From stdpp Require Import base gmap strings list pretty.
From Stdlib Require Import Lia.
From S2P Require Import Prelude.
From S2P Require Import CompilerId.
#[local] Open Scope Z_scope.

Section program.
Context (e : Env).
Abbreviation D := (defined e).
Abbreviation m := (mac e).

(** __IBMC__ = VRP *)
Definition c_ibm (id : string) : Info :=
  plain id (Some (Dec (c_div 100 (m "__IBMC__")))) (Some (Dec (c_rem 10 (c_div 10 (m "__IBMC__")))))
    (Some (Dec (c_rem 10 (m "__IBMC__")))) None.

(** Lines 146-260; those before, 24-144, are [intel_to_watcom]. *)
Definition c_branches2 : list (bool * Info) :=
  [(D "__SUNPRO_C",
     let new := 20736 <=? pp e "__SUNPRO_C" in
     plain "SunPro" (Some (Hex (shr (if new then 12 else 8) (m "__SUNPRO_C"))))
       (Some (Hex (mask (if new then 255 else 15) (shr 4 (m "__SUNPRO_C")))))
       (Some (Hex (mask 15 (m "__SUNPRO_C")))) None);
   (D "__HP_cc",
     plain "HP" (Some (Dec (c_div 10000 (m "__HP_cc")))) (Some (Dec (c_rem 100 (c_div 100 (m "__HP_cc")))))
       (Some (Dec (c_rem 100 (m "__HP_cc")))) None);
   (D "__DECC",
     plain "Compaq" (Some (Dec (c_div 10000000 (m "__DECC_VER"))))
       (Some (Dec (c_rem 100 (c_div 100000 (m "__DECC_VER")))))
       (Some (Dec (c_rem 10000 (m "__DECC_VER")))) None);
   (D "__IBMC__" && D "__COMPILER_VER__", c_ibm "zOS");
   (D "__open_xl__" && D "__clang__",
     four e "IBMClang" "__open_xl_version__" "__open_xl_release__" "__open_xl_modification__"
       "__open_xl_ptf_fix_level__");
   (D "__ibmxl__" && D "__clang__",
     four e "XLClang" "__ibmxl_version__" "__ibmxl_release__" "__ibmxl_modification__"
       "__ibmxl_ptf_fix_level__");
   (D "__IBMC__" && negb (D "__COMPILER_VER__") && (800 <=? pp e "__IBMC__"), c_ibm "XL");
   (D "__IBMC__" && negb (D "__COMPILER_VER__") && (pp e "__IBMC__" <? 800), c_ibm "VisualAge")]
  ++ nvhpc_to_fujitsu e.

Definition c_branches3 : list (bool * Info) :=
  [ghs e; (D "__TINYC__", plain "TinyCC" None None None None);
   (D "__BCC__", plain "Bruce" None None None None);
   (D "__SCO_VERSION__", plain "SCO" None None None None)]
  ++ armcc_to_lcc e
  ++ [(D "__GNUC__",
        plain "GNU" (Some (Dec (m "__GNUC__")))
          (when (D "__GNUC_MINOR__") (Dec (m "__GNUC_MINOR__")))
          (when (D "__GNUC_PATCHLEVEL__") (Dec (m "__GNUC_PATCHLEVEL__"))) None)]
  ++ msvc_to_iar e
  ++ [(D "__SDCC_VERSION_MAJOR" || D "SDCC",
        if D "__SDCC_VERSION_MAJOR"
        then plain "SDCC" (Some (Dec (m "__SDCC_VERSION_MAJOR")))
               (Some (Dec (m "__SDCC_VERSION_MINOR"))) (Some (Dec (m "__SDCC_VERSION_PATCH"))) None
        else plain "SDCC" (Some (Dec (c_div 100 (m "SDCC"))))
               (Some (Dec (c_rem 10 (c_div 10 (m "SDCC"))))) (Some (Dec (c_rem 10 (m "SDCC")))) None);
      (D "__hpux" || D "__hpua", plain "HP" None None None None)].

Definition c_compiler_info : Info :=
  first_branch (intel_to_watcom e ++ c_branches2 ++ c_branches3) (plain "" None None None None).

Definition C_VERSION : string :=
  if negb (D "__STDC__") && negb (D "__clang__") then
    if D "_MSC_VER" || D "__ibmxl__" || D "__IBMC__" then "90" else ""
  else if 201710 <? pp e "__STDC_VERSION__" then "23"
  else if 201710 <=? pp e "__STDC_VERSION__" then "17"
  else if 201000 <=? pp e "__STDC_VERSION__" then "11"
  else if 199901 <=? pp e "__STDC_VERSION__" then "99"
  else "90".

Definition c_info_language_standard_default : list Z :=
  info "standard_default" (chars C_VERSION).

(** ** [main] *)

Definition c_required_arrays (i : Info) : option (list (list Z)) :=
  main_arrays e [info_compiler i; info_platform e; info_arch e]
    [c_info_language_standard_default; info_language_extensions_default e] i.

(** The [#error] of a C++ compiler. *)
Definition selected_for_c : bool := negb (D "__cplusplus").
Definition ID_VOID_MAIN : bool := D "__18CXX".

(** [Some None] is the [void main() {}] of compilers that want one. *)
Definition c_id_main (argc : nat) : option (option Z) :=
  if negb selected_for_c then None
  else
    arrays ← c_required_arrays c_compiler_info;
    if ID_VOID_MAIN then Some None else Some <$> require argc arrays.
End program.

(** ** Theorems *)

(** Two compilers of one vendor differ in what they predefine for their
    language. *)
Definition own_macros : list string := ["__cplusplus"; "__GNUG__"; "__STDC__"; "__STDC_VERSION__"].

(** The macros by which some vendors tell one language, and the compilers of
    one language only. *)
Definition vendor_macros : list string :=
  ["__COMO__"; "__SUNPRO_C"; "__SUNPRO_CC"; "__HP_cc"; "__HP_aCC"; "__DECC"; "__DECCXX";
   "__IBMC__"; "__IBMCPP__"; "__TINYC__"; "__BCC__"; "__SDCC_VERSION_MAJOR"; "SDCC"].

(** The C compiler [e] and the C++ compiler [e'] of one vendor. *)
Record siblings (e e' : Env) : Prop := mkSiblings {
  sib_c : selected_for_c e = true;
  sib_cxx : selected_for_cxx e' = true;
  sib_same x : x ∉ own_macros → e' !! x = e !! x;
  sib_gnu : e !! "__GNUC__" = None → e !! "__GNUG__" = None ∧ e' !! "__GNUG__" = None;
  sib_vendor : Forall (λ x, e !! x = None) vendor_macros;
}.

Lemma first_branch_app {A} (l1 l2 : list (bool * A)) d :
  first_branch (l1 ++ l2) d = first_branch l1 (first_branch l2 d).
Proof. induction l1 as [|[[] a] l1 IH]; simpl; auto. Qed.

Lemma undefined_macro e x : e !! x = None → defined e x = false.
Proof. unfold defined. intros ->. done. Qed.

(** Whether the arrays of [main] compile depends on the version branches only. *)
Lemma main_arrays_compile e e' ids ids' defaults defaults' i :
  is_Some (main_arrays e ids defaults i) ↔ is_Some (main_arrays e' ids' defaults' i).
Proof.
  unfold main_arrays.
  destruct (info_version i) as [[]|]; simpl;
    destruct (info_version_internal i) as [[]|]; simpl;
    destruct (info_simulate_version i) as [[]|]; simpl;
    split; intros [? ?]; try discriminate; eexists; reflexivity.
Qed.

Section siblings.
Context (e e' : Env) (H : siblings e e').

Lemma same_defined x : x ∉ own_macros → defined e' x = defined e x.
Proof using H. intros Hx. unfold defined. by rewrite (sib_same _ _ H x Hx). Qed.
Lemma same_pp x : x ∉ own_macros → pp e' x = pp e x.
Proof using H. intros Hx. unfold pp. by rewrite (sib_same _ _ H x Hx). Qed.
Lemma same_mac x : x ∉ own_macros → mac e' x = mac e x.
Proof using H. intros Hx. unfold mac. by rewrite (sib_same _ _ H x Hx). Qed.
Lemma same_text x : x ∉ own_macros → text e' x = text e x.
Proof using H. intros Hx. unfold text. by rewrite (sib_same _ _ H x Hx). Qed.

Ltac not_own := apply (bool_decide_unpack _); vm_compute; exact I.
Ltac same_macros :=
  unfold any; cbn [existsb];
  repeat match goal with
  | |- context [defined e' ?x] => rewrite (same_defined x) by not_own
  | |- context [pp e' ?x] => rewrite (same_pp x) by not_own
  | |- context [mac e' ?x] => rewrite (same_mac x) by not_own
  | |- context [text e' ?x] => rewrite (same_text x) by not_own
  end.

Lemma same_PLATFORM_ID : PLATFORM_ID e' = PLATFORM_ID e.
Proof using H.
  unfold PLATFORM_ID, named. cbn [fmap list_fmap fst snd app]. by same_macros.
Qed.

Lemma same_extensions :
  info_language_extensions_default e' = info_language_extensions_default e.
Proof using H. unfold info_language_extensions_default. by same_macros. Qed.

(** [__GNUG__] is read where [__GNUC__] is not defined. *)
Lemma same_gnug : defined e "__GNUC__" = false →
  defined e "__GNUG__" = false ∧ defined e' "__GNUG__" = false.
Proof using H.
  unfold defined. intros Hn%bool_decide_eq_false.
  destruct (sib_gnu _ _ H) as [-> ->]; [|done].
  destruct (e !! _); [|done]. exfalso. apply Hn. by eexists.
Qed.

Lemma same_intel_to_watcom : intel_to_watcom e' = intel_to_watcom e.
Proof using H.
  unfold intel_to_watcom, intel, intel_llvm, intel_simulate, msvc_major, msvc_minor.
  same_macros. destruct (defined e "__GNUC__") eqn:E; [done|].
  by destruct (same_gnug E) as [-> ->].
Qed.

Lemma same_nvhpc_to_fujitsu : nvhpc_to_fujitsu e' = nvhpc_to_fujitsu e.
Proof using H. unfold nvhpc_to_fujitsu. by same_macros. Qed.

Lemma same_armcc_to_lcc : armcc_to_lcc e' = armcc_to_lcc e.
Proof using H.
  unfold armcc_to_lcc, msvc_major, msvc_minor, four.
  same_macros. destruct (defined e "__GNUC__") eqn:E; [done|].
  by destruct (same_gnug E) as [-> ->].
Qed.

Lemma same_msvc_to_iar : msvc_to_iar e' = msvc_to_iar e.
Proof using H. unfold msvc_to_iar, msvc_major, msvc_minor. by same_macros. Qed.

Lemma no_vendor_macro : Forall (λ x, defined e x = false) vendor_macros.
Proof using H. eapply Forall_impl; [exact (sib_vendor _ _ H)|]. exact (undefined_macro e). Qed.

Lemma same_compiler_info : c_compiler_info e = compiler_info e'.
Proof using H.
  unfold c_compiler_info, compiler_info, c_branches2, c_branches3, branches1, branches2, branches3.
  rewrite same_intel_to_watcom, same_nvhpc_to_fujitsu, same_armcc_to_lcc, same_msvc_to_iar.
  rewrite !first_branch_app. cbn [first_branch]. unfold ghs, four. same_macros.
  pose proof no_vendor_macro as Hd. unfold vendor_macros in Hd.
  repeat match goal with
  | H : Forall _ (_ :: _) |- _ => apply Forall_cons in H as [? H]
  end. clear Hd.
  repeat match goal with V : defined e _ = false |- _ => rewrite !V; clear V end.
  cbn [andb orb]. destruct (defined e "__GNUC__") eqn:E; [done|].
  by destruct (same_gnug E) as [_ ->].
Qed.
End siblings.


(** The program reads inside its arrays for every argument count below 11. *)
Lemma c_id_main_bounds e argc :
  defined e "__cplusplus" = false → is_Some (c_required_arrays e (c_compiler_info e)) →
  (argc < 11)%nat → is_Some (c_id_main e argc).
Proof.
  intros Hcpp [l Hl] Hargc. unfold c_id_main, selected_for_c.
  rewrite Hcpp, Hl. simpl. destruct (ID_VOID_MAIN e); [by eexists|].
  destruct (require_total argc l) as [z ->]; [|by eexists].
  eapply Forall_impl; [eapply (main_arrays_long e 11); [lia| | |exact Hl]|simpl; lia].
  all: repeat (apply Forall_cons; split; [apply info_long; simpl; lia|]); constructor.
Qed.

(** No compiler takes both programs for its own. *)
Lemma one_language e argc argc' : id_main e argc = None ∨ c_id_main e argc' = None.
Proof.
  unfold id_main, c_id_main, selected_for_cxx, selected_for_c.
  destruct (defined e "__cplusplus"); [by right|by left].
Qed.

(** ** Two compilers *)

Definition gnu_linux : Env :=
  {["__GNUC__" := MInt 11; "__GNUC_MINOR__" := MInt 4; "__linux__" := MInt 1;
    "__x86_64__" := MInt 1]}.
Definition gcc_c_linux : Env :=
  <["__STDC__" := MInt 1]> (<["__STDC_VERSION__" := MInt 201710]> gnu_linux).
Definition gxx_linux : Env :=
  <["__cplusplus" := MInt 201703]> (<["__GNUG__" := MInt 11]> (<["__STDC__" := MInt 1]> gnu_linux)).

Lemma gcc_and_gxx : siblings gcc_c_linux gxx_linux.
Proof.
  constructor; [reflexivity|reflexivity| | |].
  - intros x Hx. unfold own_macros in Hx. unfold gcc_c_linux, gxx_linux.
    rewrite !not_elem_of_cons in Hx. destruct Hx as (?&?&?&?&_).
    by rewrite ?lookup_insert_ne by done.
  - discriminate.
  - repeat constructor; vm_compute; reflexivity.
Qed.


(** The macros matter: TinyCC, a C compiler only, predefines the GNU ones too. *)
Example tinycc_is_not_gnu :
  COMPILER_ID (c_compiler_info (<["__TINYC__" := MInt 927]> gcc_c_linux)) = "TinyCC"
  ∧ COMPILER_ID (compiler_info (<["__TINYC__" := MInt 927]> gxx_linux)) = "GNU".
Proof. vm_compute. done. Qed.

Lemma c_id_main_bounds_witness : is_Some (c_id_main gcc_c_linux 1).
Proof.
  apply c_id_main_bounds.
  - reflexivity.
  - eexists. vm_compute. reflexivity.
  - lia.
Defined.
