(* ===== verification/TypeSize.v ===== *)
(** * The type size program of the client's build tree

    [client/build/CMakeFiles/CheckTypeSize/OFF64_T.c]: the size of [off64_t] as
    digits in a string of the object file, with the architecture it holds for.
    The size is a parameter: [None] where the system headers have no such type
    and the program does not compile. *)

From stdpp Require Import base gmap strings list pretty.
From Stdlib Require Import Lia.
From S2P Require Import Prelude.
From S2P Require Import CompilerId.
#[local] Open Scope Z_scope.

Section program.
Context (e : Env) (sizeof_off64_t : option Z).

Definition KEY : option string :=
  first_branch ((λ '(x, k), (defined e x, Some k)) <$>
    [("__i386", "__i386"); ("__x86_64", "__x86_64"); ("__PPC64__", "__PPC64__");
     ("__ppc64__", "__ppc64__"); ("__PPC__", "__PPC__"); ("__ppc__", "__ppc__");
     ("__aarch64__", "__aarch64__"); ("__ARM_ARCH_7A__", "__ARM_ARCH_7A__");
     ("__ARM_ARCH_7S__", "__ARM_ARCH_7S__")]) None.

Definition size_digits (size : Z) : list Z :=
  [48 + Z.rem (Z.quot size 10000) 10;
   48 + Z.rem (Z.quot size 1000) 10;
   48 + Z.rem (Z.quot size 100) 10;
   48 + Z.rem (Z.quot size 10) 10;
   48 + Z.rem size 10].

Definition info_size : option (list Z) :=
  (λ size,
    chars "INFO:size[" ++ size_digits size ++ chars "]"
    ++ match KEY with Some k => chars " key[" ++ chars k ++ chars "]" | None => [] end ++ [0])
  <$> sizeof_off64_t.

Definition size_main (argc : nat) : option Z := a ← info_size; require argc [a].
End program.

(** A size below 10^5 is read back from the digits. *)
Lemma size_digits_read n : 0 <= n < 10 ^ 5 → undigits 10 (size_digits n) = n.
Proof.
  intros Hn. unfold undigits, size_digits. cbn [foldl].
  pose proof (quot_step n 1 10 ltac:(lia) ltac:(lia) eq_refl).
  pose proof (quot_step n 10 100 ltac:(lia) ltac:(lia) eq_refl).
  pose proof (quot_step n 100 1000 ltac:(lia) ltac:(lia) eq_refl).
  pose proof (quot_step n 1000 10000 ltac:(lia) ltac:(lia) eq_refl).
  pose proof (quot_step n 10000 100000 ltac:(lia) ltac:(lia) eq_refl).
  assert (Hz : Z.quot n 100000 = 0) by (apply Z.quot_small; lia).
  rewrite Z.quot_1_r in *. rewrite Hz in *. clear Hz Hn.
  abstract_terms Z.rem. abstract_terms Z.quot. lia.
Qed.

(** Where the type exists, [main] reads inside the array. *)
Lemma size_main_bounds e n argc : (argc < 17)%nat → is_Some (size_main e (Some n) argc).
Proof.
  intros H. unfold size_main, info_size. cbn [fmap option_fmap option_map mbind option_bind].
  apply require_total, Forall_singleton. rewrite !length_app. simpl. lia.
Qed.

Example off64_t_on_linux :
  info_size {["__x86_64" := MInt 1]} (Some 8) = Some (chars "INFO:size[00008] key[__x86_64]" ++ [0]).
Proof. vm_compute. done. Qed.
