(* ===== verification/Probes.v ===== *)
(** * The probes for headers of the client's build tree

    [client/build/CMakeFiles/CheckIncludeFiles/]: 37 programs that CMake wrote
    to find out which headers the machine has, and left there.  Each includes a
    header, some after others that it needs, and returns 0.  What was found is
    in [_deps/grpc-build/third_party/cares/cares/ares_config.h]: the macro named
    like the probe is defined there or not. *)

From S2P Require Import Prelude.
From stdpp Require Import base gmap strings list.
#[local] Open Scope Z_scope.

(** A program without declarations: what it includes, in order, and what [main]
    returns. *)
Record CProgram : Type := mkCProgram { includes : list string; main : Z }.

Definition include_check (headers : list string) : CProgram := mkCProgram headers 0.

Definition HAVE_ARPA_INET_H : CProgram := include_check ["arpa/inet.h"].
Definition HAVE_ARPA_NAMESER_COMPAT_H : CProgram := include_check ["arpa/nameser_compat.h"].
Definition HAVE_ARPA_NAMESER_H : CProgram := include_check ["arpa/nameser.h"].
Definition HAVE_ASSERT_H : CProgram := include_check ["assert.h"].
Definition HAVE_DLFCN_H : CProgram := include_check ["dlfcn.h"].
Definition HAVE_ERRNO_H : CProgram := include_check ["errno.h"].
Definition HAVE_FCNTL_H : CProgram := include_check ["fcntl.h"].
Definition HAVE_INTTYPES_H : CProgram := include_check ["inttypes.h"].
Definition HAVE_LIMITS_H : CProgram := include_check ["limits.h"].
Definition HAVE_MALLOC_H : CProgram := include_check ["malloc.h"].
Definition HAVE_MEMORY_H : CProgram := include_check ["memory.h"].
Definition HAVE_NETDB_H : CProgram := include_check ["netdb.h"].
Definition HAVE_NETINET_IN_H : CProgram := include_check ["netinet/in.h"].
Definition HAVE_NETINET_TCP_H : CProgram := include_check ["sys/types.h"; "netinet/tcp.h"].
Definition HAVE_NET_IF_H : CProgram := include_check ["net/if.h"].
Definition HAVE_SIGNAL_H : CProgram := include_check ["signal.h"].
Definition HAVE_SOCKET_H : CProgram := include_check ["socket.h"].
Definition HAVE_STDBOOL_H : CProgram := include_check ["stdbool.h"].
Definition HAVE_STDINT_H : CProgram := include_check ["stdint.h"].
Definition HAVE_STDLIB_H : CProgram := include_check ["stdlib.h"].
Definition HAVE_STRINGS_H : CProgram := include_check ["strings.h"].
Definition HAVE_STRING_H : CProgram := include_check ["string.h"].
Definition HAVE_STROPTS_H : CProgram := include_check ["stropts.h"].
Definition HAVE_SYS_IOCTL_H : CProgram := include_check ["sys/ioctl.h"].
Definition HAVE_SYS_PARAM_H : CProgram := include_check ["sys/param.h"].
Definition HAVE_SYS_SELECT_H : CProgram := include_check ["sys/select.h"].
Definition HAVE_SYS_SOCKET_H : CProgram := include_check ["sys/socket.h"].
Definition HAVE_SYS_STAT_H : CProgram := include_check ["sys/stat.h"].
Definition HAVE_SYS_TIME_H : CProgram := include_check ["sys/time.h"].
Definition HAVE_SYS_TYPES_H : CProgram := include_check ["sys/types.h"].
Definition HAVE_SYS_UIO_H : CProgram := include_check ["sys/uio.h"].
Definition HAVE_TIME_H : CProgram := include_check ["time.h"].
Definition HAVE_UNISTD_H : CProgram := include_check ["unistd.h"].
Definition HAVE_WINDOWS_H : CProgram := include_check ["windows.h"].
Definition HAVE_WINSOCK2_H : CProgram := include_check ["winsock2.h"; "windows.h"].
Definition HAVE_WINSOCK_H : CProgram := include_check ["winsock.h"; "windows.h"].
Definition HAVE_WS2TCPIP_H : CProgram := include_check ["winsock2.h"; "ws2tcpip.h"; "windows.h"].

(** Every probe, by the name of its result. *)
Definition probes : list (string * CProgram) :=
  [
   ("HAVE_ARPA_INET_H", HAVE_ARPA_INET_H);
   ("HAVE_ARPA_NAMESER_COMPAT_H", HAVE_ARPA_NAMESER_COMPAT_H);
   ("HAVE_ARPA_NAMESER_H", HAVE_ARPA_NAMESER_H); ("HAVE_ASSERT_H", HAVE_ASSERT_H);
   ("HAVE_DLFCN_H", HAVE_DLFCN_H); ("HAVE_ERRNO_H", HAVE_ERRNO_H);
   ("HAVE_FCNTL_H", HAVE_FCNTL_H); ("HAVE_INTTYPES_H", HAVE_INTTYPES_H);
   ("HAVE_LIMITS_H", HAVE_LIMITS_H); ("HAVE_MALLOC_H", HAVE_MALLOC_H);
   ("HAVE_MEMORY_H", HAVE_MEMORY_H); ("HAVE_NETDB_H", HAVE_NETDB_H);
   ("HAVE_NETINET_IN_H", HAVE_NETINET_IN_H); ("HAVE_NETINET_TCP_H", HAVE_NETINET_TCP_H);
   ("HAVE_NET_IF_H", HAVE_NET_IF_H); ("HAVE_SIGNAL_H", HAVE_SIGNAL_H);
   ("HAVE_SOCKET_H", HAVE_SOCKET_H); ("HAVE_STDBOOL_H", HAVE_STDBOOL_H);
   ("HAVE_STDINT_H", HAVE_STDINT_H); ("HAVE_STDLIB_H", HAVE_STDLIB_H);
   ("HAVE_STRINGS_H", HAVE_STRINGS_H); ("HAVE_STRING_H", HAVE_STRING_H);
   ("HAVE_STROPTS_H", HAVE_STROPTS_H); ("HAVE_SYS_IOCTL_H", HAVE_SYS_IOCTL_H);
   ("HAVE_SYS_PARAM_H", HAVE_SYS_PARAM_H); ("HAVE_SYS_SELECT_H", HAVE_SYS_SELECT_H);
   ("HAVE_SYS_SOCKET_H", HAVE_SYS_SOCKET_H); ("HAVE_SYS_STAT_H", HAVE_SYS_STAT_H);
   ("HAVE_SYS_TIME_H", HAVE_SYS_TIME_H); ("HAVE_SYS_TYPES_H", HAVE_SYS_TYPES_H);
   ("HAVE_SYS_UIO_H", HAVE_SYS_UIO_H); ("HAVE_TIME_H", HAVE_TIME_H);
   ("HAVE_UNISTD_H", HAVE_UNISTD_H); ("HAVE_WINDOWS_H", HAVE_WINDOWS_H);
   ("HAVE_WINSOCK2_H", HAVE_WINSOCK2_H); ("HAVE_WINSOCK_H", HAVE_WINSOCK_H);
   ("HAVE_WS2TCPIP_H", HAVE_WS2TCPIP_H)].

(** With an include path that holds some headers, a program compiles if it holds
    all that it includes; it then runs and answers. *)
Definition outcome_of (path : gset string) (p : CProgram) : option Z :=
  if forallb (λ h, bool_decide (h ∈ path)) (includes p) then Some (main p) else None.

(** [check_include_files]: the result is true when the probe compiles. *)
Definition check (path : gset string) : list string :=
  (λ r, fst r) <$> filter (λ r, is_Some (outcome_of path r.2)) probes.

(** The macros of [ares_config.h] that are defined. *)
Definition ares_config : list string :=
  [
   "HAVE_ARPA_INET_H"; "HAVE_ARPA_NAMESER_COMPAT_H"; "HAVE_ARPA_NAMESER_H"; "HAVE_ASSERT_H";
   "HAVE_DLFCN_H"; "HAVE_ERRNO_H"; "HAVE_FCNTL_H"; "HAVE_INTTYPES_H"; "HAVE_LIMITS_H";
   "HAVE_MEMORY_H"; "HAVE_NETDB_H"; "HAVE_NETINET_IN_H"; "HAVE_NETINET_TCP_H"; "HAVE_NET_IF_H";
   "HAVE_SIGNAL_H"; "HAVE_STDBOOL_H"; "HAVE_STDINT_H"; "HAVE_STDLIB_H"; "HAVE_STRINGS_H";
   "HAVE_STRING_H"; "HAVE_SYS_IOCTL_H"; "HAVE_SYS_PARAM_H"; "HAVE_SYS_SELECT_H";
   "HAVE_SYS_SOCKET_H"; "HAVE_SYS_STAT_H"; "HAVE_SYS_TIME_H"; "HAVE_SYS_TYPES_H";
   "HAVE_SYS_UIO_H"; "HAVE_TIME_H"; "HAVE_UNISTD_H"].

Section probes.
Implicit Types path : gset string.

Lemma outcome_of_spec path p :
  is_Some (outcome_of path p) ↔ Forall (λ h, h ∈ path) (includes p).
Proof.
  unfold outcome_of. induction (includes p) as [|h l IH]; simpl; [naive_solver|].
  rewrite Forall_cons. case_bool_decide; simpl; [naive_solver|].
  split; [by intros []|naive_solver].
Qed.

Lemma elem_of_check path x :
  x ∈ check path ↔ ∃ p, (x, p) ∈ probes ∧ Forall (λ h, h ∈ path) (includes p).
Proof.
  unfold check. rewrite list_elem_of_fmap. split.
  - intros ([n p] & -> & [Hp Hin]%list_elem_of_filter). exists p. split; [done|].
    by apply outcome_of_spec.
  - intros (p & Hin & Hp). exists (x, p). split; [done|]. apply list_elem_of_filter.
    split; [by apply outcome_of_spec|done].
Qed.

(** More headers never make a probe fail. *)
Lemma check_mono path path' x : path ⊆ path' → x ∈ check path → x ∈ check path'.
Proof.
  intros Hsub. rewrite !elem_of_check. intros (p & Hin & Hp). exists p. split; [done|].
  eapply Forall_impl; [exact Hp|]. intros h. apply Hsub.
Qed.

Lemma probe_unique x p q : (x, p) ∈ probes → (x, q) ∈ probes → p = q.
Proof.
  assert (Hnd : NoDup probes.*1) by (apply (bool_decide_eq_true_1 _); vm_compute; reflexivity).
  intros [i Hi]%list_elem_of_lookup [j Hj]%list_elem_of_lookup.
  assert (i = j) as ->; [|congruence].
  apply (NoDup_lookup _ _ _ x Hnd); rewrite list_lookup_fmap; [by rewrite Hi|by rewrite Hj].
Qed.

(** The headers of the probes whose macro is defined, and four others. *)
Definition machine : gset string := list_to_set (mjoin (
  (λ r, includes r.2) <$> filter (λ r, r.1 ∈ ares_config) probes)).
Definition absent : list string := ["malloc.h"; "socket.h"; "stropts.h"; "windows.h"].

Lemma probes_by_config :
  Forall (λ r, (r.1 ∈ ares_config ∧ Forall (λ h, h ∈ machine) (includes r.2))
               ∨ (¬ r.1 ∈ ares_config ∧ Exists (λ h, h ∈ absent) (includes r.2))) probes.
Proof. apply (bool_decide_eq_true_1 _). vm_compute. reflexivity. Qed.

(** Every header of the four has a probe of its own, which failed. *)
Lemma absent_probed :
  Forall (λ h, Exists (λ r, includes r.2 = [h] ∧ ¬ r.1 ∈ ares_config) probes) absent.
Proof. apply (bool_decide_eq_true_1 _). vm_compute. reflexivity. Qed.

Lemma filter_Forall_ext {A} (P Q : A → Prop) `{∀ x, Decision (P x), ∀ x, Decision (Q x)} l :
  Forall (λ x, P x ↔ Q x) l → filter P l = filter Q l.
Proof.
  induction 1 as [|x l Hx _ IH]; [done|]. rewrite !filter_cons, IH.
  destruct (decide (P x)), (decide (Q x)); naive_solver.
Qed.

(** A machine on which the probes give the macros of [ares_config.h] is one that
    has every header of the probes that passed, and has no malloc.h, socket.h,
    stropts.h or windows.h. *)
Lemma probes_explain_config path :
  check path = ares_config ↔ machine ⊆ path ∧ Forall (λ h, h ∉ path) absent.
Proof.
  split.
  - intros Hc. split.
    + intros h Hh. unfold machine in Hh. rewrite elem_of_list_to_set in Hh.
      apply list_elem_of_join in Hh as (l & Hh & Hl).
      apply list_elem_of_fmap in Hl as ([x p] & -> & [Hx Hin]%list_elem_of_filter). simpl in *.
      rewrite <-Hc in Hx. apply elem_of_check in Hx as (q & Hq & Hall).
      rewrite (probe_unique _ _ _ Hin Hq) in Hh. by eapply Forall_forall in Hall.
    + eapply Forall_impl; [exact absent_probed|]. intros h ([x p] & Hin & Hp & Hx)%Exists_exists Hh.
      simpl in *. apply Hx. rewrite <-Hc. apply elem_of_check. exists p. split; [done|].
      rewrite Hp. by apply Forall_singleton.
  - intros [Hm Ha]. assert (E : check machine = ares_config) by (vm_compute; reflexivity).
    rewrite <-E. unfold check. f_equal. apply filter_Forall_ext.
    eapply Forall_impl; [exact probes_by_config|]. intros [x p]; simpl.
    rewrite !outcome_of_spec. intros [[_ Hall]|[Hx Hex]].
    + split; [done|]. intros _. eapply Forall_impl; [exact Hall|]. intros h. apply Hm.
    + apply Exists_exists in Hex as (h & Hh & Hin).
      assert (Hn : Forall (λ h, h ∉ machine) absent)
        by (apply (bool_decide_eq_true_1 _); vm_compute; reflexivity).
      rewrite Forall_forall in Ha, Hn. split; intros Hall; rewrite Forall_forall in Hall.
      * by destruct (Ha h Hin); apply Hall.
      * by destruct (Hn h Hin); apply Hall.
Qed.
End probes.
